(* ===== verification/_CoqProject ===== *)
-Q . S2P
Prelude.v
Pools.v
Sql.v
Schema.v
Statements.v
Chunks.v
Frames.v
Runs.v
Deletions.v
Objects.v
Nodes.v
Repair.v
Gc.v
Reconcile.v
Multipart.v
Store.v
Trim.v
Enqueue.v
Purge.v
Listing.v
QueueInv.v
Commit.v
ChunkInv.v
CompleteInv.v
Reads.v
RepairQueue.v
RepairOps.v
ReconcileOps.v
Leases.v
Uploads.v
Visibility.v
Assembly.v
Health.v
Chunking.v
GoStrings.v
RangeReq.v
GoFloat.v
Rounding.v
Placement.v
Retry.v
Rendezvous.v
Checksum.v
Migrate.v
Download.v
ChunkStore.v
StorageService.v
ChunkWriter.v
Validate.v
Metrics.v
GoParse.v
Config.v
Mux.v
Uuid.v
Cache.v
Coordinator.v
Workers.v
Reconciler.v
Refinement.v
Namespace.v
Staleness.v
Samples.v
Roster.v
RepairExec.v
Races.v
Gateway.v
Lifecycle.v
Admin.v
Router.v
UploadFiles.v
UploadDb.v
ReconcileExec.v
PutGet.v
Http.v
Quarantine.v
Registrar.v
Wire.v
Retries.v
Startup.v
Processes.v
