(* ===== verification/Prelude.v ===== *)
(** * FlexStore: a verification library for the object store under src/

    FlexStore is a replicated object store. A gateway splits an object into
    chunks and streams them to storage nodes, a coordinator places the chunks
    and keeps the metadata in PostgreSQL, and background workers of the
    coordinator repair, reconcile and collect. This library models these
    programs and proves what makes them correct.

    ** How the model reads

    A Go function that returns a value and an error becomes a function into
    [result]; a struct becomes a record with the field names prefixed; an enum
    becomes an inductive type. Integers are [Z] with [int64] and [int32] written
    where Go wraps. State is passed explicitly through small monads:

    - [Tx] and [Op] (Sql.v): a statement, and a store method that is one
      transaction; an error rolls back. The state is [db] (Schema.v), one finite
      map per table.
    - [Sv] (Coordinator.v): a step of the coordinator's service, whose record
      [Service] holds the database, the cache, the health monitor, the placer and
      the repairs in flight. [Rpc] is a step that answers or fails with a gRPC
      code. [env] gives a request its clocks, its fresh identifier, and whether
      Redis answers.
    - [Wd] (Workers.v): a step of the whole system, the record [World] of the
      service and the storage nodes by address.
    - [Cfg] (Config.v): reading settings while collecting errors.
    - [Main] (Processes.v): the run function of a program, with the log of what
      it acquires, releases, starts and stops, and its deferred releases.

    Where goroutines interleave inside one component (Pools.v, Lifecycle.v) its
    critical sections are the steps of a relation, and the theorems are about
    the states it reaches.

    What the environment does is an argument: which system calls of a node fail
    ([faults]), what happens to a call between processes ([fate], [link],
    [attempt], [transport]), in which order goroutines finish, what other
    processes do in between. The theorems quantify over all of it.

    Code that is not in the repository is a class with its documented behaviour
    as laws and a concrete instance for the witnesses: PostgreSQL's row order and
    collation ([Postgres]), math.Log and conversions that overflow ([GoMath]),
    sort.Slice ([GoSort]), the order of map iteration ([GoRange]),
    filepath.WalkDir ([FileWalk]), google/uuid ([Uuid]), case mapping beyond
    ASCII ([GoUnicode]), which metadata gRPC sends ([GrpcMetadata]), what a
    registry of metrics refuses ([Prometheus]). SHA-256 (Checksum.v) and binary64
    arithmetic (GoFloat.v) are computed, and so are the parts of the
    standard library the code leans on: strconv and time (GoParse.v), net/url and
    the matching of http.ServeMux (Mux.v). So the examples run.

    ** Files

    Prelude.v: results, record update, tables as finite maps, counting, machine
    integers. Samples.v: one small cluster that the witnesses of the theorems
    about the whole system run.

    Metadata store (src/internal/metadata, src/migrations). Sql.v: statements and
    transactions. Schema.v: rows, checks, unique indexes, foreign keys, the
    counter trigger, [schema_ok]. Statements.v: the statement forms and that they
    keep [schema_ok]. Chunks.v, Objects.v, Nodes.v, Repair.v, Gc.v, Reconcile.v,
    Multipart.v: the methods of the Go files of these names. Store.v: the store as
    a state machine, one constructor of [call] per method. Frames.v, Runs.v and
    Deletions.v: shared lemmas, by statement, on which tables an operation leaves
    alone, on statements that cannot fail, and on queueing deletions. Migrate.v:
    the runner of the migrations.

    Theorems about the store: Store.v, CompleteInv.v, ChunkInv.v, QueueInv.v and
    Leases.v (invariants of reachable states), Commit.v, Uploads.v, Visibility.v,
    Assembly.v, Reads.v, Listing.v (the life of an object), Enqueue.v,
    RepairQueue.v, RepairOps.v, Trim.v, Purge.v, ReconcileOps.v (maintenance).

    Gateway (src/internal/gateway, chunking, checksum, retry, apierr).
    Chunking.v: the splitter. GoStrings.v, RangeReq.v: Range headers. Checksum.v:
    SHA-256. Retry.v: bounded retries and their delays, on the bounds of rounding
    in Rounding.v. ChunkWriter.v: the fan-out of a chunk. Download.v: fetching with
    fail-over, and the body of a GET. Gateway.v: the coordinator client with its
    retries, and the handlers of PUT, GET, HEAD, DELETE and multipart uploads.
    Retries.v: the retries of the client and of the registrar are those of Retry.v.
    Admin.v: the listing and the admin pages. Router.v: the route table on Mux.v,
    the fallbacks, the body limit, the middleware, and their chain [serve_http].
    Wire.v: the response recorder, the interceptors and the messages on the wire.
    Pools.v: the connection pool (src/internal/nodeclient), the buffer pool
    (bufpool) and the lock of the cache.

    Storage node (src/internal/storage). ChunkStore.v: files, crash points, usage
    counters, start-up, inventory. StorageService.v: the gRPC handlers.
    Registrar.v: registration and heartbeats.

    Coordinator (src/internal/coordinator, health, placement, cache). Health.v:
    the monitor. GoFloat.v, Placement.v, Rendezvous.v: choosing nodes. Validate.v:
    names. Uuid.v: identifiers as text. Cache.v: the cache and what is kept in it.
    Coordinator.v: the RPC handlers. Workers.v: garbage collection, health, audit
    and repair. Reconciler.v: reconciliation. Roster.v: the nodes placement sees.

    Processes (src/cmd, src/internal/config, runtime, observability). Config.v:
    the loaders of the three services. Startup.v: from the settings to the
    running coordinator, and the loops of its workers. Lifecycle.v: the group of
    tasks, readiness, request identifiers. Metrics.v: the families of metrics and
    the labels every call site passes. Processes.v: the run functions of the three
    programs, from the first connection to the exit status.

    Theorems about the composed system: Refinement.v, Namespace.v, Staleness.v,
    RepairExec.v, ReconcileExec.v, Races.v, PutGet.v with UploadFiles.v and
    UploadDb.v, which follow an upload on the nodes and in the tables, Http.v,
    which puts the server in front of it, and Quarantine.v, which follows a
    corruption report.

    ** What is proved

    - End to end (PutGet.v): every PUT is answered, and after a 201 every GET,
      ranged or not, returns the stored bytes or a prefix of them, under any
      faults of the upload and of earlier downloads. The cache must have got the
      invalidation of the commit, or have nothing of the object; and that a GET
      without faults completes needs a cached roster that agreed with the database
      when the upload began. Http.v says the same of requests by path through the
      whole server, after any GETs and their corruption reports, including bodies
      that are cut off or too long.
    - Refinement (Refinement.v): a run of any requests and worker cycles is a
      trace of store methods; so the store's invariants hold of the system.
      Namespace.v is the client's view of it: the system is a map from names to
      objects on which only answered uploads and deletions act, also those that
      are served while a reconciliation waits. Staleness.v bounds what the cache
      can add when its time to live is positive: an answer is the store's, or the
      one it gave to a read of the same name less than that time ago.
    - Invariants of the store: constraints and counters, no COMPLETE object with
      a hole, every DELETING replica queued, every RUNNING job under a lease.
    - Behaviour of each operation on every branch, errors included: commit,
      publish, supersede, assemble, list, claim, enqueue, trim, purge, promote,
      corruption reports, dead nodes.
    - Data safety at the nodes: a chunk is on disk whole and verified or not at
      all, at every crash point; what is acknowledged can be read; identifiers
      cannot leave the data directory.
    - A repair, from the claim of its job to the end, registers only copies with
      the recorded digest on nodes that had none, and drops rows only of nodes
      without the file; reconciliation ends, promotes only verified copies if
      told to verify, and leaves no replica of the node STALE.
    - Reads never deliver a wrong byte; fail-over is complete; ranges select
      exactly the requested bytes; splitting loses nothing and ends.
    - Placement returns distinct eligible nodes whenever there are enough, and
      rendezvous placement moves only the replicas of a node that leaves.
    - The edges of the system: every valid name has its route and every error its
      code, and every request is answered; the health page is true of the data; a
      corrupt copy that is read is withdrawn; a heartbeat that arrives puts the
      node into the roster; migrations run once; the coordinator starts on exactly
      the sound configurations with positive intervals, and its worker loops keep
      the store's invariants; the three programs release all they acquire, on
      every way out but the panic of a ticker, which needs an interval that is not
      positive; the pool has one connection per address and the lock one owner.
    - Retries (Retry.v): attempts and the sum of their delays are bounded for
      every draw of the jitter, only errors that may pass are retried, and the
      result is one of the documented ones.
    - Typing of labels (Metrics.v): the registration succeeds, every call in the
      table of the call sites fits the labels of its family, so it does not panic,
      and every family is fed. Router.v and Wire.v tie the calls of the middleware
      and of the interceptors to the requests; the other entries stand by
      themselves, with the branch as an argument.
    - Some theorems state behaviour the code does not intend; their comments say
      what: Races.v, RepairExec.v (a rotten source), RepairOps.v (two), ChunkStore.v
      (usage counters), Listing.v (prefix), Router.v (time series), Http.v (the
      code of a body that is too long), Commit.v (a failed commit records nothing).

    ** Bounds and fuel

    Loops that are not structural take fuel and return [None] when it runs out.
    The upload loop gets one more than the bytes of the body, since a chunk is
    never empty, so that the whole server is total; the copy of a stream one more
    than its bytes; the pages of a reconciliation two more than the chunks of the
    database, since the cursor passes one with every full page. Each is proved to
    be enough. Lengths are assumed below 2^63, and an upload has at most 2^31 - 1
    chunks, because the chunk index is an int32. The loops of workers and of the
    registrar run for a list of rounds, of any length; retries are bounded by the
    code.

    ** Not modelled

    - Concurrency inside PostgreSQL: transactions are atomic and run one after
      the other. Workers and handlers interleave between store calls only where
      an argument says so (the nodes change between any two actions, other
      processes act during a reconciliation); the end-to-end theorem has no
      concurrent write to the same key.
    - Connection errors of the database, gaps in sequences, integer ranges of
      columns, and any order of rows a query does not fix beyond the arbitrary
      one of [Postgres].
    - Page cache and power loss: a file holds what was written to it.
    - Reuse of buffers in the handlers: values are fresh. The pools are modelled
      on their own (Pools.v).
    - JSON in the cache and in responses is kept decoded, and the texts of errors
      are values; taking the lock is an outcome given to the handler.
    - Deadlines, and what a clock does within a request, which reads it once.
      net/http cancelling the context of a request whose connection breaks is a
      hypothesis of the theorem that needs it.
    - Values of metrics other than the request counter and the gauges of the stats
      worker, the page that shows them, loggers and the text of log lines, the
      HTML of the dashboard.
    - Dialling, and the options of gRPC servers, clients and of the connection
      pool of the database, which only configure libraries; the system calls
      behind a listener or a signal are events of Processes.v.
    - Code that is not part of the running system: indexes that only speed up
      queries, generated protobuf code, benchmarks and tests. *)

From stdpp Require Import gmap strings list fin_maps sorting.

(** ** Results

    A Go function returning a value and an error becomes a function into
    [result]: [Err] for a non-nil error, [Ok] otherwise. *)

Inductive result (E A : Type) :=
| Ok (a : A)
| Err (e : E).
Arguments Ok {E A} a.
Arguments Err {E A} e.

Definition is_ok {E A} (r : result E A) : bool :=
  match r with Ok _ => true | Err _ => false end.

(** ** Record update

    [r <| p := v |>] is [r] with field [p] set to [v].  A record opts in by
    giving its eta expansion as an instance of [Eta]. *)

Class Eta (R : Type) := eta : R -> R.
Class Upd {R A : Type} (p : R -> A) := upd : (A -> A) -> R -> R.
Arguments upd {R A} p {_} _ _ : assert.

Ltac solve_upd :=
  match goal with
  | |- @Upd ?R ?A ?p =>
      let e := eval hnf in (@eta R _) in
      match eval pattern p in e with
      | ?h _ =>
          let t := eval cbv beta in (fun (g : A -> A) => h (fun r => g (p r))) in
          exact t
      end
  end.
#[export] Hint Extern 0 (Upd _) => solve_upd : typeclass_instances.

Declare Scope flex_scope.
Delimit Scope flex_scope with flex.
Notation "r <| p := v |>" := (upd p (fun _ => v) r)
  (at level 1, left associativity, p at level 10) : flex_scope.
Notation "r <| p ::= f |>" := (upd p f r)
  (at level 1, left associativity, p at level 10) : flex_scope.
Open Scope flex_scope.

(** Decidability of a row predicate given as a two-argument function: reduce
    before the instance search looks at the head symbol. *)
#[export] Hint Extern 0 (Decision _) => progress cbv beta : typeclass_instances.

(** ** Tables

    A database table is a finite map from primary key to row.  The two
    combinators below are the meaning of UPDATE ... WHERE and
    DELETE ... WHERE. *)

Section tables.
Context {K V : Type} `{Countable K}.

Definition update_where (P : K -> V -> Prop) `{!forall k v, Decision (P k v)}
    (f : V -> V) (m : gmap K V) : gmap K V :=
  map_imap (fun k v => Some (if decide (P k v) then f v else v)) m.

Definition delete_where (P : K -> V -> Prop) `{!forall k v, Decision (P k v)}
    (m : gmap K V) : gmap K V :=
  filter (fun kv => ~ P kv.1 kv.2) m.

Definition rows_where (P : K -> V -> Prop) `{!forall k v, Decision (P k v)}
    (m : gmap K V) : list (K * V) :=
  map_to_list (filter (fun kv => P kv.1 kv.2) m).

Definition count_where (P : K -> V -> Prop) `{!forall k v, Decision (P k v)}
    (m : gmap K V) : Z :=
  Z.of_nat (size (filter (fun kv => P kv.1 kv.2) m)).
End tables.

Section table_lemmas.
Context {K V : Type} `{Countable K}.
Implicit Types (m : gmap K V) (k : K) (v w : V).
Context (P : K -> V -> Prop) `{!forall k v, Decision (P k v)}.

Lemma lookup_update_where f m k :
  update_where P f m !! k = (fun v => if decide (P k v) then f v else v) <$> m !! k.
Proof.
  unfold update_where. rewrite map_lookup_imap.
  by destruct (m !! k).
Qed.

Lemma lookup_update_where_Some f m k w :
  update_where P f m !! k = Some w <->
  exists v, m !! k = Some v /\ w = (if decide (P k v) then f v else v).
Proof.
  rewrite lookup_update_where, fmap_Some. naive_solver.
Qed.

Lemma update_where_is_Some f m k :
  is_Some (update_where P f m !! k) <-> is_Some (m !! k).
Proof. rewrite lookup_update_where. apply fmap_is_Some. Qed.

Lemma update_where_None f m k :
  update_where P f m !! k = None <-> m !! k = None.
Proof. rewrite lookup_update_where. apply fmap_None. Qed.

Lemma lookup_delete_where_Some m k v :
  delete_where P m !! k = Some v <-> m !! k = Some v /\ ~ P k v.
Proof. unfold delete_where. by rewrite map_lookup_filter_Some. Qed.

Lemma elem_of_rows_where m k v :
  (k, v) ∈ rows_where P m <-> m !! k = Some v /\ P k v.
Proof.
  unfold rows_where. rewrite elem_of_map_to_list.
  by rewrite map_lookup_filter_Some.
Qed.

Lemma NoDup_rows_where m : NoDup (rows_where P m).*1.
Proof. apply NoDup_fst_map_to_list. Qed.

Lemma length_rows_where m : Z.of_nat (length (rows_where P m)) = count_where P m.
Proof. unfold rows_where, count_where. by rewrite length_map_to_list. Qed.

(** Counting rows is monotone in the set of keys that satisfy the predicate. *)
Lemma count_where_nonneg m : (0 <= count_where P m)%Z.
Proof. unfold count_where. lia. Qed.

Lemma count_where_empty : count_where P (∅ : gmap K V) = 0%Z.
Proof. unfold count_where. by rewrite map_filter_empty, map_size_empty. Qed.

Lemma count_where_delete m k :
  count_where P (delete k m) =
  (count_where P m -
   match m !! k with Some v => if decide (P k v) then 1 else 0 | None => 0 end)%Z.
Proof.
  unfold count_where. rewrite map_filter_delete, map_size_delete.
  destruct (m !! k) as [v|] eqn:Hk.
  - destruct (decide (P k v)) as [HP|HP].
    + assert (filter (fun kv => P kv.1 kv.2) m !! k = Some v) as Hf
        by by apply map_lookup_filter_Some.
      rewrite Hf.
      assert (size (filter (fun kv => P kv.1 kv.2) m) <> 0); [|lia].
      intros Hz. apply map_size_empty_inv in Hz. rewrite Hz in Hf. done.
    + assert (filter (fun kv => P kv.1 kv.2) m !! k = None) as ->; [|simpl; lia].
      apply map_lookup_filter_None. right. naive_solver.
  - assert (filter (fun kv => P kv.1 kv.2) m !! k = None) as ->; [|simpl; lia].
    apply map_lookup_filter_None. by left.
Qed.

Lemma count_where_insert_new m k v :
  m !! k = None ->
  count_where P (<[k:=v]> m) = (count_where P m + if decide (P k v) then 1 else 0)%Z.
Proof.
  intros Hk. unfold count_where. destruct (decide (P k v)).
  - rewrite map_filter_insert_True by done.
    rewrite map_size_insert_None; [lia|].
    apply map_lookup_filter_None. by left.
  - rewrite map_filter_insert_not' by naive_solver. lia.
Qed.

Lemma count_where_insert m k v :
  count_where P (<[k:=v]> m) =
  (count_where P m
   - match m !! k with Some w => if decide (P k w) then 1 else 0 | None => 0 end
   + if decide (P k v) then 1 else 0)%Z.
Proof.
  rewrite <-insert_delete_eq, count_where_insert_new by apply lookup_delete_eq.
  by rewrite count_where_delete.
Qed.

Lemma count_where_pos m :
  (0 < count_where P m)%Z <-> exists k v, m !! k = Some v /\ P k v.
Proof.
  unfold count_where. split.
  - intros Hpos. destruct (map_choose (filter (fun kv => P kv.1 kv.2) m)) as (k&v&Hkv).
    + intros He. rewrite He, map_size_empty in Hpos. lia.
    + apply map_lookup_filter_Some in Hkv. eauto.
  - intros (k&v&Hk&HP).
    assert (filter (fun kv => P kv.1 kv.2) m !! k = Some v) as Hf
      by by apply map_lookup_filter_Some.
    destruct (size (filter (fun kv => P kv.1 kv.2) m)) eqn:Hz; [|lia].
    apply map_size_empty_inv in Hz. by rewrite Hz in Hf.
Qed.

Lemma count_where_zero m :
  count_where P m = 0%Z <-> forall k v, m !! k = Some v -> ~ P k v.
Proof.
  pose proof (count_where_nonneg m). pose proof (count_where_pos m) as Hp. split.
  - intros Hz k v Hk HP. assert (0 < count_where P m)%Z by (apply Hp; eauto). lia.
  - intros Hn. destruct (decide (0 < count_where P m)%Z) as [Hlt|]; [|lia].
    apply Hp in Hlt as (k&v&Hk&HP). by destruct (Hn k v Hk).
Qed.
End table_lemmas.

Section count_compare.
Context {K V W : Type} `{Countable K}.
Context (P : K -> V -> Prop) `{!forall k v, Decision (P k v)}.
Context (Q : K -> W -> Prop) `{!forall k v, Decision (Q k v)}.

Lemma count_where_le (m1 : gmap K V) (m2 : gmap K W) :
  (forall k v, m1 !! k = Some v -> P k v -> exists w, m2 !! k = Some w /\ Q k w) ->
  (count_where P m1 <= count_where Q m2)%Z.
Proof.
  intros Hsub. unfold count_where.
  rewrite <-!(size_dom (D:=gset K)).
  apply inj_le, subseteq_size. intros k.
  rewrite !elem_of_dom. intros [v Hv].
  apply map_lookup_filter_Some in Hv as [Hv HP].
  destruct (Hsub k v Hv HP) as (w&Hw&HQ).
  exists w. by apply map_lookup_filter_Some.
Qed.
End count_compare.

Lemma count_where_ext {K V W} `{Countable K}
    (P : K -> V -> Prop) `{!forall k v, Decision (P k v)}
    (Q : K -> W -> Prop) `{!forall k v, Decision (Q k v)}
    (m1 : gmap K V) (m2 : gmap K W) :
  (forall k, (exists v, m1 !! k = Some v /\ P k v) <-> (exists w, m2 !! k = Some w /\ Q k w)) ->
  count_where P m1 = count_where Q m2.
Proof.
  intros Hiff. apply Z.le_antisymm; apply count_where_le; intros k v Hk HP; apply Hiff; eauto.
Qed.

(** If as many rows satisfy [P] as satisfy [P] and [Q], then [P] implies [Q]. *)
Lemma count_where_all {K V} `{Countable K}
    (P Q : K -> V -> Prop) `{!forall k v, Decision (P k v)} `{!forall k v, Decision (Q k v)}
    (m : gmap K V) k v :
  count_where P m = count_where (fun k v => P k v /\ Q k v) m ->
  m !! k = Some v -> P k v -> Q k v.
Proof.
  intros Heq Hk HP. destruct (decide (Q k v)) as [|HQ]; [done|].
  pose proof (count_where_delete P m k) as D1.
  pose proof (count_where_delete (fun k v => P k v /\ Q k v) m k) as D2.
  rewrite Hk in D1, D2. rewrite decide_True in D1 by done. rewrite decide_False in D2 by tauto.
  assert (count_where (fun k v => P k v /\ Q k v) (delete k m) <= count_where P (delete k m))%Z.
  { apply count_where_le. intros k' v' Hk' [HP' _]. eauto. }
  lia.
Qed.

(** ** Sorted lists *)

Lemma StronglySorted_lookup {A} (R : relation A) (l : list A) i j a b :
  StronglySorted R l -> (i < j)%nat -> l !! i = Some a -> l !! j = Some b -> R a b.
Proof.
  intros Hs. revert i j. induction Hs as [|x l Hs IH Hall]; intros i j Hij Hi Hj; [done|].
  destruct j as [|j]; [lia|]. destruct i as [|i]; simpl in *.
  - injection Hi as ->. rewrite Forall_forall in Hall. apply Hall. by eapply list_elem_of_lookup_2.
  - apply (IH i j); [lia|done..].
Qed.
Lemma StronglySorted_weaken {A} (R R' : relation A) (l : list A) :
  (forall a b, R a b -> R' a b) -> StronglySorted R l -> StronglySorted R' l.
Proof.
  intros HR Hs. induction Hs as [|a l Hs IH Hall]; constructor; [done|].
  eapply Forall_impl; [exact Hall|]. auto.
Qed.

(** ** Machine integers *)

(** The value of a [w]-bit two's-complement integer after wrap-around. *)
Definition wrap_signed (w z : Z) : Z := ((z + 2 ^ (w - 1)) mod 2 ^ w - 2 ^ (w - 1))%Z.
Definition int32 (z : Z) : Z := wrap_signed 32 z.
Definition int64 (z : Z) : Z := wrap_signed 64 z.

Lemma wrap_signed_id w z :
  (0 < w)%Z -> (- 2 ^ (w - 1) <= z < 2 ^ (w - 1))%Z -> wrap_signed w z = z.
Proof.
  intros Hw Hz. unfold wrap_signed.
  assert (2 ^ w = 2 * 2 ^ (w - 1))%Z as Hp.
  { rewrite <-Z.pow_succ_r by lia. f_equal. lia. }
  rewrite Z.mod_small; lia.
Qed.

Lemma wrap_signed_range w z :
  (0 < w)%Z -> (- 2 ^ (w - 1) <= wrap_signed w z < 2 ^ (w - 1))%Z.
Proof.
  intros Hw. unfold wrap_signed.
  assert (2 ^ w = 2 * 2 ^ (w - 1))%Z as Hp.
  { rewrite <-Z.pow_succ_r by lia. f_equal. lia. }
  pose proof (Z.mod_pos_bound (z + 2 ^ (w - 1)) (2 ^ w)). lia.
Qed.

(** ** Durations *)

(** In nanoseconds, as time.Duration. *)
Definition millisecond : Z := 1000000.

(** How long Redis keeps a key: go-redis sends a positive time to live in whole
    milliseconds, and a shorter one as one. *)
Definition lifetime (ttl : Z) : Z :=
  if decide (ttl < millisecond)%Z then millisecond else (ttl / millisecond * millisecond)%Z.

Lemma lifetime_bounds ttl : (0 < ttl)%Z -> (0 < lifetime ttl <= Z.max ttl millisecond)%Z.
Proof.
  unfold lifetime, millisecond. intros H. case_decide; [lia|].
  pose proof (Z.mul_div_le ttl 1000000). pose proof (Z.div_le_lower_bound ttl 1000000 1). lia.
Qed.
