(* ===== verification/Pools.v ===== *)
(** * Shared resources of the processes

    The connection pool (src/internal/nodeclient/pool.go), the pool of chunk
    buffers (src/internal/bufpool/bufpool.go) and the leases of the cache
    (AcquireLock of src/internal/cache/cache.go), each with the steps its users
    can interleave. grpc.NewClient, sync.Pool and the two Redis commands are
    used by what they document. *)

From stdpp Require Import base numbers gmap gmultiset strings list.
From S2P Require Import Prelude.

(** ** Connections *)

Module Conns.

Inductive pool_error := ErrEmptyAddress | ErrClosed | ErrDial.

(** A connection is its number; [pl_dialed] has every connection ever made with
    its address, [pl_shut] those that were closed. *)
Record Pool := mkPool {
  pl_conns : gmap string nat;
  pl_closed : bool;
  pl_dialed : gmap nat string;
  pl_shut : gset nat
}.
Definition NewPool : Pool := mkPool ∅ false ∅ ∅.

(** conn under the read lock; [None] goes on to the write lock. *)
Definition conn_read (p : Pool) (addr : string) : option (result pool_error nat) :=
  if String.eqb addr EmptyString then Some (Err ErrEmptyAddress)
  else if pl_closed p then Some (Err ErrClosed)
  else match pl_conns p !! addr with Some c => Some (Ok c) | None => None end.

(** conn under the write lock; [dial] says whether grpc.NewClient succeeds. *)
Definition conn_write (dial : bool) (p : Pool) (addr : string) : result pool_error nat * Pool :=
  if pl_closed p then (Err ErrClosed, p)
  else
    match pl_conns p !! addr with
    | Some c => (Ok c, p)
    | None =>
        if dial then
          let c := fresh (dom (pl_dialed p)) in
          (Ok c, mkPool (<[addr := c]> (pl_conns p)) false (<[c := addr]> (pl_dialed p)) (pl_shut p))
        else (Err ErrDial, p)
    end.

Definition Close (p : Pool) : Pool :=
  if pl_closed p then p
  else mkPool ∅ true (pl_dialed p) (pl_shut p ∪ map_img (pl_conns p)).

(** Goroutines that ask for a connection. *)
Inductive caller := Calling (addr : string) | Waiting (addr : string) | Returned (addr : string) (r : result pool_error nat).
Record system := mkSystem {
  sy_pool : Pool;
  sy_callers : list caller
}.

Inductive step : system -> system -> Prop :=
  | StepCall p cs addr : step (mkSystem p cs) (mkSystem p (cs ++ [Calling addr]))
  | StepRead p cs i addr : cs !! i = Some (Calling addr) ->
      step (mkSystem p cs)
        (mkSystem p (<[i := match conn_read p addr with Some r => Returned addr r | None => Waiting addr end]> cs))
  | StepWrite p cs i addr dial : cs !! i = Some (Waiting addr) ->
      step (mkSystem p cs) (mkSystem (conn_write dial p addr).2 (<[i := Returned addr (conn_write dial p addr).1]> cs))
  | StepClose p cs : step (mkSystem p cs) (mkSystem (Close p) cs).
Definition reachable : system -> Prop := rtc step (mkSystem NewPool []).

(** A connection that was made is the one in use for its address, or closed. *)
Record pool_ok (p : Pool) : Prop := {
  po_used : forall addr c, pl_conns p !! addr = Some c -> pl_dialed p !! c = Some addr;
  po_kept : forall c addr, pl_dialed p !! c = Some addr -> if pl_closed p then c ∈ pl_shut p else pl_conns p !! addr = Some c;
  po_open : pl_closed p = false -> pl_shut p = ∅;
  po_empty : pl_closed p = true -> pl_conns p = ∅
}.
Definition caller_ok (p : Pool) (c : caller) : Prop :=
  match c with Returned addr (Ok n) => pl_dialed p !! n = Some addr | _ => True end.

Lemma conn_write_ok dial p addr : pool_ok p ->
  pool_ok (conn_write dial p addr).2 /\ pl_dialed p ⊆ pl_dialed (conn_write dial p addr).2 /\
  (forall c, (conn_write dial p addr).1 = Ok c -> pl_dialed (conn_write dial p addr).2 !! c = Some addr).
Proof.
  intros Hp. unfold conn_write. destruct (pl_closed p) eqn:Ec; [by split_and!|].
  destruct (pl_conns p !! addr) as [c|] eqn:Ea.
  { split_and!; [done|done|]. intros ? [= <-]. by apply (po_used _ Hp). }
  destruct dial; [|by split_and!]. cbn [fst snd]. set (c := fresh (dom (pl_dialed p))).
  assert (pl_dialed p !! c = None) as Hc by (apply not_elem_of_dom, is_fresh).
  split_and!; cbn [pl_dialed]; [|by apply insert_subseteq|intros ? [= <-]; apply lookup_insert_eq].
  split; cbn [pl_conns pl_closed pl_dialed pl_shut].
  - intros a n. destruct (decide (a = addr)) as [->|Hne]; [rewrite lookup_insert_eq; intros [= <-]; apply lookup_insert_eq|].
    rewrite lookup_insert_ne by done. intros Hn. apply (po_used _ Hp) in Hn. rewrite lookup_insert_ne; [done|]. congruence.
  - intros n a. destruct (decide (n = c)) as [->|Hne]; [rewrite lookup_insert_eq; intros [= <-]; apply lookup_insert_eq|].
    rewrite lookup_insert_ne by done. intros Hn. pose proof (po_kept _ Hp n a Hn) as Hk. rewrite Ec in Hk.
    rewrite lookup_insert_ne; [done|]. congruence.
  - intros _. by apply (po_open _ Hp).
  - done.
Qed.

Lemma Close_ok p : pool_ok p -> pool_ok (Close p).
Proof.
  intros Hp. unfold Close. destruct (pl_closed p) eqn:Ec; [done|]. split; cbn [pl_conns pl_closed pl_dialed pl_shut].
  - by intros addr c ?%lookup_empty_Some.
  - intros c addr Hc. apply (po_kept _ Hp) in Hc. rewrite Ec in Hc. apply elem_of_union_r, elem_of_map_img. by exists addr.
  - done.
  - done.
Qed.

Lemma reachable_ok s : reachable s -> pool_ok (sy_pool s) /\ Forall (caller_ok (sy_pool s)) (sy_callers s).
Proof.
  unfold reachable. intros H. apply (rtc_ind_r (fun s => pool_ok (sy_pool s) /\ Forall (caller_ok (sy_pool s)) (sy_callers s)) _) with (3 := H).
  { split; [|constructor]. split; cbn; [by intros ? ? ?%lookup_empty_Some|by intros ? ? ?%lookup_empty_Some|done|done]. }
  intros x y _ Hs [Hp Hc]. destruct Hs as [p cs addr|p cs i addr Hi|p cs i addr dial Hi|p cs]; cbn [sy_pool sy_callers] in *.
  - split; [done|]. apply Forall_app. by repeat constructor.
  - split; [done|]. apply Forall_insert; [done|]. unfold conn_read. destruct (String.eqb addr EmptyString); [done|].
    destruct (pl_closed p); [done|]. destruct (pl_conns p !! addr) eqn:Ea; [|done]. by apply (po_used _ Hp).
  - destruct (conn_write_ok dial p addr Hp) as (Hp'&Hsub&Hr). split; [done|]. apply Forall_insert.
    + eapply Forall_impl; [exact Hc|]. intros [| |a [n|]]; try done. cbn. intros Hn. by apply (lookup_weaken _ _ _ _ Hn).
    + cbn. destruct (conn_write dial p addr).1 as [n|] eqn:E; [|done]. by apply Hr.
  - split; [by apply Close_ok|]. eapply Forall_impl; [exact Hc|]. intros [| |a [n|]]; try done. cbn. unfold Close.
    by destruct (pl_closed p).
Qed.

(** C40: one connection per address. In every interleaving of callers of Get,
    each between its read-locked look and its write-locked insert, and of Close:
    while the pool is open no address has two connections and none is closed;
    after Close every connection ever dialed is closed; and the connection a
    caller was given is one that was dialed to the address it asked for. *)
Theorem one_connection_per_address s :
  reachable s ->
  let p := sy_pool s in
  (forall c1 c2 addr, pl_dialed p !! c1 = Some addr -> pl_dialed p !! c2 = Some addr -> pl_closed p = false -> c1 = c2) /\
  (pl_closed p = true -> forall c addr, pl_dialed p !! c = Some addr -> c ∈ pl_shut p) /\
  (pl_closed p = false -> pl_shut p = ∅) /\
  (forall i addr c, sy_callers s !! i = Some (Returned addr (Ok c)) -> pl_dialed p !! c = Some addr).
Proof.
  intros [Hp Hc]%reachable_ok p. split_and!.
  - intros c1 c2 addr H1 H2 Ho. apply (po_kept _ Hp) in H1, H2. fold p in H1, H2. rewrite Ho in H1, H2. congruence.
  - intros Hcl c addr H. apply (po_kept _ Hp) in H. fold p in H. by rewrite Hcl in H.
  - apply (po_open _ Hp).
  - intros i addr c Hi. rewrite Forall_lookup in Hc. exact (Hc i _ Hi).
Qed.

(** Two goroutines meet at a new address: one dials, both get its connection. *)
Lemma one_connection_per_address_witness :
  exists s, reachable s /\ sy_callers s = [Returned "n1:7000" (Ok 0%nat); Returned "n1:7000" (Ok 0%nat)] /\
    pl_dialed (sy_pool s) !! 0%nat = Some "n1:7000".
Proof.
  pose (p1 := (conn_write true NewPool "n1:7000").2).
  pose (s := mkSystem p1 [Returned "n1:7000" (Ok 0%nat); Returned "n1:7000" (Ok 0%nat)]).
  assert (reachable s) as Hr.
  { eapply rtc_l; [apply (StepCall _ [] "n1:7000")|]. eapply rtc_l; [apply (StepCall _ _ "n1:7000")|].
    eapply rtc_l; [apply (StepRead _ _ 0 "n1:7000"); reflexivity|]. eapply rtc_l; [apply (StepRead _ _ 1 "n1:7000"); reflexivity|].
    eapply rtc_l; [apply (StepWrite _ _ 0 "n1:7000" true); reflexivity|].
    eapply rtc_l; [apply (StepWrite _ _ 1 "n1:7000" true); reflexivity|]. apply rtc_refl. }
  exists s. split; [exact Hr|]. split; [reflexivity|]. destruct (one_connection_per_address s Hr) as (_&_&_&H).
  exact (H 0%nat "n1:7000" 0%nat eq_refl).
Defined.

(** WaitReady: the states the connection goes through until the context is
    done, the first one at the call. *)
Inductive conn_state := Idle | Connecting | ReadyState | TransientFailure | ShutDown.
#[export] Instance conn_state_eq_dec : EqDecision conn_state.
Proof. solve_decision. Defined.
Inductive wait_error := NoConnection (e : pool_error) | ContextDone.
Fixpoint wait_for (states : list conn_state) : result wait_error unit :=
  match states with
  | [] => Err ContextDone
  | s :: states' => if decide (s = ReadyState) then Ok tt else wait_for states'
  end.
Definition WaitReady (conn : result pool_error nat) (states : list conn_state) : result wait_error unit :=
  match conn with Err e => Err (NoConnection e) | Ok _ => wait_for states end.
Lemma WaitReady_exact conn states :
  WaitReady conn states = Ok tt <-> (exists c, conn = Ok c) /\ ReadyState ∈ states.
Proof.
  unfold WaitReady. destruct conn as [c|e]; [|naive_solver].
  induction states as [|s states IH]; simpl; [rewrite elem_of_nil; naive_solver|].
  rewrite elem_of_cons. case_decide as Hs; [subst; naive_solver|]. rewrite IH. naive_solver.
Qed.
End Conns.

(** ** Buffers *)

Module Buffers.

(** A buffer is its number; its capacity never changes. [bp_free] is what
    sync.Pool holds, [bp_held] what callers hold with the length they asked for. *)
Record BufPool := mkBufPool {
  bp_size : Z;
  bp_cap : gmap nat Z;
  bp_free : gset nat;
  bp_held : gmap nat Z
}.
Definition New (size : Z) : BufPool := mkBufPool size ∅ ∅ ∅.

(** make([]byte, n) *)
Definition make (n cap : Z) (p : BufPool) : nat * BufPool :=
  let b := fresh (dom (bp_cap p)) in
  (b, mkBufPool (bp_size p) (<[b := cap]> (bp_cap p)) (bp_free p) (<[b := n]> (bp_held p))).

(** Get of [n] bytes; [pick] is the buffer sync.Pool hands out, [None] when it
    calls New. *)
Definition Get (n : Z) (pick : option nat) (p : BufPool) : nat * BufPool :=
  if decide (bp_size p < n)%Z then make n n p
  else
    match pick with
    | None => make n (bp_size p) p
    | Some b =>
        let p' := mkBufPool (bp_size p) (bp_cap p) (bp_free p ∖ {[b]}) (bp_held p) in
        if decide (default 0 (bp_cap p !! b) < n)%Z then make n n p'
        else (b, mkBufPool (bp_size p) (bp_cap p) (bp_free p ∖ {[b]}) (<[b := n]> (bp_held p)))
    end.

(** Put by the holder, who gives the buffer up. *)
Definition Put (b : nat) (p : BufPool) : BufPool :=
  let held := delete b (bp_held p) in
  if decide (default 0 (bp_cap p !! b) <> bp_size p \/ bp_size p <= 0)%Z then mkBufPool (bp_size p) (bp_cap p) (bp_free p) held
  else mkBufPool (bp_size p) (bp_cap p) ({[b]} ∪ bp_free p) held.

(** Requests take buffers and give them back; the collector may empty the pool. *)
Inductive step : BufPool -> BufPool -> Prop :=
  | StepGet p n pick : (0 <= n)%Z -> (forall b, pick = Some b -> b ∈ bp_free p) -> step p (Get n pick p).2
  | StepPut p b n : bp_held p !! b = Some n -> step p (Put b p)
  | StepCollect p b : step p (mkBufPool (bp_size p) (bp_cap p) (bp_free p ∖ {[b]}) (bp_held p)).

Record pool_ok (p : BufPool) : Prop := {
  bo_free : forall b, b ∈ bp_free p -> bp_cap p !! b = Some (bp_size p) /\ bp_held p !! b = None;
  bo_held : forall b n, bp_held p !! b = Some n -> exists c, bp_cap p !! b = Some c /\ (0 <= n <= c)%Z
}.

Lemma make_ok n c p : pool_ok p -> (0 <= n <= c)%Z -> pool_ok (make n c p).2 /\ bp_held p !! (make n c p).1 = None.
Proof.
  intros [Hf Hh] Hn. unfold make. set (b := fresh _).
  assert (bp_cap p !! b = None) as Hb by (apply not_elem_of_dom, is_fresh).
  assert (bp_held p !! b = None) as Hbh.
  { destruct (bp_held p !! b) eqn:E; [|done]. destruct (Hh _ _ E) as (x&Hx&_). congruence. }
  split; [|done]. split; cbn [bp_free bp_cap bp_held bp_size snd].
  - intros x Hx. destruct (Hf x Hx) as [H1 H2]. rewrite !lookup_insert_ne by congruence. done.
  - intros x m. destruct (decide (x = b)) as [->|Hne]; [rewrite !lookup_insert_eq; intros [= <-]; by exists c|].
    rewrite !lookup_insert_ne by done. apply Hh.
Qed.

Lemma Get_ok n pick p : pool_ok p -> (0 <= n)%Z -> (forall b, pick = Some b -> b ∈ bp_free p) ->
  pool_ok (Get n pick p).2 /\ bp_held p !! (Get n pick p).1 = None /\ bp_held (Get n pick p).2 !! (Get n pick p).1 = Some n.
Proof.
  intros Hp Hn Hpick.
  assert (forall c q, bp_held (make n c q).2 !! (make n c q).1 = Some n) as Hm by (intros; apply lookup_insert_eq).
  unfold Get. case_decide as Hs; [destruct (make_ok n n p Hp ltac:(lia)); by split_and!|].
  destruct pick as [b|]; [|destruct (make_ok n (bp_size p) p Hp ltac:(lia)); by split_and!].
  pose proof (Hpick b eq_refl) as Hb. destruct Hp as [Hf Hh]. destruct (Hf b Hb) as [Hcap Hheld]. rewrite Hcap. simpl default.
  rewrite decide_False by lia. split_and!; [|done|apply lookup_insert_eq]. split; cbn [bp_free bp_cap bp_held bp_size snd].
  - intros x Hx. apply elem_of_difference in Hx as [Hx Hne]. destruct (Hf x Hx) as [H1 H2]. split; [done|].
    rewrite lookup_insert_ne; [done|]. set_solver.
  - intros x m. destruct (decide (x = b)) as [->|Hne]; [rewrite lookup_insert_eq; intros [= <-]; exists (bp_size p); split; [done|lia]|].
    rewrite lookup_insert_ne by done. apply Hh.
Qed.

Lemma step_ok p p' : step p p' -> pool_ok p -> pool_ok p'.
Proof.
  intros Hs Hp. destruct Hs as [p n pick Hn Hpick|p b n Hb|p b]; [by apply Get_ok| |].
  - destruct Hp as [Hf Hh]. destruct (Hh b n Hb) as (c&Hc&Hn). unfold Put. rewrite Hc. simpl default.
    case_decide as Hd; split; cbn [bp_free bp_cap bp_held bp_size].
    + intros x Hx. destruct (Hf x Hx) as [H1 H2]. split; [done|]. rewrite lookup_delete_ne; [done|]. congruence.
    + intros x m [_ Hm]%lookup_delete_Some. by apply Hh.
    + intros x [->%elem_of_singleton|Hx]%elem_of_union.
      * split; [rewrite Hc; f_equal; lia|apply lookup_delete_eq].
      * destruct (Hf x Hx) as [H1 H2]. split; [done|]. rewrite lookup_delete_ne; [done|]. congruence.
    + intros x m [_ Hm]%lookup_delete_Some. by apply Hh.
  - destruct Hp as [Hf Hh]. split; [|done]. intros x [Hx _]%elem_of_difference. by apply Hf.
Qed.

(** A buffer has one owner. After any sequence of Get and Put, Get hands out a
    buffer of at least the length asked for that nobody holds and that is no
    longer in the pool, and every buffer held before is still held. *)
Theorem buffers_are_exclusive size p n pick :
  rtc step (New size) p -> (0 <= n)%Z -> (forall b, pick = Some b -> b ∈ bp_free p) ->
  let '(b, p') := Get n pick p in
  bp_held p !! b = None /\ bp_held p' !! b = Some n /\ (b ∉ bp_free p') /\ (exists c, bp_cap p' !! b = Some c /\ (n <= c)%Z) /\
  (forall b' m, bp_held p !! b' = Some m -> bp_held p' !! b' = Some m /\ b' <> b).
Proof.
  intros Hr Hn Hpick.
  assert (pool_ok p) as Hp.
  { apply (rtc_ind_r pool_ok (New size)) with (3 := Hr); [split; [set_solver|cbn; by intros ? ? ?%lookup_empty_Some]|].
    intros x y _ Hs Hx. by eapply step_ok. }
  destruct (Get_ok n pick p Hp Hn Hpick) as (Hp'&Hnew&Hheld). destruct (Get n pick p) as [b p'] eqn:E. cbn [fst snd] in *.
  split_and!; [done|done| | |].
  - intros Hf. apply (bo_free _ Hp') in Hf as [_ Hf]. congruence.
  - destruct (bo_held _ Hp' b n Hheld) as (c&Hc&Hle). exists c. split; [done|lia].
  - intros b' m Hb'. assert (b' <> b) as Hne by congruence. split; [|done]. revert E. unfold Get, make.
    repeat case_decide; destruct pick; repeat case_decide; intros [= <- <-]; cbn [bp_held]; by rewrite lookup_insert_ne.
Qed.

(** A buffer that was put back is handed out again; the request beside it keeps
    its own. *)
Lemma buffers_are_exclusive_witness :
  exists p, rtc step (New 8) p /\ bp_held p !! 0%nat = Some 8%Z /\ (Get 3 (Some 1%nat) p).1 = 1%nat /\
    bp_held (Get 3 (Some 1%nat) p).2 !! 0%nat = Some 8%Z.
Proof.
  pose (p := Put 1%nat (Get 8 None (Get 8 None (New 8)).2).2).
  assert (rtc step (New 8) p) as Hr.
  { eapply rtc_l; [apply (StepGet _ 8 None); [lia|discriminate]|]. eapply rtc_l; [apply (StepGet _ 8 None); [lia|discriminate]|].
    eapply rtc_l; [apply (StepPut _ 1%nat 8%Z); reflexivity|]. apply rtc_refl. }
  assert (forall b, Some 1%nat = Some b -> b ∈ bp_free p) as Hf.
  { intros b Hb. injection Hb as <-. apply (bool_decide_unpack _). vm_compute. exact I. }
  exists p. split; [exact Hr|]. split; [reflexivity|]. split; [reflexivity|].
  pose proof (buffers_are_exclusive 8 p 3 (Some 1%nat) Hr ltac:(lia) Hf) as H.
  destruct (Get 3 (Some 1%nat) p) as [b p']. destruct H as (_&_&_&_&H). exact (proj1 (H 0%nat 8%Z eq_refl)).
Defined.
End Buffers.

(** ** Leases *)

Module Locks.

(** The key of a lease in Redis: the token and when it expires, if it does. *)
Definition lease : Type := option (string * option Z).
Definition live (now : Z) (l : lease) : lease :=
  match l with Some (t, Some e) => if decide (now < e)%Z then l else None | _ => l end.

(** SET NX with the TTL: without one for 0 and for -1 (KeepTTL, and there is no
    key to keep it from), and [None] for the error of Redis on another negative one. *)
Definition AcquireLock (now : Z) (token : string) (ttl : Z) (l : lease) : option bool * lease :=
  if decide (ttl < -1)%Z then (None, live now l)
  else
    match live now l with
    | Some _ => (Some false, live now l)
    | None => (Some true, Some (token, if decide (0 < ttl)%Z then Some (now + lifetime ttl)%Z else None))
    end.
(** releaseScript *)
Definition release (now : Z) (token : string) (l : lease) : lease :=
  match live now l with
  | Some (t, e) => if String.eqb t token then None else live now l
  | None => None
  end.

(** The commands Redis executes, one at a time. *)
Inductive command := Acquire (token : string) (ttl : Z) | Release (token : string).
Definition run_one (l : lease) (c : Z * command) : option bool * lease :=
  match c.2 with
  | Acquire token ttl => AcquireLock c.1 token ttl l
  | Release token => (None, release c.1 token l)
  end.
Fixpoint run (l : lease) (cs : list (Z * command)) : list (option bool) * lease :=
  match cs with
  | [] => ([], l)
  | c :: cs' => let '(r, l') := run_one l c in let '(rs, l'') := run l' cs' in (r :: rs, l'')
  end.

(** While a lease runs and its holder does not give it up, nobody gets it. *)
Lemma held_stays token e cs :
  Forall (fun c => c.1 < e /\ c.2 <> Release token)%Z cs ->
  (run (Some (token, Some e)) cs).2 = Some (token, Some e) /\ Forall (fun r => r <> Some true) (run (Some (token, Some e)) cs).1.
Proof.
  induction 1 as [|[t c] cs [Ht Hc] _ IH]; [by split|]. simpl in Ht, Hc. cbn [run].
  assert (exists r, run_one (Some (token, Some e)) (t, c) = (r, Some (token, Some e)) /\ r <> Some true) as (r&->&Hr).
  { unfold run_one, AcquireLock, release, live. cbn [fst snd]. rewrite decide_True by done. destruct c as [tk ttl|tk].
    - case_decide; by eexists.
    - destruct (String.eqb_spec token tk) as [->|]; [done|by eexists]. }
  destruct (run (Some (token, Some e)) cs) as [rs l']. destruct IH as [IH1 IH2]. split; [exact IH1|]. by constructor.
Qed.

(** The lease excludes others until it expires. After a successful
    AcquireLock with a positive time-to-live, whatever other callers try before it is over
    (acquiring, or releasing with their own tokens), the lock is still the
    owner's: every other AcquireLock is refused, a release with another token
    changes nothing, and the owner's release frees it. *)
Theorem lease_is_exclusive l0 t token ttl between t' token' ttl' :
  (AcquireLock t token ttl l0).1 = Some true -> (0 < ttl)%Z ->
  Forall (fun c => c.1 <= t')%Z between -> (t' < t + lifetime ttl)%Z -> (forall s, (s, Release token) ∉ between) ->
  let l := (run (AcquireLock t token ttl l0).2 between).2 in
  l = Some (token, Some (t + lifetime ttl)%Z) /\ (AcquireLock t' token' ttl' l).1 <> Some true /\
  (token' <> token -> release t' token' l = l) /\ release t' token l = None.
Proof.
  intros Ha Hpos Hb Ht Hrel. unfold AcquireLock in Ha |- * at 1. rewrite decide_False in Ha |- * by lia. destruct (live t l0); [done|].
  cbn [fst snd]. rewrite decide_True by done. destruct (held_stays token (t + lifetime ttl) between) as [-> _].
  { apply Forall_forall. intros [s c] Hin. simpl. rewrite Forall_forall in Hb. specialize (Hb _ Hin). simpl in Hb. split; [lia|].
    intros ->. by apply (Hrel s). }
  unfold AcquireLock, release, live. rewrite !(decide_True (P := (t' < t + lifetime ttl)%Z)) by done.
  split_and!; [done|by destruct (decide (ttl' < -1)%Z)| |by rewrite String.eqb_refl].
  intros Hne. destruct (String.eqb_spec token token'); congruence.
Qed.

Lemma lease_is_exclusive_witness :
  (AcquireLock 0 "a" 30 None).1 = Some true /\
  (AcquireLock 20 "c" 30 (run (AcquireLock 0 "a" 30 None).2 [(10%Z, Acquire "b" 30); (15%Z, Release "b")]).2).1 <> Some true.
Proof.
  split; [reflexivity|].
  refine (proj1 (proj2 (lease_is_exclusive None 0 "a" 30 [(10%Z, Acquire "b" 30); (15%Z, Release "b")] 20 "c" 30 eq_refl _ _ _ _))).
  - lia.
  - repeat constructor; simpl; lia.
  - vm_compute. reflexivity.
  - intros s. set_solver.
Defined.
End Locks.
