(* ===== verification/Sql.v ===== *)
(** * Statements, transactions and store operations

    The metadata layer (src/internal/metadata) runs SQL statements inside
    transactions.  This file fixes the two monads in which it is modelled:

    - [Tx S A]: code inside [inTx], or one autocommitted statement.  It either
      succeeds with a value and a new state or fails; a failure carries no
      state, because the transaction is rolled back.
    - [Op S A]: a method of the store, which may run several transactions.  It
      returns a value or an error and always a state: what earlier
      transactions committed stays committed when a later one fails.

    PostgreSQL itself is not part of the repository.  What the queries use of
    it beyond the relational meaning of a statement is the class [Postgres]:
    the order in which a scan returns rows (unspecified, hence any
    permutation), the collation of TEXT (a decidable total order) and LIKE on
    a pattern made of a literal prefix and a trailing percent sign. *)

From stdpp Require Import gmap strings list sorting.
From S2P Require Import Prelude.

(** ** Errors *)

Inductive violation :=
| UniqueViolation
| ForeignKeyViolation
| CheckViolation
| InvalidLimit.

(** Sentinel errors of src/internal/metadata/types.go, repair.go and
    reconcile.go; [ErrNoRows] is pgx.ErrNoRows passed through untranslated and
    [ErrSQL] any error raised by the database itself. *)
Inductive store_error :=
| ErrNotFound
| ErrConflict
| ErrDurabilityNotMet
| ErrNoRepairWork
| ErrNoReconcileWork
| ErrNoRows
| ErrSQL (v : violation).

#[export] Instance violation_eq_dec : EqDecision violation.
Proof. solve_decision. Defined.
#[export] Instance store_error_eq_dec : EqDecision store_error.
Proof. solve_decision. Defined.

(** ** The database as a parameter *)

(** A LIKE pattern without wildcards or escapes. *)
Definition like_special (c : Ascii.ascii) : bool :=
  let n := Ascii.N_of_ascii c in ((n =? 37) || (n =? 95) || (n =? 92))%N.

Fixpoint like_literal (p : string) : bool :=
  match p with
  | EmptyString => true
  | String c p' => negb (like_special c) && like_literal p'
  end.

Class Postgres := {
  scan : forall {A : Type}, list A -> list A;
  scan_perm : forall (A : Type) (l : list A), scan l ≡ₚ l;
  text_le : relation string;
  text_le_dec :: RelDecision text_le;
  text_le_total :: Total text_le;
  text_le_trans :: Transitive text_le;
  text_le_antisymm :: AntiSymm (=) text_le;
  text_like : string -> string -> bool;
  text_like_prefix : forall p s : string, like_literal p = true ->
    text_like s (p +:+ "%") = String.prefix p s
}.

(** The C locale over single-byte text: the instance the examples run in. *)
Fixpoint byte_like (p : string) : string -> bool :=
  match p with
  | EmptyString => fun s => match s with EmptyString => true | _ => false end
  | String c p' =>
      let n := Ascii.N_of_ascii c in
      if (n =? 37)%N then
        fix any s := byte_like p' s || match s with EmptyString => false | String _ s' => any s' end
      else if (n =? 95)%N then
        fun s => match s with EmptyString => false | String _ s' => byte_like p' s' end
      else if (n =? 92)%N then
        match p' with
        | String c' p'' =>
            fun s => match s with
                     | EmptyString => false
                     | String a s' => bool_decide (a = c') && byte_like p'' s'
                     end
        | EmptyString => fun _ => false
        end
      else
        fun s => match s with
                 | EmptyString => false
                 | String a s' => bool_decide (a = c) && byte_like p' s'
                 end
  end.

Lemma byte_like_prefix p s :
  like_literal p = true -> byte_like (p +:+ "%") s = String.prefix p s.
Proof.
  revert s. induction p as [|c p IH]; intros s Hp.
  - replace (String.prefix EmptyString s) with true by by destruct s.
    change (byte_like "%" s = true). induction s as [|a s IHs]; [done|]. exact IHs.
  - cbn in Hp. apply andb_true_iff in Hp as [Hc Hp].
    unfold like_special in Hc. apply negb_true_iff, orb_false_iff in Hc as [[H1 H2]%orb_false_iff H3].
    change (String c p +:+ "%") with (String c (p +:+ "%")).
    simpl. rewrite H1, H2, H3. destruct s as [|a s]; [done|].
    rewrite (IH s Hp). cbn [String.prefix]. destruct (Ascii.ascii_dec c a) as [->|Hne].
    + rewrite bool_decide_eq_true_2 by done. done.
    + rewrite bool_decide_eq_false_2 by congruence. done.
Qed.

Definition c_locale : Postgres := {|
  scan := fun A l => l;
  scan_perm := fun A l => Permutation_refl l;
  text_le := String.le;
  text_like := fun s p => byte_like p s;
  text_like_prefix := fun p s => byte_like_prefix p s
|}.

(** ** The two monads *)

Definition Tx (S A : Type) : Type := S -> result store_error (A * S).
Definition Op (S A : Type) : Type := S -> result store_error A * S.

Section monads.
Context {S : Type}.

Definition tx_ret {A} (a : A) : Tx S A := fun s => Ok (a, s).
Definition throw {A} (e : store_error) : Tx S A := fun _ => Err e.
Definition tx_bind {A B} (m : Tx S A) (k : A -> Tx S B) : Tx S B :=
  fun s => match m s with Ok (a, s') => k a s' | Err e => Err e end.
Definition gets {A} (f : S -> A) : Tx S A := fun s => Ok (f s, s).
Definition modify (f : S -> S) : Tx S unit := fun s => Ok (tt, f s).
Definition require (b : bool) (e : store_error) : Tx S unit :=
  if b then tx_ret tt else throw e.

Definition op_ret {A} (a : A) : Op S A := fun s => (Ok a, s).
Definition op_throw {A} (e : store_error) : Op S A := fun s => (Err e, s).
Definition op_bind {A B} (m : Op S A) (k : A -> Op S B) : Op S B :=
  fun s => match m s with (Ok a, s') => k a s' | (Err e, s') => (Err e, s') end.

(** [inTx]: commit on success, roll back on error. *)
Definition inTx {A} (m : Tx S A) : Op S A :=
  fun s => match m s with Ok (a, s') => (Ok a, s') | Err e => (Err e, s) end.

(** A loop over rows inside one transaction. *)
Fixpoint tx_for {A} (l : list A) (f : A -> Tx S unit) : Tx S unit :=
  match l with
  | [] => tx_ret tt
  | a :: l' => tx_bind (f a) (fun _ => tx_for l' f)
  end.
End monads.

Declare Scope tx_scope.
Delimit Scope tx_scope with tx.
Notation "'let!' x ':=' m 'in' k" := (tx_bind m (fun x => k))
  (at level 10, x name, m at level 100, k at level 200) : tx_scope.
Notation "'let!' ' p ':=' m 'in' k" := (tx_bind m (fun x => match x with p => k end))
  (at level 10, p pattern, m at level 100, k at level 200) : tx_scope.
Notation "'do!' m 'in' k" := (tx_bind m (fun _ => k))
  (at level 10, m at level 100, k at level 200) : tx_scope.
Notation "'let*' x ':=' m 'in' k" := (op_bind m (fun x => k))
  (at level 10, x name, m at level 100, k at level 200) : tx_scope.
Open Scope tx_scope.

(** ** Rows in order *)

Section limits.
Context `{PG : !Postgres}.

(** [ORDER BY R]: rows come out of the scan and are sorted. *)
Definition order_by {A} (R : relation A) `{!RelDecision R} (l : list A) : list A :=
  merge_sort R (scan l).

Lemma order_by_perm {A} (R : relation A) `{!RelDecision R} (l : list A) : order_by R l ≡ₚ l.
Proof. unfold order_by. by rewrite merge_sort_Permutation, scan_perm. Qed.

(** [LIMIT n]: PostgreSQL refuses a negative limit. *)
Definition limit_rows {S A} (n : Z) (l : list A) : Tx S (list A) :=
  if decide (n < 0)%Z then throw (ErrSQL InvalidLimit)
  else tx_ret (take (Z.to_nat n) l).
End limits.

(** ** Inversion of successful runs *)

Section inversion.
Context {S : Type}.

Lemma tx_bind_ok {A B} (m : Tx S A) (k : A -> Tx S B) s b s'' :
  tx_bind m k s = Ok (b, s'') <-> exists a s', m s = Ok (a, s') /\ k a s' = Ok (b, s'').
Proof.
  unfold tx_bind. destruct (m s) as [[a s']|e]; naive_solver.
Qed.

Lemma tx_ret_ok {A} (a b : A) (s s' : S) :
  tx_ret a s = Ok (b, s') <-> b = a /\ s' = s.
Proof. unfold tx_ret. naive_solver. Qed.

Lemma gets_ok {A} (f : S -> A) (b : A) (s s' : S) :
  gets f s = Ok (b, s') <-> b = f s /\ s' = s.
Proof. unfold gets. naive_solver. Qed.

Lemma modify_ok (f : S -> S) u (s s' : S) :
  modify f s = Ok (u, s') <-> s' = f s.
Proof. unfold modify. destruct u. naive_solver. Qed.

Lemma require_ok b e u (s s' : S) :
  require b e s = Ok (u, s') <-> b = true /\ s' = s.
Proof. unfold require, tx_ret, throw. destruct b, u; naive_solver. Qed.

Lemma throw_ok {A} e (a : A) (s s' : S) : throw e s = Ok (a, s') <-> False.
Proof. unfold throw. naive_solver. Qed.

Lemma limit_rows_ok {A} n (l l' : list A) (s s' : S) :
  limit_rows n l s = Ok (l', s') <->
  (0 <= n)%Z /\ l' = take (Z.to_nat n) l /\ s' = s.
Proof.
  unfold limit_rows, throw, tx_ret. case_decide; naive_solver lia.
Qed.

Lemma inTx_ok {A} (m : Tx S A) s a s' :
  inTx m s = (Ok a, s') <-> m s = Ok (a, s').
Proof. unfold inTx. destruct (m s) as [[? ?]|?]; naive_solver. Qed.

(** A failed transaction leaves the state as it was. *)
Lemma inTx_err {A} (m : Tx S A) s e s' :
  inTx m s = (Err e, s') -> s' = s /\ m s = Err e.
Proof. unfold inTx. destruct (m s) as [[? ?]|?]; naive_solver. Qed.

Lemma op_bind_ok {A B} (m : Op S A) (k : A -> Op S B) s b s'' :
  op_bind m k s = (Ok b, s'') <-> exists a s', m s = (Ok a, s') /\ k a s' = (Ok b, s'').
Proof. unfold op_bind. destruct (m s) as [[a|e] s']; naive_solver. Qed.
End inversion.

(** [tx_inv H] takes the successful run [H] apart into the runs of its parts;
    later files extend [tx_inv_leaf] with the statements they define. *)
Ltac tx_inv_leaf H := idtac.
Ltac tx_inv H :=
  lazymatch type of H with
  | tx_bind _ _ _ = Ok _ =>
      let a := fresh "a" in let s := fresh "d" in
      let H1 := fresh "H" in let H2 := fresh "H" in
      apply tx_bind_ok in H as (a & s & H1 & H2); tx_inv H1; tx_inv H2
  | tx_ret _ _ = Ok _ => apply tx_ret_ok in H as [? ?]; subst
  | gets _ _ = Ok _ => apply gets_ok in H as [? ?]; subst
  | modify _ _ = Ok _ => apply modify_ok in H; subst
  | require _ _ _ = Ok _ => apply require_ok in H as [H ?]; subst
  | throw _ _ = Ok _ => apply throw_ok in H; destruct H
  | limit_rows _ _ _ = Ok _ => apply limit_rows_ok in H as (H & ? & ?); subst
  | (match ?x with _ => _ end) _ = Ok _ =>
      let E := fresh "E" in destruct x eqn:E; simpl in H; tx_inv H
  | _ => tx_inv_leaf H
  end.

(** ** Preservation of an invariant

    [tx_keeps I m]: every successful run of [m] preserves [I].
    [op_keeps I m]: every run of [m], failed ones included, preserves [I]. *)

Definition tx_keeps {S A} (I : S -> Prop) (m : Tx S A) : Prop :=
  forall s a s', I s -> m s = Ok (a, s') -> I s'.
Definition op_keeps {S A} (I : S -> Prop) (m : Op S A) : Prop :=
  forall s r s', I s -> m s = (r, s') -> I s'.

Lemma tx_keeps_apply {S A} (I : S -> Prop) (m : Tx S A) s a s' :
  tx_keeps I m -> I s -> m s = Ok (a, s') -> I s'.
Proof. intros Hm. apply Hm. Qed.

Create HintDb keeps.

Section keeps.
Context {S : Type} (I : S -> Prop).

Lemma tx_keeps_bind {A B} (m : Tx S A) (k : A -> Tx S B) :
  tx_keeps I m -> (forall a, tx_keeps I (k a)) -> tx_keeps I (tx_bind m k).
Proof.
  intros Hm Hk s b s'' Hs Hrun. apply tx_bind_ok in Hrun as (a&s'&H1&H2).
  eapply Hk; [eapply Hm|]; eauto.
Qed.

Lemma tx_keeps_ret {A} (a : A) : tx_keeps I (tx_ret a).
Proof. intros s b s' Hs Hrun. by tx_inv Hrun. Qed.
Lemma tx_keeps_throw {A} e : tx_keeps I (throw e : Tx S A).
Proof. intros s b s' Hs Hrun. by tx_inv Hrun. Qed.
Lemma tx_keeps_gets {A} (f : S -> A) : tx_keeps I (gets f).
Proof. intros s b s' Hs Hrun. by tx_inv Hrun. Qed.
Lemma tx_keeps_require b e : tx_keeps I (require b e).
Proof. intros s u s' Hs Hrun. by tx_inv Hrun. Qed.
Lemma tx_keeps_limit_rows {A} n (l : list A) : tx_keeps I (limit_rows n l).
Proof. intros s u s' Hs Hrun. by tx_inv Hrun. Qed.
Lemma tx_keeps_modify f : (forall s, I s -> I (f s)) -> tx_keeps I (modify f).
Proof. intros Hf s u s' Hs Hrun. tx_inv Hrun. auto. Qed.
Lemma tx_keeps_for {A} (l : list A) f :
  (forall a, a ∈ l -> tx_keeps I (f a)) -> tx_keeps I (tx_for l f).
Proof.
  induction l as [|a l IH]; intros Hf; simpl.
  - apply tx_keeps_ret.
  - apply tx_keeps_bind; [apply Hf; set_solver|].
    intros _. apply IH. intros b Hb. apply Hf. set_solver.
Qed.

Lemma op_keeps_inTx {A} (m : Tx S A) : tx_keeps I m -> op_keeps I (inTx m).
Proof.
  intros Hm s r s' Hs Hrun. unfold inTx in Hrun.
  destruct (m s) as [[a t]|e] eqn:E; simplify_eq; eauto.
Qed.
Lemma op_keeps_bind {A B} (m : Op S A) (k : A -> Op S B) :
  op_keeps I m -> (forall a, op_keeps I (k a)) -> op_keeps I (op_bind m k).
Proof.
  intros Hm Hk s r s'' Hs Hrun. unfold op_bind in Hrun.
  destruct (m s) as [[a|e] s'] eqn:E; simplify_eq; [|by eauto].
  eapply Hk; [eapply Hm|]; eauto.
Qed.
Lemma op_keeps_ret {A} (a : A) : op_keeps I (op_ret a).
Proof. intros s r s' Hs Hrun. unfold op_ret in Hrun. by simplify_eq. Qed.
Lemma op_keeps_throw {A} e : op_keeps I (op_throw e : Op S A).
Proof. intros s r s' Hs Hrun. unfold op_throw in Hrun. by simplify_eq. Qed.
End keeps.

#[export] Hint Resolve tx_keeps_ret tx_keeps_throw tx_keeps_gets
  tx_keeps_require tx_keeps_limit_rows op_keeps_ret op_keeps_throw : keeps.

(** [keeps] follows the structure of an operation and leaves the statements to
    the lemmas registered in the hint database. *)
Ltac keeps_step :=
  lazymatch goal with
  | |- forall _, _ => intro
  | |- op_keeps _ (inTx _) => apply op_keeps_inTx
  | |- op_keeps _ (op_bind _ _) => apply op_keeps_bind
  | |- op_keeps _ (match ?x with _ => _ end) => destruct x
  | |- tx_keeps _ (tx_bind _ _) => apply tx_keeps_bind
  | |- tx_keeps _ (tx_for _ _) => apply tx_keeps_for
  | |- tx_keeps _ (match ?x with _ => _ end) => destruct x
  | |- tx_keeps _ (let _ := _ in _) => cbv zeta
  | |- _ => solve [auto with keeps]
  end.
Ltac keeps := repeat keeps_step.
