(* ===== verification/Schema.v ===== *)
(** * The metadata schema

    The tables of src/migrations/0001_init.sql and 0002_self_healing.sql with
    the enumerations of src/internal/metadata/types.go.  A table is a finite
    map from primary key to row; the database is the record of the nine tables
    and the three BIGSERIAL sequences.

    Statements are modelled at the level of a table: a statement computes the
    new table and the database refuses it when a CHECK, UNIQUE or FOREIGN KEY
    constraint of that table would not hold afterwards.  The durability
    trigger of 0002_self_healing.sql runs inside every statement that writes
    [chunk_replicas].  Timestamps and intervals are integers (microseconds). *)

From stdpp Require Import gmap strings list sorting.
From S2P Require Import Prelude Sql.

(** A UUID is an opaque 128-bit identifier, [uuid.Nil] being zero. *)
Notation uuid := N (only parsing).
Notation node_id := string (only parsing).
Notation timestamp := Z (only parsing).
Notation duration := Z (only parsing).

(** ** Enumerations *)

Inductive NodeHealth := UNKNOWN | HEALTHY | SUSPECT | DEAD.
Inductive ObjectState := ObjectUploading | ObjectComplete | ObjectDeleting | ObjectFailed.
Inductive ChunkState := ChunkPending | ChunkCommitted | ChunkOrphaned.
Inductive ReplicaState :=
| ReplicaWriting | ReplicaAvailable | ReplicaUnavailable
| ReplicaDeleting | ReplicaCorrupt | ReplicaStale.
Inductive RepairJobState := RepairPending | RepairRunning | RepairSucceeded | RepairFailed.
Inductive ReconcileState :=
| ReconcilePending | ReconcileRunning | ReconcileSucceeded | ReconcileFailed.
Inductive MultipartState :=
| MultipartInProgress | MultipartCompleting | MultipartCompleted | MultipartAborted.
Inductive PartState := PartUploading | PartComplete | PartFailed.

#[export] Instance NodeHealth_eq_dec : EqDecision NodeHealth.
Proof. solve_decision. Defined.
#[export] Instance ObjectState_eq_dec : EqDecision ObjectState.
Proof. solve_decision. Defined.
#[export] Instance ChunkState_eq_dec : EqDecision ChunkState.
Proof. solve_decision. Defined.
#[export] Instance ReplicaState_eq_dec : EqDecision ReplicaState.
Proof. solve_decision. Defined.
#[export] Instance RepairJobState_eq_dec : EqDecision RepairJobState.
Proof. solve_decision. Defined.
#[export] Instance ReconcileState_eq_dec : EqDecision ReconcileState.
Proof. solve_decision. Defined.
#[export] Instance MultipartState_eq_dec : EqDecision MultipartState.
Proof. solve_decision. Defined.
#[export] Instance PartState_eq_dec : EqDecision PartState.
Proof. solve_decision. Defined.

(** ** Rows *)

Record node_row := mkNode {
  sn_grpc_address : string;
  sn_health : NodeHealth;
  sn_total_bytes : Z;
  sn_used_bytes : Z;
  sn_available_bytes : Z;
  sn_chunk_count : Z;
  sn_active_requests : Z;
  sn_last_heartbeat_at : option timestamp;
  sn_registered_at : timestamp;
  sn_updated_at : timestamp
}.
#[export] Instance eta_node : Eta node_row := fun r =>
  mkNode (sn_grpc_address r) (sn_health r) (sn_total_bytes r) (sn_used_bytes r)
    (sn_available_bytes r) (sn_chunk_count r) (sn_active_requests r)
    (sn_last_heartbeat_at r) (sn_registered_at r) (sn_updated_at r).

Record object_row := mkObject {
  ob_bucket : string;
  ob_key : string;
  ob_version : Z;
  ob_state : ObjectState;
  ob_size_bytes : Z;
  ob_chunk_size : Z;
  ob_chunk_count : Z;
  ob_etag : option string;
  ob_content_type : string;
  ob_failure_reason : option string;
  ob_created_at : timestamp;
  ob_updated_at : timestamp;
  ob_completed_at : option timestamp;
  ob_deleted_at : option timestamp
}.
#[export] Instance eta_object : Eta object_row := fun r =>
  mkObject (ob_bucket r) (ob_key r) (ob_version r) (ob_state r) (ob_size_bytes r)
    (ob_chunk_size r) (ob_chunk_count r) (ob_etag r) (ob_content_type r)
    (ob_failure_reason r) (ob_created_at r) (ob_updated_at r) (ob_completed_at r)
    (ob_deleted_at r).

Record upload_row := mkUpload {
  mu_bucket : string;
  mu_key : string;
  mu_state : MultipartState;
  mu_chunk_size : Z;
  mu_content_type : string;
  mu_object_id : option uuid;
  mu_created_at : timestamp;
  mu_updated_at : timestamp;
  mu_completed_at : option timestamp
}.
#[export] Instance eta_upload : Eta upload_row := fun r =>
  mkUpload (mu_bucket r) (mu_key r) (mu_state r) (mu_chunk_size r) (mu_content_type r)
    (mu_object_id r) (mu_created_at r) (mu_updated_at r) (mu_completed_at r).

Record part_row := mkPart {
  mp_upload_id : uuid;
  mp_part_number : Z;
  mp_state : PartState;
  mp_size_bytes : Z;
  mp_chunk_count : Z;
  mp_etag : option string;
  mp_created_at : timestamp;
  mp_updated_at : timestamp;
  mp_completed_at : option timestamp
}.
#[export] Instance eta_part : Eta part_row := fun r =>
  mkPart (mp_upload_id r) (mp_part_number r) (mp_state r) (mp_size_bytes r)
    (mp_chunk_count r) (mp_etag r) (mp_created_at r) (mp_updated_at r)
    (mp_completed_at r).

Record chunk_row := mkChunk {
  ck_object_id : option uuid;
  ck_part_id : option uuid;
  ck_chunk_index : Z;
  ck_size_bytes : Z;
  ck_checksum_sha256 : option string;
  ck_state : ChunkState;
  ck_created_at : timestamp;
  ck_committed_at : option timestamp;
  ck_available_replicas : Z
}.
#[export] Instance eta_chunk : Eta chunk_row := fun r =>
  mkChunk (ck_object_id r) (ck_part_id r) (ck_chunk_index r) (ck_size_bytes r)
    (ck_checksum_sha256 r) (ck_state r) (ck_created_at r) (ck_committed_at r)
    (ck_available_replicas r).

Record replica_row := mkReplica {
  cr_state : ReplicaState;
  cr_created_at : timestamp;
  cr_updated_at : timestamp;
  cr_verified_at : option timestamp;
  cr_last_error : option string
}.
#[export] Instance eta_replica : Eta replica_row := fun r =>
  mkReplica (cr_state r) (cr_created_at r) (cr_updated_at r) (cr_verified_at r)
    (cr_last_error r).

Record deletion_row := mkDeletion {
  cd_chunk_id : uuid;
  cd_node_id : node_id;
  cd_attempts : Z;
  cd_last_error : option string;
  cd_created_at : timestamp;
  cd_next_attempt_at : timestamp
}.
#[export] Instance eta_deletion : Eta deletion_row := fun r =>
  mkDeletion (cd_chunk_id r) (cd_node_id r) (cd_attempts r) (cd_last_error r)
    (cd_created_at r) (cd_next_attempt_at r).

Record repair_row := mkRepair {
  rj_chunk_id : uuid;
  rj_state : RepairJobState;
  rj_source_node_id : option node_id;
  rj_target_node_id : option node_id;
  rj_attempts : Z;
  rj_last_error : option string;
  rj_owner : option string;
  rj_lease_expires_at : option timestamp;
  rj_next_attempt_at : timestamp;
  rj_created_at : timestamp;
  rj_updated_at : timestamp;
  rj_finished_at : option timestamp
}.
#[export] Instance eta_repair : Eta repair_row := fun r =>
  mkRepair (rj_chunk_id r) (rj_state r) (rj_source_node_id r) (rj_target_node_id r)
    (rj_attempts r) (rj_last_error r) (rj_owner r) (rj_lease_expires_at r)
    (rj_next_attempt_at r) (rj_created_at r) (rj_updated_at r) (rj_finished_at r).

Record reconcile_row := mkReconcile {
  nr_node_id : node_id;
  nr_state : ReconcileState;
  nr_chunks_seen : Z;
  nr_orphans_found : Z;
  nr_phantoms_found : Z;
  nr_verified : Z;
  nr_corrupt_found : Z;
  nr_last_error : option string;
  nr_owner : option string;
  nr_lease_expires_at : option timestamp;
  nr_created_at : timestamp;
  nr_updated_at : timestamp;
  nr_finished_at : option timestamp
}.
#[export] Instance eta_reconcile : Eta reconcile_row := fun r =>
  mkReconcile (nr_node_id r) (nr_state r) (nr_chunks_seen r) (nr_orphans_found r)
    (nr_phantoms_found r) (nr_verified r) (nr_corrupt_found r) (nr_last_error r)
    (nr_owner r) (nr_lease_expires_at r) (nr_created_at r) (nr_updated_at r)
    (nr_finished_at r).

(** ** The database *)

Record db := mkDB {
  storage_nodes : gmap string node_row;
  objects : gmap N object_row;
  multipart_uploads : gmap N upload_row;
  multipart_parts : gmap N part_row;
  chunks : gmap N chunk_row;
  chunk_replicas : gmap (N * string) replica_row;
  chunk_deletions : gmap Z deletion_row;
  repair_jobs : gmap Z repair_row;
  node_reconciliations : gmap Z reconcile_row;
  chunk_deletions_seq : Z;
  repair_jobs_seq : Z;
  node_reconciliations_seq : Z
}.
#[export] Instance eta_db : Eta db := fun d =>
  mkDB (storage_nodes d) (objects d) (multipart_uploads d) (multipart_parts d)
    (chunks d) (chunk_replicas d) (chunk_deletions d) (repair_jobs d)
    (node_reconciliations d) (chunk_deletions_seq d) (repair_jobs_seq d)
    (node_reconciliations_seq d).

Definition empty_db : db := mkDB ∅ ∅ ∅ ∅ ∅ ∅ ∅ ∅ ∅ 0 0 0.

(** ** Constraints *)

Definition node_check (r : node_row) : Prop :=
  (0 <= sn_total_bytes r)%Z /\ (0 <= sn_used_bytes r)%Z /\
  (0 <= sn_available_bytes r)%Z /\ (0 <= sn_chunk_count r)%Z /\
  (0 <= sn_active_requests r)%Z.

Definition object_check (r : object_row) : Prop :=
  (0 <= ob_size_bytes r)%Z /\ (0 < ob_chunk_size r)%Z /\ (0 <= ob_chunk_count r)%Z.

Definition upload_check (r : upload_row) : Prop := (0 < mu_chunk_size r)%Z.

Definition part_check (r : part_row) : Prop :=
  (1 <= mp_part_number r <= 10000)%Z /\ (0 <= mp_size_bytes r)%Z /\
  (0 <= mp_chunk_count r)%Z.

(** [checksum_sha256 ~ '^[0-9a-f]{64}$'] *)
Definition is_lower_hex (c : Ascii.ascii) : bool :=
  let n := Ascii.N_of_ascii c in
  ((48 <=? n) && (n <=? 57) || (97 <=? n) && (n <=? 102))%N.

Fixpoint all_chars (p : Ascii.ascii -> bool) (s : string) : bool :=
  match s with
  | EmptyString => true
  | String c s' => p c && all_chars p s'
  end.

Definition sha256_hex (s : string) : bool :=
  (String.length s =? 64)%nat && all_chars is_lower_hex s.

Definition chunk_check (r : chunk_row) : Prop :=
  (0 <= ck_chunk_index r)%Z /\ (0 <= ck_size_bytes r)%Z /\
  (forall s, ck_checksum_sha256 r = Some s -> sha256_hex s = true) /\
  (is_Some (ck_object_id r) <-> ~ is_Some (ck_part_id r)).

#[export] Instance node_check_dec r : Decision (node_check r).
Proof. unfold node_check. apply _. Defined.
#[export] Instance object_check_dec r : Decision (object_check r).
Proof. unfold object_check. apply _. Defined.
#[export] Instance upload_check_dec r : Decision (upload_check r).
Proof. unfold upload_check. apply _. Defined.
#[export] Instance part_check_dec r : Decision (part_check r).
Proof. unfold part_check. apply _. Defined.
#[export] Instance checksum_check_dec (o : option string) :
  Decision (forall s, o = Some s -> sha256_hex s = true).
Proof.
  refine (match o with
          | Some s => cast_if (decide (sha256_hex s = true))
          | None => left _
          end); naive_solver.
Defined.
#[export] Instance chunk_check_dec r : Decision (chunk_check r).
Proof. unfold chunk_check. apply _. Defined.

(** A (partial) unique index: no two rows satisfying [P] agree on [key]. *)
Definition unique_on {K V B} `{Countable K} (P : V -> Prop) (key : V -> B)
    (m : gmap K V) : Prop :=
  map_Forall (fun k1 v1 =>
    map_Forall (fun k2 v2 => P v1 -> P v2 -> key v1 = key v2 -> k1 = k2) m) m.

Definition references {K V B W} `{Countable K, Countable B}
    (fk : K -> V -> option B) (m : gmap K V) (target : gmap B W) : Prop :=
  map_Forall (fun k v => forall b, fk k v = Some b -> is_Some (target !! b)) m.

Lemma unique_on_spec {K V B} `{Countable K} (P : V -> Prop) (key : V -> B) (m : gmap K V) :
  unique_on P key m <->
  forall k1 v1 k2 v2, m !! k1 = Some v1 -> m !! k2 = Some v2 ->
    P v1 -> P v2 -> key v1 = key v2 -> k1 = k2.
Proof.
  unfold unique_on, map_Forall. naive_solver.
Qed.

#[export] Instance unique_on_dec {K V B} `{Countable K} `{!EqDecision B}
    (P : V -> Prop) `{!forall v, Decision (P v)} (key : V -> B) (m : gmap K V) :
  Decision (unique_on P key m).
Proof. unfold unique_on. apply _. Defined.

#[export] Instance fk_row_dec {B W} `{Countable B} (o : option B) (target : gmap B W) :
  Decision (forall b, o = Some b -> is_Some (target !! b)).
Proof.
  refine (match o with
          | Some b => cast_if (decide (is_Some (target !! b)))
          | None => left _
          end); naive_solver.
Defined.
#[export] Instance references_dec {K V B W} `{Countable K, Countable B}
    (fk : K -> V -> option B) (m : gmap K V) (target : gmap B W) :
  Decision (references fk m target).
Proof. unfold references. apply _. Defined.

Definition objects_current_version_idx (m : gmap N object_row) : Prop :=
  unique_on (fun o => ob_state o = ObjectComplete) (fun o => (ob_bucket o, ob_key o)) m.
Definition multipart_parts_complete_idx (m : gmap N part_row) : Prop :=
  unique_on (fun p => mp_state p = PartComplete)
    (fun p => (mp_upload_id p, mp_part_number p)) m.
Definition chunks_object_index_idx (m : gmap N chunk_row) : Prop :=
  unique_on (fun c => is_Some (ck_object_id c)) (fun c => (ck_object_id c, ck_chunk_index c)) m.
Definition chunks_part_index_idx (m : gmap N chunk_row) : Prop :=
  unique_on (fun c => is_Some (ck_part_id c)) (fun c => (ck_part_id c, ck_chunk_index c)) m.
Definition chunk_deletions_chunk_node_key (m : gmap Z deletion_row) : Prop :=
  unique_on (fun _ => True) (fun r => (cd_chunk_id r, cd_node_id r)) m.
Definition repair_active (r : repair_row) : Prop :=
  rj_state r = RepairPending \/ rj_state r = RepairRunning.
Definition repair_jobs_active_idx (m : gmap Z repair_row) : Prop :=
  unique_on repair_active rj_chunk_id m.
Definition reconcile_active (r : reconcile_row) : Prop :=
  nr_state r = ReconcilePending \/ nr_state r = ReconcileRunning.
Definition node_reconciliations_active_idx (m : gmap Z reconcile_row) : Prop :=
  unique_on reconcile_active nr_node_id m.

#[export] Instance repair_active_dec r : Decision (repair_active r).
Proof. unfold repair_active. apply _. Defined.
#[export] Instance reconcile_active_dec r : Decision (reconcile_active r).
Proof. unfold reconcile_active. apply _. Defined.

(** ** The durability trigger *)

Definition count_available (rs : gmap (N * string) replica_row) (c : N) : Z :=
  count_where (fun k r => k.1 = c /\ cr_state r = ReplicaAvailable) rs.

Definition flexstore_refresh_available_replicas (target : N) (d : db) : db :=
  d <| chunks := alter (fun ch =>
         ch <| ck_available_replicas := count_available (chunk_replicas d) target |>)
         target (chunks d) |>.

Definition chunk_replicas_durability (touched : list N) (d : db) : db :=
  foldr flexstore_refresh_available_replicas d touched.
