(* ===== verification/Statements.v ===== *)
(** * SQL statements over the schema

    The statement forms the store uses (INSERT, UPDATE ... WHERE, upsert,
    DELETE ... WHERE with its cascades), each with the constraint checks and
    the trigger of the migrations, and the integrity invariant [schema_ok]
    that every one of them preserves. *)

From stdpp Require Import gmap strings list sorting.
From S2P Require Import Prelude Sql Schema.

(** A statement that would break a constraint is refused. *)
Definition enforce {S} (P : Prop) `{!Decision P} (v : violation) : Tx S unit :=
  require (bool_decide P) (ErrSQL v).

(** ** Writing whole tables under their constraints *)

Definition put_nodes (m : gmap string node_row) : Tx db unit :=
  do! enforce (map_Forall (fun _ r => node_check r) m) CheckViolation in
  modify (fun d => d <| storage_nodes := m |>).

Definition put_objects (m : gmap N object_row) : Tx db unit :=
  do! enforce (map_Forall (fun _ r => object_check r) m) CheckViolation in
  do! enforce (objects_current_version_idx m) UniqueViolation in
  modify (fun d => d <| objects := m |>).

Definition put_uploads (m : gmap N upload_row) : Tx db unit :=
  do! enforce (map_Forall (fun _ r => upload_check r) m) CheckViolation in
  let! os := gets objects in
  do! enforce (references (fun _ r => mu_object_id r) m os) ForeignKeyViolation in
  modify (fun d => d <| multipart_uploads := m |>).

Definition put_parts (m : gmap N part_row) : Tx db unit :=
  do! enforce (map_Forall (fun _ r => part_check r) m) CheckViolation in
  do! enforce (multipart_parts_complete_idx m) UniqueViolation in
  let! us := gets multipart_uploads in
  do! enforce (references (fun _ r => Some (mp_upload_id r)) m us) ForeignKeyViolation in
  modify (fun d => d <| multipart_parts := m |>).

Definition put_chunks (m : gmap N chunk_row) : Tx db unit :=
  do! enforce (map_Forall (fun _ r => chunk_check r) m) CheckViolation in
  do! enforce (chunks_object_index_idx m) UniqueViolation in
  do! enforce (chunks_part_index_idx m) UniqueViolation in
  let! os := gets objects in
  do! enforce (references (fun _ r => ck_object_id r) m os) ForeignKeyViolation in
  let! ps := gets multipart_parts in
  do! enforce (references (fun _ r => ck_part_id r) m ps) ForeignKeyViolation in
  modify (fun d => d <| chunks := m |>).

(** [touched] lists the chunk of every row the statement writes: the trigger
    fires FOR EACH ROW. *)
Definition put_replicas (touched : list N) (m : gmap (N * string) replica_row) : Tx db unit :=
  let! cs := gets chunks in
  do! enforce (references (fun k _ => Some k.1) m cs) ForeignKeyViolation in
  let! ns := gets storage_nodes in
  do! enforce (references (fun k _ => Some k.2) m ns) ForeignKeyViolation in
  modify (fun d => chunk_replicas_durability touched (d <| chunk_replicas := m |>)).

Definition put_deletions (m : gmap Z deletion_row) : Tx db unit :=
  do! enforce (chunk_deletions_chunk_node_key m) UniqueViolation in
  modify (fun d => d <| chunk_deletions := m |>).

Definition put_repairs (m : gmap Z repair_row) : Tx db unit :=
  do! enforce (repair_jobs_active_idx m) UniqueViolation in
  let! cs := gets chunks in
  do! enforce (references (fun _ r => Some (rj_chunk_id r)) m cs) ForeignKeyViolation in
  modify (fun d => d <| repair_jobs := m |>).

Definition put_reconciles (m : gmap Z reconcile_row) : Tx db unit :=
  do! enforce (node_reconciliations_active_idx m) UniqueViolation in
  let! ns := gets storage_nodes in
  do! enforce (references (fun _ r => Some (nr_node_id r)) m ns) ForeignKeyViolation in
  modify (fun d => d <| node_reconciliations := m |>).

(** ** UPDATE ... WHERE; the result is the number of rows affected *)

Section updates.
Context {K V : Type} `{Countable K}.

Definition update_table (get : db -> gmap K V) (put : gmap K V -> Tx db unit)
    (P : K -> V -> Prop) `{!forall k v, Decision (P k v)} (f : V -> V) : Tx db Z :=
  let! m := gets get in
  do! put (update_where P f m) in
  tx_ret (count_where P m).

Definition insert_row (get : db -> gmap K V) (put : gmap K V -> Tx db unit)
    (k : K) (v : V) : Tx db unit :=
  let! m := gets get in
  do! enforce (m !! k = None) UniqueViolation in
  put (<[k:=v]> m).
End updates.

Definition update_nodes P `{!forall k v, Decision (P k v)} f : Tx db Z :=
  update_table storage_nodes put_nodes P f.
Definition update_objects P `{!forall k v, Decision (P k v)} f : Tx db Z :=
  update_table objects put_objects P f.
Definition update_uploads P `{!forall k v, Decision (P k v)} f : Tx db Z :=
  update_table multipart_uploads put_uploads P f.
Definition update_parts P `{!forall k v, Decision (P k v)} f : Tx db Z :=
  update_table multipart_parts put_parts P f.
Definition update_chunks P `{!forall k v, Decision (P k v)} f : Tx db Z :=
  update_table chunks put_chunks P f.
Definition update_deletions P `{!forall k v, Decision (P k v)} f : Tx db Z :=
  update_table chunk_deletions put_deletions P f.
Definition update_repairs P `{!forall k v, Decision (P k v)} f : Tx db Z :=
  update_table repair_jobs put_repairs P f.
Definition update_reconciles P `{!forall k v, Decision (P k v)} f : Tx db Z :=
  update_table node_reconciliations put_reconciles P f.

Definition insert_object := insert_row objects put_objects.
Definition insert_upload := insert_row multipart_uploads put_uploads.
Definition insert_part := insert_row multipart_parts put_parts.
Definition insert_chunk := insert_row chunks put_chunks.

Definition update_replicas (P : N * string -> replica_row -> Prop)
    `{!forall k v, Decision (P k v)} (f : replica_row -> replica_row) : Tx db Z :=
  let! m := gets chunk_replicas in
  do! put_replicas (rows_where P m).*1.*1 (update_where P f m) in
  tx_ret (count_where P m).

(** INSERT ... ON CONFLICT (chunk_id, node_id) DO UPDATE *)
Definition upsert_replica (k : N * string) (ins : replica_row)
    (upd : replica_row -> replica_row) : Tx db unit :=
  let! m := gets chunk_replicas in
  put_replicas [k.1] (<[k := match m !! k with Some r => upd r | None => ins end]> m).

(** ** DELETE ... WHERE with ON DELETE CASCADE / SET NULL *)

Definition delete_replicas (P : N * string -> replica_row -> Prop)
    `{!forall k v, Decision (P k v)} : Tx db Z :=
  let! m := gets chunk_replicas in
  do! put_replicas (rows_where P m).*1.*1 (delete_where P m) in
  tx_ret (count_where P m).

Definition delete_deletions (P : Z -> deletion_row -> Prop)
    `{!forall k v, Decision (P k v)} : Tx db Z :=
  let! m := gets chunk_deletions in
  do! put_deletions (delete_where P m) in
  tx_ret (count_where P m).

Definition delete_repairs (P : Z -> repair_row -> Prop)
    `{!forall k v, Decision (P k v)} : Tx db Z :=
  let! m := gets repair_jobs in
  do! put_repairs (delete_where P m) in
  tx_ret (count_where P m).

(** Deleting a chunk takes its replica rows and repair jobs with it. *)
Definition cascade_chunks (P : N -> chunk_row -> Prop)
    `{!forall k v, Decision (P k v)} (d : db) : db :=
  let cs := delete_where P (chunks d) in
  d <| chunks := cs |>
    <| chunk_replicas := delete_where (fun k _ => cs !! k.1 = None) (chunk_replicas d) |>
    <| repair_jobs := delete_where (fun _ r => cs !! rj_chunk_id r = None) (repair_jobs d) |>.

Definition delete_chunks (P : N -> chunk_row -> Prop)
    `{!forall k v, Decision (P k v)} : Tx db Z :=
  let! m := gets chunks in
  do! modify (cascade_chunks P) in
  tx_ret (count_where P m).

(** A reference to a row that is gone. *)
Definition dangling {B W} `{Countable B} (target : gmap B W) (o : option B) : Prop :=
  match o with Some i => target !! i = None | None => False end.
#[export] Instance dangling_dec {B W} `{Countable B} (target : gmap B W) o :
  Decision (dangling target o).
Proof. destruct o; simpl; apply _. Defined.

(** Deleting an object takes its chunks with it and detaches the multipart
    session that produced it. *)
Definition cascade_objects (P : N -> object_row -> Prop)
    `{!forall k v, Decision (P k v)} (d : db) : db :=
  let os := delete_where P (objects d) in
  cascade_chunks (fun _ c => dangling os (ck_object_id c))
    (d <| objects := os |>
       <| multipart_uploads := update_where (fun _ u => dangling os (mu_object_id u))
            (fun u => u <| mu_object_id := None |>) (multipart_uploads d) |>).

Definition delete_objects (P : N -> object_row -> Prop)
    `{!forall k v, Decision (P k v)} : Tx db Z :=
  let! m := gets objects in
  do! modify (cascade_objects P) in
  tx_ret (count_where P m).

(** Deleting a multipart session takes its parts and their chunks with it. *)
Definition cascade_uploads (P : N -> upload_row -> Prop)
    `{!forall k v, Decision (P k v)} (d : db) : db :=
  let us := delete_where P (multipart_uploads d) in
  let ps := delete_where (fun _ p => us !! mp_upload_id p = None) (multipart_parts d) in
  cascade_chunks (fun _ c => dangling ps (ck_part_id c))
    (d <| multipart_uploads := us |> <| multipart_parts := ps |>).

Definition delete_uploads (P : N -> upload_row -> Prop)
    `{!forall k v, Decision (P k v)} : Tx db Z :=
  let! m := gets multipart_uploads in
  do! modify (cascade_uploads P) in
  tx_ret (count_where P m).

(** ** Rows drawn from a sequence *)

(** INSERT INTO chunk_deletions ... ON CONFLICT (chunk_id, node_id) DO NOTHING;
    the result is the number of rows inserted. *)
Definition enqueue_deletion (now : Z) (c : N) (n : string) : Tx db Z :=
  let! m := gets chunk_deletions in
  if decide (map_Exists (fun _ r => cd_chunk_id r = c /\ cd_node_id r = n) m)
  then tx_ret 0%Z
  else
    let! i := gets chunk_deletions_seq in
    do! modify (fun d => d <| chunk_deletions_seq := (i + 1)%Z |>) in
    do! insert_row chunk_deletions put_deletions (i + 1)%Z (mkDeletion c n 0 None now now) in
    tx_ret 1%Z.

(** INSERT INTO repair_jobs (chunk_id, state) VALUES (c, 'PENDING')
    ON CONFLICT (chunk_id) WHERE state IN ('PENDING', 'RUNNING') DO NOTHING;
    the result is the number of rows inserted. *)
Definition enqueue_repair (now : Z) (c : N) : Tx db Z :=
  let! m := gets repair_jobs in
  if decide (map_Exists (fun _ r => rj_chunk_id r = c /\ repair_active r) m)
  then tx_ret 0%Z
  else
    let! i := gets repair_jobs_seq in
    do! modify (fun d => d <| repair_jobs_seq := (i + 1)%Z |>) in
    do! insert_row repair_jobs put_repairs (i + 1)%Z
          (mkRepair c RepairPending None None 0 None None None now now now None) in
    tx_ret 1%Z.

(** INSERT INTO node_reconciliations (node_id, state) VALUES (n, 'PENDING')
    ON CONFLICT (node_id) WHERE state IN ('PENDING', 'RUNNING') DO NOTHING *)
Definition enqueue_reconcile (now : Z) (n : string) : Tx db Z :=
  let! m := gets node_reconciliations in
  if decide (map_Exists (fun _ r => nr_node_id r = n /\ reconcile_active r) m)
  then tx_ret 0%Z
  else
    let! i := gets node_reconciliations_seq in
    do! modify (fun d => d <| node_reconciliations_seq := (i + 1)%Z |>) in
    do! insert_row node_reconciliations put_reconciles (i + 1)%Z
          (mkReconcile n ReconcilePending 0 0 0 0 0 None None None now now None) in
    tx_ret 1%Z.

(** ** Integrity of the database *)

Definition counters_exact (d : db) : Prop :=
  map_Forall (fun c r => ck_available_replicas r = count_available (chunk_replicas d) c)
    (chunks d).

Record schema_ok (d : db) : Prop := {
  so_nodes : map_Forall (fun _ r => node_check r) (storage_nodes d);
  so_objects : map_Forall (fun _ r => object_check r) (objects d);
  so_current : objects_current_version_idx (objects d);
  so_uploads : map_Forall (fun _ r => upload_check r) (multipart_uploads d);
  so_upload_object : references (fun _ r => mu_object_id r) (multipart_uploads d) (objects d);
  so_parts : map_Forall (fun _ r => part_check r) (multipart_parts d);
  so_part_complete : multipart_parts_complete_idx (multipart_parts d);
  so_part_upload :
    references (fun _ r => Some (mp_upload_id r)) (multipart_parts d) (multipart_uploads d);
  so_chunks : map_Forall (fun _ r => chunk_check r) (chunks d);
  so_chunk_object_idx : chunks_object_index_idx (chunks d);
  so_chunk_part_idx : chunks_part_index_idx (chunks d);
  so_chunk_object : references (fun _ r => ck_object_id r) (chunks d) (objects d);
  so_chunk_part : references (fun _ r => ck_part_id r) (chunks d) (multipart_parts d);
  so_replica_chunk : references (fun k _ => Some k.1) (chunk_replicas d) (chunks d);
  so_replica_node : references (fun k _ => Some k.2) (chunk_replicas d) (storage_nodes d);
  so_deletions : chunk_deletions_chunk_node_key (chunk_deletions d);
  so_repairs : repair_jobs_active_idx (repair_jobs d);
  so_repair_chunk : references (fun _ r => Some (rj_chunk_id r)) (repair_jobs d) (chunks d);
  so_reconciles : node_reconciliations_active_idx (node_reconciliations d);
  so_reconcile_node :
    references (fun _ r => Some (nr_node_id r)) (node_reconciliations d) (storage_nodes d);
  so_counters : counters_exact d;
  so_seq_deletions : map_Forall (fun i _ => (i <= chunk_deletions_seq d)%Z) (chunk_deletions d);
  so_seq_repairs : map_Forall (fun i _ => (i <= repair_jobs_seq d)%Z) (repair_jobs d);
  so_seq_reconciles :
    map_Forall (fun i _ => (i <= node_reconciliations_seq d)%Z) (node_reconciliations d)
}.

(** ** Helper facts on constraints *)

Lemma enforce_ok {S} (P : Prop) `{!Decision P} v u (s s' : S) :
  enforce P v s = Ok (u, s') <-> P /\ s' = s.
Proof. unfold enforce. by rewrite require_ok, bool_decide_eq_true. Qed.

Ltac tx_inv_leaf H ::=
  lazymatch type of H with
  | enforce _ _ _ = Ok _ => apply enforce_ok in H as [H ?]; subst
  | insert_row _ _ _ _ _ = Ok _ => unfold insert_row in H; tx_inv H
  | _ => idtac
  end.

Definition keys_le {K V W} `{Countable K} (m1 : gmap K V) (m2 : gmap K W) : Prop :=
  forall k, is_Some (m1 !! k) -> is_Some (m2 !! k).

Lemma keys_le_refl {K V} `{Countable K} (m : gmap K V) : keys_le m m.
Proof. intros k. done. Qed.
Lemma keys_le_insert {K V} `{Countable K} (m : gmap K V) k v : keys_le m (<[k:=v]> m).
Proof. intros j Hj. apply lookup_insert_is_Some'. auto. Qed.
Lemma keys_le_update {K V} `{Countable K} (m : gmap K V)
    (P : K -> V -> Prop) `{!forall k v, Decision (P k v)} f :
  keys_le m (update_where P f m).
Proof. intros j Hj. by apply update_where_is_Some. Qed.
#[export] Hint Resolve keys_le_refl keys_le_insert keys_le_update : keeps.

Lemma references_mono {K V B W W'} `{Countable K, Countable B}
    (fk : K -> V -> option B) (m : gmap K V) (t1 : gmap B W) (t2 : gmap B W') :
  references fk m t1 -> keys_le t1 t2 -> references fk m t2.
Proof. intros Hr Hk k v Hv b Hb. apply Hk. eapply Hr; eauto. Qed.

(** The trigger recounts the touched chunks and changes nothing else. *)
Lemma trigger_fields ts d :
  exists cs, chunk_replicas_durability ts d = d <| chunks := cs |> /\
    forall c, cs !! c =
      if decide (c ∈ ts)
      then (fun r => r <| ck_available_replicas := count_available (chunk_replicas d) c |>)
             <$> chunks d !! c
      else chunks d !! c.
Proof.
  induction ts as [|t ts (cs&Heq&Hcs)].
  - exists (chunks d). split; [by destruct d|]. done.
  - unfold chunk_replicas_durability in *. cbn [foldr].
    rewrite Heq. unfold flexstore_refresh_available_replicas. cbn.
    eexists. split; [reflexivity|]. intros c.
    destruct (decide (c = t)) as [->|Hne].
    + rewrite lookup_alter_eq, Hcs. rewrite (decide_True (P:=t ∈ t :: ts)) by set_solver.
      case_decide; [|done]. by destruct (chunks d !! t).
    + rewrite lookup_alter_ne by done. rewrite Hcs.
      repeat case_decide; set_solver.
Qed.

(** Recounting the touched chunks restores exactness of the counters when the
    untouched chunks have the count they had before. *)
Lemma trigger_counters ts d :
  (forall c r, chunks d !! c = Some r -> c ∉ ts ->
     ck_available_replicas r = count_available (chunk_replicas d) c) ->
  counters_exact (chunk_replicas_durability ts d).
Proof.
  intros Hold. destruct (trigger_fields ts d) as (cs&->&Hcs).
  intros c r. simpl. rewrite Hcs. case_decide as Hin.
  - intros (r0&Hr0&->)%fmap_Some. done.
  - intros Hr. eauto.
Qed.

(** [same_modulo_counter cs cs']: the chunk tables agree except for the
    denormalised counter. *)
Definition strip_counter (r : chunk_row) : chunk_row := r <| ck_available_replicas := 0%Z |>.

Lemma trigger_strip ts d c :
  strip_counter <$> chunks (chunk_replicas_durability ts d) !! c =
  strip_counter <$> chunks d !! c.
Proof.
  destruct (trigger_fields ts d) as (cs&->&Hcs). simpl. rewrite Hcs.
  case_decide; [|done]. by destruct (chunks d !! c).
Qed.

Lemma strip_counter_eq c1 c2 :
  strip_counter c1 = strip_counter c2 ->
  ck_object_id c1 = ck_object_id c2 /\ ck_part_id c1 = ck_part_id c2 /\
  ck_chunk_index c1 = ck_chunk_index c2 /\ ck_size_bytes c1 = ck_size_bytes c2 /\
  ck_checksum_sha256 c1 = ck_checksum_sha256 c2 /\ ck_state c1 = ck_state c2 /\
  ck_created_at c1 = ck_created_at c2 /\ ck_committed_at c1 = ck_committed_at c2.
Proof. destruct c1, c2. unfold strip_counter, upd; simpl. intros [=]; subst. done. Qed.

(** What the trigger does to one chunk, read from the new table. *)
Lemma trigger_lookup ts d c r' :
  chunks (chunk_replicas_durability ts d) !! c = Some r' ->
  exists r, chunks d !! c = Some r /\ strip_counter r' = strip_counter r.
Proof.
  intros Hr'. pose proof (trigger_strip ts d c) as Hs. rewrite Hr' in Hs. simpl in Hs.
  symmetry in Hs. apply fmap_Some in Hs as (r&Hr&Heq). eauto.
Qed.
Lemma trigger_lookup_upd ts d c r' :
  chunks (chunk_replicas_durability ts d) !! c = Some r' ->
  exists r n, chunks d !! c = Some r /\ r' = r <| ck_available_replicas := n |>.
Proof.
  destruct (trigger_fields ts d) as (cs&->&Hcs). simpl. rewrite Hcs. case_decide.
  - intros (r&Hr&->)%fmap_Some. eauto.
  - intros Hr. exists r', (ck_available_replicas r'). split; [done|]. by destruct r'.
Qed.
Lemma trigger_is_Some ts d c :
  is_Some (chunks (chunk_replicas_durability ts d) !! c) <-> is_Some (chunks d !! c).
Proof.
  rewrite <-(fmap_is_Some strip_counter), trigger_strip. apply fmap_is_Some.
Qed.

(** ** What a successful table write means *)

(** Runs a write forwards when its constraints are hypotheses. *)
Ltac run_checks :=
  unfold tx_bind, gets, enforce, require, tx_ret, modify; cbn;
  repeat (rewrite bool_decide_eq_true_2 by done; cbn).

Ltac solve_put_ok f u :=
  split;
  [ unfold f; let H := fresh in intros H; tx_inv H; split_and!; done
  | intros; destruct_and?; subst; unfold f; run_checks; by destruct u ].

Lemma put_nodes_ok m d u d' :
  put_nodes m d = Ok (u, d') <->
  map_Forall (fun _ r => node_check r) m /\ d' = d <| storage_nodes := m |>.
Proof. solve_put_ok put_nodes u. Qed.

Lemma put_objects_ok m d u d' :
  put_objects m d = Ok (u, d') <->
  map_Forall (fun _ r => object_check r) m /\ objects_current_version_idx m /\
  d' = d <| objects := m |>.
Proof. solve_put_ok put_objects u. Qed.

Lemma put_uploads_ok m d u d' :
  put_uploads m d = Ok (u, d') <->
  map_Forall (fun _ r => upload_check r) m /\
  references (fun _ r => mu_object_id r) m (objects d) /\
  d' = d <| multipart_uploads := m |>.
Proof. solve_put_ok put_uploads u. Qed.

Lemma put_parts_ok m d u d' :
  put_parts m d = Ok (u, d') <->
  map_Forall (fun _ r => part_check r) m /\ multipart_parts_complete_idx m /\
  references (fun _ r => Some (mp_upload_id r)) m (multipart_uploads d) /\
  d' = d <| multipart_parts := m |>.
Proof. solve_put_ok put_parts u. Qed.

Lemma put_chunks_ok m d u d' :
  put_chunks m d = Ok (u, d') <->
  map_Forall (fun _ r => chunk_check r) m /\ chunks_object_index_idx m /\
  chunks_part_index_idx m /\
  references (fun _ r => ck_object_id r) m (objects d) /\
  references (fun _ r => ck_part_id r) m (multipart_parts d) /\
  d' = d <| chunks := m |>.
Proof. solve_put_ok put_chunks u. Qed.

Lemma put_replicas_ok ts m d u d' :
  put_replicas ts m d = Ok (u, d') <->
  references (fun k _ => Some k.1) m (chunks d) /\
  references (fun k _ => Some k.2) m (storage_nodes d) /\
  d' = chunk_replicas_durability ts (d <| chunk_replicas := m |>).
Proof. solve_put_ok put_replicas u. Qed.

Lemma put_deletions_ok m d u d' :
  put_deletions m d = Ok (u, d') <->
  chunk_deletions_chunk_node_key m /\ d' = d <| chunk_deletions := m |>.
Proof. solve_put_ok put_deletions u. Qed.

Lemma put_repairs_ok m d u d' :
  put_repairs m d = Ok (u, d') <->
  repair_jobs_active_idx m /\
  references (fun _ r => Some (rj_chunk_id r)) m (chunks d) /\
  d' = d <| repair_jobs := m |>.
Proof. solve_put_ok put_repairs u. Qed.

Lemma put_reconciles_ok m d u d' :
  put_reconciles m d = Ok (u, d') <->
  node_reconciliations_active_idx m /\
  references (fun _ r => Some (nr_node_id r)) m (storage_nodes d) /\
  d' = d <| node_reconciliations := m |>.
Proof. solve_put_ok put_reconciles u. Qed.

(** ** Every table write preserves integrity *)

Ltac break_schema H := destruct H as [].
Ltac solve_schema :=
  constructor; simpl; try done;
  try (eapply references_mono; [done|]; first [done | by apply keys_le_refl]).

Lemma put_nodes_schema m d u d' :
  schema_ok d -> keys_le (storage_nodes d) m -> put_nodes m d = Ok (u, d') -> schema_ok d'.
Proof.
  intros [] Hk [? ->]%put_nodes_ok. solve_schema.
Qed.

Lemma put_objects_schema m d u d' :
  schema_ok d -> keys_le (objects d) m -> put_objects m d = Ok (u, d') -> schema_ok d'.
Proof. intros [] Hk (?&?&->)%put_objects_ok. solve_schema. Qed.

Lemma put_uploads_schema m d u d' :
  schema_ok d -> keys_le (multipart_uploads d) m -> put_uploads m d = Ok (u, d') -> schema_ok d'.
Proof. intros [] Hk (?&?&->)%put_uploads_ok. solve_schema. Qed.

Lemma put_parts_schema m d u d' :
  schema_ok d -> keys_le (multipart_parts d) m -> put_parts m d = Ok (u, d') -> schema_ok d'.
Proof. intros [] Hk (?&?&?&->)%put_parts_ok. solve_schema. Qed.

(** Writing [chunks] must leave the trigger's counters exact. *)
Lemma put_chunks_schema m d u d' :
  schema_ok d -> keys_le (chunks d) m ->
  map_Forall (fun c r => ck_available_replicas r = count_available (chunk_replicas d) c) m ->
  put_chunks m d = Ok (u, d') -> schema_ok d'.
Proof. intros [] Hk Hc (?&?&?&?&?&->)%put_chunks_ok. solve_schema. Qed.

Lemma put_deletions_schema m d u d' :
  schema_ok d -> map_Forall (fun i _ => (i <= chunk_deletions_seq d)%Z) m ->
  put_deletions m d = Ok (u, d') -> schema_ok d'.
Proof. intros [] Hk (?&->)%put_deletions_ok. solve_schema. Qed.

Lemma put_repairs_schema m d u d' :
  schema_ok d -> map_Forall (fun i _ => (i <= repair_jobs_seq d)%Z) m ->
  put_repairs m d = Ok (u, d') -> schema_ok d'.
Proof. intros [] Hk (?&?&->)%put_repairs_ok. solve_schema. Qed.

Lemma put_reconciles_schema m d u d' :
  schema_ok d -> map_Forall (fun i _ => (i <= node_reconciliations_seq d)%Z) m ->
  put_reconciles m d = Ok (u, d') -> schema_ok d'.
Proof. intros [] Hk (?&?&->)%put_reconciles_ok. solve_schema. Qed.

(** A replica write keeps the counters exact as long as every chunk it does
    not report as touched keeps its number of AVAILABLE rows. *)
Lemma put_replicas_schema ts m d u d' :
  schema_ok d ->
  (forall c, c ∉ ts -> count_available m c = count_available (chunk_replicas d) c) ->
  put_replicas ts m d = Ok (u, d') -> schema_ok d'.
Proof.
  intros [] Hc (Hfc&Hfn&->)%put_replicas_ok.
  set (d1 := d <| chunk_replicas := m |>).
  assert (counters_exact (chunk_replicas_durability ts d1)) as Hcnt.
  { apply trigger_counters. intros c r Hr Hts. simpl in *.
    rewrite Hc by done. by apply so_counters0. }
  destruct (trigger_fields ts d1) as (cs&Heq&_).
  assert (forall c r', cs !! c = Some r' ->
            exists r, chunks d !! c = Some r /\ strip_counter r' = strip_counter r) as Hback.
  { intros c r' Hr'. apply (trigger_lookup ts d1). by rewrite Heq. }
  assert (keys_le (chunks d) cs) as Hkeys.
  { intros c Hs. pose proof (trigger_is_Some ts d1 c) as Hiff. rewrite Heq in Hiff.
    by apply Hiff. }
  rewrite Heq in *. constructor; simpl; try done.
  - intros c r' Hr'. destruct (Hback c r' Hr') as (r&Hr&Hs).
    apply strip_counter_eq in Hs. destruct_and!.
    specialize (so_chunks0 c r Hr). unfold chunk_check in *. naive_solver congruence.
  - apply unique_on_spec. intros c1 r1 c2 r2 H1 H2.
    destruct (Hback _ _ H1) as (q1&Hq1&E1), (Hback _ _ H2) as (q2&Hq2&E2).
    apply strip_counter_eq in E1, E2. destruct_and!.
    pose proof (proj1 (unique_on_spec _ _ _) so_chunk_object_idx0 c1 q1 c2 q2 Hq1 Hq2) as Hu.
    simpl in Hu. intros Ha Hb Hab. apply Hu; congruence.
  - apply unique_on_spec. intros c1 r1 c2 r2 H1 H2.
    destruct (Hback _ _ H1) as (q1&Hq1&E1), (Hback _ _ H2) as (q2&Hq2&E2).
    apply strip_counter_eq in E1, E2. destruct_and!.
    pose proof (proj1 (unique_on_spec _ _ _) so_chunk_part_idx0 c1 q1 c2 q2 Hq1 Hq2) as Hu.
    simpl in Hu. intros Ha Hb Hab. apply Hu; congruence.
  - intros c r' Hr' b Hb. destruct (Hback c r' Hr') as (r&Hr&Hs).
    apply strip_counter_eq in Hs. destruct_and!. eapply so_chunk_object0; [done|congruence].
  - intros c r' Hr' b Hb. destruct (Hback c r' Hr') as (r&Hr&Hs).
    apply strip_counter_eq in Hs. destruct_and!. eapply so_chunk_part0; [done|congruence].
  - by eapply references_mono.
  - by eapply references_mono.
Qed.

Section count_available.
Implicit Types (m : gmap (N * string) replica_row).

(** Rows of one chunk decide its count. *)
Lemma count_available_ext m1 m2 c :
  (forall n, m1 !! (c, n) = m2 !! (c, n)) -> count_available m1 c = count_available m2 c.
Proof.
  intros Heq. apply count_where_ext. intros [c' n]. simpl.
  split; intros (r&Hr&->&Hs); exists r; rewrite Heq in *; auto.
Qed.

Lemma count_available_update m P `{!forall k v, Decision (P k v)} f c :
  c ∉ (rows_where P m).*1.*1 ->
  count_available (update_where P f m) c = count_available m c.
Proof.
  intros Hc. apply count_available_ext. intros n. rewrite lookup_update_where.
  destruct (m !! (c, n)) as [r|] eqn:Hr; [|done]. simpl.
  rewrite decide_False; [done|]. intros HP. apply Hc.
  apply list_elem_of_fmap. exists (c, n). split; [done|].
  apply list_elem_of_fmap. exists ((c, n), r). split; [done|].
  by apply elem_of_rows_where.
Qed.

Lemma count_available_delete m P `{!forall k v, Decision (P k v)} c :
  c ∉ (rows_where P m).*1.*1 ->
  count_available (delete_where P m) c = count_available m c.
Proof.
  intros Hc. apply count_available_ext. intros n. apply option_eq. intros r.
  rewrite lookup_delete_where_Some. split; [tauto|]. intros Hr. split; [done|].
  intros HP. apply Hc.
  apply list_elem_of_fmap. exists (c, n). split; [done|].
  apply list_elem_of_fmap. exists ((c, n), r). split; [done|].
  by apply elem_of_rows_where.
Qed.

Lemma count_available_insert_ne m c c' n r :
  c <> c' -> count_available (<[(c', n):=r]> m) c = count_available m c.
Proof. intros. apply count_available_ext. intros n'. rewrite lookup_insert_ne; naive_solver. Qed.

Lemma count_available_pos m c :
  (0 < count_available m c)%Z <->
  exists n r, m !! (c, n) = Some r /\ cr_state r = ReplicaAvailable.
Proof.
  unfold count_available. rewrite count_where_pos. split.
  - intros ([c' n]&r&Hr&Hc&Hs). simpl in Hc. subst. eauto.
  - intros (n&r&Hr&Hs). exists (c, n), r. auto.
Qed.
End count_available.

(** ** Every statement preserves integrity *)

Section statements_keep.

Lemma keeps_update_nodes P `{!forall k v, Decision (P k v)} f :
  tx_keeps schema_ok (update_nodes P f).
Proof.
  intros d a d' Hd Hrun. unfold update_nodes, update_table in Hrun. tx_inv Hrun.
  eapply put_nodes_schema; [done| |done]; auto with keeps.
Qed.
Lemma keeps_update_objects P `{!forall k v, Decision (P k v)} f :
  tx_keeps schema_ok (update_objects P f).
Proof.
  intros d a d' Hd Hrun. unfold update_objects, update_table in Hrun. tx_inv Hrun.
  eapply put_objects_schema; [done| |done]; auto with keeps.
Qed.
Lemma keeps_update_uploads P `{!forall k v, Decision (P k v)} f :
  tx_keeps schema_ok (update_uploads P f).
Proof.
  intros d a d' Hd Hrun. unfold update_uploads, update_table in Hrun. tx_inv Hrun.
  eapply put_uploads_schema; [done| |done]; auto with keeps.
Qed.
Lemma keeps_update_parts P `{!forall k v, Decision (P k v)} f :
  tx_keeps schema_ok (update_parts P f).
Proof.
  intros d a d' Hd Hrun. unfold update_parts, update_table in Hrun. tx_inv Hrun.
  eapply put_parts_schema; [done| |done]; auto with keeps.
Qed.

(** No statement of the store writes [available_replicas] itself. *)
Lemma keeps_update_chunks P `{!forall k v, Decision (P k v)} f :
  (forall r, ck_available_replicas (f r) = ck_available_replicas r) ->
  tx_keeps schema_ok (update_chunks P f).
Proof.
  intros Hf d a d' Hd Hrun. unfold update_chunks, update_table in Hrun. tx_inv Hrun.
  eapply put_chunks_schema; [done| | |done]; auto with keeps.
  intros c r (r0&Hr0&->)%lookup_update_where_Some.
  rewrite <-(so_counters _ Hd c r0 Hr0). by case_decide.
Qed.

Lemma keys_bounded_update {V} (m : gmap Z V) P `{!forall k v, Decision (P k v)} f b :
  map_Forall (fun i _ => (i <= b)%Z) m ->
  map_Forall (fun i _ => (i <= b)%Z) (update_where P f m).
Proof. intros Hm i r (r0&Hr0&->)%lookup_update_where_Some. by eapply Hm. Qed.
Lemma keys_bounded_delete {V} (m : gmap Z V) P `{!forall k v, Decision (P k v)} b :
  map_Forall (fun i _ => (i <= b)%Z) m ->
  map_Forall (fun i _ => (i <= b)%Z) (delete_where P m).
Proof. intros Hm i r [Hr _]%lookup_delete_where_Some. by eapply Hm. Qed.

Lemma keeps_update_deletions P `{!forall k v, Decision (P k v)} f :
  tx_keeps schema_ok (update_deletions P f).
Proof.
  intros d a d' Hd Hrun. unfold update_deletions, update_table in Hrun. tx_inv Hrun.
  eapply put_deletions_schema; [done| |done]. apply keys_bounded_update, Hd.
Qed.
Lemma keeps_update_repairs P `{!forall k v, Decision (P k v)} f :
  tx_keeps schema_ok (update_repairs P f).
Proof.
  intros d a d' Hd Hrun. unfold update_repairs, update_table in Hrun. tx_inv Hrun.
  eapply put_repairs_schema; [done| |done]. apply keys_bounded_update, Hd.
Qed.
Lemma keeps_update_reconciles P `{!forall k v, Decision (P k v)} f :
  tx_keeps schema_ok (update_reconciles P f).
Proof.
  intros d a d' Hd Hrun. unfold update_reconciles, update_table in Hrun. tx_inv Hrun.
  eapply put_reconciles_schema; [done| |done]. apply keys_bounded_update, Hd.
Qed.
Lemma keeps_delete_deletions P `{!forall k v, Decision (P k v)} :
  tx_keeps schema_ok (delete_deletions P).
Proof.
  intros d a d' Hd Hrun. unfold delete_deletions in Hrun. tx_inv Hrun.
  eapply put_deletions_schema; [done| |done]. apply keys_bounded_delete, Hd.
Qed.
Lemma keeps_delete_repairs P `{!forall k v, Decision (P k v)} :
  tx_keeps schema_ok (delete_repairs P).
Proof.
  intros d a d' Hd Hrun. unfold delete_repairs in Hrun. tx_inv Hrun.
  eapply put_repairs_schema; [done| |done]. apply keys_bounded_delete, Hd.
Qed.

Lemma keeps_insert_object i r : tx_keeps schema_ok (insert_object i r).
Proof.
  intros d a d' Hd Hrun. unfold insert_object, insert_row in Hrun. tx_inv Hrun.
  eapply put_objects_schema; [done| |done]; auto with keeps.
Qed.
Lemma keeps_insert_upload i r : tx_keeps schema_ok (insert_upload i r).
Proof.
  intros d a d' Hd Hrun. unfold insert_upload, insert_row in Hrun. tx_inv Hrun.
  eapply put_uploads_schema; [done| |done]; auto with keeps.
Qed.
Lemma keeps_insert_part i r : tx_keeps schema_ok (insert_part i r).
Proof.
  intros d a d' Hd Hrun. unfold insert_part, insert_row in Hrun. tx_inv Hrun.
  eapply put_parts_schema; [done| |done]; auto with keeps.
Qed.

(** A fresh chunk has no replica row, by the foreign key. *)
Lemma count_available_fresh d c :
  schema_ok d -> chunks d !! c = None -> count_available (chunk_replicas d) c = 0%Z.
Proof.
  intros Hd Hc. apply count_where_zero. intros [c' n] r Hr [Heq _]. simpl in Heq; subst.
  destruct (so_replica_chunk _ Hd _ _ Hr c eq_refl). congruence.
Qed.
Lemma keeps_insert_chunk i r :
  ck_available_replicas r = 0%Z -> tx_keeps schema_ok (insert_chunk i r).
Proof.
  intros H0 d a d' Hd Hrun. unfold insert_chunk, insert_row in Hrun. tx_inv Hrun.
  eapply put_chunks_schema; [done| | |done]; auto with keeps.
  apply map_Forall_insert; [done|]. split; [|apply Hd].
  by rewrite H0, count_available_fresh.
Qed.

Lemma keeps_update_replicas P `{!forall k v, Decision (P k v)} f :
  tx_keeps schema_ok (update_replicas P f).
Proof.
  intros d a d' Hd Hrun. unfold update_replicas in Hrun. tx_inv Hrun.
  eapply put_replicas_schema; [done| |done]. intros c. apply count_available_update.
Qed.
Lemma keeps_delete_replicas P `{!forall k v, Decision (P k v)} :
  tx_keeps schema_ok (delete_replicas P).
Proof.
  intros d a d' Hd Hrun. unfold delete_replicas in Hrun. tx_inv Hrun.
  eapply put_replicas_schema; [done| |done]. intros c. apply count_available_delete.
Qed.
Lemma keeps_upsert_replica k ins f : tx_keeps schema_ok (upsert_replica k ins f).
Proof.
  intros d a d' Hd Hrun. unfold upsert_replica in Hrun. tx_inv Hrun.
  eapply put_replicas_schema; [done| |done]. intros c Hc. destruct k as [c' n].
  apply count_available_insert_ne. set_solver.
Qed.
End statements_keep.

#[export] Hint Resolve keeps_update_nodes keeps_update_objects keeps_update_uploads
  keeps_update_parts keeps_update_chunks keeps_update_deletions keeps_update_repairs
  keeps_update_reconciles keeps_delete_deletions keeps_delete_repairs keeps_insert_object
  keeps_insert_upload keeps_insert_part keeps_insert_chunk keeps_update_replicas
  keeps_delete_replicas keeps_upsert_replica : keeps.
#[export] Hint Extern 1 (forall r, ck_available_replicas _ = _) => intros; reflexivity : keeps.
#[export] Hint Extern 1 (ck_available_replicas _ = 0%Z) => reflexivity : keeps.

(** ** Cascades and sequence inserts preserve integrity *)

Lemma unique_on_delete {K V B} `{Countable K} (Q : V -> Prop) (key : V -> B) (m : gmap K V)
    (P : K -> V -> Prop) `{!forall k v, Decision (P k v)} :
  unique_on Q key m -> unique_on Q key (delete_where P m).
Proof.
  rewrite !unique_on_spec. intros Hu k1 v1 k2 v2
    [H1 _]%lookup_delete_where_Some [H2 _]%lookup_delete_where_Some. by eapply Hu.
Qed.

Lemma map_Forall_delete_where {K V} `{Countable K} (Q : K -> V -> Prop) (m : gmap K V)
    (P : K -> V -> Prop) `{!forall k v, Decision (P k v)} :
  map_Forall Q m -> map_Forall Q (delete_where P m).
Proof. intros Hq k v [Hk _]%lookup_delete_where_Some. by apply Hq. Qed.

Lemma references_delete_where {K V B W} `{Countable K, Countable B}
    (fk : K -> V -> option B) (m : gmap K V) (target : gmap B W)
    (P : K -> V -> Prop) `{!forall k v, Decision (P k v)} :
  references fk m target -> references fk (delete_where P m) target.
Proof. apply map_Forall_delete_where. Qed.

(** Rows of [m] that reference a surviving row of [target]. *)
Lemma references_survivors {K V B W} `{Countable K, Countable B}
    (fk : K -> V -> option B) (m : gmap K V) (target : gmap B W) :
  references fk (delete_where (fun k v => dangling target (fk k v)) m) target.
Proof.
  intros k v [_ Hd]%lookup_delete_where_Some b Hb. rewrite Hb in Hd. simpl in Hd.
  destruct (target !! b); [eauto|done].
Qed.

Lemma cascade_chunks_schema P `{!forall k v, Decision (P k v)} d0 os us ps :
  let d := d0 <| objects := os |> <| multipart_uploads := us |> <| multipart_parts := ps |> in
  schema_ok d0 ->
  map_Forall (fun _ r => object_check r) os -> objects_current_version_idx os ->
  map_Forall (fun _ r => upload_check r) us ->
  references (fun _ r => mu_object_id r) us os ->
  map_Forall (fun _ r => part_check r) ps -> multipart_parts_complete_idx ps ->
  references (fun _ r => Some (mp_upload_id r)) ps us ->
  references (fun _ r => ck_object_id r) (delete_where P (chunks d0)) os ->
  references (fun _ r => ck_part_id r) (delete_where P (chunks d0)) ps ->
  schema_ok (cascade_chunks P d).
Proof.
  intros d [] ?????????. unfold cascade_chunks, d. clear d. constructor; simpl; try done.
  - by apply map_Forall_delete_where.
  - by apply unique_on_delete.
  - by apply unique_on_delete.
  - apply (references_survivors (fun k _ => Some k.1)).
  - by apply references_delete_where.
  - by apply unique_on_delete.
  - apply (references_survivors (fun _ r => Some (rj_chunk_id r))).
  - intros c r Hr. simpl in Hr. pose proof Hr as [Hr0 HP]%lookup_delete_where_Some.
    rewrite (so_counters0 c r Hr0). symmetry. apply count_available_ext.
    intros n. apply option_eq. intros q. simpl. rewrite lookup_delete_where_Some. simpl.
    rewrite Hr. naive_solver.
  - by apply map_Forall_delete_where.
Qed.

Lemma keeps_delete_chunks P `{!forall k v, Decision (P k v)} :
  tx_keeps schema_ok (delete_chunks P).
Proof.
  intros d a d' Hd Hrun. unfold delete_chunks in Hrun. tx_inv Hrun.
  replace d with (d <| objects := objects d |> <| multipart_uploads := multipart_uploads d |>
                      <| multipart_parts := multipart_parts d |>) by by destruct d.
  apply cascade_chunks_schema; try apply Hd.
  all: apply references_delete_where, Hd.
Qed.

Lemma keeps_delete_objects P `{!forall k v, Decision (P k v)} :
  tx_keeps schema_ok (delete_objects P).
Proof.
  intros d a d' Hd Hrun. unfold delete_objects in Hrun. tx_inv Hrun.
  unfold cascade_objects.
  set (os := delete_where P (objects d)). set (us := update_where _ _ (multipart_uploads d)).
  replace (d <| objects := os |> <| multipart_uploads := us |>)
    with (d <| objects := os |> <| multipart_uploads := us |>
             <| multipart_parts := multipart_parts d |>) by by destruct d.
  apply cascade_chunks_schema; try apply Hd.
  - apply map_Forall_delete_where, Hd.
  - apply unique_on_delete, Hd.
  - intros i r (r0&Hr0&->)%lookup_update_where_Some.
    pose proof (so_uploads _ Hd i r0 Hr0). by case_decide.
  - intros i r (r0&Hr0&->)%lookup_update_where_Some b. case_decide as Hda; [done|].
    intros Hb. rewrite Hb in Hda. simpl in Hda. destruct (os !! b); [eauto|done].
  - eapply references_mono; [apply Hd|]. apply keys_le_update.
  - apply (references_survivors (fun _ r => ck_object_id r)).
  - apply references_delete_where, Hd.
Qed.

Lemma keeps_delete_uploads P `{!forall k v, Decision (P k v)} :
  tx_keeps schema_ok (delete_uploads P).
Proof.
  intros d a d' Hd Hrun. unfold delete_uploads in Hrun. tx_inv Hrun.
  unfold cascade_uploads.
  set (us := delete_where P (multipart_uploads d)).
  set (ps := delete_where _ (multipart_parts d)).
  replace (d <| multipart_uploads := us |> <| multipart_parts := ps |>)
    with (d <| objects := objects d |> <| multipart_uploads := us |>
             <| multipart_parts := ps |>) by by destruct d.
  apply cascade_chunks_schema; try apply Hd.
  - apply map_Forall_delete_where, Hd.
  - apply references_delete_where, Hd.
  - apply map_Forall_delete_where, Hd.
  - apply unique_on_delete, Hd.
  - apply (references_survivors (fun _ r => Some (mp_upload_id r))).
  - apply references_delete_where, Hd.
  - apply (references_survivors (fun _ r => ck_part_id r)).
Qed.

Lemma unique_on_insert_new {K V B} `{Countable K} (Q : V -> Prop) (key : V -> B)
    (m : gmap K V) k v :
  unique_on Q key m ->
  (forall k' v', m !! k' = Some v' -> Q v' -> Q v -> key v' <> key v) ->
  unique_on Q key (<[k:=v]> m).
Proof.
  rewrite !unique_on_spec. intros Hu Hnew k1 v1 k2 v2 H1 H2 Q1 Q2 Hk.
  apply lookup_insert_Some in H1 as [[<- <-]|[? H1]], H2 as [[<- <-]|[? H2]]; try done.
  - symmetry in Hk. destruct (Hnew _ _ H2 Q2 Q1 Hk).
  - destruct (Hnew _ _ H1 Q1 Q2 Hk).
  - by eapply Hu.
Qed.

(** A sequence value is always fresh. *)
Lemma seq_fresh {V} (m : gmap Z V) b :
  map_Forall (fun i _ => (i <= b)%Z) m -> m !! (b + 1)%Z = None.
Proof.
  intros Hm. destruct (m !! (b + 1)%Z) eqn:E; [|done].
  specialize (Hm _ _ E). simpl in Hm. lia.
Qed.

(** [enqueue_deletion] always succeeds: the job exists already or is added. *)
Definition deletion_queued (d : db) (c : N) (n : string) : Prop :=
  map_Exists (fun _ r => cd_chunk_id r = c /\ cd_node_id r = n) (chunk_deletions d).
#[export] Instance deletion_queued_dec d c n : Decision (deletion_queued d c n).
Proof. unfold deletion_queued. apply _. Defined.

Lemma enqueue_deletion_run now c n d :
  schema_ok d ->
  enqueue_deletion now c n d =
  if decide (deletion_queued d c n) then Ok (0%Z, d)
  else Ok (1%Z, d <| chunk_deletions_seq := (chunk_deletions_seq d + 1)%Z |>
                  <| chunk_deletions := <[(chunk_deletions_seq d + 1)%Z :=
                       mkDeletion c n 0 None now now]> (chunk_deletions d) |>).
Proof.
  intros Hd. unfold enqueue_deletion, insert_row, put_deletions.
  unfold tx_bind at 1, gets at 1.
  destruct (decide (deletion_queued d c n)) as [Hex|Hex];
    [by rewrite decide_True|rewrite decide_False by done].
  assert (chunk_deletions d !! (chunk_deletions_seq d + 1)%Z = None) as Hf
    by apply seq_fresh, Hd.
  assert (chunk_deletions_chunk_node_key
    (<[(chunk_deletions_seq d + 1)%Z := mkDeletion c n 0 None now now]> (chunk_deletions d))).
  { apply unique_on_insert_new; [apply Hd|]. intros k r Hr _ _ Heq.
    apply Hex. exists k, r. naive_solver. }
  run_checks. done.
Qed.

Lemma keeps_enqueue_deletion now c n : tx_keeps schema_ok (enqueue_deletion now c n).
Proof.
  intros d a d' Hd Hrun. unfold enqueue_deletion in Hrun. tx_inv Hrun; [done|].
  eapply put_deletions_schema; [| |done].
  - destruct Hd. constructor; simpl; try done.
    eapply map_Forall_impl; [apply so_seq_deletions0|]. simpl. intros. lia.
  - simpl. apply map_Forall_insert; [done|]. split; [lia|].
    eapply map_Forall_impl; [apply (so_seq_deletions _ Hd)|]. simpl. intros. lia.
Qed.

Lemma keeps_enqueue_repair now c : tx_keeps schema_ok (enqueue_repair now c).
Proof.
  intros d a d' Hd Hrun. unfold enqueue_repair in Hrun. tx_inv Hrun; [done|].
  eapply put_repairs_schema; [| |done].
  - destruct Hd. constructor; simpl; try done.
    eapply map_Forall_impl; [apply so_seq_repairs0|]. simpl. intros. lia.
  - simpl. apply map_Forall_insert; [done|]. split; [lia|].
    eapply map_Forall_impl; [apply (so_seq_repairs _ Hd)|]. simpl. intros. lia.
Qed.

Lemma keeps_enqueue_reconcile now n : tx_keeps schema_ok (enqueue_reconcile now n).
Proof.
  intros d a d' Hd Hrun. unfold enqueue_reconcile in Hrun. tx_inv Hrun; [done|].
  eapply put_reconciles_schema; [| |done].
  - destruct Hd. constructor; simpl; try done.
    eapply map_Forall_impl; [apply so_seq_reconciles0|]. simpl. intros. lia.
  - simpl. apply map_Forall_insert; [done|]. split; [lia|].
    eapply map_Forall_impl; [apply (so_seq_reconciles _ Hd)|]. simpl. intros. lia.
Qed.

#[export] Hint Resolve keeps_delete_chunks keeps_delete_objects keeps_delete_uploads
  keeps_enqueue_deletion keeps_enqueue_repair keeps_enqueue_reconcile : keeps.

Lemma empty_db_schema : schema_ok empty_db.
Proof. constructor; intros ??; simpl; rewrite lookup_empty; done. Qed.
