(* ===== verification/Chunks.v ===== *)
(** * Chunks (src/internal/metadata/chunks.go)

    Reservation of chunk positions, replica bookkeeping around a write, the
    durability-gated commit, the read-path projection of a chunk list, and the
    queueing of replica deletions. *)

From stdpp Require Import gmap strings list sorting.
From S2P Require Import Prelude Sql Schema Statements.

(** Exactly one field is set for a valid owner. *)
Record ChunkOwner := mkOwner {
  co_object_id : option N;
  co_part_id : option N
}.

(** First row of a query that selects at most one. *)
Definition find_row {K V} `{Countable K} (P : K -> V -> Prop)
    `{!forall k v, Decision (P k v)} (m : gmap K V) : option (K * V) :=
  head (rows_where P m).

(** ** Writes *)

Definition assertOwnerWritable (owner : ChunkOwner) : Tx db unit :=
  match co_object_id owner with
  | Some o =>
      let! row := gets (fun d => objects d !! o) in
      match row with
      | None => throw ErrNotFound
      | Some r => require (bool_decide (ob_state r = ObjectUploading)) ErrConflict
      end
  | None =>
      let! row := gets (fun d => multipart_parts d !! default 0%N (co_part_id owner)) in
      match row with
      | None => throw ErrNotFound
      | Some r => require (bool_decide (mp_state r = PartUploading)) ErrConflict
      end
  end.

(** The row that already holds this position of the owner's chunk sequence,
    found through the partial unique index the statement names. *)
Definition position_taken (owner : ChunkOwner) (index : Z) (c : chunk_row) : Prop :=
  match co_part_id owner with
  | Some p => ck_part_id c = Some p /\ ck_chunk_index c = index
  | None => is_Some (ck_object_id c) /\ ck_object_id c = co_object_id owner /\
            ck_chunk_index c = index
  end.
#[export] Instance position_taken_dec owner index c : Decision (position_taken owner index c).
Proof. unfold position_taken. destruct (co_part_id owner); apply _. Defined.

(** INSERT INTO chunks ... ON CONFLICT (owner, chunk_index) DO UPDATE ... RETURNING id *)
Definition upsert_chunk (now : Z) (id : N) (owner : ChunkOwner) (index sizeBytes : Z) : Tx db N :=
  let! m := gets chunks in
  match find_row (fun _ c => position_taken owner index c) m with
  | Some (old, _) =>
      do! update_chunks (fun k _ => k = old)
            (fun c => c <| ck_size_bytes := sizeBytes |> <| ck_state := ChunkPending |>
                        <| ck_committed_at := None |>) in
      tx_ret old
  | None =>
      let obj := match co_part_id owner with Some _ => None | None => co_object_id owner end in
      do! insert_chunk id
            (mkChunk obj (co_part_id owner) index sizeBytes None ChunkPending now None 0) in
      tx_ret id
  end.

(** [fresh] is the identifier minted by [uuid.New()]. *)
Definition ReserveChunk (fresh : N) (now : Z) (owner : ChunkOwner) (index sizeBytes : Z)
    : Op db N :=
  if bool_decide (is_Some (co_object_id owner) <-> is_Some (co_part_id owner))
  then op_throw ErrConflict
  else inTx (do! assertOwnerWritable owner in upsert_chunk now fresh owner index sizeBytes).

Definition RecordChunkTargets (now : Z) (chunkID : N) (targetNodeIDs : list string) : Op db unit :=
  inTx (tx_for targetNodeIDs (fun n =>
    upsert_replica (chunkID, n) (mkReplica ReplicaWriting now now None None)
      (fun r => r <| cr_state := ReplicaWriting |> <| cr_updated_at := now |>))).

Definition AllocateChunk (fresh : N) (now : Z) (owner : ChunkOwner) (index sizeBytes : Z)
    (targetNodeIDs : list string) : Op db N :=
  if bool_decide (targetNodeIDs = []) then op_throw ErrConflict
  else
    let* id := ReserveChunk fresh now owner index sizeBytes in
    let* _ := RecordChunkTargets now id targetNodeIDs in
    op_ret id.

Definition mark_failed (now : Z) (chunkID : N) (n : string) : Tx db unit :=
  do! update_replicas (fun k _ => k = (chunkID, n))
        (fun r => r <| cr_state := ReplicaUnavailable |> <| cr_updated_at := now |>) in
  tx_ret tt.

Definition mark_available (now : Z) (chunkID : N) (n : string) : Tx db unit :=
  upsert_replica (chunkID, n) (mkReplica ReplicaAvailable now now (Some now) None)
    (fun r => r <| cr_state := ReplicaAvailable |> <| cr_updated_at := now |>
                <| cr_verified_at := Some now |>).

Definition CommitChunk_tx (now : Z) (chunkID : N) (checksum : string) (sizeBytes : Z)
    (succeeded failed : list string) (minReplicas : Z) : Tx db Z :=
  let! row := gets (fun d => chunks d !! chunkID) in
  match row with
  | None => throw ErrNotFound
  | Some c =>
      do! tx_for failed (mark_failed now chunkID) in
      do! tx_for succeeded (mark_available now chunkID) in
      let! available := gets (fun d => count_available (chunk_replicas d) chunkID) in
      do! require (bool_decide (minReplicas <= available)%Z) ErrDurabilityNotMet in
      do! update_chunks (fun k _ => k = chunkID)
            (fun c => c <| ck_state := ChunkCommitted |>
                        <| ck_checksum_sha256 := Some checksum |>
                        <| ck_size_bytes := sizeBytes |>
                        <| ck_committed_at := Some now |>) in
      do! update_objects (fun k o => ck_object_id c = Some k /\ ob_state o = ObjectUploading)
            (fun o => o <| ob_updated_at := now |>) in
      let! part := gets (fun d => ck_part_id c ≫= fun p => multipart_parts d !! p) in
      do! update_uploads (fun k u => mp_upload_id <$> part = Some k /\
                                     mu_state u = MultipartInProgress)
            (fun u => u <| mu_updated_at := now |>) in
      tx_ret available
  end.

Definition CommitChunk (now : Z) (chunkID : N) (checksum : string) (sizeBytes : Z)
    (succeeded failed : list string) (minReplicas : Z) : Op db Z :=
  inTx (CommitChunk_tx now chunkID checksum sizeBytes succeeded failed minReplicas).

(** ** Queueing deletions *)

(** INSERT INTO chunk_deletions SELECT ... FROM chunk_replicas ... ON CONFLICT DO NOTHING *)
Definition enqueue_deletions_for (now : Z) (P : N * string -> replica_row -> Prop)
    `{!forall k v, Decision (P k v)} : Tx db unit :=
  let! m := gets chunk_replicas in
  tx_for (rows_where P m).*1 (fun k => do! enqueue_deletion now k.1 k.2 in tx_ret tt).

Definition chunk_of_object (d : db) (o c : N) : Prop :=
  (chunks d !! c ≫= ck_object_id) = Some o.
Definition chunk_of_upload (d : db) (u c : N) : Prop :=
  ((chunks d !! c ≫= ck_part_id) ≫= (fun p => mp_upload_id <$> multipart_parts d !! p)) = Some u.
#[export] Instance chunk_of_object_dec d o c : Decision (chunk_of_object d o c).
Proof. unfold chunk_of_object. apply _. Defined.
#[export] Instance chunk_of_upload_dec d o c : Decision (chunk_of_upload d o c).
Proof. unfold chunk_of_upload. apply _. Defined.

Definition enqueueObjectChunkDeletions (now : Z) (objectID : N) : Tx db unit :=
  let! d := gets (fun d => d) in
  do! enqueue_deletions_for now (fun k r =>
        chunk_of_object d objectID k.1 /\ cr_state r <> ReplicaDeleting) in
  do! update_replicas (fun k _ => chunk_of_object d objectID k.1)
        (fun r => r <| cr_state := ReplicaDeleting |> <| cr_updated_at := now |>) in
  tx_ret tt.

Definition enqueuePartChunkDeletions (now : Z) (uploadID : N) : Tx db unit :=
  let! d := gets (fun d => d) in
  do! enqueue_deletions_for now (fun k r =>
        chunk_of_upload d uploadID k.1 /\ cr_state r <> ReplicaDeleting) in
  do! update_replicas (fun k _ => chunk_of_upload d uploadID k.1)
        (fun r => r <| cr_state := ReplicaDeleting |> <| cr_updated_at := now |>) in
  tx_ret tt.

Definition orphanObjectChunks (now : Z) (objectID : N) : Tx db unit :=
  do! update_chunks (fun _ c => ck_object_id c = Some objectID)
        (fun c => c <| ck_state := ChunkOrphaned |>) in
  enqueueObjectChunkDeletions now objectID.

(** ** Reads *)

Definition ObjectKeyForChunk (chunkID : N) : Op db (string * string) :=
  inTx (let! row := gets (fun d => (chunks d !! chunkID ≫= ck_object_id) ≫= fun o => objects d !! o) in
        match row with
        | None => throw ErrNotFound
        | Some o => tx_ret (ob_bucket o, ob_key o)
        end).

Record Replica := mkReplicaView {
  rp_node_id : string;
  rp_address : string;
  rp_node_health : option NodeHealth;
  rp_state : ReplicaState;
  rp_updated_at : Z
}.

Record ChunkWithReplicas := mkChunkView {
  cw_id : N;
  cw_index : Z;
  cw_size_bytes : Z;
  cw_checksum : string;
  cw_state : ChunkState;
  cw_committed_at : option Z;
  cw_replicas : list Replica
}.

Definition nullString (s : option string) : string := default EmptyString s.

(** One row of chunks LEFT JOIN chunk_replicas LEFT JOIN storage_nodes. *)
Record join_row := mkJoin {
  jr_chunk : N;
  jr_row : chunk_row;
  jr_replica : option (string * replica_row);
  jr_node : option node_row
}.

Definition replica_rows_of (d : db) (c : N) : list (string * replica_row) :=
  (fun kr => (kr.1.2, kr.2)) <$> rows_where (fun k _ => k.1 = c) (chunk_replicas d).

Definition left_join (d : db) (cs : list (N * chunk_row)) : list join_row :=
  cs ≫= fun c =>
    match replica_rows_of d c.1 with
    | [] => [mkJoin c.1 c.2 None None]
    | rs => (fun r => mkJoin c.1 c.2 (Some r) (storage_nodes d !! r.1)) <$> rs
    end.

(** AND r.state = 'AVAILABLE' AND n.health <> 'DEAD'; NULL is not true. *)
Definition readable_row (j : join_row) : Prop :=
  match jr_replica j, jr_node j with
  | Some (_, r), Some n => cr_state r = ReplicaAvailable /\ sn_health n <> DEAD
  | _, _ => False
  end.
#[export] Instance readable_row_dec j : Decision (readable_row j).
Proof. unfold readable_row. destruct (jr_replica j) as [[??]|], (jr_node j); apply _. Defined.

(** ORDER BY c.chunk_index, r.node_id (NULLS LAST, the default). *)
Section order.
Context `{PG : !Postgres}.
Definition null_last_le (a b : option string) : Prop :=
  match a, b with
  | Some x, Some y => text_le x y
  | Some _, None => True
  | None, Some _ => False
  | None, None => True
  end.
#[export] Instance null_last_le_dec : RelDecision null_last_le.
Proof. intros [x|] [y|]; simpl; apply _. Defined.

Definition join_le (a b : join_row) : Prop :=
  (ck_chunk_index (jr_row a) < ck_chunk_index (jr_row b))%Z \/
  ck_chunk_index (jr_row a) = ck_chunk_index (jr_row b) /\
  null_last_le (fst <$> jr_replica a) (fst <$> jr_replica b).
#[export] Instance join_le_dec : RelDecision join_le.
Proof. intros a b. unfold join_le. apply _. Defined.
End order.

Definition replica_view (j : join_row) : list Replica :=
  match jr_replica j with
  | None => []
  | Some (n, r) =>
      [mkReplicaView n (nullString (sn_grpc_address <$> jr_node j)) (sn_health <$> jr_node j)
         (cr_state r) (cr_updated_at r)]
  end.

Definition chunk_view (j : join_row) : ChunkWithReplicas :=
  mkChunkView (jr_chunk j) (ck_chunk_index (jr_row j)) (ck_size_bytes (jr_row j))
    (nullString (ck_checksum_sha256 (jr_row j))) (ck_state (jr_row j))
    (ck_committed_at (jr_row j)) (replica_view j).

(** The row loop of [chunksWhere]: a row that continues the current chunk adds
    its replica, any other row starts a new chunk.  [cur] is the last element
    of [out]. *)
Fixpoint group_rows (cur : ChunkWithReplicas) (js : list join_row) : list ChunkWithReplicas :=
  match js with
  | [] => [cur]
  | j :: js' =>
      if bool_decide (jr_chunk j = cw_id cur)
      then group_rows
             (mkChunkView (cw_id cur) (cw_index cur) (cw_size_bytes cur) (cw_checksum cur)
                (cw_state cur) (cw_committed_at cur) (cw_replicas cur ++ replica_view j)) js'
      else cur :: group_rows (chunk_view j) js'
  end.

Definition group_all (js : list join_row) : list ChunkWithReplicas :=
  match js with
  | [] => []
  | j :: js' => group_rows (chunk_view j) js'
  end.

Section reads.
Context `{PG : !Postgres}.

Definition chunksWhere (P : N -> chunk_row -> Prop) `{!forall k v, Decision (P k v)}
    (availableOnly : bool) (d : db) : list ChunkWithReplicas :=
  let js := left_join d (rows_where P (chunks d)) in
  let js := if availableOnly then filter readable_row js else js in
  group_all (order_by join_le js).

Definition ChunksForObject (objectID : N) (availableOnly : bool) (d : db)
    : list ChunkWithReplicas :=
  chunksWhere (fun _ c => ck_object_id c = Some objectID /\ ck_state c = ChunkCommitted)
    availableOnly d.

Definition ChunksForPart (partID : N) (availableOnly : bool) (d : db)
    : list ChunkWithReplicas :=
  chunksWhere (fun _ c => ck_part_id c = Some partID /\ ck_state c = ChunkCommitted)
    availableOnly d.
End reads.

(** ** Reading one row *)

Lemma find_row_Some {K V} `{Countable K} (P : K -> V -> Prop)
    `{!forall k v, Decision (P k v)} (m : gmap K V) k v :
  find_row P m = Some (k, v) -> m !! k = Some v /\ P k v.
Proof.
  unfold find_row. intros Hh. apply (elem_of_rows_where P m).
  destruct (rows_where P m); simplify_eq/=. set_solver.
Qed.
Lemma find_row_None {K V} `{Countable K} (P : K -> V -> Prop)
    `{!forall k v, Decision (P k v)} (m : gmap K V) :
  find_row P m = None -> forall k v, m !! k = Some v -> ~ P k v.
Proof.
  unfold find_row. intros Hh k v Hk HP.
  assert ((k, v) ∈ rows_where P m) by by apply (elem_of_rows_where P m).
  destruct (rows_where P m); simplify_eq/=. set_solver.
Qed.

(** ** Integrity *)

Lemma keeps_assertOwnerWritable owner : tx_keeps schema_ok (assertOwnerWritable owner).
Proof. unfold assertOwnerWritable. keeps. Qed.
#[export] Hint Resolve keeps_assertOwnerWritable : keeps.
Lemma keeps_upsert_chunk now id owner index size :
  tx_keeps schema_ok (upsert_chunk now id owner index size).
Proof. unfold upsert_chunk. keeps. Qed.
#[export] Hint Resolve keeps_upsert_chunk : keeps.
Lemma keeps_ReserveChunk fresh now owner index size :
  op_keeps schema_ok (ReserveChunk fresh now owner index size).
Proof. unfold ReserveChunk. keeps. Qed.
Lemma keeps_RecordChunkTargets now c targets :
  op_keeps schema_ok (RecordChunkTargets now c targets).
Proof. unfold RecordChunkTargets. keeps. Qed.
#[export] Hint Resolve keeps_ReserveChunk keeps_RecordChunkTargets : keeps.
Lemma keeps_AllocateChunk fresh now owner index size targets :
  op_keeps schema_ok (AllocateChunk fresh now owner index size targets).
Proof. unfold AllocateChunk. keeps. Qed.
Lemma keeps_CommitChunk now c checksum size succeeded failed min :
  op_keeps schema_ok (CommitChunk now c checksum size succeeded failed min).
Proof. unfold CommitChunk, CommitChunk_tx, mark_failed, mark_available. keeps. Qed.
Lemma keeps_enqueueObjectChunkDeletions now o :
  tx_keeps schema_ok (enqueueObjectChunkDeletions now o).
Proof. unfold enqueueObjectChunkDeletions, enqueue_deletions_for. keeps. Qed.
Lemma keeps_enqueuePartChunkDeletions now u :
  tx_keeps schema_ok (enqueuePartChunkDeletions now u).
Proof. unfold enqueuePartChunkDeletions, enqueue_deletions_for. keeps. Qed.
#[export] Hint Resolve keeps_AllocateChunk keeps_CommitChunk
  keeps_enqueueObjectChunkDeletions keeps_enqueuePartChunkDeletions : keeps.
Lemma keeps_orphanObjectChunks now o : tx_keeps schema_ok (orphanObjectChunks now o).
Proof. unfold orphanObjectChunks. keeps. Qed.
#[export] Hint Resolve keeps_orphanObjectChunks : keeps.
