(* ===== verification/Frames.v ===== *)
(** * Preservation by statement

    Generic rules that reduce "this operation preserves invariant [I]" to the
    tables [I] reads: a statement on a table [I] does not read preserves [I]
    because the write of that table does. *)

From stdpp Require Import gmap strings list sorting.
From S2P Require Import Prelude Sql Schema Statements Chunks.

Section frame.
Context (I : db -> Prop).

Lemma keeps_update_table {K V} `{Countable K} (get : db -> gmap K V)
    (put : gmap K V -> Tx db unit) P `{!forall k v, Decision (P k v)} f :
  (forall m, tx_keeps I (put m)) -> tx_keeps I (update_table get put P f).
Proof. intros. unfold update_table. keeps. Qed.
Lemma keeps_insert_row {K V} `{Countable K} (get : db -> gmap K V)
    (put : gmap K V -> Tx db unit) k v :
  (forall m, tx_keeps I (put m)) -> tx_keeps I (insert_row get put k v).
Proof. intros. unfold insert_row, enforce. keeps. Qed.

Definition frames_nodes := forall m, tx_keeps I (put_nodes m).
Definition frames_objects := forall m, tx_keeps I (put_objects m).
Definition frames_uploads := forall m, tx_keeps I (put_uploads m).
Definition frames_parts := forall m, tx_keeps I (put_parts m).
Definition frames_chunks := forall m, tx_keeps I (put_chunks m).
Definition frames_replicas := forall ts m, tx_keeps I (put_replicas ts m).
Definition frames_deletions := forall m, tx_keeps I (put_deletions m).
Definition frames_repairs := forall m, tx_keeps I (put_repairs m).
Definition frames_reconciles := forall m, tx_keeps I (put_reconciles m).

Lemma frame_update_nodes P `{!forall k v, Decision (P k v)} f :
  frames_nodes -> tx_keeps I (update_nodes P f).
Proof. apply keeps_update_table. Qed.
Lemma frame_update_objects P `{!forall k v, Decision (P k v)} f :
  frames_objects -> tx_keeps I (update_objects P f).
Proof. apply keeps_update_table. Qed.
Lemma frame_update_uploads P `{!forall k v, Decision (P k v)} f :
  frames_uploads -> tx_keeps I (update_uploads P f).
Proof. apply keeps_update_table. Qed.
Lemma frame_update_parts P `{!forall k v, Decision (P k v)} f :
  frames_parts -> tx_keeps I (update_parts P f).
Proof. apply keeps_update_table. Qed.
Lemma frame_update_chunks P `{!forall k v, Decision (P k v)} f :
  frames_chunks -> tx_keeps I (update_chunks P f).
Proof. apply keeps_update_table. Qed.
Lemma frame_update_deletions P `{!forall k v, Decision (P k v)} f :
  frames_deletions -> tx_keeps I (update_deletions P f).
Proof. apply keeps_update_table. Qed.
Lemma frame_update_repairs P `{!forall k v, Decision (P k v)} f :
  frames_repairs -> tx_keeps I (update_repairs P f).
Proof. apply keeps_update_table. Qed.
Lemma frame_update_reconciles P `{!forall k v, Decision (P k v)} f :
  frames_reconciles -> tx_keeps I (update_reconciles P f).
Proof. apply keeps_update_table. Qed.
Lemma frame_update_replicas P `{!forall k v, Decision (P k v)} f :
  frames_replicas -> tx_keeps I (update_replicas P f).
Proof. intros. unfold update_replicas. keeps. Qed.
Lemma frame_upsert_replica k ins f : frames_replicas -> tx_keeps I (upsert_replica k ins f).
Proof. intros Hf. unfold upsert_replica. apply tx_keeps_bind; [keeps|]. intros m. apply Hf. Qed.
Lemma frame_delete_replicas P `{!forall k v, Decision (P k v)} :
  frames_replicas -> tx_keeps I (delete_replicas P).
Proof. intros. unfold delete_replicas. keeps. Qed.
Lemma frame_delete_deletions P `{!forall k v, Decision (P k v)} :
  frames_deletions -> tx_keeps I (delete_deletions P).
Proof. intros. unfold delete_deletions. keeps. Qed.
Lemma frame_delete_repairs P `{!forall k v, Decision (P k v)} :
  frames_repairs -> tx_keeps I (delete_repairs P).
Proof. intros. unfold delete_repairs. keeps. Qed.
Lemma frame_insert_object i r : frames_objects -> tx_keeps I (insert_object i r).
Proof. apply keeps_insert_row. Qed.
Lemma frame_insert_upload i r : frames_uploads -> tx_keeps I (insert_upload i r).
Proof. apply keeps_insert_row. Qed.
Lemma frame_insert_part i r : frames_parts -> tx_keeps I (insert_part i r).
Proof. apply keeps_insert_row. Qed.
Lemma frame_insert_chunk i r : frames_chunks -> tx_keeps I (insert_chunk i r).
Proof. apply keeps_insert_row. Qed.

(** The sequences are read by no invariant but [schema_ok]. *)
Definition ignores_sequences := forall d a b c,
  I d -> I (d <| chunk_deletions_seq := a |> <| repair_jobs_seq := b |>
              <| node_reconciliations_seq := c |>).

Lemma frame_enqueue_deletion now c n :
  ignores_sequences -> frames_deletions -> tx_keeps I (enqueue_deletion now c n).
Proof.
  intros Hs Hf. unfold enqueue_deletion. keeps.
  - apply tx_keeps_modify. intros d Hd.
    apply (Hs d (a0 + 1)%Z (repair_jobs_seq d) (node_reconciliations_seq d)) in Hd.
    by destruct d.
  - by apply keeps_insert_row.
Qed.
Lemma frame_enqueue_repair now c :
  ignores_sequences -> frames_repairs -> tx_keeps I (enqueue_repair now c).
Proof.
  intros Hs Hf. unfold enqueue_repair. keeps.
  - apply tx_keeps_modify. intros d Hd.
    apply (Hs d (chunk_deletions_seq d) (a0 + 1)%Z (node_reconciliations_seq d)) in Hd.
    by destruct d.
  - by apply keeps_insert_row.
Qed.
Lemma frame_enqueue_reconcile now n :
  ignores_sequences -> frames_reconciles -> tx_keeps I (enqueue_reconcile now n).
Proof.
  intros Hs Hf. unfold enqueue_reconcile. keeps.
  - apply tx_keeps_modify. intros d Hd.
    apply (Hs d (chunk_deletions_seq d) (repair_jobs_seq d) (a0 + 1)%Z) in Hd.
    by destruct d.
  - by apply keeps_insert_row.
Qed.
End frame.

Create HintDb frames.
#[export] Hint Resolve frame_update_nodes frame_update_objects frame_update_uploads
  frame_update_parts frame_update_chunks frame_update_deletions frame_update_repairs
  frame_update_reconciles frame_update_replicas frame_upsert_replica frame_delete_replicas
  frame_delete_deletions frame_delete_repairs frame_insert_object frame_insert_upload
  frame_insert_part frame_insert_chunk frame_enqueue_deletion frame_enqueue_repair
  frame_enqueue_reconcile | 5 : frames.
#[export] Hint Resolve tx_keeps_ret tx_keeps_throw tx_keeps_gets
  tx_keeps_require tx_keeps_limit_rows op_keeps_ret op_keeps_throw : frames.

(** As [keeps], for an invariant whose facts are in the database [frames]. *)
Ltac preserve_step :=
  lazymatch goal with
  | |- tx_keeps _ (tx_bind _ _) => first [solve [auto with frames] | apply tx_keeps_bind]
  | |- forall _, _ => intro
  | |- op_keeps _ (inTx _) => apply op_keeps_inTx
  | |- op_keeps _ (op_bind _ _) => apply op_keeps_bind
  | |- op_keeps _ (match ?x with _ => _ end) => destruct x
  | |- tx_keeps _ (tx_for _ _) => apply tx_keeps_for
  | |- tx_keeps _ (match ?x with _ => _ end) => destruct x
  | |- tx_keeps _ (let _ := _ in _) => cbv zeta
  | |- _ => solve [auto with frames]
  end.
Ltac preserve := repeat preserve_step.

(** ** Functional effect of the statements *)

Lemma update_table_ok {K V} `{Countable K} (get : db -> gmap K V)
    (put : gmap K V -> Tx db unit) P `{!forall k v, Decision (P k v)} f d n d' :
  update_table get put P f d = Ok (n, d') <->
  put (update_where P f (get d)) d = Ok (tt, d') /\ n = count_where P (get d).
Proof.
  unfold update_table. split.
  - intros Hr. apply tx_bind_ok in Hr as (m&d1&[-> ->]%gets_ok&Hr).
    apply tx_bind_ok in Hr as ([]&d2&Hr&[-> ->]%tx_ret_ok). done.
  - intros [Hr ->]. unfold tx_bind, gets. by rewrite Hr.
Qed.
Lemma insert_row_ok {K V} `{Countable K} (get : db -> gmap K V)
    (put : gmap K V -> Tx db unit) k v d u d' :
  insert_row get put k v d = Ok (u, d') <->
  get d !! k = None /\ put (<[k:=v]> (get d)) d = Ok (u, d').
Proof.
  unfold insert_row. split.
  - intros Hr. tx_inv Hr. done.
  - intros [Hr Hp]. unfold tx_bind, gets. unfold enforce.
    rewrite bool_decide_eq_true_2 by done. done.
Qed.

Section effects.

Lemma update_nodes_ok P `{!forall k v, Decision (P k v)} f d n d' :
  update_nodes P f d = Ok (n, d') ->
  n = count_where P (storage_nodes d) /\
  d' = d <| storage_nodes := update_where P f (storage_nodes d) |>.
Proof. intros [[_ ->]%put_nodes_ok ->]%update_table_ok. done. Qed.
Lemma update_objects_ok P `{!forall k v, Decision (P k v)} f d n d' :
  update_objects P f d = Ok (n, d') ->
  n = count_where P (objects d) /\ d' = d <| objects := update_where P f (objects d) |>.
Proof. intros [(_&_&->)%put_objects_ok ->]%update_table_ok. done. Qed.
Lemma update_uploads_ok P `{!forall k v, Decision (P k v)} f d n d' :
  update_uploads P f d = Ok (n, d') ->
  n = count_where P (multipart_uploads d) /\
  d' = d <| multipart_uploads := update_where P f (multipart_uploads d) |>.
Proof. intros [(_&_&->)%put_uploads_ok ->]%update_table_ok. done. Qed.
Lemma update_parts_ok P `{!forall k v, Decision (P k v)} f d n d' :
  update_parts P f d = Ok (n, d') ->
  n = count_where P (multipart_parts d) /\
  d' = d <| multipart_parts := update_where P f (multipart_parts d) |>.
Proof. intros [(_&_&_&->)%put_parts_ok ->]%update_table_ok. done. Qed.
Lemma update_chunks_ok P `{!forall k v, Decision (P k v)} f d n d' :
  update_chunks P f d = Ok (n, d') ->
  n = count_where P (chunks d) /\ d' = d <| chunks := update_where P f (chunks d) |>.
Proof. intros [(_&_&_&_&_&->)%put_chunks_ok ->]%update_table_ok. done. Qed.
Lemma update_deletions_ok P `{!forall k v, Decision (P k v)} f d n d' :
  update_deletions P f d = Ok (n, d') ->
  n = count_where P (chunk_deletions d) /\
  d' = d <| chunk_deletions := update_where P f (chunk_deletions d) |>.
Proof. intros [(_&->)%put_deletions_ok ->]%update_table_ok. done. Qed.
Lemma update_repairs_ok P `{!forall k v, Decision (P k v)} f d n d' :
  update_repairs P f d = Ok (n, d') ->
  n = count_where P (repair_jobs d) /\
  d' = d <| repair_jobs := update_where P f (repair_jobs d) |>.
Proof. intros [(_&_&->)%put_repairs_ok ->]%update_table_ok. done. Qed.
Lemma update_reconciles_ok P `{!forall k v, Decision (P k v)} f d n d' :
  update_reconciles P f d = Ok (n, d') ->
  n = count_where P (node_reconciliations d) /\
  d' = d <| node_reconciliations := update_where P f (node_reconciliations d) |>.
Proof. intros [(_&_&->)%put_reconciles_ok ->]%update_table_ok. done. Qed.
Lemma update_replicas_ok P `{!forall k v, Decision (P k v)} f d n d' :
  update_replicas P f d = Ok (n, d') ->
  n = count_where P (chunk_replicas d) /\
  d' = chunk_replicas_durability (rows_where P (chunk_replicas d)).*1.*1
         (d <| chunk_replicas := update_where P f (chunk_replicas d) |>).
Proof.
  unfold update_replicas. intros Hr. tx_inv Hr.
  match goal with Hp : put_replicas _ _ _ = _ |- _ => apply put_replicas_ok in Hp as (_&_&->) end.
  done.
Qed.
Lemma delete_replicas_ok P `{!forall k v, Decision (P k v)} d n d' :
  delete_replicas P d = Ok (n, d') ->
  n = count_where P (chunk_replicas d) /\
  d' = chunk_replicas_durability (rows_where P (chunk_replicas d)).*1.*1
         (d <| chunk_replicas := delete_where P (chunk_replicas d) |>).
Proof.
  unfold delete_replicas. intros Hr. tx_inv Hr.
  match goal with Hp : put_replicas _ _ _ = _ |- _ => apply put_replicas_ok in Hp as (_&_&->) end.
  done.
Qed.
Lemma upsert_replica_ok k ins f d u d' :
  upsert_replica k ins f d = Ok (u, d') ->
  d' = chunk_replicas_durability [k.1]
         (d <| chunk_replicas := <[k := match chunk_replicas d !! k with
                                        | Some r => f r | None => ins end]> (chunk_replicas d) |>).
Proof.
  unfold upsert_replica. intros Hr. tx_inv Hr.
  match goal with Hp : put_replicas _ _ _ = _ |- _ => apply put_replicas_ok in Hp as (_&_&->) end.
  done.
Qed.
Lemma delete_deletions_ok P `{!forall k v, Decision (P k v)} d n d' :
  delete_deletions P d = Ok (n, d') ->
  n = count_where P (chunk_deletions d) /\
  d' = d <| chunk_deletions := delete_where P (chunk_deletions d) |>.
Proof.
  unfold delete_deletions. intros Hr. tx_inv Hr.
  match goal with Hp : put_deletions _ _ = _ |- _ => apply put_deletions_ok in Hp as (_&->) end.
  done.
Qed.
Lemma delete_repairs_ok P `{!forall k v, Decision (P k v)} d n d' :
  delete_repairs P d = Ok (n, d') ->
  n = count_where P (repair_jobs d) /\
  d' = d <| repair_jobs := delete_where P (repair_jobs d) |>.
Proof.
  unfold delete_repairs. intros Hr. tx_inv Hr.
  match goal with Hp : put_repairs _ _ = _ |- _ => apply put_repairs_ok in Hp as (_&_&->) end.
  done.
Qed.
Lemma insert_object_ok i r d u d' :
  insert_object i r d = Ok (u, d') ->
  objects d !! i = None /\ d' = d <| objects := <[i:=r]> (objects d) |>.
Proof. intros [? (_&_&->)%put_objects_ok]%insert_row_ok. done. Qed.
Lemma insert_upload_ok i r d u d' :
  insert_upload i r d = Ok (u, d') ->
  multipart_uploads d !! i = None /\
  d' = d <| multipart_uploads := <[i:=r]> (multipart_uploads d) |>.
Proof. intros [? (_&_&->)%put_uploads_ok]%insert_row_ok. done. Qed.
Lemma insert_part_ok i r d u d' :
  insert_part i r d = Ok (u, d') ->
  multipart_parts d !! i = None /\
  d' = d <| multipart_parts := <[i:=r]> (multipart_parts d) |>.
Proof. intros [? (_&_&_&->)%put_parts_ok]%insert_row_ok. done. Qed.
Lemma insert_chunk_ok i r d u d' :
  insert_chunk i r d = Ok (u, d') ->
  chunks d !! i = None /\ d' = d <| chunks := <[i:=r]> (chunks d) |>.
Proof. intros [? (_&_&_&_&_&->)%put_chunks_ok]%insert_row_ok. done. Qed.
End effects.

(** Successful statements become equations between states. *)
Ltac tx_inv_leaf H ::=
  lazymatch type of H with
  | enforce _ _ _ = Ok _ => apply enforce_ok in H as [H ?]; subst
  | insert_row _ _ _ _ _ = Ok _ => unfold insert_row in H; tx_inv H
  | update_nodes _ _ _ = Ok _ => apply update_nodes_ok in H as [? ?]; subst
  | update_objects _ _ _ = Ok _ => apply update_objects_ok in H as [? ?]; subst
  | update_uploads _ _ _ = Ok _ => apply update_uploads_ok in H as [? ?]; subst
  | update_parts _ _ _ = Ok _ => apply update_parts_ok in H as [? ?]; subst
  | update_chunks _ _ _ = Ok _ => apply update_chunks_ok in H as [? ?]; subst
  | update_deletions _ _ _ = Ok _ => apply update_deletions_ok in H as [? ?]; subst
  | update_repairs _ _ _ = Ok _ => apply update_repairs_ok in H as [? ?]; subst
  | update_reconciles _ _ _ = Ok _ => apply update_reconciles_ok in H as [? ?]; subst
  | update_replicas _ _ _ = Ok _ => apply update_replicas_ok in H as [? ?]; subst
  | delete_replicas _ _ = Ok _ => apply delete_replicas_ok in H as [? ?]; subst
  | upsert_replica _ _ _ _ = Ok _ => apply upsert_replica_ok in H; subst
  | delete_deletions _ _ = Ok _ => apply delete_deletions_ok in H as [? ?]; subst
  | delete_repairs _ _ = Ok _ => apply delete_repairs_ok in H as [? ?]; subst
  | insert_object _ _ _ = Ok _ => apply insert_object_ok in H as [H ?]; subst
  | insert_upload _ _ _ = Ok _ => apply insert_upload_ok in H as [H ?]; subst
  | insert_part _ _ _ = Ok _ => apply insert_part_ok in H as [H ?]; subst
  | insert_chunk _ _ _ = Ok _ => apply insert_chunk_ok in H as [H ?]; subst
  | _ => idtac
  end.
