(* ===== verification/Runs.v ===== *)
(** * Running statements forward

    Statements that cannot violate a constraint of an integral database: what
    they return and the state they leave. The inversion lemmas of Frames read a
    successful run backwards; these lemmas show that the run is successful. *)

From stdpp Require Import gmap strings list sorting.
From S2P Require Import Prelude Sql Schema Statements Chunks Frames.

(** ** Replicas *)

(** A replica UPDATE never violates a foreign key. *)
Lemma update_replicas_run P `{!forall k v, Decision (P k v)} f d :
  schema_ok d ->
  update_replicas P f d =
  Ok (count_where P (chunk_replicas d),
      chunk_replicas_durability (rows_where P (chunk_replicas d)).*1.*1
        (d <| chunk_replicas := update_where P f (chunk_replicas d) |>)).
Proof.
  intros Hs. unfold update_replicas.
  assert (put_replicas (rows_where P (chunk_replicas d)).*1.*1 (update_where P f (chunk_replicas d)) d
    = Ok (tt, chunk_replicas_durability (rows_where P (chunk_replicas d)).*1.*1
        (d <| chunk_replicas := update_where P f (chunk_replicas d) |>))) as Hp.
  { apply put_replicas_ok. split_and!; [| |done].
    - intros k r (r0&Hr0&->)%lookup_update_where_Some. by eapply (so_replica_chunk _ Hs).
    - intros k r (r0&Hr0&->)%lookup_update_where_Some. by eapply (so_replica_node _ Hs). }
  unfold tx_bind at 1, gets. unfold tx_bind. by rewrite Hp.
Qed.

(** The other tables are not touched by the trigger. *)
Lemma trigger_replicas ts d : chunk_replicas (chunk_replicas_durability ts d) = chunk_replicas d.
Proof. by destruct (trigger_fields ts d) as (cs&->&_). Qed.
Lemma trigger_deletions ts d : chunk_deletions (chunk_replicas_durability ts d) = chunk_deletions d.
Proof. by destruct (trigger_fields ts d) as (cs&->&_). Qed.
Lemma trigger_objects ts d : objects (chunk_replicas_durability ts d) = objects d.
Proof. by destruct (trigger_fields ts d) as (cs&->&_). Qed.
Lemma trigger_uploads ts d :
  multipart_uploads (chunk_replicas_durability ts d) = multipart_uploads d.
Proof. by destruct (trigger_fields ts d) as (cs&->&_). Qed.
Lemma trigger_parts ts d : multipart_parts (chunk_replicas_durability ts d) = multipart_parts d.
Proof. by destruct (trigger_fields ts d) as (cs&->&_). Qed.
Lemma trigger_queued ts d c n :
  deletion_queued (chunk_replicas_durability ts d) c n <-> deletion_queued d c n.
Proof. unfold deletion_queued. by rewrite trigger_deletions. Qed.

(** ** Objects *)

(** An UPDATE that moves no row into COMPLETE and keeps the CHECKs succeeds. *)
Lemma update_objects_run P `{!forall k v, Decision (P k v)} f d :
  schema_ok d ->
  (forall k r, objects d !! k = Some r -> P k r -> object_check (f r)) ->
  objects_current_version_idx (update_where P f (objects d)) ->
  exists d', update_objects P f d = Ok (count_where P (objects d), d') /\
    d' = d <| objects := update_where P f (objects d) |> /\ schema_ok d'.
Proof.
  intros Hs Hck Hidx. eexists.
  assert (update_objects P f d =
    Ok (count_where P (objects d), d <| objects := update_where P f (objects d) |>)) as Hrun.
  { unfold update_objects, update_table. unfold tx_bind at 1, gets. unfold tx_bind.
    rewrite (proj2 (put_objects_ok _ d tt (d <| objects := update_where P f (objects d) |>)));
      [done|]. split_and!; [|done|done].
    intros k r (r0&Hr0&->)%lookup_update_where_Some. case_decide; [by eapply Hck|].
    by apply (so_objects _ Hs k). }
  split_and!; [exact Hrun|done|]. by eapply keeps_update_objects.
Qed.

Lemma current_idx_retire P `{!forall k v, Decision (P k v)} f (m : gmap N object_row) :
  objects_current_version_idx m ->
  (forall k r, P k r -> ob_state (f r) <> ObjectComplete) ->
  objects_current_version_idx (update_where P f m).
Proof.
  unfold objects_current_version_idx. rewrite !unique_on_spec. intros Hu Hf k1 v1 k2 v2.
  intros (r1&Hr1&->)%lookup_update_where_Some (r2&Hr2&->)%lookup_update_where_Some.
  repeat case_decide; try (intros; exfalso; by eapply Hf). by apply Hu.
Qed.

(** ** Replica upserts *)

Lemma upsert_replica_run c n ins f d :
  schema_ok d -> is_Some (chunks d !! c) -> is_Some (storage_nodes d !! n) ->
  upsert_replica (c, n) ins f d =
  Ok (tt, chunk_replicas_durability [c]
        (d <| chunk_replicas := <[(c, n) := match chunk_replicas d !! (c, n) with
                                            | Some r => f r | None => ins end]> (chunk_replicas d) |>)).
Proof.
  intros Hs Hc Hn. unfold upsert_replica. unfold tx_bind at 1, gets.
  apply put_replicas_ok. split_and!; [| |done].
  - apply map_Forall_insert_2; [naive_solver|apply Hs].
  - apply map_Forall_insert_2; [naive_solver|apply Hs].
Qed.

(** ** Chunks and uploads *)

(** An UPDATE that moves no chunk and keeps the CHECKs succeeds. *)
Lemma update_chunks_run P `{!forall k v, Decision (P k v)} f d :
  schema_ok d ->
  (forall r, ck_object_id (f r) = ck_object_id r /\ ck_part_id (f r) = ck_part_id r /\
             ck_chunk_index (f r) = ck_chunk_index r /\
             ck_available_replicas (f r) = ck_available_replicas r) ->
  (forall k r, chunks d !! k = Some r -> P k r -> chunk_check (f r)) ->
  exists d', update_chunks P f d = Ok (count_where P (chunks d), d') /\
    d' = d <| chunks := update_where P f (chunks d) |> /\ schema_ok d'.
Proof.
  intros Hs Hf Hck. eexists.
  assert (update_chunks P f d =
    Ok (count_where P (chunks d), d <| chunks := update_where P f (chunks d) |>)) as Hrun.
  { unfold update_chunks, update_table. unfold tx_bind at 1, gets. unfold tx_bind.
    rewrite (proj2 (put_chunks_ok _ d tt (d <| chunks := update_where P f (chunks d) |>))); [done|].
    pose proof (proj1 (unique_on_spec _ _ _) (so_chunk_object_idx _ Hs)) as Ho.
    pose proof (proj1 (unique_on_spec _ _ _) (so_chunk_part_idx _ Hs)) as Hp.
    split_and!; [| | | | |done].
    - intros k r (r0&Hr0&->)%lookup_update_where_Some. case_decide; [by eapply Hck|].
      by apply (so_chunks _ Hs k).
    - apply unique_on_spec. intros k1 v1 k2 v2.
      intros (r1&Hr1&->)%lookup_update_where_Some (r2&Hr2&->)%lookup_update_where_Some.
      specialize (Ho k1 r1 k2 r2 Hr1 Hr2). destruct (Hf r1) as (E1&_&I1&_), (Hf r2) as (E2&_&I2&_).
      repeat case_decide; rewrite ?E1, ?E2, ?I1, ?I2; exact Ho.
    - apply unique_on_spec. intros k1 v1 k2 v2.
      intros (r1&Hr1&->)%lookup_update_where_Some (r2&Hr2&->)%lookup_update_where_Some.
      specialize (Hp k1 r1 k2 r2 Hr1 Hr2). destruct (Hf r1) as (_&E1&I1&_), (Hf r2) as (_&E2&I2&_).
      repeat case_decide; rewrite ?E1, ?E2, ?I1, ?I2; exact Hp.
    - intros k r (r0&Hr0&->)%lookup_update_where_Some. destruct (Hf r0) as (E&_).
      case_decide; rewrite ?E; by apply (so_chunk_object _ Hs k).
    - intros k r (r0&Hr0&->)%lookup_update_where_Some. destruct (Hf r0) as (_&E&_).
      case_decide; rewrite ?E; by apply (so_chunk_part _ Hs k). }
  split_and!; [exact Hrun|done|]. eapply keeps_update_chunks; [|done|exact Hrun].
  intros r. apply Hf.
Qed.

(** An UPDATE of uploads that keeps chunk size and object reference. *)
Lemma update_uploads_run P `{!forall k v, Decision (P k v)} f d :
  schema_ok d ->
  (forall r, mu_chunk_size (f r) = mu_chunk_size r /\ mu_object_id (f r) = mu_object_id r) ->
  exists d', update_uploads P f d = Ok (count_where P (multipart_uploads d), d') /\
    d' = d <| multipart_uploads := update_where P f (multipart_uploads d) |> /\ schema_ok d'.
Proof.
  intros Hs Hf. eexists.
  assert (update_uploads P f d = Ok (count_where P (multipart_uploads d),
    d <| multipart_uploads := update_where P f (multipart_uploads d) |>)) as Hrun.
  { unfold update_uploads, update_table. unfold tx_bind at 1, gets. unfold tx_bind.
    rewrite (proj2 (put_uploads_ok _ d tt
      (d <| multipart_uploads := update_where P f (multipart_uploads d) |>))); [done|].
    split_and!; [| |done].
    - intros k r (r0&Hr0&->)%lookup_update_where_Some. pose proof (so_uploads _ Hs k r0 Hr0) as Hu.
      destruct (Hf r0) as [E _]. case_decide; [|done]. unfold upload_check in *. by rewrite E.
    - intros k r (r0&Hr0&->)%lookup_update_where_Some. destruct (Hf r0) as [_ E].
      case_decide; rewrite ?E; by apply (so_upload_object _ Hs k). }
  split_and!; [exact Hrun|done|]. by eapply keeps_update_uploads.
Qed.
