(* ===== verification/Deletions.v ===== *)
(** * Queueing replica deletions

    Forward behaviour of the helpers that retire replicas
    (enqueueObjectChunkDeletions, enqueuePartChunkDeletions, orphanPartChunks):
    on an integral database they always succeed, mark exactly the selected
    replicas DELETING and leave a queued job for each of them. *)

From stdpp Require Import gmap strings list sorting.
From S2P Require Import Prelude Sql Schema Statements Chunks Frames Runs.

(** [d'] differs from [d] in the deletion queue only. *)
Definition queue_only (d d' : db) : Prop :=
  exists m s, d' = d <| chunk_deletions := m |> <| chunk_deletions_seq := s |>.

Lemma queue_only_refl d : queue_only d d.
Proof. exists (chunk_deletions d), (chunk_deletions_seq d). by destruct d. Qed.
Lemma queue_only_trans d1 d2 d3 : queue_only d1 d2 -> queue_only d2 d3 -> queue_only d1 d3.
Proof. intros (m1&s1&->) (m2&s2&->). by exists m2, s2. Qed.

Definition queue_grows (d d' : db) : Prop :=
  forall c n, deletion_queued d c n -> deletion_queued d' c n.

Lemma enqueue_deletion_ok now c n d k d' :
  enqueue_deletion now c n d = Ok (k, d') ->
  queue_only d d' /\ queue_grows d d' /\ deletion_queued d' c n.
Proof.
  intros Hr. unfold enqueue_deletion in Hr. apply tx_bind_ok in Hr as (m&d1&[-> ->]%gets_ok&Hr).
  case_decide as Hq.
  - apply tx_ret_ok in Hr as [-> ->]. split; [apply queue_only_refl|]. split; [by intros ??|done].
  - apply tx_bind_ok in Hr as (i&d1&[-> ->]%gets_ok&Hr).
    apply tx_bind_ok in Hr as (u&d1&Hm&Hr). tx_inv Hm.
    apply tx_bind_ok in Hr as (u2&d2&Hins&[-> ->]%tx_ret_ok).
    unfold insert_row in Hins. tx_inv Hins. simpl in *.
    match goal with Hp : put_deletions _ _ = _ |- _ => apply put_deletions_ok in Hp as (_&->) end.
    split; [eexists _, _; by destruct d|]. split.
    + intros c' n' (i&r&Hi&Hr). exists i, r. split; [|done]. simpl.
      rewrite lookup_insert_ne; [done|congruence].
    + eexists _, _. split; [apply lookup_insert_eq|done].
Qed.

Lemma enqueue_all_ok now (ks : list (N * string)) d u d' :
  tx_for ks (fun k => do! enqueue_deletion now k.1 k.2 in tx_ret tt) d = Ok (u, d') ->
  queue_only d d' /\ queue_grows d d' /\ forall k, k ∈ ks -> deletion_queued d' k.1 k.2.
Proof.
  revert d. induction ks as [|k ks IH]; intros d Hr; simpl in Hr.
  - apply tx_ret_ok in Hr as [_ ->]. split; [apply queue_only_refl|].
    split; [by intros ??|by intros k ?%elem_of_nil].
  - apply tx_bind_ok in Hr as (u1&d1&H1&H2).
    apply tx_bind_ok in H1 as (z&d1'&(Hq1&Hg1&Hk1)%enqueue_deletion_ok&[-> ->]%tx_ret_ok).
    destruct (IH d1' H2) as (Hq2&Hg2&Hk2). split; [by eapply queue_only_trans|]. split.
    + intros c n Hq. auto.
    + intros k' [->|Hk']%elem_of_cons; auto.
Qed.

Lemma enqueue_deletions_for_ok now P `{!forall k v, Decision (P k v)} d u d' :
  enqueue_deletions_for now P d = Ok (u, d') ->
  queue_only d d' /\ queue_grows d d' /\
  forall k r, chunk_replicas d !! k = Some r -> P k r -> deletion_queued d' k.1 k.2.
Proof.
  intros (Hq&Hg&Hk)%enqueue_all_ok. split; [done|]. split; [done|]. intros k r Hr HP. apply Hk.
  apply list_elem_of_fmap. exists (k, r). split; [done|]. by apply elem_of_rows_where.
Qed.

(** On an integral database the statement always succeeds. *)
Lemma enqueue_all_run now (ks : list (N * string)) d :
  schema_ok d ->
  exists d', tx_for ks (fun k => do! enqueue_deletion now k.1 k.2 in tx_ret tt) d = Ok (tt, d') /\
    schema_ok d'.
Proof.
  revert d. induction ks as [|k ks IH]; intros d Hs; [by exists d|].
  assert (exists z d1, enqueue_deletion now k.1 k.2 d = Ok (z, d1)) as (z&d1&H1).
  { rewrite enqueue_deletion_run by done. case_decide; eauto. }
  destruct (IH d1) as (d2&H2&Hs2); [by eapply keeps_enqueue_deletion|].
  exists d2. split; [|done]. simpl. unfold tx_bind at 1 2. by rewrite H1.
Qed.

Lemma enqueue_deletions_for_spec now P `{!forall k v, Decision (P k v)} d :
  schema_ok d ->
  exists d', enqueue_deletions_for now P d = Ok (tt, d') /\ schema_ok d' /\
    queue_only d d' /\ queue_grows d d' /\
    forall k r, chunk_replicas d !! k = Some r -> P k r -> deletion_queued d' k.1 k.2.
Proof.
  intros Hs. destruct (enqueue_all_run now (rows_where P (chunk_replicas d)).*1 d Hs)
    as (d'&Hr&Hs'). exists d'. split; [done|]. split; [done|]. 
  apply (enqueue_deletions_for_ok now P d tt d' Hr).
Qed.

(** What retiring a set of replicas does: [sel] selects them by chunk. *)
Definition retire_row (now : Z) (r : replica_row) : replica_row :=
  r <| cr_state := ReplicaDeleting |> <| cr_updated_at := now |>.

Definition deleting_queued (d : db) : Prop :=
  forall c n r, chunk_replicas d !! (c, n) = Some r -> cr_state r = ReplicaDeleting ->
    deletion_queued d c n.

Record retired (now : Z) (sel : N -> Prop) (d d' : db) : Prop := {
  rt_replicas : forall c n,
    (sel c -> chunk_replicas d' !! (c, n) = retire_row now <$> chunk_replicas d !! (c, n)) /\
    (~ sel c -> chunk_replicas d' !! (c, n) = chunk_replicas d !! (c, n));
  rt_queued : forall c n r, sel c -> chunk_replicas d !! (c, n) = Some r ->
    cr_state r <> ReplicaDeleting -> deletion_queued d' c n;
  rt_grows : queue_grows d d';
  rt_objects : objects d' = objects d;
  rt_uploads : multipart_uploads d' = multipart_uploads d;
  rt_parts : multipart_parts d' = multipart_parts d;
  rt_chunks : forall c, strip_counter <$> chunks d' !! c = strip_counter <$> chunks d !! c;
  rt_schema : schema_ok d'
}.

Lemma retire_spec now sel `{!forall c, Decision (sel c)} d :
  schema_ok d ->
  exists d',
    (do! enqueue_deletions_for now (fun k r => sel k.1 /\ cr_state r <> ReplicaDeleting) in
     do! update_replicas (fun k _ => sel k.1) (retire_row now) in
     tx_ret tt) d = Ok (tt, d') /\ retired now sel d d'.
Proof.
  intros Hs.
  destruct (enqueue_deletions_for_spec now (fun k r => sel k.1 /\ cr_state r <> ReplicaDeleting) d Hs)
    as (d1&H1&Hs1&(m&s&Hd1)&Hg1&Hq1).
  pose proof (update_replicas_run (fun k _ => sel k.1) (retire_row now) d1 Hs1) as H2.
  eexists. split.
  { unfold tx_bind at 1. rewrite H1. unfold tx_bind. rewrite H2. done. }
  split.
  - intros c n. rewrite trigger_replicas. simpl. rewrite lookup_update_where.
    rewrite Hd1. simpl. split; intros Hc; destruct (chunk_replicas d !! (c, n)); simpl; try done.
    + by rewrite decide_True.
    + by rewrite decide_False.
  - intros c n r Hc Hr Hst. apply trigger_queued. by apply (Hq1 (c, n) r).
  - intros c n Hq. apply trigger_queued. by apply Hg1.
  - by rewrite trigger_objects, Hd1.
  - by rewrite trigger_uploads, Hd1.
  - by rewrite trigger_parts, Hd1.
  - intros c. rewrite trigger_strip. by rewrite Hd1.
  - by eapply keeps_update_replicas.
Qed.

(** Retiring keeps every DELETING replica queued. *)
Lemma retired_deleting_queued now sel `{!forall c, Decision (sel c)} d d' :
  retired now sel d d' -> deleting_queued d -> deleting_queued d'.
Proof.
  intros Hrt Hd c n r Hr Hst. destruct (rt_replicas _ _ _ _ Hrt c n) as [Hin Hout].
  destruct (decide (sel c)) as [Hc|Hc].
  - rewrite (Hin Hc) in Hr. apply fmap_Some in Hr as (r0&Hr0&->).
    destruct (decide (cr_state r0 = ReplicaDeleting)).
    + apply (rt_grows _ _ _ _ Hrt). by eapply Hd.
    + by eapply (rt_queued _ _ _ _ Hrt).
  - rewrite (Hout Hc) in Hr. apply (rt_grows _ _ _ _ Hrt). by eapply Hd.
Qed.

Lemma enqueueObjectChunkDeletions_spec now o d :
  schema_ok d ->
  exists d', enqueueObjectChunkDeletions now o d = Ok (tt, d') /\
    retired now (chunk_of_object d o) d d'.
Proof. intros Hs. apply (retire_spec now (chunk_of_object d o) d Hs). Qed.

Lemma enqueuePartChunkDeletions_spec now u d :
  schema_ok d ->
  exists d', enqueuePartChunkDeletions now u d = Ok (tt, d') /\
    retired now (chunk_of_upload d u) d d'.
Proof. intros Hs. apply (retire_spec now (chunk_of_upload d u) d Hs). Qed.
