(* ===== verification/Objects.v ===== *)
(** * Objects (src/internal/metadata/objects.go)

    The object lifecycle: a version is created UPLOADING, promoted to COMPLETE
    in one transaction that retires the previous version, and ends DELETING or
    FAILED; reads see the COMPLETE version only. *)

From stdpp Require Import gmap strings list sorting.
From S2P Require Import Prelude Sql Schema Statements Chunks.

(** ** The domain type and its projection from a row *)

Record Object := mkObjectView {
  o_ID : N;
  o_Bucket : string;
  o_Key : string;
  o_Version : Z;
  o_State : ObjectState;
  o_SizeBytes : Z;
  o_ChunkSize : Z;
  o_ChunkCount : Z;
  o_ETag : string;
  o_ContentType : string;
  o_FailureReason : string;
  o_CreatedAt : Z;
  o_UpdatedAt : Z;
  o_CompletedAt : option Z
}.

Definition scanObject (id : N) (r : object_row) : Object :=
  mkObjectView id (ob_bucket r) (ob_key r) (ob_version r) (ob_state r) (ob_size_bytes r)
    (ob_chunk_size r) (ob_chunk_count r) (nullString (ob_etag r)) (ob_content_type r)
    (nullString (ob_failure_reason r)) (ob_created_at r) (ob_updated_at r)
    (ob_completed_at r).

(** [s[:n]] when [s] is longer than [n] bytes. *)
Definition truncate (s : string) (n : nat) : string :=
  if (String.length s <=? n)%nat then s else String.substring 0 n s.

Definition versions_of (bucket key : string) (m : gmap N object_row) : list Z :=
  (fun kv => ob_version kv.2) <$>
    rows_where (fun _ o => ob_bucket o = bucket /\ ob_key o = key) m.

(** COALESCE(MAX(version), 0) + 1 *)
Definition next_version (bucket key : string) (m : gmap N object_row) : Z :=
  (match versions_of bucket key m with
   | [] => 0
   | v :: vs => foldr Z.max v vs
   end + 1)%Z.

(** The COMPLETE version of a key. *)
Definition is_current (bucket key : string) (o : object_row) : Prop :=
  ob_bucket o = bucket /\ ob_key o = key /\ ob_state o = ObjectComplete.
#[export] Instance is_current_dec b k o : Decision (is_current b k o).
Proof. unfold is_current. apply _. Defined.

(** ** Uploads *)

Definition BeginUpload (fresh : N) (now : Z) (bucket key contentType : string) (chunkSize : Z)
    : Op db Object :=
  inTx (
    let! next := gets (fun d => next_version bucket key (objects d)) in
    let row := mkObject bucket key next ObjectUploading 0 chunkSize 0 None contentType None
                 now now None None in
    do! insert_object fresh row in
    tx_ret (scanObject fresh row)).

Definition TouchUpload (now : Z) (objectID : N) : Op db unit :=
  inTx (
    do! update_objects (fun k o => k = objectID /\ ob_state o = ObjectUploading)
          (fun o => o <| ob_updated_at := now |>) in
    tx_ret tt).

Definition supersedeCurrentVersion (now : Z) (bucket key : string) (newID : N) : Tx db unit :=
  let! m := gets objects in
  do! update_objects (fun k o => is_current bucket key o /\ k <> newID)
        (fun o => o <| ob_state := ObjectDeleting |> <| ob_deleted_at := Some now |>
                    <| ob_updated_at := now |>) in
  tx_for (rows_where (fun k o => is_current bucket key o /\ k <> newID) m).*1
    (enqueueObjectChunkDeletions now).

Definition object_chunk_count (d : db) (objectID : N) : Z :=
  count_where (fun _ c => ck_object_id c = Some objectID) (chunks d).
Definition object_committed_count (d : db) (objectID : N) : Z :=
  count_where (fun _ c => ck_object_id c = Some objectID /\ ck_state c = ChunkCommitted)
    (chunks d).

Definition complete_row (now sizeBytes chunkCount : Z) (etag : string) (o : object_row)
    : object_row :=
  o <| ob_state := ObjectComplete |> <| ob_size_bytes := sizeBytes |>
    <| ob_chunk_count := chunkCount |> <| ob_etag := Some etag |>
    <| ob_completed_at := Some now |> <| ob_updated_at := now |>.

Definition CompleteUpload_tx (now : Z) (objectID : N) (sizeBytes chunkCount : Z) (etag : string)
    : Tx db Object :=
  let! row := gets (fun d => objects d !! objectID) in
  match row with
  | None => throw ErrNotFound
  | Some o =>
      do! require (bool_decide (ob_state o = ObjectUploading)) ErrConflict in
      let! total := gets (fun d => object_chunk_count d objectID) in
      let! committed := gets (fun d => object_committed_count d objectID) in
      do! require (bool_decide (total = chunkCount /\ committed = chunkCount))
            ErrDurabilityNotMet in
      do! supersedeCurrentVersion now (ob_bucket o) (ob_key o) objectID in
      do! update_objects (fun k _ => k = objectID)
            (complete_row now sizeBytes chunkCount etag) in
      tx_ret (scanObject objectID (complete_row now sizeBytes chunkCount etag o))
  end.

Definition CompleteUpload (now : Z) (objectID : N) (sizeBytes chunkCount : Z) (etag : string)
    : Op db Object :=
  inTx (CompleteUpload_tx now objectID sizeBytes chunkCount etag).

Definition AbortUpload (now : Z) (objectID : N) (reason : string) : Op db unit :=
  inTx (
    let! affected :=
      update_objects (fun k o => k = objectID /\ ob_state o = ObjectUploading)
        (fun o => o <| ob_state := ObjectFailed |>
                    <| ob_failure_reason := Some (truncate reason 500) |>
                    <| ob_updated_at := now |>) in
    if bool_decide (affected = 0%Z) then tx_ret tt
    else orphanObjectChunks now objectID).

(** The result is the deleted version, [None] when there was none. *)
Definition DeleteObject (now : Z) (bucket key : string) : Op db (option N) :=
  inTx (
    let! m := gets objects in
    do! update_objects (fun _ o => is_current bucket key o)
          (fun o => o <| ob_state := ObjectDeleting |> <| ob_deleted_at := Some now |>
                      <| ob_updated_at := now |>) in
    match find_row (fun _ o => is_current bucket key o) m with
    | None => tx_ret None
    | Some (id, _) =>
        do! enqueueObjectChunkDeletions now id in
        tx_ret (Some id)
    end).

(** ** Reads *)

Definition HeadObject (bucket key : string) : Op db Object :=
  inTx (
    let! m := gets objects in
    match find_row (fun _ o => is_current bucket key o) m with
    | None => throw ErrNotFound
    | Some (id, o) => tx_ret (scanObject id o)
    end).

Definition GetObjectByID (id : N) : Op db Object :=
  inTx (
    let! row := gets (fun d => objects d !! id) in
    match row with
    | None => throw ErrNotFound
    | Some o => tx_ret (scanObject id o)
    end).

Section reads.
Context `{PG : !Postgres}.

Definition GetObject (bucket key : string) : Op db (Object * list ChunkWithReplicas) :=
  let* obj := HeadObject bucket key in
  let* cs := inTx (gets (ChunksForObject (o_ID obj) true)) in
  if bool_decide (Z.of_nat (length cs) = o_ChunkCount obj) then op_ret (obj, cs)
  else op_throw ErrConflict.

Definition key_le (a b : N * object_row) : Prop := text_le (ob_key a.2) (ob_key b.2).
#[export] Instance key_le_dec : RelDecision key_le.
Proof. intros a b. unfold key_le. apply _. Defined.

(** [key > $2] in the collation. *)
Definition text_lt (a b : string) : Prop := text_le a b /\ a <> b.

Definition listable (bucket prefix startAfter : string) (o : object_row) : Prop :=
  ob_bucket o = bucket /\ ob_state o = ObjectComplete /\
  text_lt startAfter (ob_key o) /\ text_like (ob_key o) (prefix +:+ "%") = true.
#[export] Instance listable_dec b p s o : Decision (listable b p s o).
Proof. unfold listable, text_lt. apply _. Defined.

Definition clamp_limit (limit : Z) : Z :=
  if bool_decide (limit <= 0 \/ 1000 < limit)%Z then 1000%Z else limit.

Definition ListObjects (bucket prefix startAfter : string) (limit : Z)
    : Op db (list Object * bool) :=
  let limit := clamp_limit limit in
  inTx (
    let! m := gets objects in
    let! rows := limit_rows (limit + 1)
      (order_by key_le (rows_where (fun _ o => listable bucket prefix startAfter o) m)) in
    let out := (fun kv => scanObject kv.1 kv.2) <$> rows in
    let truncated := bool_decide (limit < Z.of_nat (length out))%Z in
    tx_ret (if truncated then take (Z.to_nat limit) out else out, truncated)).

Definition updated_at_le (a b : N * object_row) : Prop :=
  (ob_updated_at a.2 <= ob_updated_at b.2)%Z.
#[export] Instance updated_at_le_dec : RelDecision updated_at_le.
Proof. intros a b. unfold updated_at_le. apply _. Defined.

Definition ReapStaleUploads (now : Z) (olderThan limit : Z) : Op db Z :=
  inTx (
    let! m := gets objects in
    let! stale := limit_rows limit
      (order_by updated_at_le
         (rows_where (fun _ o => ob_state o = ObjectUploading /\
                                 (ob_updated_at o < now - olderThan)%Z) m)) in
    do! tx_for stale.*1 (fun id =>
          do! update_objects (fun k _ => k = id)
                (fun o => o <| ob_state := ObjectFailed |>
                            <| ob_failure_reason := Some "upload timed out" |>
                            <| ob_updated_at := now |>) in
          orphanObjectChunks now id) in
    tx_ret (Z.of_nat (length stale))).
End reads.

(** ** Integrity *)

Lemma keeps_BeginUpload fresh now b k ct cs : op_keeps schema_ok (BeginUpload fresh now b k ct cs).
Proof. unfold BeginUpload. keeps. Qed.
Lemma keeps_TouchUpload now o : op_keeps schema_ok (TouchUpload now o).
Proof. unfold TouchUpload. keeps. Qed.
Lemma keeps_supersedeCurrentVersion now b k o :
  tx_keeps schema_ok (supersedeCurrentVersion now b k o).
Proof. unfold supersedeCurrentVersion. keeps. Qed.
#[export] Hint Resolve keeps_BeginUpload keeps_TouchUpload keeps_supersedeCurrentVersion : keeps.
Lemma keeps_CompleteUpload now o size cnt etag :
  op_keeps schema_ok (CompleteUpload now o size cnt etag).
Proof. unfold CompleteUpload, CompleteUpload_tx. keeps. Qed.
Lemma keeps_AbortUpload now o reason : op_keeps schema_ok (AbortUpload now o reason).
Proof. unfold AbortUpload. keeps. Qed.
Lemma keeps_DeleteObject now b k : op_keeps schema_ok (DeleteObject now b k).
Proof. unfold DeleteObject. keeps. Qed.
Lemma keeps_ReapStaleUploads `{PG : !Postgres} now older limit :
  op_keeps schema_ok (ReapStaleUploads now older limit).
Proof. unfold ReapStaleUploads. keeps. Qed.
#[export] Hint Resolve keeps_CompleteUpload keeps_AbortUpload keeps_DeleteObject
  keeps_ReapStaleUploads : keeps.
