(* ===== verification/Nodes.v ===== *)
(** * Storage nodes in the metadata store (src/internal/metadata/nodes.go)

    Registration, heartbeats and health transitions.  A transition to DEAD
    demotes the node's replicas in the same transaction. *)

From stdpp Require Import gmap strings list sorting.
From S2P Require Import Prelude Sql Schema Statements Chunks Objects.

Record NodeStats := mkNodeStats {
  ns_TotalBytes : Z;
  ns_UsedBytes : Z;
  ns_AvailableBytes : Z;
  ns_ChunkCount : Z;
  ns_ActiveRequests : Z
}.

Record Node := mkNodeView {
  n_ID : string;
  n_Address : string;
  n_Health : NodeHealth;
  n_TotalBytes : Z;
  n_UsedBytes : Z;
  n_AvailableBytes : Z;
  n_ChunkCount : Z;
  n_ActiveRequests : Z;
  n_LastHeartbeatAt : option Z;
  n_RegisteredAt : Z
}.

Definition scanNode (id : string) (r : node_row) : Node :=
  mkNodeView id (sn_grpc_address r) (sn_health r) (sn_total_bytes r) (sn_used_bytes r)
    (sn_available_bytes r) (sn_chunk_count r) (sn_active_requests r)
    (sn_last_heartbeat_at r) (sn_registered_at r).

(** The columns a registration or a heartbeat overwrites. *)
Definition refresh_node (now : Z) (address : string) (health : NodeHealth) (stats : NodeStats)
    (at_ : Z) (r : node_row) : node_row :=
  mkNode address health (ns_TotalBytes stats) (ns_UsedBytes stats) (ns_AvailableBytes stats)
    (ns_ChunkCount stats) (ns_ActiveRequests stats) (Some at_) (sn_registered_at r) now.

Definition UpsertNode (now : Z) (id address : string) (health : NodeHealth) (stats : NodeStats)
    (at_ : Z) : Op db unit :=
  inTx (
    let! m := gets storage_nodes in
    let fresh := mkNode address health (ns_TotalBytes stats) (ns_UsedBytes stats)
                   (ns_AvailableBytes stats) (ns_ChunkCount stats) (ns_ActiveRequests stats)
                   (Some at_) now now in
    put_nodes (<[id := match m !! id with
                       | Some r => refresh_node now address health stats at_ r
                       | None => fresh
                       end]> m)).

Definition RecordHeartbeat (now : Z) (id address : string) (stats : NodeStats)
    (health : NodeHealth) (at_ : Z) : Op db unit :=
  inTx (
    let! affected := update_nodes (fun k _ => k = id) (refresh_node now address health stats at_) in
    require (bool_decide (affected <> 0%Z)) ErrNotFound).

Definition demotable (r : replica_row) : Prop :=
  cr_state r = ReplicaAvailable \/ cr_state r = ReplicaWriting.
#[export] Instance demotable_dec r : Decision (demotable r).
Proof. unfold demotable. apply _. Defined.

Definition demote_replicas (now : Z) (nodeID : string) : Tx db Z :=
  update_replicas (fun k r => k.2 = nodeID /\ demotable r)
    (fun r => r <| cr_state := ReplicaUnavailable |> <| cr_updated_at := now |>).

Definition SetNodeHealth (now : Z) (id : string) (health : NodeHealth) : Op db Z :=
  inTx (
    do! update_nodes (fun k _ => k = id)
          (fun r => r <| sn_health := health |> <| sn_updated_at := now |>) in
    if bool_decide (health <> DEAD) then tx_ret 0%Z else demote_replicas now id).

Definition MarkReplicasUnavailableOnNode (now : Z) (nodeID : string) : Op db Z :=
  inTx (demote_replicas now nodeID).

Section reads.
Context `{PG : !Postgres}.

Definition node_id_le (a b : string * node_row) : Prop := text_le a.1 b.1.
#[export] Instance node_id_le_dec : RelDecision node_id_le.
Proof. intros a b. unfold node_id_le. apply _. Defined.

Definition ListNodes (healthyOnly : bool) (d : db) : list Node :=
  (fun kv => scanNode kv.1 kv.2) <$>
    order_by node_id_le
      (rows_where (fun _ r => healthyOnly = true -> sn_health r = HEALTHY) (storage_nodes d)).
End reads.

Definition GetNode (id : string) : Op db Node :=
  inTx (
    let! row := gets (fun d => storage_nodes d !! id) in
    match row with
    | None => throw ErrNotFound
    | Some r => tx_ret (scanNode id r)
    end).

(** ** Integrity *)

Lemma keeps_UpsertNode now id addr h st at_ : op_keeps schema_ok (UpsertNode now id addr h st at_).
Proof.
  apply op_keeps_inTx. intros d u d' Hd Hrun. tx_inv Hrun.
  eapply put_nodes_schema; [done| |done]; auto with keeps.
Qed.
Lemma keeps_RecordHeartbeat now id addr st h at_ :
  op_keeps schema_ok (RecordHeartbeat now id addr st h at_).
Proof. unfold RecordHeartbeat. keeps. Qed.
Lemma keeps_demote_replicas now n : tx_keeps schema_ok (demote_replicas now n).
Proof. unfold demote_replicas. keeps. Qed.
#[export] Hint Resolve keeps_demote_replicas : keeps.
Lemma keeps_SetNodeHealth now id h : op_keeps schema_ok (SetNodeHealth now id h).
Proof. unfold SetNodeHealth. keeps. Qed.
Lemma keeps_MarkReplicasUnavailableOnNode now n :
  op_keeps schema_ok (MarkReplicasUnavailableOnNode now n).
Proof. unfold MarkReplicasUnavailableOnNode. keeps. Qed.
#[export] Hint Resolve keeps_UpsertNode keeps_RecordHeartbeat keeps_SetNodeHealth
  keeps_MarkReplicasUnavailableOnNode : keeps.
