(* ===== verification/Repair.v ===== *)
(** * The repair queue (src/internal/metadata/repair.go)

    Detection of under- and over-replicated chunks through the trigger's
    counter, the leased repair queue and its state machine, corruption
    reports, and the counter verifier. *)

From stdpp Require Import gmap strings list sorting.
From S2P Require Import Prelude Sql Schema Statements Chunks Objects.

(** ** Which chunks count *)

Definition live_object (o : option object_row) : bool :=
  match o with
  | Some r => bool_decide (ob_state r = ObjectComplete \/ ob_state r = ObjectUploading)
  | None => false
  end.
Definition live_part (d : db) (p : option part_row) : bool :=
  match p with
  | Some r =>
      bool_decide (mp_state r = PartUploading \/ mp_state r = PartComplete) &&
      match multipart_uploads d !! mp_upload_id r with
      | Some u => bool_decide (mu_state u = MultipartInProgress)
      | None => false
      end
  | None => false
  end.

Definition liveOwnerPredicate (d : db) (c : chunk_row) : Prop :=
  live_object (ck_object_id c ≫= fun i => objects d !! i) ||
  live_part d (ck_part_id c ≫= fun i => multipart_parts d !! i) = true.
#[export] Instance liveOwnerPredicate_dec d c : Decision (liveOwnerPredicate d c).
Proof. unfold liveOwnerPredicate. apply _. Defined.

(** lease_expires_at < now(); NULL is not true. *)
Definition lease_expired (now : Z) (lease : option Z) : Prop :=
  match lease with Some t => (t < now)%Z | None => False end.
#[export] Instance lease_expired_dec now lease : Decision (lease_expired now lease).
Proof. unfold lease_expired. destruct lease; apply _. Defined.

(** c.state = 'COMMITTED' AND <live owner> *)
Definition accountable (d : db) (c : chunk_row) : Prop :=
  ck_state c = ChunkCommitted /\ liveOwnerPredicate d c.
#[export] Instance accountable_dec d c : Decision (accountable d c).
Proof. unfold accountable. apply _. Defined.

Definition DurabilityCounts (replicationFactor : Z) (d : db) : Z * Z :=
  (count_where (fun _ c => accountable d c /\ (ck_available_replicas c < replicationFactor)%Z)
     (chunks d),
   count_where (fun _ c => (accountable d c /\ (ck_available_replicas c < replicationFactor)%Z) /\
                           ck_available_replicas c = 0%Z) (chunks d)).

Definition CommittedChunkCount (d : db) : Z :=
  count_where (fun _ c => accountable d c) (chunks d).

(** ** Enqueueing *)

Fixpoint tx_sum {S A} (l : list A) (f : A -> Tx S Z) : Tx S Z :=
  match l with
  | [] => tx_ret 0%Z
  | a :: l' => let! n := f a in let! m := tx_sum l' f in tx_ret (n + m)%Z
  end.

(** ORDER BY c.available_replicas ASC, c.id *)
Definition most_endangered (a b : N * chunk_row) : Prop :=
  (ck_available_replicas a.2 < ck_available_replicas b.2)%Z \/
  ck_available_replicas a.2 = ck_available_replicas b.2 /\ (a.1 <= b.1)%N.
#[export] Instance most_endangered_dec : RelDecision most_endangered.
Proof. intros a b. unfold most_endangered. apply _. Defined.

Definition repairable (d : db) (rf : Z) (c : chunk_row) : Prop :=
  accountable d c /\ (0 < ck_available_replicas c < rf)%Z.
#[export] Instance repairable_dec d rf c : Decision (repairable d rf c).
Proof. unfold repairable. apply _. Defined.

Section queue.
Context `{PG : !Postgres}.

Definition EnqueueRepairs (now : Z) (replicationFactor limit : Z) : Op db Z :=
  inTx (
    let! d := gets (fun d => d) in
    let! rows := limit_rows limit
      (order_by most_endangered
         (rows_where (fun _ c => repairable d replicationFactor c) (chunks d))) in
    tx_sum rows.*1 (enqueue_repair now)).

(** ** Trimming *)

(** ORDER BY c.available_replicas DESC, c.id *)
Definition most_replicated (a b : N * chunk_row) : Prop :=
  (ck_available_replicas b.2 < ck_available_replicas a.2)%Z \/
  ck_available_replicas a.2 = ck_available_replicas b.2 /\ (a.1 <= b.1)%N.
#[export] Instance most_replicated_dec : RelDecision most_replicated.
Proof. intros a b. unfold most_replicated. apply _. Defined.

(** ROW_NUMBER() OVER (ORDER BY n.used_bytes ASC, n.id) *)
Definition emptiest_le (a b : string * node_row) : Prop :=
  (sn_used_bytes a.2 < sn_used_bytes b.2)%Z \/
  sn_used_bytes a.2 = sn_used_bytes b.2 /\ text_le a.1 b.1.
#[export] Instance emptiest_le_dec : RelDecision emptiest_le.
Proof. intros a b. unfold emptiest_le. apply _. Defined.

(** FROM chunk_replicas r JOIN storage_nodes n WHERE r.chunk_id = c AND r.state = 'AVAILABLE' *)
Definition available_nodes (d : db) (c : N) : list (string * node_row) :=
  omap (fun kr : (N * string) * replica_row =>
          (fun n => (kr.1.2, n)) <$> storage_nodes d !! kr.1.2)
    (rows_where (fun k r => k.1 = c /\ cr_state r = ReplicaAvailable) (chunk_replicas d)).

Definition ranked (d : db) (c : N) : list string :=
  (order_by emptiest_le (available_nodes d c)).*1.

Definition trim_one_tx (now : Z) (replicationFactor : Z) (c : N) : Tx db Z :=
  let! row := gets (fun d => chunks d !! c) in
  match row with
  | None => tx_ret 0%Z
  | Some ch =>
      if bool_decide (ck_available_replicas ch - replicationFactor <= 0)%Z then tx_ret 0%Z
      else
        let! victims := gets (fun d => drop (Z.to_nat replicationFactor) (ranked d c)) in
        let! trimmed := update_replicas (fun k _ => k.1 = c /\ k.2 ∈ victims)
          (fun r => r <| cr_state := ReplicaDeleting |> <| cr_updated_at := now |>) in
        do! enqueue_deletions_for now (fun k r => k.1 = c /\ cr_state r = ReplicaDeleting) in
        tx_ret trimmed
  end.

Fixpoint trim_all (now rf : Z) (ids : list N) (acc : Z) : Op db Z :=
  match ids with
  | [] => op_ret acc
  | c :: ids' =>
      let* n := inTx (trim_one_tx now rf c) in
      trim_all now rf ids' (acc + n)%Z
  end.

Definition TrimOverReplicatedChunks (now : Z) (replicationFactor limit : Z) : Op db Z :=
  let* rows := inTx (
    let! d := gets (fun d => d) in
    limit_rows limit
      (order_by most_replicated
         (rows_where (fun _ c => accountable d c /\
                                 (replicationFactor < ck_available_replicas c)%Z) (chunks d)))) in
  trim_all now replicationFactor rows.*1 0.

(** ** The job state machine *)

Definition ReclaimExpiredRepairLeases (now : Z) : Op db Z :=
  inTx (update_repairs
    (fun _ j => rj_state j = RepairRunning /\ lease_expired now (rj_lease_expires_at j))
    (fun j => j <| rj_state := RepairPending |> <| rj_owner := None |>
                <| rj_lease_expires_at := None |> <| rj_next_attempt_at := now |>
                <| rj_updated_at := now |>
                <| rj_last_error := Some (default "lease expired; reclaimed after coordinator restart"
                                            (rj_last_error j)) |>)).

Record RepairTarget := mkRepairTarget {
  rt_JobID : Z;
  rt_ChunkID : N;
  rt_Attempts : Z;
  rt_LastError : string;
  rt_CreatedAt : Z;
  rt_Checksum : string;
  rt_Size : Z;
  rt_Sources : list Replica;
  rt_Occupied : list string;
  rt_DesiredReplicas : Z;
  rt_StaleReplicas : Z;
  rt_TransientOccupancy : Z
}.

(** ORDER BY next_attempt_at, id *)
Definition due_le (a b : Z * repair_row) : Prop :=
  (rj_next_attempt_at a.2 < rj_next_attempt_at b.2)%Z \/
  rj_next_attempt_at a.2 = rj_next_attempt_at b.2 /\ (a.1 <= b.1)%Z.
#[export] Instance due_le_dec : RelDecision due_le.
Proof. intros a b. unfold due_le. apply _. Defined.

Definition claimable (now : Z) (j : repair_row) : Prop :=
  rj_state j = RepairPending /\ (rj_next_attempt_at j <= now)%Z.
#[export] Instance claimable_dec now j : Decision (claimable now j).
Proof. unfold claimable. apply _. Defined.

Definition claim_row (now lease : Z) (owner : string) (j : repair_row) : repair_row :=
  j <| rj_state := RepairRunning |> <| rj_owner := Some owner |>
    <| rj_lease_expires_at := Some (now + lease)%Z |>
    <| rj_attempts := (rj_attempts j + 1)%Z |> <| rj_updated_at := now |>.

(** ORDER BY n.active_requests, n.id *)
Definition least_loaded (a b : string * node_row) : Prop :=
  (sn_active_requests a.2 < sn_active_requests b.2)%Z \/
  sn_active_requests a.2 = sn_active_requests b.2 /\ text_le a.1 b.1.
#[export] Instance least_loaded_dec : RelDecision least_loaded.
Proof. intros a b. unfold least_loaded. apply _. Defined.

Definition repair_sources (d : db) (c : N) : list Replica :=
  (fun kn : string * node_row =>
     mkReplicaView kn.1 (sn_grpc_address kn.2) (Some (sn_health kn.2)) ReplicaAvailable 0) <$>
    order_by least_loaded
      (filter (fun kn : string * node_row => sn_health kn.2 <> DEAD) (available_nodes d c)).

Definition occupancy (d : db) (c : N) : list (string * ReplicaState) :=
  (fun kr : (N * string) * replica_row => (kr.1.2, cr_state kr.2)) <$>
    scan (rows_where (fun k _ => k.1 = c) (chunk_replicas d)).

Definition count_if {A} (P : A -> Prop) `{!forall a, Decision (P a)} (l : list A) : Z :=
  Z.of_nat (length (filter P l)).

Definition ClaimRepairJob_tx (now : Z) (owner : string) (lease replicationFactor : Z)
    : Tx db RepairTarget :=
  let! m := gets repair_jobs in
  match order_by due_le (rows_where (fun _ j => claimable now j) m) with
  | [] => throw ErrNoRepairWork
  | (id, j) :: _ =>
      do! update_repairs (fun k _ => k = id) (claim_row now lease owner) in
      let! row := gets (fun d => chunks d !! rj_chunk_id j) in
      match row with
      | None => throw ErrNotFound
      | Some ch =>
          let! d := gets (fun d => d) in
          let occ := occupancy d (rj_chunk_id j) in
          tx_ret (mkRepairTarget id (rj_chunk_id j) (rj_attempts j + 1)
                    (nullString (rj_last_error j)) (rj_created_at j)
                    (nullString (ck_checksum_sha256 ch)) (ck_size_bytes ch)
                    (repair_sources d (rj_chunk_id j)) occ.*1
                    (Z.max 0 (replicationFactor - ck_available_replicas ch))
                    (count_if (fun o => o.2 = ReplicaStale) occ)
                    (count_if (fun o => o.2 <> ReplicaAvailable) occ))
      end
  end.

Definition ClaimRepairJob (now : Z) (owner : string) (lease replicationFactor : Z)
    : Op db RepairTarget := inTx (ClaimRepairJob_tx now owner lease replicationFactor).
End queue.

Definition RecordRepairPlan (now : Z) (jobID : Z) (source target : string) : Op db unit :=
  inTx (
    do! update_repairs (fun k _ => k = jobID)
          (fun j => j <| rj_source_node_id := Some source |>
                      <| rj_target_node_id := Some target |> <| rj_updated_at := now |>) in
    tx_ret tt).

Definition succeed_row (now : Z) (err : option string) (j : repair_row) : repair_row :=
  j <| rj_state := RepairSucceeded |> <| rj_owner := None |> <| rj_lease_expires_at := None |>
    <| rj_last_error := err |> <| rj_finished_at := Some now |> <| rj_updated_at := now |>.

Definition CompleteRepair_tx (now : Z) (jobID : Z) (chunkID : N) (targetNode : string) : Tx db Z :=
  do! upsert_replica (chunkID, targetNode) (mkReplica ReplicaAvailable now now (Some now) None)
        (fun r => r <| cr_state := ReplicaAvailable |> <| cr_updated_at := now |>
                    <| cr_verified_at := Some now |> <| cr_last_error := None |>) in
  let! row := gets (fun d => chunks d !! chunkID) in
  match row with
  | None => throw ErrNoRows
  | Some ch =>
      do! update_repairs (fun k _ => k = jobID) (succeed_row now None) in
      tx_ret (ck_available_replicas ch)
  end.

Definition CompleteRepair (now : Z) (jobID : Z) (chunkID : N) (targetNode : string) : Op db Z :=
  inTx (CompleteRepair_tx now jobID chunkID targetNode).

Definition FinishRepairAsNoop (now : Z) (jobID : Z) (reason : string) : Op db unit :=
  inTx (
    do! update_repairs (fun k _ => k = jobID) (succeed_row now (Some (truncate reason 500))) in
    tx_ret tt).

Definition fail_row (now : Z) (cause : string) (backoff maxAttempts : Z) (j : repair_row)
    : repair_row :=
  let terminal := bool_decide (maxAttempts <= rj_attempts j)%Z in
  j <| rj_state := if terminal then RepairFailed else RepairPending |>
    <| rj_owner := None |> <| rj_lease_expires_at := None |>
    <| rj_last_error := Some (truncate cause 500) |>
    <| rj_next_attempt_at := (now + backoff)%Z |>
    <| rj_finished_at := if terminal then Some now else None |>
    <| rj_updated_at := now |>.

(** The result says whether the job is terminally FAILED. *)
Definition FailRepair (now : Z) (jobID : Z) (cause : string) (backoff maxAttempts : Z)
    : Op db bool :=
  inTx (
    let! row := gets (fun d => repair_jobs d !! jobID) in
    do! update_repairs (fun k _ => k = jobID) (fail_row now cause backoff maxAttempts) in
    match row with
    | None => throw ErrNoRows
    | Some j => tx_ret (bool_decide (maxAttempts <= rj_attempts j)%Z)
    end).

(** ORDER BY j.updated_at *)
Definition repair_updated_le (a b : Z * repair_row) : Prop :=
  (rj_updated_at a.2 <= rj_updated_at b.2)%Z.
#[export] Instance repair_updated_le_dec : RelDecision repair_updated_le.
Proof. intros a b. unfold repair_updated_le. apply _. Defined.

Record RepairJob := mkRepairJob {
  rpj_ID : Z;
  rpj_ChunkID : N;
  rpj_State : RepairJobState;
  rpj_SourceNodeID : string;
  rpj_TargetNodeID : string;
  rpj_Attempts : Z;
  rpj_LastError : string;
  rpj_CreatedAt : Z;
  rpj_UpdatedAt : Z;
  rpj_FinishedAt : option Z
}.
Definition scanRepairJob (kj : Z * repair_row) : RepairJob :=
  let j := kj.2 in
  mkRepairJob kj.1 (rj_chunk_id j) (rj_state j) (nullString (rj_source_node_id j)) (nullString (rj_target_node_id j))
    (rj_attempts j) (nullString (rj_last_error j)) (rj_created_at j) (rj_updated_at j) (rj_finished_at j).

(** ORDER BY updated_at DESC *)
Definition repair_newest (a b : Z * repair_row) : Prop := (rj_updated_at b.2 <= rj_updated_at a.2)%Z.
#[export] Instance repair_newest_dec : RelDecision repair_newest.
Proof. intros a b. unfold repair_newest. apply _. Defined.

Section maintenance.
Context `{PG : !Postgres}.

Definition RecentRepairJobs (limit : Z) (d : db) : list RepairJob :=
  let limit := if decide (limit <= 0 \/ 200 < limit)%Z then 50%Z else limit in
  scanRepairJob <$> take (Z.to_nat limit) (order_by repair_newest (rows_where (fun _ _ => True) (repair_jobs d))).

Definition RequeueFailedRepairs (now : Z) (limit : Z) : Op db Z :=
  inTx (
    let! d := gets (fun d => d) in
    let! picked := limit_rows limit
      (order_by repair_updated_le
         (rows_where (fun _ j => rj_state j = RepairFailed /\
                                 (ck_state <$> chunks d !! rj_chunk_id j) = Some ChunkCommitted)
            (repair_jobs d))) in
    update_repairs
      (fun k j => k ∈ picked.*1 /\
                  ~ map_Exists (fun _ a => rj_chunk_id a = rj_chunk_id j /\ repair_active a)
                      (repair_jobs d))
      (fun j => j <| rj_state := RepairPending |> <| rj_attempts := 0%Z |>
                  <| rj_next_attempt_at := now |> <| rj_finished_at := None |>
                  <| rj_updated_at := now |>)).

(** ORDER BY finished_at *)
Definition finished_le (a b : Z * repair_row) : Prop :=
  match rj_finished_at a.2, rj_finished_at b.2 with
  | Some x, Some y => (x <= y)%Z
  | Some _, None => True
  | None, Some _ => False
  | None, None => True
  end.
#[export] Instance finished_le_dec : RelDecision finished_le.
Proof.
  intros a b. unfold finished_le. destruct (rj_finished_at a.2), (rj_finished_at b.2); apply _.
Defined.

Definition finished_before (t : Z) (o : option Z) : Prop :=
  match o with Some x => (x < t)%Z | None => False end.
#[export] Instance finished_before_dec t o : Decision (finished_before t o).
Proof. unfold finished_before. destruct o; apply _. Defined.

(** rj.state = 'FAILED' AND (c.id IS NULL OR c.available_replicas >= rf) *)
Definition resolved (d : db) (rf : Z) (j : repair_row) : Prop :=
  rj_state j = RepairFailed /\
  match chunks d !! rj_chunk_id j with
  | None => True
  | Some c => (rf <= ck_available_replicas c)%Z
  end.
#[export] Instance resolved_dec d rf j : Decision (resolved d rf j).
Proof. unfold resolved. destruct (chunks d !! _); apply _. Defined.

Definition PurgeFinishedRepairJobs (now : Z) (olderThan replicationFactor limit : Z) : Op db Z :=
  let* purged := inTx (
    let! m := gets repair_jobs in
    let! old := limit_rows limit
      (order_by finished_le
         (rows_where (fun _ j => rj_state j = RepairSucceeded /\
                                 finished_before (now - olderThan) (rj_finished_at j)) m)) in
    delete_repairs (fun k _ => k ∈ old.*1)) in
  let* more := inTx (
    let! d := gets (fun d => d) in
    let! stale := limit_rows limit
      (scan (rows_where (fun _ j => resolved d replicationFactor j) (repair_jobs d))) in
    delete_repairs (fun k _ => k ∈ stale.*1)) in
  op_ret (purged + more)%Z.
End maintenance.

(** Remaining usable replicas after a corruption report. *)
Definition MarkReplicaCorrupt_tx (now : Z) (chunkID : N) (nodeID detail : string) : Tx db Z :=
  do! update_replicas (fun k r => k = (chunkID, nodeID) /\ cr_state r <> ReplicaDeleting)
        (fun r => r <| cr_state := ReplicaCorrupt |> <| cr_updated_at := now |>
                    <| cr_last_error := Some (truncate detail 500) |>) in
  let! row := gets (fun d => chunks d !! chunkID) in
  match row with
  | None => throw ErrNotFound
  | Some ch =>
      do! enqueue_deletion now chunkID nodeID in
      tx_ret (ck_available_replicas ch)
  end.

Definition MarkReplicaCorrupt (now : Z) (chunkID : N) (nodeID detail : string) : Op db Z :=
  inTx (MarkReplicaCorrupt_tx now chunkID nodeID detail).

Definition DropReplica (chunkID : N) (nodeID : string) : Op db unit :=
  inTx (do! delete_replicas (fun k _ => k = (chunkID, nodeID)) in tx_ret tt).

Definition RepairCounts (d : db) (s : RepairJobState) : Z :=
  count_where (fun _ j => rj_state j = s) (repair_jobs d).

(** UPDATE chunks SET available_replicas = actual.n ... WHERE available_replicas <> actual.n *)
Definition recounted (rs : gmap (N * string) replica_row) (c : N) (r : chunk_row) : chunk_row :=
  if decide (ck_available_replicas r <> count_available rs c)
  then r <| ck_available_replicas := count_available rs c |> else r.

Definition VerifyDurabilityCounters : Op db Z :=
  inTx (
    let! d := gets (fun d => d) in
    do! put_chunks (map_imap (fun c r => Some (recounted (chunk_replicas d) c r)) (chunks d)) in
    tx_ret (count_where
              (fun c r => ck_available_replicas r <> count_available (chunk_replicas d) c)
              (chunks d))).

Definition CompleteRepairForTest (now : Z) (chunkID : N) (nodeID : string) : Op db Z :=
  inTx (
    do! upsert_replica (chunkID, nodeID) (mkReplica ReplicaAvailable now now (Some now) None)
          (fun r => r <| cr_state := ReplicaAvailable |> <| cr_updated_at := now |>) in
    let! row := gets (fun d => chunks d !! chunkID) in
    match row with
    | None => throw ErrNoRows
    | Some ch => tx_ret (ck_available_replicas ch)
    end).

(** ** Integrity *)

Lemma keeps_enqueue_deletions_for now P `{!forall k v, Decision (P k v)} :
  tx_keeps schema_ok (enqueue_deletions_for now P).
Proof. unfold enqueue_deletions_for. keeps. Qed.
#[export] Hint Resolve keeps_enqueue_deletions_for : keeps.
Lemma keeps_tx_sum {S A} (I : S -> Prop) (l : list A) f :
  (forall a, tx_keeps I (f a)) -> tx_keeps I (tx_sum l f).
Proof. intros Hf. induction l; simpl; keeps. Qed.

Section integrity.
Context `{PG : !Postgres}.
Lemma keeps_EnqueueRepairs now rf limit : op_keeps schema_ok (EnqueueRepairs now rf limit).
Proof. unfold EnqueueRepairs. keeps. apply keeps_tx_sum. keeps. Qed.
Lemma keeps_trim_one_tx now rf c : tx_keeps schema_ok (trim_one_tx now rf c).
Proof. unfold trim_one_tx. keeps. Qed.
Lemma keeps_trim_all now rf ids acc : op_keeps schema_ok (trim_all now rf ids acc).
Proof.
  revert acc. induction ids; intros acc; simpl; keeps. apply keeps_trim_one_tx.
Qed.
Lemma keeps_TrimOverReplicatedChunks now rf limit :
  op_keeps schema_ok (TrimOverReplicatedChunks now rf limit).
Proof. unfold TrimOverReplicatedChunks. keeps. apply keeps_trim_all. Qed.
Lemma keeps_ReclaimExpiredRepairLeases now : op_keeps schema_ok (ReclaimExpiredRepairLeases now).
Proof. unfold ReclaimExpiredRepairLeases. keeps. Qed.
Lemma keeps_ClaimRepairJob now owner lease rf :
  op_keeps schema_ok (ClaimRepairJob now owner lease rf).
Proof. unfold ClaimRepairJob, ClaimRepairJob_tx. keeps. Qed.
Lemma keeps_RequeueFailedRepairs now limit : op_keeps schema_ok (RequeueFailedRepairs now limit).
Proof. unfold RequeueFailedRepairs. keeps. Qed.
Lemma keeps_PurgeFinishedRepairJobs now older rf limit :
  op_keeps schema_ok (PurgeFinishedRepairJobs now older rf limit).
Proof. unfold PurgeFinishedRepairJobs. keeps. Qed.
End integrity.

Lemma keeps_RecordRepairPlan now j s t : op_keeps schema_ok (RecordRepairPlan now j s t).
Proof. unfold RecordRepairPlan. keeps. Qed.
Lemma keeps_CompleteRepair now j c n : op_keeps schema_ok (CompleteRepair now j c n).
Proof. unfold CompleteRepair, CompleteRepair_tx. keeps. Qed.
Lemma keeps_FinishRepairAsNoop now j r : op_keeps schema_ok (FinishRepairAsNoop now j r).
Proof. unfold FinishRepairAsNoop. keeps. Qed.
Lemma keeps_FailRepair now j c b m : op_keeps schema_ok (FailRepair now j c b m).
Proof. unfold FailRepair. keeps. Qed.
Lemma keeps_MarkReplicaCorrupt now c n detail :
  op_keeps schema_ok (MarkReplicaCorrupt now c n detail).
Proof. unfold MarkReplicaCorrupt, MarkReplicaCorrupt_tx. keeps. Qed.
Lemma keeps_DropReplica c n : op_keeps schema_ok (DropReplica c n).
Proof. unfold DropReplica. keeps. Qed.
Lemma keeps_CompleteRepairForTest now c n : op_keeps schema_ok (CompleteRepairForTest now c n).
Proof. unfold CompleteRepairForTest. keeps. Qed.
Lemma keeps_VerifyDurabilityCounters : op_keeps schema_ok VerifyDurabilityCounters.
Proof.
  apply op_keeps_inTx. intros d u d' Hd Hrun. tx_inv Hrun.
  eapply put_chunks_schema; [done| | |done].
  - intros c [r Hr]. rewrite map_lookup_imap, Hr. simpl. eauto.
  - intros c r. rewrite map_lookup_imap. intros (r0&Hr0&[= <-])%bind_Some.
    unfold recounted. by case_decide.
Qed.
#[export] Hint Resolve keeps_EnqueueRepairs keeps_TrimOverReplicatedChunks
  keeps_ReclaimExpiredRepairLeases keeps_ClaimRepairJob keeps_RequeueFailedRepairs
  keeps_PurgeFinishedRepairJobs keeps_RecordRepairPlan keeps_CompleteRepair
  keeps_FinishRepairAsNoop keeps_FailRepair keeps_MarkReplicaCorrupt keeps_DropReplica
  keeps_CompleteRepairForTest keeps_VerifyDurabilityCounters : keeps.
