(* ===== verification/Gc.v ===== *)
(** * Garbage collection of metadata (src/internal/metadata/gc.go)

    The leased deletion queue, the bounded give-up path, and the purge of
    chunk, object and session rows. *)

From stdpp Require Import gmap strings list sorting.
From S2P Require Import Prelude Sql Schema Statements Chunks Objects Repair.

Record PendingDeletion := mkPendingDeletion {
  pd_ID : Z;
  pd_ChunkID : N;
  pd_NodeID : string;
  pd_Address : string;
  pd_Attempts : Z
}.

(** ORDER BY next_attempt_at *)
Definition deletion_due_le (a b : Z * deletion_row) : Prop :=
  (cd_next_attempt_at a.2 <= cd_next_attempt_at b.2)%Z.
#[export] Instance deletion_due_le_dec : RelDecision deletion_due_le.
Proof. intros a b. unfold deletion_due_le. apply _. Defined.

Definition lease_deletion (now lease : Z) (r : deletion_row) : deletion_row :=
  r <| cd_attempts := (cd_attempts r + 1)%Z |> <| cd_next_attempt_at := (now + lease)%Z |>.

Section gc.
Context `{PG : !Postgres}.

Definition ClaimDeletions (now : Z) (limit lease : Z) : Op db (list PendingDeletion) :=
  inTx (
    let! d := gets (fun d => d) in
    let! due := limit_rows limit
      (order_by deletion_due_le
         (rows_where (fun _ r => (cd_next_attempt_at r <= now)%Z) (chunk_deletions d))) in
    do! update_deletions (fun k _ => k ∈ due.*1) (lease_deletion now lease) in
    tx_ret ((fun kr : Z * deletion_row =>
       mkPendingDeletion kr.1 (cd_chunk_id kr.2) (cd_node_id kr.2)
         (nullString (sn_grpc_address <$> storage_nodes d !! cd_node_id kr.2))
         (cd_attempts kr.2 + 1)) <$> scan due)).

Definition FinishDeletion (id : Z) (chunkID : N) (nodeID : string) : Op db unit :=
  inTx (
    do! delete_replicas (fun k _ => k = (chunkID, nodeID)) in
    do! delete_deletions (fun k _ => k = id) in
    tx_ret tt).

(** The first transaction of [FailDeletion]: has the job run out of attempts? *)
Definition expire_deletion (id maxAttempts : Z) : Tx db bool :=
  let! row := gets (fun d => chunk_deletions d !! id) in
  match row with
  | None => tx_ret false
  | Some r =>
      if bool_decide (maxAttempts <= cd_attempts r)%Z then
        do! delete_deletions (fun k _ => k = id) in
        do! delete_replicas (fun k q => k = (cd_chunk_id r, cd_node_id r) /\
                                        cr_state q = ReplicaDeleting) in
        tx_ret true
      else tx_ret false
  end.

Definition FailDeletion (now : Z) (id : Z) (cause : string) (backoff maxAttempts : Z)
    : Op db unit :=
  let* expired := inTx (expire_deletion id maxAttempts) in
  if expired : bool then op_ret tt
  else inTx (
    do! update_deletions (fun k _ => k = id)
          (fun r => r <| cd_last_error := Some (truncate cause 500) |>
                      <| cd_next_attempt_at := (now + backoff)%Z |>) in
    tx_ret tt).

(** No replica row and no queued deletion mentions the chunk. *)
Definition reclaimed (d : db) (c : N) : Prop :=
  ~ map_Exists (fun k _ => k.1 = c) (chunk_replicas d) /\
  ~ map_Exists (fun _ r => cd_chunk_id r = c) (chunk_deletions d).
#[export] Instance reclaimed_dec d c : Decision (reclaimed d c).
Proof. unfold reclaimed. apply _. Defined.

Definition object_reclaimed (d : db) (o : N) : Prop :=
  ~ map_Exists (fun k _ => chunk_of_object d o k.1) (chunk_replicas d) /\
  ~ map_Exists (fun _ r => chunk_of_object d o (cd_chunk_id r)) (chunk_deletions d).
#[export] Instance object_reclaimed_dec d o : Decision (object_reclaimed d o).
Proof. unfold object_reclaimed. apply _. Defined.

Definition PurgeReclaimedChunks (limit : Z) : Op db (Z * Z) :=
  inTx (
    let! d := gets (fun d => d) in
    let! cs := limit_rows limit
      (scan (rows_where (fun c r => ck_state r = ChunkOrphaned /\ reclaimed d c) (chunks d))) in
    let! chunksPurged := delete_chunks (fun k _ => k ∈ cs.*1) in
    let! d1 := gets (fun d => d) in
    let! os := limit_rows limit
      (scan (rows_where (fun o r => (ob_state r = ObjectDeleting \/ ob_state r = ObjectFailed) /\
                                    object_reclaimed d1 o) (objects d1))) in
    let! objectsPurged := delete_objects (fun k _ => k ∈ os.*1) in
    tx_ret (chunksPurged, objectsPurged)).

Definition upload_has_chunks (d : db) (u : N) : Prop :=
  map_Exists (fun c _ => chunk_of_upload d u c) (chunks d).
#[export] Instance upload_has_chunks_dec d u : Decision (upload_has_chunks d u).
Proof. unfold upload_has_chunks. apply _. Defined.

Definition PurgeCompletedMultipartUploads (now : Z) (olderThan limit : Z) : Op db Z :=
  inTx (
    let! d := gets (fun d => d) in
    let! us := limit_rows limit
      (scan (rows_where (fun u r =>
         (mu_state r = MultipartCompleted \/ mu_state r = MultipartAborted) /\
         (mu_updated_at r < now - olderThan)%Z /\ ~ upload_has_chunks d u)
         (multipart_uploads d))) in
    delete_uploads (fun k _ => k ∈ us.*1)).
End gc.

Record ClusterStats := mkClusterStats {
  cs_TotalChunks : Z;
  cs_UnderReplicatedChunks : Z;
  cs_UnavailableChunks : Z;
  cs_ObjectsByState : ObjectState -> Z;
  cs_RepairJobsByState : RepairJobState -> Z
}.

(** A state with no row is absent from the Go map and reads as zero. *)
Definition ClusterStats_read (replicationFactor : Z) (d : db) : ClusterStats :=
  mkClusterStats (CommittedChunkCount d) (DurabilityCounts replicationFactor d).1
    (DurabilityCounts replicationFactor d).2
    (fun s => count_where (fun _ o => ob_state o = s) (objects d))
    (RepairCounts d).

(** Per-chunk AVAILABLE replica counts of one object. *)
Definition ReplicaCountsForObject (objectID : N) (d : db) : gmap N Z :=
  map_imap (fun c _ => Some (count_available (chunk_replicas d) c))
    (filter (fun kv => ck_object_id kv.2 = Some objectID) (chunks d)).

(** ** Integrity *)

Lemma keeps_ClaimDeletions `{PG : !Postgres} now limit lease :
  op_keeps schema_ok (ClaimDeletions now limit lease).
Proof. unfold ClaimDeletions. keeps. Qed.
Lemma keeps_FinishDeletion id c n : op_keeps schema_ok (FinishDeletion id c n).
Proof. unfold FinishDeletion. keeps. Qed.
Lemma keeps_FailDeletion now id cause backoff max :
  op_keeps schema_ok (FailDeletion now id cause backoff max).
Proof. unfold FailDeletion, expire_deletion. keeps. Qed.
Lemma keeps_PurgeReclaimedChunks `{PG : !Postgres} limit :
  op_keeps schema_ok (PurgeReclaimedChunks limit).
Proof. unfold PurgeReclaimedChunks. keeps. Qed.
Lemma keeps_PurgeCompletedMultipartUploads `{PG : !Postgres} now older limit :
  op_keeps schema_ok (PurgeCompletedMultipartUploads now older limit).
Proof. unfold PurgeCompletedMultipartUploads. keeps. Qed.
#[export] Hint Resolve keeps_ClaimDeletions keeps_FinishDeletion keeps_FailDeletion
  keeps_PurgeReclaimedChunks keeps_PurgeCompletedMultipartUploads : keeps.
