(* ===== verification/Reconcile.v ===== *)
(** * Reconciliation bookkeeping (src/internal/metadata/reconcile.go)

    A returning node's replicas are STALE until verified; the leased queue of
    inventory comparisons; guarded deletion of orphan files. *)

From stdpp Require Import gmap strings list sorting.
From S2P Require Import Prelude Sql Schema Statements Chunks Objects Repair.

Definition MarkReplicasStaleOnNode (now : Z) (nodeID : string) : Op db Z :=
  inTx (update_replicas (fun k r => k.2 = nodeID /\ cr_state r = ReplicaUnavailable)
          (fun r => r <| cr_state := ReplicaStale |> <| cr_updated_at := now |>)).

Definition EnqueueReconcile (now : Z) (nodeID : string) : Op db bool :=
  inTx (let! n := enqueue_reconcile now nodeID in tx_ret (bool_decide (0 < n)%Z)).

Record ReconcileJob := mkReconcileJob {
  rc_ID : Z;
  rc_NodeID : string;
  rc_Address : string;
  rc_CreatedAt : Z
}.

Record ReconcileResult := mkReconcileResult {
  rr_ChunksSeen : Z;
  rr_OrphansFound : Z;
  rr_PhantomsFound : Z;
  rr_Verified : Z;
  rr_CorruptFound : Z
}.

Record StaleReplicaOnNode := mkStaleReplica {
  sr_ChunkID : N;
  sr_Checksum : string;
  sr_Size : Z
}.

Definition node_healthy (d : db) (n : string) : Prop :=
  (sn_health <$> storage_nodes d !! n) = Some HEALTHY.
#[export] Instance node_healthy_dec d n : Decision (node_healthy d n).
Proof. unfold node_healthy. apply _. Defined.

Section reconcile.
Context `{PG : !Postgres}.

(** SELECT DISTINCT r.node_id ... ORDER BY r.node_id LIMIT $1 *)
Definition NodesWithStaleReplicas (limit : Z) : Op db (list string) :=
  inTx (
    let! d := gets (fun d => d) in
    limit_rows limit
      (order_by text_le
         (remove_dups
            (rows_where (fun k r => cr_state r = ReplicaStale /\ node_healthy d k.2)
               (chunk_replicas d)).*1.*2))).

Definition ReclaimExpiredReconcileLeases (now : Z) : Op db Z :=
  inTx (update_reconciles
    (fun _ j => nr_state j = ReconcileRunning /\ lease_expired now (nr_lease_expires_at j))
    (fun j => j <| nr_state := ReconcilePending |> <| nr_owner := None |>
                <| nr_lease_expires_at := None |> <| nr_updated_at := now |>)).

(** ORDER BY rr.created_at, rr.id *)
Definition reconcile_order (a b : Z * reconcile_row) : Prop :=
  (nr_created_at a.2 < nr_created_at b.2)%Z \/
  nr_created_at a.2 = nr_created_at b.2 /\ (a.1 <= b.1)%Z.
#[export] Instance reconcile_order_dec : RelDecision reconcile_order.
Proof. intros a b. unfold reconcile_order. apply _. Defined.

Definition ClaimReconcileJob (now : Z) (owner : string) (lease : Z) : Op db ReconcileJob :=
  inTx (
    let! d := gets (fun d => d) in
    match order_by reconcile_order
            (rows_where (fun _ j => nr_state j = ReconcilePending /\ node_healthy d (nr_node_id j))
               (node_reconciliations d)) with
    | [] => throw ErrNoReconcileWork
    | (id, j) :: _ =>
        do! update_reconciles (fun k _ => k = id)
              (fun j => j <| nr_state := ReconcileRunning |> <| nr_owner := Some owner |>
                          <| nr_lease_expires_at := Some (now + lease)%Z |>
                          <| nr_updated_at := now |>) in
        tx_ret (mkReconcileJob id (nr_node_id j)
                  (nullString (sn_grpc_address <$> storage_nodes d !! nr_node_id j))
                  (nr_created_at j))
    end).

Definition CompleteReconcile (now : Z) (jobID : Z) (res : ReconcileResult) : Op db unit :=
  inTx (
    do! update_reconciles (fun k _ => k = jobID)
          (fun j => j <| nr_state := ReconcileSucceeded |> <| nr_owner := None |>
                      <| nr_lease_expires_at := None |>
                      <| nr_chunks_seen := rr_ChunksSeen res |>
                      <| nr_orphans_found := rr_OrphansFound res |>
                      <| nr_phantoms_found := rr_PhantomsFound res |>
                      <| nr_verified := rr_Verified res |>
                      <| nr_corrupt_found := rr_CorruptFound res |>
                      <| nr_last_error := None |> <| nr_finished_at := Some now |>
                      <| nr_updated_at := now |>) in
    tx_ret tt).

Definition FailReconcile (now : Z) (jobID : Z) (cause : string) : Op db unit :=
  inTx (
    do! update_reconciles (fun k _ => k = jobID)
          (fun j => j <| nr_state := ReconcileFailed |> <| nr_owner := None |>
                      <| nr_lease_expires_at := None |>
                      <| nr_last_error := Some (truncate cause 500) |>
                      <| nr_finished_at := Some now |> <| nr_updated_at := now |>) in
    tx_ret tt).

Definition chunk_id_le (a b : N * chunk_row) : Prop := (a.1 <= b.1)%N.
#[export] Instance chunk_id_le_dec : RelDecision chunk_id_le.
Proof. intros a b. unfold chunk_id_le. apply _. Defined.

(** Keyset pagination: c.id > after ORDER BY c.id LIMIT limit *)
Definition StaleReplicasOnNode (nodeID : string) (after : N) (limit : Z)
    : Op db (list StaleReplicaOnNode) :=
  inTx (
    let! d := gets (fun d => d) in
    let! rows := limit_rows limit
      (order_by chunk_id_le
         (rows_where (fun c _ => (after < c)%N /\
             (cr_state <$> chunk_replicas d !! (c, nodeID)) = Some ReplicaStale) (chunks d))) in
    tx_ret ((fun kc : N * chunk_row =>
               mkStaleReplica kc.1 (nullString (ck_checksum_sha256 kc.2)) (ck_size_bytes kc.2))
            <$> rows)).
End reconcile.

Definition PromoteVerifiedReplica (now : Z) (chunkID : N) (nodeID : string) : Op db bool :=
  inTx (
    let! n := update_replicas (fun k r => k = (chunkID, nodeID) /\ cr_state r = ReplicaStale)
      (fun r => r <| cr_state := ReplicaAvailable |> <| cr_updated_at := now |>
                  <| cr_verified_at := Some now |> <| cr_last_error := None |>) in
    tx_ret (bool_decide (0 < n)%Z)).

Definition ChunkIDsKnownOnNode (nodeID : string) (d : db) : gmap N ReplicaState :=
  list_to_map ((fun kr : (N * string) * replica_row => (kr.1.1, cr_state kr.2)) <$>
    rows_where (fun k _ => k.2 = nodeID) (chunk_replicas d)).

Definition QueueOrphanDeletion (now : Z) (chunkID : N) (nodeID : string) : Op db bool :=
  inTx (
    let! d := gets (fun d => d) in
    if bool_decide (chunk_replicas d !! (chunkID, nodeID) = None /\
                    (ck_state <$> chunks d !! chunkID) <> Some ChunkPending)
    then let! n := enqueue_deletion now chunkID nodeID in tx_ret (bool_decide (0 < n)%Z)
    else tx_ret false).

(** ** Integrity *)

Lemma keeps_MarkReplicasStaleOnNode now n : op_keeps schema_ok (MarkReplicasStaleOnNode now n).
Proof. unfold MarkReplicasStaleOnNode. keeps. Qed.
Lemma keeps_EnqueueReconcile now n : op_keeps schema_ok (EnqueueReconcile now n).
Proof. unfold EnqueueReconcile. keeps. Qed.
Lemma keeps_ReclaimExpiredReconcileLeases now :
  op_keeps schema_ok (ReclaimExpiredReconcileLeases now).
Proof. unfold ReclaimExpiredReconcileLeases. keeps. Qed.
Lemma keeps_ClaimReconcileJob `{PG : !Postgres} now owner lease :
  op_keeps schema_ok (ClaimReconcileJob now owner lease).
Proof. unfold ClaimReconcileJob. keeps. Qed.
Lemma keeps_CompleteReconcile now j r : op_keeps schema_ok (CompleteReconcile now j r).
Proof. unfold CompleteReconcile. keeps. Qed.
Lemma keeps_FailReconcile now j c : op_keeps schema_ok (FailReconcile now j c).
Proof. unfold FailReconcile. keeps. Qed.
Lemma keeps_PromoteVerifiedReplica now c n : op_keeps schema_ok (PromoteVerifiedReplica now c n).
Proof. unfold PromoteVerifiedReplica. keeps. Qed.
Lemma keeps_QueueOrphanDeletion now c n : op_keeps schema_ok (QueueOrphanDeletion now c n).
Proof. unfold QueueOrphanDeletion. keeps. Qed.
#[export] Hint Resolve keeps_MarkReplicasStaleOnNode keeps_EnqueueReconcile
  keeps_ReclaimExpiredReconcileLeases keeps_ClaimReconcileJob keeps_CompleteReconcile
  keeps_FailReconcile keeps_PromoteVerifiedReplica keeps_QueueOrphanDeletion : keeps.
