(* ===== verification/Multipart.v ===== *)
(** * Multipart uploads (src/internal/metadata/multipart.go)

    Sessions, parts and the assembly transaction, which re-parents the chunks
    of the completed parts to a new object and renumbers them. *)

From stdpp Require Import gmap strings list sorting pretty.
From S2P Require Import Prelude Sql Schema Statements Chunks Objects.

Record MultipartUpload := mkUploadView {
  m_ID : N;
  m_Bucket : string;
  m_Key : string;
  m_State : MultipartState;
  m_ChunkSize : Z;
  m_ContentType : string;
  m_ObjectID : option N;
  m_CreatedAt : Z;
  m_UpdatedAt : Z
}.

Definition scanUpload (id : N) (u : upload_row) : MultipartUpload :=
  mkUploadView id (mu_bucket u) (mu_key u) (mu_state u) (mu_chunk_size u) (mu_content_type u)
    (mu_object_id u) (mu_created_at u) (mu_updated_at u).

Record Part := mkPartView {
  p_ID : N;
  p_UploadID : N;
  p_PartNumber : Z;
  p_State : PartState;
  p_SizeBytes : Z;
  p_ChunkCount : Z;
  p_ETag : string;
  p_CreatedAt : Z
}.

Definition scanPart (id : N) (p : part_row) : Part :=
  mkPartView id (mp_upload_id p) (mp_part_number p) (mp_state p) (mp_size_bytes p)
    (mp_chunk_count p) (nullString (mp_etag p)) (mp_created_at p).

Record CompletedPartRef := mkPartRef {
  ref_PartNumber : Z;
  ref_ETag : string
}.

(** ** Sessions and parts *)

Definition CreateMultipartUpload (fresh : N) (now : Z) (bucket key contentType : string)
    (chunkSize : Z) : Op db MultipartUpload :=
  inTx (
    let row := mkUpload bucket key MultipartInProgress chunkSize contentType None now now None in
    do! insert_upload fresh row in
    tx_ret (scanUpload fresh row)).

Definition GetMultipartUpload (id : N) : Op db MultipartUpload :=
  inTx (
    let! row := gets (fun d => multipart_uploads d !! id) in
    match row with
    | None => throw ErrNotFound
    | Some u => tx_ret (scanUpload id u)
    end).

Definition orphanPartChunks (now : Z) (partID : N) : Tx db unit :=
  let! d := gets (fun d => d) in
  do! enqueue_deletions_for now (fun k r =>
        (chunks d !! k.1 ≫= ck_part_id) = Some partID /\ cr_state r <> ReplicaDeleting) in
  do! update_replicas (fun k _ => (chunks d !! k.1 ≫= ck_part_id) = Some partID)
        (fun r => r <| cr_state := ReplicaDeleting |> <| cr_updated_at := now |>) in
  do! update_chunks (fun _ c => ck_part_id c = Some partID)
        (fun c => c <| ck_state := ChunkOrphaned |>) in
  tx_ret tt.

Definition prior_attempt (uploadID : N) (partNumber : Z) (p : part_row) : Prop :=
  mp_upload_id p = uploadID /\ mp_part_number p = partNumber /\ mp_state p <> PartFailed.
#[export] Instance prior_attempt_dec u n p : Decision (prior_attempt u n p).
Proof. unfold prior_attempt. apply _. Defined.

Definition BeginPart (fresh : N) (now : Z) (uploadID : N) (partNumber : Z) : Op db Part :=
  if bool_decide (partNumber < 1 \/ 10000 < partNumber)%Z then op_throw ErrConflict
  else inTx (
    let! row := gets (fun d => multipart_uploads d !! uploadID) in
    match row with
    | None => throw ErrNotFound
    | Some u =>
        do! require (bool_decide (mu_state u = MultipartInProgress)) ErrConflict in
        let! m := gets multipart_parts in
        do! update_parts (fun _ p => prior_attempt uploadID partNumber p)
              (fun p => p <| mp_state := PartFailed |> <| mp_updated_at := now |>) in
        do! tx_for (rows_where (fun _ p => prior_attempt uploadID partNumber p) m).*1
              (orphanPartChunks now) in
        let part := mkPart uploadID partNumber PartUploading 0 0 None now now None in
        do! insert_part fresh part in
        do! update_uploads (fun k _ => k = uploadID) (fun u => u <| mu_updated_at := now |>) in
        tx_ret (scanPart fresh part)
    end).

Definition part_chunk_count (d : db) (partID : N) : Z :=
  count_where (fun _ c => ck_part_id c = Some partID) (chunks d).
Definition part_committed_count (d : db) (partID : N) : Z :=
  count_where (fun _ c => ck_part_id c = Some partID /\ ck_state c = ChunkCommitted) (chunks d).

Definition CompletePart (now : Z) (partID : N) (sizeBytes chunkCount : Z) (etag : string)
    : Op db unit :=
  inTx (
    let! row := gets (fun d => multipart_parts d !! partID) in
    match row with
    | None => throw ErrNotFound
    | Some p =>
        do! require (bool_decide (mp_state p = PartUploading)) ErrConflict in
        let! total := gets (fun d => part_chunk_count d partID) in
        let! committed := gets (fun d => part_committed_count d partID) in
        do! require (bool_decide (total = chunkCount /\ committed = chunkCount))
              ErrDurabilityNotMet in
        do! update_parts (fun k _ => k = partID)
              (fun p => p <| mp_state := PartComplete |> <| mp_size_bytes := sizeBytes |>
                          <| mp_chunk_count := chunkCount |> <| mp_etag := Some etag |>
                          <| mp_completed_at := Some now |> <| mp_updated_at := now |>) in
        tx_ret tt
    end).

(** ** Assembly *)

(** [strings.Trim] with the double quote as its cutset. *)
Fixpoint trim_left (s : string) : string :=
  match s with
  | String c s' => if (Ascii.N_of_ascii c =? 34)%N then trim_left s' else s
  | EmptyString => EmptyString
  end.
Definition trim_quotes (s : string) : string :=
  String.rev (trim_left (String.rev (trim_left s))).

(** The digest is the hex encoding of SHA-256, a parameter. *)
Definition MultipartETag (sha256 : string -> string) (partETags : list string) : string :=
  sha256 (foldr String.append EmptyString (trim_quotes <$> partETags))
    +:+ "-" +:+ pretty (N.of_nat (length partETags)).

(** The manifest check: every listed part in order, with its number and, when
    given, its ETag. *)
Fixpoint manifest_matches (expected : list CompletedPartRef) (parts : list (N * part_row))
    : bool :=
  match expected, parts with
  | [], _ => true
  | want :: expected', (_, got) :: parts' =>
      bool_decide (ref_PartNumber want = mp_part_number got) &&
      (bool_decide (ref_ETag want = EmptyString) ||
       bool_decide (trim_quotes (ref_ETag want) = nullString (mp_etag got))) &&
      manifest_matches expected' parts'
  | _ :: _, [] => false
  end.

Definition complete_part_of (uploadID : N) (p : part_row) : Prop :=
  mp_upload_id p = uploadID /\ mp_state p = PartComplete.
#[export] Instance complete_part_of_dec u p : Decision (complete_part_of u p).
Proof. unfold complete_part_of. apply _. Defined.

(** Position of a chunk in the renumbered sequence. *)
Definition position_in (l : list N) (c : N) : option Z :=
  (fun p => Z.of_nat p.1) <$> list_find (fun k => k = c) l.

Definition reparented (objectID : N) (renum : list N) (c : N) (r : chunk_row) : chunk_row :=
  match position_in renum c with
  | Some i => r <| ck_object_id := Some objectID |> <| ck_part_id := None |>
                <| ck_chunk_index := i |>
  | None => r
  end.

Section assembly.
Context `{PG : !Postgres} (sha256 : string -> string).

Definition part_number_le (a b : N * part_row) : Prop :=
  (mp_part_number a.2 <= mp_part_number b.2)%Z.
#[export] Instance part_number_le_dec : RelDecision part_number_le.
Proof. intros a b. unfold part_number_le. apply _. Defined.

Definition ListParts (uploadID : N) (d : db) : list Part :=
  (fun kp => scanPart kp.1 kp.2) <$>
    order_by part_number_le
      (rows_where (fun _ p => complete_part_of uploadID p) (multipart_parts d)).

(** A committed chunk of a completed part with the sort key of the window
    function: (chunk, (part_number, chunk_index)). *)
Definition part_chunks (d : db) (uploadID : N) : list (N * (Z * Z)) :=
  omap (fun kc : N * chunk_row =>
    match ck_part_id kc.2 ≫= fun p => multipart_parts d !! p with
    | Some p =>
        if bool_decide (complete_part_of uploadID p /\ ck_state kc.2 = ChunkCommitted)
        then Some (kc.1, (mp_part_number p, ck_chunk_index kc.2)) else None
    | None => None
    end) (map_to_list (chunks d)).

Definition window_le (a b : N * (Z * Z)) : Prop :=
  (a.2.1 < b.2.1)%Z \/ a.2.1 = b.2.1 /\ (a.2.2 <= b.2.2)%Z.
#[export] Instance window_le_dec : RelDecision window_le.
Proof. intros a b. unfold window_le. apply _. Defined.

Definition renumbering (d : db) (uploadID : N) : list N :=
  (order_by window_le (part_chunks d uploadID)).*1.

Definition reparent_chunks (objectID uploadID : N) : Tx db Z :=
  let! d := gets (fun d => d) in
  let renum := renumbering d uploadID in
  do! put_chunks (map_imap (fun c r => Some (reparented objectID renum c r)) (chunks d)) in
  tx_ret (Z.of_nat (length renum)).

Definition CompleteMultipartUpload_tx (fresh : N) (now : Z) (uploadID : N)
    (expected : list CompletedPartRef) : Tx db Object :=
  let! row := gets (fun d => multipart_uploads d !! uploadID) in
  match row with
  | None => throw ErrNotFound
  | Some u =>
      do! require (bool_decide (mu_state u = MultipartInProgress)) ErrConflict in
      let! ps := gets multipart_parts in
      let parts := order_by part_number_le
                     (rows_where (fun _ p => complete_part_of uploadID p) ps) in
      do! require (negb (bool_decide (expected = [])) ||
                   bool_decide (count_where (fun _ p => mp_upload_id p = uploadID /\
                                  mp_state p = PartUploading) ps = 0%Z)) ErrConflict in
      do! require (negb (bool_decide (parts = []))) ErrConflict in
      do! require (bool_decide (expected = []) ||
                   bool_decide (length expected = length parts) &&
                   manifest_matches expected parts) ErrConflict in
      let totalSize := foldl (fun acc kp => int64 (acc + mp_size_bytes kp.2)) 0%Z parts in
      let totalChunks := foldl (fun acc kp => int32 (acc + mp_chunk_count kp.2)) 0%Z parts in
      let! version := gets (fun d => next_version (mu_bucket u) (mu_key u) (objects d)) in
      let obj := mkObject (mu_bucket u) (mu_key u) version ObjectUploading 0 (mu_chunk_size u) 0
                   None (mu_content_type u) None now now None None in
      do! insert_object fresh obj in
      let! n := reparent_chunks fresh uploadID in
      do! require (bool_decide (n = totalChunks)) ErrConflict in
      let etag := MultipartETag sha256
                    ((fun kp : N * part_row => nullString (mp_etag kp.2)) <$> parts) in
      do! supersedeCurrentVersion now (mu_bucket u) (mu_key u) fresh in
      do! update_objects (fun k _ => k = fresh) (complete_row now totalSize totalChunks etag) in
      do! enqueuePartChunkDeletions now uploadID in
      let! d := gets (fun d => d) in
      do! update_chunks (fun _ c =>
            (ck_part_id c ≫= fun p => mp_upload_id <$> multipart_parts d !! p) = Some uploadID)
            (fun c => c <| ck_state := ChunkOrphaned |>) in
      do! update_uploads (fun k _ => k = uploadID)
            (fun u => u <| mu_state := MultipartCompleted |> <| mu_object_id := Some fresh |>
                        <| mu_completed_at := Some now |> <| mu_updated_at := now |>) in
      tx_ret (scanObject fresh (complete_row now totalSize totalChunks etag obj))
  end.

Definition CompleteMultipartUpload (fresh : N) (now : Z) (uploadID : N)
    (expected : list CompletedPartRef) : Op db Object :=
  inTx (CompleteMultipartUpload_tx fresh now uploadID expected).
End assembly.

(** ** Abort *)

Definition abortable (u : upload_row) : Prop :=
  mu_state u = MultipartInProgress \/ mu_state u = MultipartCompleting.
#[export] Instance abortable_dec u : Decision (abortable u).
Proof. unfold abortable. apply _. Defined.

Definition AbortMultipartUpload (now : Z) (uploadID : N) : Op db unit :=
  inTx (
    let! affected := update_uploads (fun k u => k = uploadID /\ abortable u)
      (fun u => u <| mu_state := MultipartAborted |> <| mu_updated_at := now |>) in
    if bool_decide (affected = 0%Z) then
      let! row := gets (fun d => multipart_uploads d !! uploadID) in
      require (bool_decide (row <> None)) ErrNotFound
    else
      do! update_parts (fun _ p => mp_upload_id p = uploadID /\ mp_state p <> PartFailed)
            (fun p => p <| mp_state := PartFailed |> <| mp_updated_at := now |>) in
      do! enqueuePartChunkDeletions now uploadID in
      let! d := gets (fun d => d) in
      do! update_chunks (fun _ c =>
            (ck_part_id c ≫= fun p => mp_upload_id <$> multipart_parts d !! p) = Some uploadID)
            (fun c => c <| ck_state := ChunkOrphaned |>) in
      tx_ret tt).

Fixpoint abort_all (now : Z) (ids : list N) (n : Z) : Op db Z :=
  match ids with
  | [] => op_ret n
  | id :: ids' =>
      let* _ := AbortMultipartUpload now id in
      abort_all now ids' (n + 1)%Z
  end.

Definition upload_updated_le (a b : N * upload_row) : Prop :=
  (mu_updated_at a.2 <= mu_updated_at b.2)%Z.
#[export] Instance upload_updated_le_dec : RelDecision upload_updated_le.
Proof. intros a b. unfold upload_updated_le. apply _. Defined.

Definition ReapStaleMultipartUploads `{PG : !Postgres} (now : Z) (olderThan limit : Z) : Op db Z :=
  let* stale := inTx (
    let! m := gets multipart_uploads in
    limit_rows limit
      (order_by upload_updated_le
         (rows_where (fun _ u => mu_state u = MultipartInProgress /\
                                 (mu_updated_at u < now - olderThan)%Z) m))) in
  abort_all now stale.*1 0.

(** ** Integrity *)

Lemma keeps_CreateMultipartUpload fresh now b k ct cs :
  op_keeps schema_ok (CreateMultipartUpload fresh now b k ct cs).
Proof. unfold CreateMultipartUpload. keeps. Qed.
Lemma keeps_orphanPartChunks now p : tx_keeps schema_ok (orphanPartChunks now p).
Proof. unfold orphanPartChunks, enqueue_deletions_for. keeps. Qed.
#[export] Hint Resolve keeps_CreateMultipartUpload keeps_orphanPartChunks : keeps.
Lemma keeps_BeginPart fresh now u n : op_keeps schema_ok (BeginPart fresh now u n).
Proof. unfold BeginPart. keeps. Qed.
Lemma keeps_CompletePart now p size cnt etag : op_keeps schema_ok (CompletePart now p size cnt etag).
Proof. unfold CompletePart. keeps. Qed.
Lemma keeps_reparent_chunks `{PG : !Postgres} o u : tx_keeps schema_ok (reparent_chunks o u).
Proof.
  intros d a d' Hd Hrun. unfold reparent_chunks in Hrun. tx_inv Hrun.
  eapply put_chunks_schema; [done| | |done].
  - intros c [r Hr]. rewrite map_lookup_imap, Hr. simpl. eauto.
  - intros c r. rewrite map_lookup_imap. intros (r0&Hr0&[= <-])%bind_Some.
    rewrite <-(so_counters _ Hd c r0 Hr0). unfold reparented. by destruct (position_in _ _).
Qed.
#[export] Hint Resolve keeps_BeginPart keeps_CompletePart keeps_reparent_chunks : keeps.
Lemma keeps_CompleteMultipartUpload `{PG : !Postgres} sha fresh now u expected :
  op_keeps schema_ok (CompleteMultipartUpload sha fresh now u expected).
Proof. unfold CompleteMultipartUpload, CompleteMultipartUpload_tx. keeps. Qed.
Lemma keeps_AbortMultipartUpload now u : op_keeps schema_ok (AbortMultipartUpload now u).
Proof. unfold AbortMultipartUpload. keeps. Qed.
#[export] Hint Resolve keeps_CompleteMultipartUpload keeps_AbortMultipartUpload : keeps.
Lemma keeps_abort_all now ids n : op_keeps schema_ok (abort_all now ids n).
Proof. revert n. induction ids; intros n; simpl; keeps. Qed.
#[export] Hint Resolve keeps_abort_all : keeps.
Lemma keeps_ReapStaleMultipartUploads `{PG : !Postgres} now older limit :
  op_keeps schema_ok (ReapStaleMultipartUploads now older limit).
Proof. unfold ReapStaleMultipartUploads. keeps. Qed.
#[export] Hint Resolve keeps_ReapStaleMultipartUploads : keeps.
