(* ===== verification/Store.v ===== *)
(** * The store as a state machine

    One constructor of [call] per state-changing method of the metadata store
    (src/internal/metadata), with the arguments of the method, the clock
    reading [now()] and the identifier minted by [uuid.New()].  [exec] runs a
    call; a trace of calls from the empty, migrated database reaches exactly
    the [reachable] states. *)

From stdpp Require Import gmap strings list sorting.
From S2P Require Import Prelude Sql Schema Statements Chunks Frames Objects Nodes Repair Gc Reconcile Multipart.

Inductive call :=
| C_UpsertNode (now : Z) (id address : string) (health : NodeHealth) (stats : NodeStats) (at_ : Z)
| C_RecordHeartbeat (now : Z) (id address : string) (stats : NodeStats) (health : NodeHealth) (at_ : Z)
| C_SetNodeHealth (now : Z) (id : string) (health : NodeHealth)
| C_MarkReplicasUnavailableOnNode (now : Z) (id : string)
| C_BeginUpload (fresh : N) (now : Z) (bucket key contentType : string) (chunkSize : Z)
| C_TouchUpload (now : Z) (objectID : N)
| C_CompleteUpload (now : Z) (objectID : N) (sizeBytes chunkCount : Z) (etag : string)
| C_AbortUpload (now : Z) (objectID : N) (reason : string)
| C_DeleteObject (now : Z) (bucket key : string)
| C_ReapStaleUploads (now olderThan limit : Z)
| C_AllocateChunk (fresh : N) (now : Z) (owner : ChunkOwner) (index sizeBytes : Z) (targets : list string)
| C_ReserveChunk (fresh : N) (now : Z) (owner : ChunkOwner) (index sizeBytes : Z)
| C_RecordChunkTargets (now : Z) (chunkID : N) (targets : list string)
| C_CommitChunk (now : Z) (chunkID : N) (checksum : string) (sizeBytes : Z)
    (succeeded failed : list string) (minReplicas : Z)
| C_EnqueueRepairs (now rf limit : Z)
| C_TrimOverReplicatedChunks (now rf limit : Z)
| C_ReclaimExpiredRepairLeases (now : Z)
| C_ClaimRepairJob (now : Z) (owner : string) (lease rf : Z)
| C_RecordRepairPlan (now jobID : Z) (source target : string)
| C_CompleteRepair (now jobID : Z) (chunkID : N) (target : string)
| C_FinishRepairAsNoop (now jobID : Z) (reason : string)
| C_FailRepair (now jobID : Z) (cause : string) (backoff maxAttempts : Z)
| C_RequeueFailedRepairs (now limit : Z)
| C_MarkReplicaCorrupt (now : Z) (chunkID : N) (nodeID detail : string)
| C_DropReplica (chunkID : N) (nodeID : string)
| C_PurgeFinishedRepairJobs (now olderThan rf limit : Z)
| C_VerifyDurabilityCounters
| C_ClaimDeletions (now limit lease : Z)
| C_FinishDeletion (id : Z) (chunkID : N) (nodeID : string)
| C_FailDeletion (now id : Z) (cause : string) (backoff maxAttempts : Z)
| C_PurgeReclaimedChunks (limit : Z)
| C_PurgeCompletedMultipartUploads (now olderThan limit : Z)
| C_MarkReplicasStaleOnNode (now : Z) (nodeID : string)
| C_EnqueueReconcile (now : Z) (nodeID : string)
| C_ReclaimExpiredReconcileLeases (now : Z)
| C_ClaimReconcileJob (now : Z) (owner : string) (lease : Z)
| C_CompleteReconcile (now jobID : Z) (res : ReconcileResult)
| C_FailReconcile (now jobID : Z) (cause : string)
| C_PromoteVerifiedReplica (now : Z) (chunkID : N) (nodeID : string)
| C_QueueOrphanDeletion (now : Z) (chunkID : N) (nodeID : string)
| C_CreateMultipartUpload (fresh : N) (now : Z) (bucket key contentType : string) (chunkSize : Z)
| C_BeginPart (fresh : N) (now : Z) (uploadID : N) (partNumber : Z)
| C_CompletePart (now : Z) (partID : N) (sizeBytes chunkCount : Z) (etag : string)
| C_CompleteMultipartUpload (fresh : N) (now : Z) (uploadID : N) (expected : list CompletedPartRef)
| C_AbortMultipartUpload (now : Z) (uploadID : N)
| C_ReapStaleMultipartUploads (now olderThan limit : Z).

Section machine.
Context `{PG : !Postgres} (sha256 : string -> string).

(** The state a call leaves behind, its result forgotten. *)
Definition exec (c : call) : db -> db :=
  match c with
  | C_UpsertNode now id a h st t => fun d => (UpsertNode now id a h st t d).2
  | C_RecordHeartbeat now id a st h t => fun d => (RecordHeartbeat now id a st h t d).2
  | C_SetNodeHealth now id h => fun d => (SetNodeHealth now id h d).2
  | C_MarkReplicasUnavailableOnNode now id => fun d => (MarkReplicasUnavailableOnNode now id d).2
  | C_BeginUpload f now b k ct cs => fun d => (BeginUpload f now b k ct cs d).2
  | C_TouchUpload now o => fun d => (TouchUpload now o d).2
  | C_CompleteUpload now o s n e => fun d => (CompleteUpload now o s n e d).2
  | C_AbortUpload now o r => fun d => (AbortUpload now o r d).2
  | C_DeleteObject now b k => fun d => (DeleteObject now b k d).2
  | C_ReapStaleUploads now t l => fun d => (ReapStaleUploads now t l d).2
  | C_AllocateChunk f now ow i s ts => fun d => (AllocateChunk f now ow i s ts d).2
  | C_ReserveChunk f now ow i s => fun d => (ReserveChunk f now ow i s d).2
  | C_RecordChunkTargets now c ts => fun d => (RecordChunkTargets now c ts d).2
  | C_CommitChunk now c h s ok ko m => fun d => (CommitChunk now c h s ok ko m d).2
  | C_EnqueueRepairs now rf l => fun d => (EnqueueRepairs now rf l d).2
  | C_TrimOverReplicatedChunks now rf l => fun d => (TrimOverReplicatedChunks now rf l d).2
  | C_ReclaimExpiredRepairLeases now => fun d => (ReclaimExpiredRepairLeases now d).2
  | C_ClaimRepairJob now ow le rf => fun d => (ClaimRepairJob now ow le rf d).2
  | C_RecordRepairPlan now j s t => fun d => (RecordRepairPlan now j s t d).2
  | C_CompleteRepair now j c n => fun d => (CompleteRepair now j c n d).2
  | C_FinishRepairAsNoop now j r => fun d => (FinishRepairAsNoop now j r d).2
  | C_FailRepair now j c b m => fun d => (FailRepair now j c b m d).2
  | C_RequeueFailedRepairs now l => fun d => (RequeueFailedRepairs now l d).2
  | C_MarkReplicaCorrupt now c n s => fun d => (MarkReplicaCorrupt now c n s d).2
  | C_DropReplica c n => fun d => (DropReplica c n d).2
  | C_PurgeFinishedRepairJobs now t rf l => fun d => (PurgeFinishedRepairJobs now t rf l d).2
  | C_VerifyDurabilityCounters => fun d => (VerifyDurabilityCounters d).2
  | C_ClaimDeletions now l le => fun d => (ClaimDeletions now l le d).2
  | C_FinishDeletion i c n => fun d => (FinishDeletion i c n d).2
  | C_FailDeletion now i c b m => fun d => (FailDeletion now i c b m d).2
  | C_PurgeReclaimedChunks l => fun d => (PurgeReclaimedChunks l d).2
  | C_PurgeCompletedMultipartUploads now t l =>
      fun d => (PurgeCompletedMultipartUploads now t l d).2
  | C_MarkReplicasStaleOnNode now n => fun d => (MarkReplicasStaleOnNode now n d).2
  | C_EnqueueReconcile now n => fun d => (EnqueueReconcile now n d).2
  | C_ReclaimExpiredReconcileLeases now => fun d => (ReclaimExpiredReconcileLeases now d).2
  | C_ClaimReconcileJob now ow le => fun d => (ClaimReconcileJob now ow le d).2
  | C_CompleteReconcile now j r => fun d => (CompleteReconcile now j r d).2
  | C_FailReconcile now j c => fun d => (FailReconcile now j c d).2
  | C_PromoteVerifiedReplica now c n => fun d => (PromoteVerifiedReplica now c n d).2
  | C_QueueOrphanDeletion now c n => fun d => (QueueOrphanDeletion now c n d).2
  | C_CreateMultipartUpload f now b k ct cs =>
      fun d => (CreateMultipartUpload f now b k ct cs d).2
  | C_BeginPart f now u n => fun d => (BeginPart f now u n d).2
  | C_CompletePart now p s n e => fun d => (CompletePart now p s n e d).2
  | C_CompleteMultipartUpload f now u ex =>
      fun d => (CompleteMultipartUpload sha256 f now u ex d).2
  | C_AbortMultipartUpload now u => fun d => (AbortMultipartUpload now u d).2
  | C_ReapStaleMultipartUploads now t l => fun d => (ReapStaleMultipartUploads now t l d).2
  end.

Definition run_trace (cs : list call) (d : db) : db := foldl (fun s c => exec c s) d cs.

Inductive reachable : db -> Prop :=
| reachable_init : reachable empty_db
| reachable_call c d : reachable d -> reachable (exec c d).

Lemma reachable_trace cs d : reachable d -> reachable (run_trace cs d).
Proof.
  revert d. induction cs as [|c cs IH]; intros d Hd; [done|].
  simpl. apply IH. by constructor.
Qed.

(** An invariant of every call holds in every reachable state. *)
Lemma reachable_invariant (I : db -> Prop) :
  I empty_db -> (forall c d, I d -> I (exec c d)) -> forall d, reachable d -> I d.
Proof. intros H0 Hstep d Hr. induction Hr; auto. Qed.

Lemma op_keeps_snd {A} (I : db -> Prop) (m : Op db A) d : op_keeps I m -> I d -> I (m d).2.
Proof. intros Hk Hd. destruct (m d) as [r d'] eqn:E. by eapply Hk. Qed.

Lemma exec_schema c d : schema_ok d -> schema_ok (exec c d).
Proof.
  intros Hd. destruct c; simpl; (eapply op_keeps_snd; [|exact Hd]); auto with keeps.
Qed.

Lemma reachable_schema d : reachable d -> schema_ok d.
Proof. apply reachable_invariant; [apply empty_db_schema|apply exec_schema]. Qed.
End machine.

(** C5: in every state the store can reach through its methods, every
    constraint of the migrations holds: CHECK constraints, partial unique
    indexes (at most one COMPLETE version per key, at most one active repair
    job per chunk, ...), foreign keys after cascades, and the denormalised
    counter [available_replicas] equals the number of AVAILABLE replica rows
    of every chunk, as the trigger of 0002_self_healing.sql promises. *)
Theorem reachable_schema_ok `{PG : !Postgres} (sha256 : string -> string) (d : db) :
  reachable sha256 d -> schema_ok d.
Proof. apply reachable_schema. Qed.

(** A short life of an object: three nodes, an upload with one chunk on two of
    them, the death of one node, and a repair onto the third. *)
Definition sample_stats : NodeStats := mkNodeStats 1000 0 1000 0 0.
Definition sample_digest : string :=
  "0123456789abcdef0123456789abcdef0123456789abcdef0123456789abcdef".
Definition sample_cluster : list call := [
  C_UpsertNode 1 "n1" "n1:7000" HEALTHY sample_stats 1;
  C_UpsertNode 1 "n2" "n2:7000" HEALTHY sample_stats 1;
  C_UpsertNode 1 "n3" "n3:7000" HEALTHY sample_stats 1
].
Definition sample_upload : list call := [
  C_BeginUpload 10 2 "photos" "cat.jpg" "image/jpeg" 8;
  C_AllocateChunk 20 3 (mkOwner (Some 10%N) None) 0 8 ["n1"; "n2"];
  C_CommitChunk 4 20 sample_digest 8 ["n1"; "n2"] [] 2;
  C_CompleteUpload 5 10 8 1 "etag"
].
Definition sample_repair : list call := [
  C_SetNodeHealth 6 "n2" DEAD;
  C_EnqueueRepairs 7 2 10;
  C_ClaimRepairJob 8 "coordinator" 60 2;
  C_CompleteRepair 9 1 20 "n3"
].
Definition sample_db : db :=
  run_trace (PG:=c_locale) (fun s => s) (sample_cluster ++ sample_upload ++ sample_repair) empty_db.

Lemma sample_reachable : reachable (PG:=c_locale) (fun s => s) sample_db.
Proof. apply reachable_trace. constructor. Qed.

Lemma reachable_schema_ok_witness :
  (ck_available_replicas <$> chunks sample_db !! 20%N) = Some 2%Z /\ schema_ok sample_db.
Proof.
  split; [vm_compute; reflexivity|].
  apply (reachable_schema_ok (PG:=c_locale) (fun s => s) sample_db sample_reachable).
Defined.

(** ** Unfolding operations into statements *)

Create HintDb ops.
#[export] Hint Unfold UpsertNode RecordHeartbeat SetNodeHealth MarkReplicasUnavailableOnNode
  demote_replicas BeginUpload TouchUpload CompleteUpload CompleteUpload_tx AbortUpload
  DeleteObject ReapStaleUploads supersedeCurrentVersion AllocateChunk ReserveChunk
  RecordChunkTargets CommitChunk CommitChunk_tx assertOwnerWritable upsert_chunk mark_failed
  mark_available enqueue_deletions_for enqueueObjectChunkDeletions enqueuePartChunkDeletions
  orphanObjectChunks EnqueueRepairs trim_one_tx TrimOverReplicatedChunks
  ReclaimExpiredRepairLeases ClaimRepairJob ClaimRepairJob_tx RecordRepairPlan CompleteRepair
  CompleteRepair_tx FinishRepairAsNoop FailRepair RequeueFailedRepairs MarkReplicaCorrupt
  MarkReplicaCorrupt_tx DropReplica PurgeFinishedRepairJobs ClaimDeletions FinishDeletion
  FailDeletion expire_deletion PurgeReclaimedChunks PurgeCompletedMultipartUploads
  MarkReplicasStaleOnNode EnqueueReconcile ReclaimExpiredReconcileLeases ClaimReconcileJob
  CompleteReconcile FailReconcile PromoteVerifiedReplica QueueOrphanDeletion
  CreateMultipartUpload orphanPartChunks BeginPart CompletePart CompleteMultipartUpload
  CompleteMultipartUpload_tx AbortMultipartUpload ReapStaleMultipartUploads : ops.

Lemma frame_tx_sum {S A} (I : S -> Prop) (l : list A) f :
  (forall a, tx_keeps I (f a)) -> tx_keeps I (tx_sum l f).
Proof. intros Hf. induction l; simpl; keeps. Qed.
Lemma frame_trim_all `{PG : !Postgres} (I : db -> Prop) now rf ids acc :
  (forall c, tx_keeps I (trim_one_tx now rf c)) -> op_keeps I (trim_all now rf ids acc).
Proof. intros Hf. revert acc. induction ids; intros acc; simpl; keeps. Qed.
Lemma frame_abort_all (I : db -> Prop) now ids n :
  (forall u, op_keeps I (AbortMultipartUpload now u)) -> op_keeps I (abort_all now ids n).
Proof. intros Hf. revert n. induction ids; intros n; simpl; keeps. Qed.

(** As [preserve], also through the loops of the store. *)
Ltac preserve_op :=
  repeat lazymatch goal with
  | |- tx_keeps _ (tx_sum _ _) => apply frame_tx_sum
  | |- op_keeps _ (trim_all _ _ _ _) => apply frame_trim_all
  | |- op_keeps _ (abort_all _ _ _) => apply frame_abort_all
  | |- _ => first [preserve_step | progress autounfold with ops]
  end.
