(* ===== verification/Trim.v ===== *)
(** * Trimming surplus replicas

    TrimOverReplicatedChunks (src/internal/metadata/repair.go) removes copies,
    so it is the maintenance loop that could lose data. It keeps exactly the
    replication factor of every chunk it touches. *)

From stdpp Require Import gmap strings list sorting.
From S2P Require Import Prelude Sql Schema Statements Chunks Frames Runs Deletions Objects Repair Store.

(** Counting replicas through a duplicate-free list of their nodes. *)
Lemma count_available_list (m : gmap (N * string) replica_row) c (l : list string) :
  NoDup l ->
  (forall n, n ∈ l <-> exists r, m !! (c, n) = Some r /\ cr_state r = ReplicaAvailable) ->
  count_available m c = Z.of_nat (length l).
Proof.
  intros Hnd Hl. unfold count_available, count_where. f_equal.
  rewrite <-(length_fmap (pair c)).
  assert (NoDup (pair c <$> l)) as Hnd2 by (apply NoDup_fmap; [apply _|done]).
  rewrite <-(size_dom (D:=gset (N * string))), <-(size_list_to_set (C:=gset (N * string)) _ Hnd2).
  f_equal. apply set_eq. intros [c' n]. rewrite elem_of_dom, elem_of_list_to_set, list_elem_of_fmap.
  split.
  - intros [r [Hr [Hc Hst]]%map_lookup_filter_Some]. simpl in *. subst. exists n.
    split; [done|]. apply Hl. eauto.
  - intros (n'&[= <- <-]&(r&Hr&Hst)%Hl). exists r. by apply map_lookup_filter_Some.
Qed.

Section trim.
Context `{PG : !Postgres}.

Lemma available_nodes_fst d c :
  schema_ok d ->
  (available_nodes d c).*1 =
  (rows_where (fun k r => k.1 = c /\ cr_state r = ReplicaAvailable) (chunk_replicas d)).*1.*2.
Proof.
  intros Hs. unfold available_nodes.
  assert (Forall (fun kr : (N * string) * replica_row => is_Some (storage_nodes d !! kr.1.2))
    (rows_where (fun k r => k.1 = c /\ cr_state r = ReplicaAvailable) (chunk_replicas d))) as Hall.
  { apply Forall_forall. intros [k r] [Hr _]%elem_of_rows_where. by eapply (so_replica_node _ Hs). }
  induction Hall as [|[k r] l [x Hx] Hl IH]; [done|]. simpl in *. rewrite Hx. simpl. f_equal. exact IH.
Qed.

Lemma ranked_spec d c :
  schema_ok d ->
  NoDup (ranked d c) /\
  forall n, n ∈ ranked d c <->
    exists r, chunk_replicas d !! (c, n) = Some r /\ cr_state r = ReplicaAvailable.
Proof.
  intros Hs. unfold ranked, order_by.
  assert ((merge_sort emptiest_le (scan (available_nodes d c))).*1 ≡ₚ
    (rows_where (fun k r => k.1 = c /\ cr_state r = ReplicaAvailable) (chunk_replicas d)).*1.*2) as Hp.
  { by rewrite merge_sort_Permutation, scan_perm, available_nodes_fst. }
  split.
  - rewrite Hp. apply NoDup_fmap_2_strong; [|apply NoDup_rows_where].
    intros k1 k2 H1 H2 Heq.
    assert (k1.1 = c) by (by apply list_elem_of_fmap in H1 as ([? ?]&->&[_ [E _]]%elem_of_rows_where)).
    assert (k2.1 = c) by (by apply list_elem_of_fmap in H2 as ([? ?]&->&[_ [E _]]%elem_of_rows_where)).
    destruct k1, k2. simpl in *. congruence.
  - intros n. rewrite Hp, list_elem_of_fmap. split.
    + intros ([c' n']&->&([? r]&->&[Hr [Hc Hst]]%elem_of_rows_where)%list_elem_of_fmap).
      simpl in *. subst. eauto.
    + intros (r&Hr&Hst). exists (c, n). split; [done|]. apply list_elem_of_fmap.
      exists ((c, n), r). split; [done|]. by apply elem_of_rows_where.
Qed.

Lemma ranked_length d c :
  schema_ok d -> Z.of_nat (length (ranked d c)) = count_available (chunk_replicas d) c.
Proof.
  intros Hs. destruct (ranked_spec d c Hs) as [Hnd Hel]. symmetry. by apply count_available_list.
Qed.

(** One row: untouched, or an AVAILABLE surplus copy that is now being deleted. *)
Definition row_trimmed (now : Z) (d d' : db) (k : N * string) : Prop :=
  chunk_replicas d' !! k = chunk_replicas d !! k \/
  exists r, chunk_replicas d !! k = Some r /\ cr_state r = ReplicaAvailable /\
    chunk_replicas d' !! k = Some (retire_row now r) /\ deletion_queued d' k.1 k.2.

Record trimmed (now rf : Z) (sel : N -> Prop) (d d' : db) : Prop := {
  tr_rows : forall k, row_trimmed now d d' k;
  tr_selected : forall c, sel c ->
    count_available (chunk_replicas d') c = Z.min (count_available (chunk_replicas d) c) rf;
  tr_others : forall c, ~ sel c ->
    count_available (chunk_replicas d') c = count_available (chunk_replicas d) c;
  tr_grows : queue_grows d d';
  tr_schema : schema_ok d'
}.

Lemma trimmed_refl now rf sel d :
  schema_ok d ->
  (forall c, sel c -> (count_available (chunk_replicas d) c <= rf)%Z) -> trimmed now rf sel d d.
Proof.
  intros Hs Hle. split; try done.
  - intros k. by left.
  - intros c Hc. specialize (Hle c Hc). lia.
  - by intros ??.
Qed.

(** Dropping all but the first [rf] of the ranking leaves [rf] AVAILABLE copies. *)
Lemma count_kept now rf c d m :
  schema_ok d -> (0 <= rf)%Z -> (rf < count_available (chunk_replicas d) c)%Z ->
  (forall n, m !! (c, n) =
     (fun r => if decide (n ∈ drop (Z.to_nat rf) (ranked d c)) then retire_row now r else r) <$>
       chunk_replicas d !! (c, n)) ->
  count_available m c = rf.
Proof.
  intros Hs Hrf Hlt Hrows. destruct (ranked_spec d c Hs) as [Hnd Hel].
  transitivity (Z.of_nat (length (take (Z.to_nat rf) (ranked d c)))); cycle 1.
  { rewrite <-ranked_length in Hlt by done. rewrite length_take. lia. }
  rewrite <-(take_drop (Z.to_nat rf) (ranked d c)) in Hnd.
  apply NoDup_app in Hnd as (Hnd1&Hdisj&_). apply count_available_list; [done|].
  intros n. rewrite Hrows. split.
  - intros Hn. destruct (proj1 (Hel n)) as (r&Hr&Hst).
    { rewrite <-(take_drop (Z.to_nat rf) (ranked d c)). apply elem_of_app. by left. }
    exists r. rewrite Hr. simpl. rewrite decide_False; [done|]. intros Hv. by eapply Hdisj.
  - intros (r'&Hr'&Hst). apply fmap_Some in Hr' as (r&Hr&->). case_decide as Hv; [done|].
    assert (n ∈ ranked d c) as Hn by (apply Hel; eauto).
    rewrite <-(take_drop (Z.to_nat rf) (ranked d c)) in Hn.
    apply elem_of_app in Hn as [Hn|Hn]; [done|]. by destruct Hv.
Qed.

(** The chunk has more copies than wanted: keep the first [rf] of the ranking. *)
Lemma trim_surplus now rf c d ch :
  schema_ok d -> (0 <= rf)%Z -> chunks d !! c = Some ch ->
  (rf < count_available (chunk_replicas d) c)%Z ->
  exists n d', trim_one_tx now rf c d = Ok (n, d') /\ trimmed now rf (eq c) d d'.
Proof.
  intros Hs Hrf Hc Hlt. unfold trim_one_tx. unfold tx_bind at 1, gets at 1. rewrite Hc.
  assert (ck_available_replicas ch = count_available (chunk_replicas d) c) as Hcnt
    by by apply (so_counters _ Hs).
  rewrite bool_decide_false by lia. unfold tx_bind at 1, gets at 1.
  set (victims := drop (Z.to_nat rf) (ranked d c)).
  pose proof (update_replicas_run (fun k _ => k.1 = c /\ k.2 ∈ victims) (retire_row now) d Hs) as H1.
  set (d1 := chunk_replicas_durability _ _) in H1.
  assert (schema_ok d1) as Hs1 by (by eapply keeps_update_replicas).
  destruct (enqueue_deletions_for_spec now (fun k r => k.1 = c /\ cr_state r = ReplicaDeleting) d1 Hs1)
    as (d2&H2&Hs2&(m&s&Hd2)&Hg&Hq).
  eexists _, d2. split.
  { unfold tx_bind at 1. unfold retire_row in H1. rewrite H1. unfold tx_bind. by rewrite H2. }
  destruct (ranked_spec d c Hs) as [Hnd Hel].
  assert (forall k, chunk_replicas d2 !! k =
    (fun r => if decide (k.1 = c /\ k.2 ∈ victims) then retire_row now r else r) <$>
      chunk_replicas d !! k) as Hrows.
  { intros k. rewrite Hd2. simpl. unfold d1. rewrite trigger_replicas. apply lookup_update_where. }
  assert (forall n, n ∈ victims -> n ∈ ranked d c) as Hvict.
  { intros n Hn. unfold victims in Hn. rewrite <-(take_drop (Z.to_nat rf) (ranked d c)).
    apply elem_of_app. by right. }
  split.
  - intros [c' n]. unfold row_trimmed. rewrite Hrows.
    destruct (chunk_replicas d !! (c', n)) as [r|] eqn:Hr; [|by left]. simpl.
    case_decide as Hv; [right|by left]. destruct Hv as [-> Hv].
    destruct (proj1 (Hel n) (Hvict n Hv)) as (r'&Hr'&Hst). rewrite Hr in Hr'. injection Hr' as <-.
    exists r. split_and!; [done|done|done|]. apply (Hq (c, n) (retire_row now r)); [|done].
    transitivity (chunk_replicas d2 !! (c, n)); [by rewrite Hd2|]. rewrite Hrows, Hr. simpl.
    by rewrite decide_True.
  - intros ? <-. rewrite Z.min_r by lia. apply (count_kept now rf c d); [done|lia|done|].
    intros n. rewrite Hrows. destruct (chunk_replicas d !! (c, n)); [|done]. simpl.
    f_equal. apply decide_ext. fold victims. tauto.
  - intros c' Hne. apply count_available_ext. intros n. rewrite Hrows.
    destruct (chunk_replicas d !! (c', n)); [|done]. simpl. rewrite decide_False; [done|].
    intros [<- _]. by apply Hne.
  - intros c' n Hqq. apply Hg. unfold d1. by apply trigger_queued.
  - done.
Qed.

Lemma trim_one_spec now rf c d :
  schema_ok d -> (0 <= rf)%Z ->
  exists n d', trim_one_tx now rf c d = Ok (n, d') /\ trimmed now rf (eq c) d d'.
Proof.
  intros Hs Hrf. destruct (chunks d !! c) as [ch|] eqn:Hc; cycle 1.
  { exists 0%Z, d. split; [unfold trim_one_tx, tx_bind, gets; by rewrite Hc|].
    apply trimmed_refl; [done|]. intros ? <-. by rewrite count_available_fresh. }
  destruct (decide (rf < count_available (chunk_replicas d) c)%Z) as [Hlt|Hge].
  { by eapply trim_surplus. }
  exists 0%Z, d. split.
  - unfold trim_one_tx, tx_bind, gets. rewrite Hc. rewrite bool_decide_true; [done|].
    rewrite (so_counters _ Hs c ch Hc). lia.
  - apply trimmed_refl; [done|]. intros ? <-. lia.
Qed.

Lemma row_trimmed_trans now d1 d2 d3 k :
  row_trimmed now d1 d2 k -> row_trimmed now d2 d3 k -> queue_grows d2 d3 -> row_trimmed now d1 d3 k.
Proof.
  intros [E1|(r&Hr&Hst&Hr2&Hq)] [E2|(r'&Hr'&Hst'&Hr3&Hq')] Hg.
  - left. congruence.
  - right. exists r'. rewrite <-E1. done.
  - right. exists r. rewrite E2. auto.
  - rewrite Hr2 in Hr'. injection Hr' as <-. done.
Qed.

Lemma trimmed_trans now rf (s1 s2 s : N -> Prop) `{!forall c, Decision (s1 c), !forall c, Decision (s2 c)}
    d1 d2 d3 :
  trimmed now rf s1 d1 d2 -> trimmed now rf s2 d2 d3 -> (forall c, s c <-> s1 c \/ s2 c) ->
  trimmed now rf s d1 d3.
Proof.
  intros [R1 S1 O1 G1 I1] [R2 S2 O2 G2 I2] Hs. split; [| | | |done].
  - intros k. by eapply row_trimmed_trans.
  - intros c Hc. destruct (decide (s1 c)) as [H1|H1], (decide (s2 c)) as [H2|H2].
    + rewrite (S2 c H2), (S1 c H1). lia.
    + by rewrite (O2 c H2), (S1 c H1).
    + by rewrite (S2 c H2), (O1 c H1).
    + apply Hs in Hc. tauto.
  - intros c Hc. rewrite Hs in Hc. rewrite O2 by tauto. apply O1. tauto.
  - intros c n Hq. auto.
Qed.

Lemma trim_all_spec now rf ids acc d :
  schema_ok d -> (0 <= rf)%Z ->
  exists n d', trim_all now rf ids acc d = (Ok n, d') /\ trimmed now rf (fun c => c ∈ ids) d d'.
Proof.
  revert acc d. induction ids as [|c ids IH]; intros acc d Hs Hrf.
  - exists acc, d. split; [done|]. apply trimmed_refl; [done|]. by intros c ?%elem_of_nil.
  - destruct (trim_one_spec now rf c d Hs Hrf) as (n1&d1&H1&T1).
    destruct (IH (acc + n1)%Z d1) as (n&d2&H2&T2); [apply T1|done|].
    exists n, d2. split.
    + simpl. unfold op_bind, inTx. rewrite H1. done.
    + apply (trimmed_trans now rf (eq c) (fun c => c ∈ ids) _ d d1); [exact T1|exact T2|].
      intros c'. rewrite elem_of_cons. naive_solver.
Qed.
End trim.

(** C21: trimming never costs durability. On an integral database, for a
    non-negative replication factor and limit, [TrimOverReplicatedChunks]
    succeeds; the chunks it selects are COMMITTED with a live owner and more
    AVAILABLE replicas than the factor, and are left with exactly the factor;
    every other chunk keeps its number of AVAILABLE replicas; and a replica row
    either is unchanged or was AVAILABLE and is now DELETING and queued. *)
Theorem TrimOverReplicatedChunks_safe `{PG : !Postgres} (now rf limit : Z) (d : db) :
  schema_ok d -> (0 <= rf)%Z -> (0 <= limit)%Z ->
  exists n d', TrimOverReplicatedChunks now rf limit d = (Ok n, d') /\
    (forall k, row_trimmed now d d' k) /\
    forall c, count_available (chunk_replicas d') c = count_available (chunk_replicas d) c \/
      (exists ch, chunks d !! c = Some ch /\ accountable d ch /\
         (rf < count_available (chunk_replicas d) c)%Z) /\
      count_available (chunk_replicas d') c = rf.
Proof.
  intros Hs Hrf Hlim. unfold TrimOverReplicatedChunks, op_bind, inTx, tx_bind, gets, limit_rows.
  rewrite decide_False by lia.
  set (sel := take _ _).
  destruct (trim_all_spec now rf sel.*1 0 d Hs Hrf) as (n&d'&Hrun&T).
  exists n, d'. split; [exact Hrun|]. split; [apply T|]. intros c.
  destruct (decide (c ∈ sel.*1)) as [Hin|Hout]; [|left; by apply T]. right.
  apply list_elem_of_fmap in Hin as Hin'. destruct Hin' as ([c' ch]&->&Hsel).
  apply elem_of_take in Hsel as (j&Hj&_). apply list_elem_of_lookup_2 in Hj.
  unfold order_by in Hj. rewrite merge_sort_Permutation, scan_perm in Hj.
  apply elem_of_rows_where in Hj as [Hch [Hacc Hlt]].
  rewrite (so_counters _ Hs c' ch Hch) in Hlt. simpl in *. split; [by exists ch|].
  rewrite (tr_selected _ _ _ _ _ T) by done. lia.
Qed.

(** The repaired object once its lost node is back: three copies, factor two. *)
Definition sample_surplus : db :=
  run_trace (PG:=c_locale) (fun s => s)
    [C_SetNodeHealth 60 "n2" HEALTHY; C_CompleteRepair 61 1 20 "n2"] sample_db.

Lemma TrimOverReplicatedChunks_safe_witness :
  count_available (chunk_replicas sample_surplus) 20 = 3%Z /\
  exists n d', TrimOverReplicatedChunks (PG:=c_locale) 70 2 10 sample_surplus = (Ok n, d') /\
    forall c, (2 <= count_available (chunk_replicas sample_surplus) c)%Z ->
              (2 <= count_available (chunk_replicas d') c)%Z.
Proof.
  split; [vm_compute; reflexivity|].
  assert (schema_ok sample_surplus) as Hs.
  { apply (reachable_schema (PG:=c_locale) (fun s => s)), reachable_trace, sample_reachable. }
  assert (0 <= 2)%Z as H2 by lia. assert (0 <= 10)%Z as H10 by lia.
  destruct (TrimOverReplicatedChunks_safe (PG:=c_locale) 70 2 10 sample_surplus Hs H2 H10)
    as (n&d'&Hrun&_&Hcnt).
  exists n, d'. split; [exact Hrun|]. intros c Hc. destruct (Hcnt c) as [->|[_ ->]]; lia.
Defined.
