(* ===== verification/Enqueue.v ===== *)
(** * Enqueueing repairs

    EnqueueRepairs (src/internal/metadata/repair.go) covers the repairable
    chunks, duplicates no active job and is idempotent. *)

From stdpp Require Import gmap strings list sorting.
From S2P Require Import Prelude Sql Schema Statements Chunks Frames Runs Deletions Objects Nodes Repair Gc Reconcile Multipart Store.

(** The chunk has a PENDING or RUNNING job. *)
Definition job_active (d : db) (c : N) : Prop :=
  map_Exists (fun _ r => rj_chunk_id r = c /\ repair_active r) (repair_jobs d).
#[export] Instance job_active_dec d c : Decision (job_active d c).
Proof. unfold job_active. apply _. Defined.

Definition new_job (now : Z) (c : N) : repair_row :=
  mkRepair c RepairPending None None 0 None None None now now now None.

(** [d'] is [d] with fresh jobs for chunks of [sel] that had none. *)
Record jobs_added (now : Z) (sel : N -> Prop) (d : db) (n : Z) (d' : db) : Prop := {
  ja_frame : exists m s, d' = d <| repair_jobs := m |> <| repair_jobs_seq := s |>;
  ja_old : forall i j, repair_jobs d !! i = Some j -> repair_jobs d' !! i = Some j;
  ja_new : forall i j, repair_jobs d' !! i = Some j -> repair_jobs d !! i = None ->
    exists c, j = new_job now c /\ sel c /\ ~ job_active d c;
  ja_count : Z.of_nat (size (repair_jobs d')) = (Z.of_nat (size (repair_jobs d)) + n)%Z;
  ja_schema : schema_ok d'
}.

Lemma jobs_added_active now sel d n d' c :
  jobs_added now sel d n d' -> job_active d c -> job_active d' c.
Proof. intros Ha (i&j&Hj&Hc). exists i, j. split; [by apply (ja_old _ _ _ _ _ Ha)|done]. Qed.

Lemma enqueue_repair_run now c d :
  schema_ok d -> is_Some (chunks d !! c) ->
  enqueue_repair now c d =
  if decide (job_active d c) then Ok (0%Z, d)
  else Ok (1%Z, d <| repair_jobs_seq := (repair_jobs_seq d + 1)%Z |>
                  <| repair_jobs := <[(repair_jobs_seq d + 1)%Z := new_job now c]> (repair_jobs d) |>).
Proof.
  intros Hs Hc. unfold enqueue_repair, insert_row, put_repairs.
  unfold tx_bind at 1, gets at 1.
  destruct (decide (job_active d c)) as [Hex|Hex];
    [by rewrite decide_True|rewrite decide_False by done].
  assert (repair_jobs d !! (repair_jobs_seq d + 1)%Z = None) as Hf by apply seq_fresh, Hs.
  assert (repair_jobs_active_idx
    (<[(repair_jobs_seq d + 1)%Z := new_job now c]> (repair_jobs d))).
  { apply unique_on_insert_new; [apply Hs|]. intros k r Hr Hact _ Heq. apply Hex. by exists k, r. }
  assert (references (fun _ r => Some (rj_chunk_id r))
    (<[(repair_jobs_seq d + 1)%Z := new_job now c]> (repair_jobs d)) (chunks d)).
  { apply map_Forall_insert_2; [intros b [= <-]; done|apply Hs]. }
  run_checks. done.
Qed.

Lemma enqueue_repair_spec now c d :
  schema_ok d -> is_Some (chunks d !! c) ->
  exists n d', enqueue_repair now c d = Ok (n, d') /\
    jobs_added now (eq c) d n d' /\ job_active d' c /\ (job_active d c -> n = 0%Z /\ d' = d).
Proof.
  intros Hs Hc. pose proof (enqueue_repair_run now c d Hs Hc) as Hrun.
  assert (repair_jobs d !! (repair_jobs_seq d + 1)%Z = None) as Hf by apply seq_fresh, Hs.
  destruct (decide (job_active d c)) as [Hex|Hex].
  - exists 0%Z, d. split; [done|]. split; [|done]. split; try done.
    + exists (repair_jobs d), (repair_jobs_seq d). by destruct d.
    + intros i j Hj. congruence.
    + lia.
  - eexists 1%Z, _. split; [exact Hrun|]. split_and!; [split|eexists _, (new_job now c)|done].
    + by eexists _, _.
    + intros i j Hj. simpl. rewrite lookup_insert_ne; congruence.
    + intros i j. simpl. rewrite lookup_insert_Some. intros [[<- <-]|[_ Hj]] Hno; [|congruence].
      by exists c.
    + simpl. rewrite map_size_insert_None by done. lia.
    + by eapply keeps_enqueue_repair.
    + simpl. split; [apply lookup_insert_eq|]. split; [done|]. by left.
Qed.

Lemma jobs_added_trans now (s1 s2 s : N -> Prop) d1 n1 d2 n2 d3 :
  jobs_added now s1 d1 n1 d2 -> jobs_added now s2 d2 n2 d3 ->
  (forall c, s1 c \/ s2 c -> s c) -> jobs_added now s d1 (n1 + n2) d3.
Proof.
  intros A1 A2 Hs. destruct (ja_frame _ _ _ _ _ A1) as (m1&q1&E1), (ja_frame _ _ _ _ _ A2) as (m2&q2&E2).
  split.
  - exists m2, q2. by rewrite E2, E1.
  - intros i j Hj. by apply (ja_old _ _ _ _ _ A2), (ja_old _ _ _ _ _ A1).
  - intros i j Hj Hno. destruct (repair_jobs d2 !! i) as [j2|] eqn:Hj2.
    + assert (j2 = j) as -> by (apply (ja_old _ _ _ _ _ A2) in Hj2; congruence).
      destruct (ja_new _ _ _ _ _ A1 i j Hj2 Hno) as (c&Hc&Hsel&Hna). exists c. auto.
    + destruct (ja_new _ _ _ _ _ A2 i j Hj Hj2) as (c&Hc&Hsel&Hna). exists c. split_and!; auto.
      intros Hact. apply Hna. by eapply jobs_added_active.
  - rewrite (ja_count _ _ _ _ _ A2), (ja_count _ _ _ _ _ A1). lia.
  - apply A2.
Qed.

Lemma enqueue_repairs_spec now ids d :
  schema_ok d -> (forall c, c ∈ ids -> is_Some (chunks d !! c)) ->
  exists n d', tx_sum ids (enqueue_repair now) d = Ok (n, d') /\
    jobs_added now (fun c => c ∈ ids) d n d' /\ (forall c, c ∈ ids -> job_active d' c) /\
    ((forall c, c ∈ ids -> job_active d c) -> n = 0%Z /\ d' = d).
Proof.
  revert d. induction ids as [|c ids IH]; intros d Hs Hids.
  - exists 0%Z, d. split; [done|]. split_and!; [split; try done|by intros c ?%elem_of_nil|done].
    + exists (repair_jobs d), (repair_jobs_seq d). by destruct d.
    + intros i j Hj. congruence.
    + lia.
  - destruct (enqueue_repair_spec now c d Hs) as (n1&d1&H1&A1&Hact1&Hid1); [apply Hids; by left|].
    destruct (ja_frame _ _ _ _ _ A1) as (m&s&Hd1).
    destruct (IH d1 (ja_schema _ _ _ _ _ A1)) as (n2&d2&H2&A2&Hact2&Hid2).
    { intros c' Hc'. rewrite Hd1. apply Hids. by right. }
    exists (n1 + n2)%Z, d2. split; [simpl; unfold tx_bind; by rewrite H1, H2|]. split_and!.
    + eapply jobs_added_trans; [exact A1|exact A2|]. intros c' [<-|Hc']; apply elem_of_cons; auto.
    + intros c' [->|Hc']%elem_of_cons; [|auto]. by eapply jobs_added_active.
    + intros Hall. destruct Hid1 as [-> ->]; [apply Hall; by left|].
      destruct Hid2 as [-> ->]; [|done]. intros c' Hc'. apply Hall. by right.
Qed.

(** C24: repair detection is complete, exact and idempotent. On an integral
    database [EnqueueRepairs] succeeds with the number of jobs it adds; it
    changes no existing job; every job it adds is PENDING, due at once, for a
    COMMITTED chunk with a live owner and between one and RF-1 AVAILABLE
    replicas that had no active job; when the limit covers the repairable
    chunks, each of them has an active job afterwards; and running it again
    adds nothing. *)
Theorem EnqueueRepairs_exact `{PG : !Postgres} (now now' rf limit : Z) (d : db) :
  schema_ok d -> (0 <= limit)%Z ->
  exists n d', EnqueueRepairs now rf limit d = (Ok n, d') /\
    Z.of_nat (size (repair_jobs d')) = (Z.of_nat (size (repair_jobs d)) + n)%Z /\
    (forall i j, repair_jobs d !! i = Some j -> repair_jobs d' !! i = Some j) /\
    (forall i j, repair_jobs d' !! i = Some j -> repair_jobs d !! i = None ->
       exists c ch, j = new_job now c /\ chunks d !! c = Some ch /\ repairable d rf ch /\
         ~ job_active d c) /\
    ((count_where (fun _ c => repairable d rf c) (chunks d) <= limit)%Z ->
       forall c ch, chunks d !! c = Some ch -> repairable d rf ch -> job_active d' c) /\
    EnqueueRepairs now' rf limit d' = (Ok 0%Z, d').
Proof.
  intros Hs Hlim. unfold EnqueueRepairs at 1, inTx, tx_bind, gets, limit_rows.
  rewrite decide_False by lia. unfold tx_ret at 1.
  set (rows := take _ _).
  assert (forall x, x ∈ rows -> x ∈ rows_where (fun _ c => repairable d rf c) (chunks d)) as Hrows.
  { intros x Hx. apply elem_of_take in Hx as (j&Hj&_). apply list_elem_of_lookup_2 in Hj.
    by rewrite order_by_perm in Hj. }
  assert (forall c, c ∈ rows.*1 -> exists ch, chunks d !! c = Some ch /\ repairable d rf ch) as Hids.
  { intros c ([c' ch]&->&Hin)%list_elem_of_fmap. apply Hrows, elem_of_rows_where in Hin. eauto. }
  destruct (enqueue_repairs_spec now rows.*1 d Hs) as (n&d'&Hrun&A&Hact&_).
  { intros c Hc. destruct (Hids c Hc) as (ch&Hch&_). eauto. }
  rewrite Hrun. exists n, d'. split; [done|]. split_and!.
  - apply A.
  - apply A.
  - intros i j Hj Hno. destruct (ja_new _ _ _ _ _ A i j Hj Hno) as (c&Hc&Hsel&Hna).
    destruct (Hids c Hsel) as (ch&Hch&Hre). by exists c, ch.
  - intros Hcnt c ch Hch Hre. apply Hact. apply list_elem_of_fmap. exists (c, ch). split; [done|].
    unfold rows. rewrite take_ge; [rewrite order_by_perm; by apply elem_of_rows_where|].
    rewrite order_by_perm. rewrite <-length_rows_where in Hcnt. lia.
  - destruct (ja_frame _ _ _ _ _ A) as (m&s&Hd').
    unfold EnqueueRepairs, inTx, tx_bind, gets, limit_rows. rewrite decide_False by lia.
    unfold tx_ret at 1.
    assert (take (Z.to_nat limit) (order_by most_endangered
      (rows_where (fun _ c => repairable d' rf c) (chunks d'))) = rows) as -> by (by rewrite Hd').
    destruct (enqueue_repairs_spec now' rows.*1 d' (ja_schema _ _ _ _ _ A)) as (n2&d2&Hrun2&_&_&Hid).
    { intros c Hc. destruct (Hids c Hc) as (ch&Hch&_). rewrite Hd'. eauto. }
    rewrite Hrun2. by destruct Hid as [-> ->].
Qed.

Lemma EnqueueRepairs_exact_witness :
  exists n d', EnqueueRepairs (PG:=c_locale) 7 2 10 (run_trace (PG:=c_locale) (fun s => s)
      (sample_cluster ++ sample_upload ++ take 1 sample_repair) empty_db) = (Ok n, d') /\
    n = 1%Z /\ EnqueueRepairs (PG:=c_locale) 8 2 10 d' = (Ok 0%Z, d').
Proof.
  set (d := run_trace _ _ _).
  assert (schema_ok d) as Hs.
  { apply (reachable_schema (PG:=c_locale) (fun s => s)), reachable_trace. constructor. }
  assert (0 <= 10)%Z as H10 by lia.
  destruct (EnqueueRepairs_exact (PG:=c_locale) 7 8 2 10 d Hs H10) as (n&d'&Hrun&_&_&_&_&Hid).
  exists n, d'. split; [exact Hrun|]. split; [|exact Hid].
  apply (f_equal fst) in Hrun. revert Hrun. vm_compute. by intros [= <-].
Defined.
