(* ===== verification/Purge.v ===== *)
(** * Purging metadata

    The purge loops (src/internal/metadata/gc.go) delete rows with ON DELETE
    CASCADE. They never take a replica row or a queued deletion with them: a
    row goes only once its bytes are accounted for. *)

From stdpp Require Import gmap strings list sorting.
From S2P Require Import Prelude Sql Schema Statements Chunks Frames Runs Deletions Objects Nodes Repair Gc Reconcile Multipart Store.

Lemma delete_where_none {K V} `{Countable K} (P : K -> V -> Prop) `{!forall k v, Decision (P k v)}
    (m : gmap K V) :
  (forall k v, m !! k = Some v -> ~ P k v) -> delete_where P m = m.
Proof.
  intros Hn. apply map_eq. intros k. apply option_eq. intros v.
  rewrite lookup_delete_where_Some. split; [tauto|]. intros Hk. split; [done|by apply Hn].
Qed.

Lemma cascade_chunks_replicas P `{!forall k v, Decision (P k v)} d :
  references (fun k _ => Some k.1) (chunk_replicas d) (chunks d) ->
  (forall c ch n r, chunks d !! c = Some ch -> P c ch -> chunk_replicas d !! (c, n) = Some r -> False) ->
  chunk_replicas (cascade_chunks P d) = chunk_replicas d.
Proof.
  intros Hs HP. apply delete_where_none. intros [c n] r Hr. simpl. intros Hgone.
  destruct (Hs _ _ Hr c eq_refl) as [ch Hch].
  assert (~ P c ch) as Hnp by (intros Hp; by eapply HP).
  assert (delete_where P (chunks d) !! c = Some ch) as Hk by by apply lookup_delete_where_Some.
  congruence.
Qed.

Lemma picked_row `{PG : !Postgres} {K V} `{Countable K} (P : K -> V -> Prop)
    `{!forall k v, Decision (P k v)} (m : gmap K V) limit k v :
  k ∈ (take limit (scan (rows_where P m))).*1 -> m !! k = Some v -> P k v.
Proof.
  intros ([k' v']&->&Hin)%list_elem_of_fmap Hk. apply elem_of_take in Hin as (j&Hj&_).
  apply list_elem_of_lookup_2 in Hj. rewrite scan_perm in Hj.
  apply elem_of_rows_where in Hj as [Hk' HP]. simpl in *. rewrite Hk in Hk'. by injection Hk' as <-.
Qed.

Lemma reclaimed_no_replica d c n r :
  reclaimed d c -> chunk_replicas d !! (c, n) = Some r -> False.
Proof. intros [Hno _] Hr. apply Hno. by exists (c, n), r. Qed.

Lemma object_reclaimed_chunk d o c ch :
  object_reclaimed d o -> chunks d !! c = Some ch -> ck_object_id ch = Some o -> reclaimed d c.
Proof.
  intros [Hr Hd] Hc Ho. assert (chunk_of_object d o c) as Hco by (unfold chunk_of_object; by rewrite Hc).
  split.
  - intros ([c' n]&r&Hk&<-). apply Hr. by exists (c', n), r.
  - intros (i&r&Hi&<-). apply Hd. by exists i, r.
Qed.

(** First statement: orphaned chunks. *)
Lemma purge_chunks_step P `{!forall k v, Decision (P k v)} d :
  schema_ok d ->
  (forall c ch, chunks d !! c = Some ch -> P c ch -> ck_state ch = ChunkOrphaned /\ reclaimed d c) ->
  let d1 := cascade_chunks P d in
  schema_ok d1 /\ chunk_replicas d1 = chunk_replicas d /\
  forall c ch, chunks d !! c = Some ch -> chunks d1 !! c = Some ch \/
    chunks d1 !! c = None /\ reclaimed d c /\ ck_state ch = ChunkOrphaned.
Proof.
  intros Hs HP d1. split_and!.
  - by apply (keeps_delete_chunks P d (count_where P (chunks d)) d1).
  - apply cascade_chunks_replicas; [apply Hs|]. intros c ch n r Hc Hp Hr.
    destruct (HP c ch Hc Hp) as [_ Hre]. by eapply reclaimed_no_replica.
  - intros c ch Hc. destruct (decide (P c ch)) as [Hp|Hp]; [right|left].
    + destruct (HP c ch Hc Hp) as [Hst Hre]. split_and!; [|done..]. simpl.
      destruct (delete_where P (chunks d) !! c) as [x|] eqn:E; [|done].
      apply lookup_delete_where_Some in E as [Hx Hn]. congruence.
    + by apply lookup_delete_where_Some.
Qed.

(** Second statement: reclaimed objects with their chunks. *)
Lemma purge_objects_step P `{!forall k v, Decision (P k v)} d :
  schema_ok d ->
  (forall o r, objects d !! o = Some r -> P o r -> object_reclaimed d o) ->
  let d2 := cascade_objects P d in
  chunk_replicas d2 = chunk_replicas d /\
  objects d2 = delete_where P (objects d) /\
  forall c ch, chunks d !! c = Some ch -> chunks d2 !! c = Some ch \/
    chunks d2 !! c = None /\ reclaimed d c /\ exists o, ck_object_id ch = Some o /\ objects d2 !! o = None.
Proof.
  intros Hs HP d2.
  assert (forall c ch, chunks d !! c = Some ch ->
    dangling (delete_where P (objects d)) (ck_object_id ch) ->
    reclaimed d c /\ exists o, ck_object_id ch = Some o /\ delete_where P (objects d) !! o = None) as Hdang.
  { intros c ch Hc Hd. destruct (ck_object_id ch) as [o|] eqn:Ho; [|done]. simpl in Hd.
    destruct (so_chunk_object _ Hs c ch Hc o Ho) as [r Hr]. split; [|eauto].
    eapply object_reclaimed_chunk; [|exact Hc|exact Ho]. apply (HP o r Hr).
    destruct (decide (P o r)) as [|Hn]; [done|].
    assert (delete_where P (objects d) !! o = Some r) by (by apply lookup_delete_where_Some).
    congruence. }
  split_and!; [|done|].
  - unfold d2, cascade_objects. cbv zeta. rewrite cascade_chunks_replicas; [done|apply Hs|]. simpl.
    intros c ch n r Hc Hd Hr. destruct (Hdang c ch Hc Hd) as [Hre _].
    by eapply reclaimed_no_replica.
  - intros c ch Hc. destruct (decide (dangling (delete_where P (objects d)) (ck_object_id ch))) as [Hd|Hd];
      [right|left; by apply lookup_delete_where_Some].
    destruct (Hdang c ch Hc Hd) as [Hre Hex]. split_and!; [|done|exact Hex].
    destruct (chunks d2 !! c) as [x|] eqn:E; [|done]. simpl in E.
    apply lookup_delete_where_Some in E as [Hx Hn]. simpl in *. congruence.
Qed.

(** C26: a purge loses no physical replica. For any non-negative limit
    [PurgeReclaimedChunks] succeeds, leaves the replica table and the deletion
    queue exactly as they were, deletes only ORPHANED chunks and DELETING or
    FAILED objects without any replica row or queued deletion (the object's
    chunks go with it), and leaves every other object and chunk in place. *)
Theorem PurgeReclaimedChunks_safe `{PG : !Postgres} (limit : Z) (d : db) :
  schema_ok d -> (0 <= limit)%Z ->
  exists res d', PurgeReclaimedChunks limit d = (Ok res, d') /\
    chunk_replicas d' = chunk_replicas d /\ chunk_deletions d' = chunk_deletions d /\
    (forall c ch, chunks d !! c = Some ch -> chunks d' !! c = Some ch \/
       chunks d' !! c = None /\ reclaimed d c /\
       (ck_state ch = ChunkOrphaned \/ exists o, ck_object_id ch = Some o /\ objects d' !! o = None)) /\
    (forall o r, objects d !! o = Some r -> objects d' !! o = Some r \/
       objects d' !! o = None /\ (ob_state r = ObjectDeleting \/ ob_state r = ObjectFailed)).
Proof.
  intros Hs Hlim. unfold PurgeReclaimedChunks, inTx, tx_bind, gets, limit_rows.
  rewrite decide_False by lia.
  unfold delete_chunks, delete_objects, tx_bind, gets, modify, tx_ret.
  rewrite (decide_False (P:=(limit < 0)%Z)) by lia.
  match goal with |- context [@cascade_chunks ?P ?D d] =>
    destruct (@purge_chunks_step P D d Hs) as (Hs1&Hr1&Hc1) end.
  { intros c ch Hc Hp. exact (picked_row _ _ _ _ ch Hp Hc). }
  match goal with |- context [@cascade_objects ?P ?D ?d1] =>
    destruct (@purge_objects_step P D d1 Hs1) as (Hr2&Ho2&Hc2);
      [|set (d2 := @cascade_objects P D d1) in *; set (d1' := d1) in *] end.
  { intros o r Ho Hp. exact (proj2 (picked_row _ _ _ _ r Hp Ho)). }
  eexists _, d2. split; [done|]. split_and!.
  - by rewrite Hr2, Hr1.
  - done.
  - intros c ch Hc. destruct (Hc1 c ch Hc) as [Hk|(Hk&Hre&Hst)]; cycle 1.
    { right. split_and!; [|done|by left]. destruct (chunks d2 !! c) eqn:E; [|done].
      unfold d2 in E. simpl in E. apply lookup_delete_where_Some in E as [E _].
      by rewrite <-E, <-Hk. }
    destruct (Hc2 c ch Hk) as [Hk2|(Hk2&Hre&Hex)]; [by left|]. right. split_and!; [done| |by right].
    unfold reclaimed in *. by rewrite Hr1 in Hre.
  - intros o r Ho. rewrite Ho2. destruct (delete_where _ _ !! o) as [x|] eqn:E.
    + apply lookup_delete_where_Some in E as [E _]. simpl in E. left. congruence.
    + right. split; [done|].
      match type of E with delete_where ?P _ !! _ = _ => destruct (decide (P o r)) as [Hp|Hn] end.
      * exact (proj1 (picked_row _ _ _ _ r Hp Ho)).
      * assert (Some r = None); [|done]. rewrite <-E. symmetry. by apply lookup_delete_where_Some.
Qed.

Lemma PurgeReclaimedChunks_safe_witness :
  exists res d', PurgeReclaimedChunks (PG:=c_locale) 10
      (run_trace (PG:=c_locale) (fun s => s) [C_DeleteObject 40 "photos" "cat.jpg"] sample_db) = (Ok res, d') /\
    res = (0%Z, 0%Z) /\ size (chunk_replicas d') = 3%nat.
Proof.
  set (d := run_trace _ _ _).
  assert (schema_ok d) as Hs.
  { apply (reachable_schema (PG:=c_locale) (fun s => s)), reachable_trace, sample_reachable. }
  assert (0 <= 10)%Z as H10 by lia.
  destruct (PurgeReclaimedChunks_safe (PG:=c_locale) 10 d Hs H10) as (res&d'&Hrun&Hrep&_).
  exists res, d'. split; [exact Hrun|]. split.
  - apply (f_equal fst) in Hrun. revert Hrun. vm_compute (_.1). intros [= <-]. reflexivity.
  - rewrite Hrep. vm_compute. reflexivity.
Defined.
