(* ===== verification/Listing.v ===== *)
(** * Listing objects

    ListObjects (src/internal/metadata/objects.go): one page of the keys of a
    bucket, and why consecutive pages cover the bucket. *)

From stdpp Require Import gmap strings list sorting.
From S2P Require Import Prelude Sql Schema Statements Chunks Frames Objects Nodes Repair Gc Reconcile Multipart Store.

Section listing.
Context `{PG : !Postgres}.

#[export] Instance key_le_trans : Transitive key_le.
Proof. intros a b c. unfold key_le. apply text_le_trans. Qed.
#[export] Instance key_le_total : Total key_le.
Proof. intros a b. unfold key_le. apply text_le_total. Qed.

Lemma text_lt_le_trans a b c : text_lt a b -> text_le b c -> text_lt a c.
Proof.
  intros [Hab Hne] Hbc. split; [by etransitivity|]. intros <-. apply Hne. by apply (anti_symm text_le).
Qed.

(** The rows a page is cut from: every listable object once, in strict key order. *)
Lemma listable_sorted d b p s :
  schema_ok d ->
  let rows := order_by key_le (rows_where (fun _ o => listable b p s o) (objects d)) in
  StronglySorted (fun x y => text_lt (ob_key x.2) (ob_key y.2)) rows.
Proof.
  intros Hs rows.
  assert (StronglySorted key_le rows) as Hss by (apply StronglySorted_merge_sort; apply _).
  assert (forall x, x ∈ rows -> objects d !! x.1 = Some x.2 /\ listable b p s x.2) as Hel.
  { intros [i o] Hx. unfold rows in Hx. rewrite order_by_perm in Hx. by apply elem_of_rows_where in Hx. }
  assert (NoDup rows.*1) as Hnd by (unfold rows; rewrite order_by_perm; apply NoDup_rows_where).
  clearbody rows. induction Hss as [|x rows Hss IH Hall]; constructor.
  - apply IH; [|by apply NoDup_cons in Hnd as [_ ?]]. intros y Hy. apply Hel. by right.
  - apply Forall_forall. intros y Hy. rewrite Forall_forall in Hall. split; [by apply Hall|].
    intros Heq. destruct (Hel x) as [Hx (Hb1&Hc1&_)]; [by left|].
    destruct (Hel y) as [Hy' (Hb2&Hc2&_)]; [by right|].
    assert (x.1 = y.1) as E.
    { apply (proj1 (unique_on_spec _ _ _) (so_current _ Hs) _ x.2 _ y.2); try done. congruence. }
    apply NoDup_cons in Hnd as [Hni _]. apply Hni. rewrite E. by apply list_elem_of_fmap; eauto.
Qed.

Lemma StronglySorted_take {A} (R : relation A) (l : list A) n :
  StronglySorted R l -> StronglySorted R (take n l).
Proof.
  intros Hs. revert n. induction Hs as [|a l Hs IH Hall]; intros [|n]; try constructor; [apply IH|].
  apply Forall_forall. intros x Hx. rewrite Forall_forall in Hall. apply Hall.
  apply elem_of_take in Hx as (i&Hi&_). by eapply list_elem_of_lookup_2.
Qed.

Lemma StronglySorted_fmap {A B} (R : relation B) (f : A -> B) (l : list A) :
  StronglySorted (fun x y => R (f x) (f y)) l -> StronglySorted R (f <$> l).
Proof.
  induction 1 as [|a l Hs IH Hall]; [constructor|]. simpl. constructor; [done|].
  rewrite Forall_fmap. eapply Forall_impl; [exact Hall|]. done.
Qed.

(** A page of at most [limit] rows, whether or not one more row was found. *)
Lemma page_take {A} (l : list A) (limit : Z) :
  (0 <= limit)%Z ->
  let out := take (Z.to_nat (limit + 1)) l in
  let truncated := bool_decide (limit < Z.of_nat (length out))%Z in
  (if truncated then take (Z.to_nat limit) out else out) = take (Z.to_nat limit) l /\
  truncated = bool_decide (limit < Z.of_nat (length l))%Z.
Proof.
  intros Hl out truncated.
  assert (truncated = bool_decide (limit < Z.of_nat (length l))%Z) as E.
  { unfold truncated, out. apply bool_decide_ext. rewrite length_take. lia. }
  split; [|done]. rewrite E. unfold out. case_bool_decide.
  - rewrite take_take. f_equal. lia.
  - rewrite !take_ge by lia. done.
Qed.
End listing.

(** A listing page is exact. [ListObjects] changes nothing and returns,
    in strictly increasing key order and without duplicates, COMPLETE objects
    of the bucket after the marker whose key starts with the prefix (for a
    prefix without LIKE metacharacters), at most the clamped limit of them. It
    reports truncation exactly when it left a match out, and then the page is
    full; every match is on the page or has a key greater than every key on
    it, so listing again after the last key misses nothing. *)
Theorem ListObjects_exact `{PG : !Postgres} (b p s : string) (limit : Z) (d : db) :
  schema_ok d -> like_literal p = true ->
  exists out truncated, ListObjects b p s limit d = (Ok (out, truncated), d) /\
    StronglySorted text_lt (o_Key <$> out) /\
    (Z.of_nat (length out) <= clamp_limit limit)%Z /\
    (forall x, x ∈ out -> exists r, objects d !! o_ID x = Some r /\ x = scanObject (o_ID x) r /\
       is_current b (o_Key x) r /\ text_lt s (o_Key x) /\ String.prefix p (o_Key x) = true) /\
    (forall i r, objects d !! i = Some r -> is_current b (ob_key r) r -> text_lt s (ob_key r) ->
       String.prefix p (ob_key r) = true ->
       scanObject i r ∈ out \/
       truncated = true /\ forall x, x ∈ out -> text_lt (o_Key x) (ob_key r)) /\
    (truncated = true -> Z.of_nat (length out) = clamp_limit limit).
Proof.
  intros Hs Hp. pose proof (listable_sorted d b p s Hs) as Hsort.
  assert (0 < clamp_limit limit <= 1000)%Z as Hcl by (unfold clamp_limit; case_bool_decide; lia).
  unfold ListObjects, inTx, tx_bind, gets, limit_rows. rewrite decide_False by lia. unfold tx_ret.
  set (rows := order_by key_le _) in *.
  cbv zeta. rewrite fmap_take. set (l := (fun kv => scanObject kv.1 kv.2) <$> rows).
  destruct (page_take l (clamp_limit limit)) as [Hout Htr]; [lia|]. cbv zeta in Hout, Htr.
  rewrite Hout, Htr. eexists _, _. split; [done|].
  assert (StronglySorted (fun x y => text_lt (o_Key x) (o_Key y)) l) as Hl
    by (by apply StronglySorted_fmap).
  assert (forall x, x ∈ l <-> exists i r, x = scanObject i r /\ objects d !! i = Some r /\ listable b p s r) as Hel.
  { intros x. unfold l. rewrite list_elem_of_fmap. split.
    - intros ([i r]&->&Hin). unfold rows in Hin. rewrite order_by_perm in Hin.
      apply elem_of_rows_where in Hin as [? ?]. eauto 6.
    - intros (i&r&->&Hi&Hr). exists (i, r). split; [done|]. unfold rows. rewrite order_by_perm.
      by apply elem_of_rows_where. }
  assert (forall k, String.prefix p k = true <-> text_like k (p +:+ "%") = true) as Hpre
    by (intros k; by rewrite text_like_prefix).
  split_and!.
  - apply StronglySorted_fmap, StronglySorted_take, Hl.
  - rewrite length_take. lia.
  - intros x Hx. apply elem_of_take in Hx as (j&Hj&_). apply list_elem_of_lookup_2, Hel in Hj.
    destruct Hj as (i&r&->&Hi&Hb&Hst&Hlt&Hlike). exists r. simpl. split_and!; [done|done|done|done|].
    by apply Hpre.
  - intros i r Hi (Hb&_&Hst) Hlt Hlike.
    assert (scanObject i r ∈ l) as Hin.
    { apply Hel. exists i, r. split_and!; [done..|]. split_and!; [done..|]. by apply Hpre. }
    rewrite <-(take_drop (Z.to_nat (clamp_limit limit)) l) in Hin.
    apply elem_of_app in Hin as [Hin|Hin]; [by left|]. right.
    apply list_elem_of_lookup in Hin as [j Hj]. rewrite lookup_drop in Hj.
    split; [apply bool_decide_eq_true;
      apply lookup_lt_Some in Hj; lia|].
    intros x Hx. apply elem_of_take in Hx as (k&Hk&Hlt').
    apply (StronglySorted_lookup _ l k (Z.to_nat (clamp_limit limit) + j)%nat x (scanObject i r) Hl);
      [lia|done|done].
  - intros Htrunc%bool_decide_eq_true. rewrite length_take. lia.
Qed.

Lemma ListObjects_exact_witness :
  exists out t, ListObjects (PG:=c_locale) "photos" "cat" EmptyString 10 sample_db = (Ok (out, t), sample_db) /\
    StronglySorted (text_lt (PG:=c_locale)) (o_Key <$> out) /\ (o_Key <$> out) = ["cat.jpg"].
Proof.
  assert (schema_ok sample_db) as Hs.
  { apply (reachable_schema (PG:=c_locale) (fun s => s)), sample_reachable. }
  destruct (ListObjects_exact (PG:=c_locale) "photos" "cat" EmptyString 10 sample_db Hs eq_refl)
    as (out&t&Hrun&Hsort&_).
  exists out, t. split; [exact Hrun|]. split; [exact Hsort|].
  apply (f_equal fst) in Hrun. revert Hrun. clear Hsort. vm_compute (_.1). intros [= <- _]. reflexivity.
Defined.

(** A prefix is a pattern. An underscore in the prefix matches any
    character: listing the prefix [a_] of a bucket that holds [ab] and [a_]
    returns both, although only one key starts with the prefix. *)
Theorem ListObjects_prefix_is_a_pattern :
  let upload (o c : N) (key : string) := [
    C_BeginUpload o 2 "b" key "text/plain" 8;
    C_AllocateChunk c 3 (mkOwner (Some o) None) 0 8 ["n1"; "n2"];
    C_CommitChunk 4 c sample_digest 8 ["n1"; "n2"] [] 2;
    C_CompleteUpload 5 o 8 1 "etag" ] in
  let d := run_trace (PG:=c_locale) (fun s => s)
             (sample_cluster ++ upload 10%N 20%N "ab" ++ upload 11%N 21%N "a_") empty_db in
  match ListObjects (PG:=c_locale) "b" "a_" EmptyString 10 d with
  | (Ok (out, _), _) => (o_Key <$> out) = ["a_"; "ab"] /\ String.prefix "a_" "ab" = false
  | _ => False
  end.
Proof. vm_compute. split; reflexivity. Qed.
