(* ===== verification/QueueInv.v ===== *)
(** * No replica is forgotten while it is being deleted

    Every DELETING replica has a job in the deletion queue until its bytes are
    gone or the job is given up, in which case the row goes with the job. *)

From stdpp Require Import gmap strings list sorting.
From S2P Require Import Prelude Sql Schema Statements Chunks Frames Runs Deletions Objects Nodes Repair Gc Reconcile Multipart Store.

(** ** Statements *)

(** The invariant reads replicas and the queue only. *)
Lemma dq_put_nodes : frames_nodes deleting_queued.
Proof. by intros m d u d' Hd (_&->)%put_nodes_ok. Qed.
Lemma dq_put_objects : frames_objects deleting_queued.
Proof. by intros m d u d' Hd (_&_&->)%put_objects_ok. Qed.
Lemma dq_put_uploads : frames_uploads deleting_queued.
Proof. by intros m d u d' Hd (_&_&->)%put_uploads_ok. Qed.
Lemma dq_put_parts : frames_parts deleting_queued.
Proof. by intros m d u d' Hd (_&_&_&->)%put_parts_ok. Qed.
Lemma dq_put_chunks : frames_chunks deleting_queued.
Proof. by intros m d u d' Hd (_&_&_&_&_&->)%put_chunks_ok. Qed.
Lemma dq_put_repairs : frames_repairs deleting_queued.
Proof. by intros m d u d' Hd (_&_&->)%put_repairs_ok. Qed.
Lemma dq_put_reconciles : frames_reconciles deleting_queued.
Proof. by intros m d u d' Hd (_&_&->)%put_reconciles_ok. Qed.

Lemma dq_trigger ts m d :
  (forall c n r, m !! (c, n) = Some r -> cr_state r = ReplicaDeleting -> deletion_queued d c n) ->
  deleting_queued (chunk_replicas_durability ts (d <| chunk_replicas := m |>)).
Proof.
  intros Hm c n r. rewrite trigger_replicas, trigger_queued. simpl. intros Hr Hst. by eapply Hm.
Qed.

(** An update that puts no replica in state DELETING. *)
Definition deletes_none (f : replica_row -> replica_row) : Prop :=
  forall r, cr_state (f r) <> ReplicaDeleting.

Lemma dq_update_replicas P `{!forall k v, Decision (P k v)} f :
  deletes_none f -> tx_keeps deleting_queued (update_replicas P f).
Proof.
  intros Hf d k d' Hd [_ ->]%update_replicas_ok. apply dq_trigger.
  intros c n r (r0&Hr0&->)%lookup_update_where_Some. case_decide; intros Hst.
  - by destruct (Hf r0).
  - by eapply Hd.
Qed.
Lemma dq_upsert_replica k ins f :
  deletes_none f -> cr_state ins <> ReplicaDeleting -> tx_keeps deleting_queued (upsert_replica k ins f).
Proof.
  intros Hf Hins d u d' Hd ->%upsert_replica_ok. apply dq_trigger.
  intros c n r. rewrite lookup_insert_Some. intros [[_ <-]|[_ Hr]] Hst; [|by eapply Hd].
  exfalso. revert Hst. destruct (chunk_replicas d !! k); [apply Hf|done].
Qed.
Lemma dq_delete_replicas P `{!forall k v, Decision (P k v)} :
  tx_keeps deleting_queued (delete_replicas P).
Proof.
  intros d k d' Hd [_ ->]%delete_replicas_ok. apply dq_trigger.
  intros c n r [Hr _]%lookup_delete_where_Some. by apply Hd.
Qed.

(** Queue updates that keep the target of every job. *)
Definition keeps_target (f : deletion_row -> deletion_row) : Prop :=
  forall r, cd_chunk_id (f r) = cd_chunk_id r /\ cd_node_id (f r) = cd_node_id r.

Lemma dq_update_deletions P `{!forall k v, Decision (P k v)} f :
  keeps_target f -> tx_keeps deleting_queued (update_deletions P f).
Proof.
  intros Hf d k d' Hd [_ ->]%update_deletions_ok c n r Hr Hst.
  destruct (Hd c n r Hr Hst) as (i&j&Hj&Hc&Hn). exists i. simpl.
  exists (if decide (P i j) then f j else j). destruct (Hf j).
  split; [rewrite lookup_update_where, Hj; by simpl|]. case_decide; split; congruence.
Qed.

Lemma dq_queue_only d d' : queue_only d d' -> queue_grows d d' -> deleting_queued d -> deleting_queued d'.
Proof. intros (m&s&->) Hg Hd c n r Hr Hst. apply Hg. by eapply Hd. Qed.

Lemma dq_enqueue_deletion now c n : tx_keeps deleting_queued (enqueue_deletion now c n).
Proof. intros d k d' Hd (Hq&Hg&_)%enqueue_deletion_ok. by eapply dq_queue_only. Qed.


(** ** Retiring replicas *)

Lemma dq_enqueue_deletions_for now P `{!forall k v, Decision (P k v)} :
  tx_keeps deleting_queued (enqueue_deletions_for now P).
Proof. intros d u d' Hd (Hq&Hg&_)%enqueue_deletions_for_ok. by eapply dq_queue_only. Qed.

(** Queue first, then mark DELETING: the statement pair of every retirement. *)
Lemma dq_retire {A} now sel `{!forall c, Decision (sel c)} (k : Tx db A) d a d' :
  tx_keeps deleting_queued k -> deleting_queued d ->
  (do! enqueue_deletions_for now (fun q r => sel q.1 /\ cr_state r <> ReplicaDeleting) in
   do! update_replicas (fun q _ => sel q.1)
         (fun r => r <| cr_state := ReplicaDeleting |> <| cr_updated_at := now |>) in k) d = Ok (a, d') ->
  deleting_queued d'.
Proof.
  intros Hk Hd Hr. apply tx_bind_ok in Hr as (u&d1&(Hq&Hg&Hnew)%enqueue_deletions_for_ok&Hr).
  apply tx_bind_ok in Hr as (z&d2&[_ ->]%update_replicas_ok&Hr). revert Hr. apply Hk.
  apply dq_trigger. destruct Hq as (m&s&->). simpl in *.
  intros c n r (r0&Hr0&->)%lookup_update_where_Some Hst.
  destruct (decide (cr_state r0 = ReplicaDeleting)) as [Hdel|Hnot].
  - apply Hg. by eapply Hd.
  - case_decide as Hsel; [|done]. by apply (Hnew (c, n) r0).
Qed.

Lemma dq_enqueueObjectChunkDeletions now o :
  tx_keeps deleting_queued (enqueueObjectChunkDeletions now o).
Proof.
  intros d u d' Hd Hr. apply tx_bind_ok in Hr as (d0&d1&[-> ->]%gets_ok&Hr).
  eapply (dq_retire now (chunk_of_object d o)); [|exact Hd|exact Hr]. apply tx_keeps_ret.
Qed.
Lemma dq_enqueuePartChunkDeletions now u :
  tx_keeps deleting_queued (enqueuePartChunkDeletions now u).
Proof.
  intros d a d' Hd Hr. apply tx_bind_ok in Hr as (d0&d1&[-> ->]%gets_ok&Hr).
  eapply (dq_retire now (chunk_of_upload d u)); [|exact Hd|exact Hr]. apply tx_keeps_ret.
Qed.
Lemma dq_orphanPartChunks now p : tx_keeps deleting_queued (orphanPartChunks now p).
Proof.
  intros d a d' Hd Hr. apply tx_bind_ok in Hr as (d0&d1&[-> ->]%gets_ok&Hr).
  eapply (dq_retire now (fun c => (chunks d !! c ≫= ck_part_id) = Some p)); [|exact Hd|exact Hr].
  apply tx_keeps_bind; [|intros; apply tx_keeps_ret].
  apply frame_update_chunks, dq_put_chunks.
Qed.

(** Trimming marks first and queues afterwards, in the same transaction. *)
Lemma dq_trim `{PG : !Postgres} now rf c : tx_keeps deleting_queued (trim_one_tx now rf c).
Proof.
  intros d a d' Hd Hr. unfold trim_one_tx in Hr.
  apply tx_bind_ok in Hr as (row&d1&[-> ->]%gets_ok&Hr).
  destruct (chunks d !! c) as [ch|]; [|by tx_inv Hr].
  case_bool_decide; [by tx_inv Hr|].
  apply tx_bind_ok in Hr as (vs&d1&[-> ->]%gets_ok&Hr).
  apply tx_bind_ok in Hr as (z&d1&[_ ->]%update_replicas_ok&Hr).
  apply tx_bind_ok in Hr as (u&d2&(Hq&Hg&Hnew)%enqueue_deletions_for_ok&[-> ->]%tx_ret_ok).
  destruct Hq as (m&s&Hd2). intros c' n r. rewrite Hd2. simpl. rewrite trigger_replicas.
  intros Hr Hst. rewrite <-Hd2.
  destruct (decide (c' = c)) as [->|Hne].
  - apply (Hnew (c, n) r); [by rewrite trigger_replicas|done].
  - apply Hg, trigger_queued. simpl in Hr. apply lookup_update_where_Some in Hr as (r0&Hr0&->).
    rewrite decide_False in Hst by naive_solver. by eapply Hd.
Qed.

(** ** Finishing and giving up *)

Lemma dq_drop_pair i c n d :
  (forall r, chunk_deletions d !! i = Some r -> cd_chunk_id r = c /\ cd_node_id r = n) ->
  (forall r, chunk_replicas d !! (c, n) = Some r -> cr_state r <> ReplicaDeleting) ->
  deleting_queued d ->
  deleting_queued (d <| chunk_deletions := delete_where (fun k _ => k = i) (chunk_deletions d) |>).
Proof.
  intros Hi Hno Hd c' n' r Hr Hst. simpl in Hr.
  destruct (Hd c' n' r Hr Hst) as (j&q&Hj&Hc&Hn). exists j, q. split; [|done]. simpl.
  apply lookup_delete_where_Some. split; [done|]. intros ->.
  destruct (Hi q Hj) as [E1 E2]. apply (Hno r); [|done]. by rewrite <-E1, <-E2, Hc, Hn.
Qed.

Lemma dq_FinishDeletion i c n d r d' :
  (forall q, chunk_deletions d !! i = Some q -> cd_chunk_id q = c /\ cd_node_id q = n) ->
  deleting_queued d -> FinishDeletion i c n d = (r, d') -> deleting_queued d'.
Proof.
  intros Hi Hd Hr. unfold FinishDeletion, inTx in Hr.
  destruct (tx_bind _ _ d) as [[u dn]|e] eqn:E; simplify_eq; [|done].
  apply tx_bind_ok in E as (z&d1&H1&E).
  assert (deleting_queued d1) as Hd1 by (by eapply dq_delete_replicas).
  apply delete_replicas_ok in H1 as [_ ->].
  apply tx_bind_ok in E as (z2&d2&[_ ->]%delete_deletions_ok&[-> ->]%tx_ret_ok).
  apply (dq_drop_pair i c n); [|intros r'|done].
  - rewrite trigger_deletions. exact Hi.
  - rewrite trigger_replicas. simpl. intros [_ Hne]%lookup_delete_where_Some. by destruct Hne.
Qed.

Lemma dq_expire_deletion i max : tx_keeps deleting_queued (expire_deletion i max).
Proof.
  intros d b d' Hd Hr. unfold expire_deletion in Hr.
  apply tx_bind_ok in Hr as (row&d1&[-> ->]%gets_ok&Hr).
  destruct (chunk_deletions d !! i) as [q|] eqn:Hi; [|by tx_inv Hr].
  case_bool_decide; [|by tx_inv Hr].
  apply tx_bind_ok in Hr as (z&d1&[_ ->]%delete_deletions_ok&Hr).
  apply tx_bind_ok in Hr as (z2&d2&[_ ->]%delete_replicas_ok&[-> ->]%tx_ret_ok).
  apply dq_trigger. simpl. intros c n r [Hr Hne]%lookup_delete_where_Some Hst.
  destruct (Hd c n r Hr Hst) as (j&q'&Hj&Hc&Hn). exists j, q'. split; [|done]. simpl.
  apply lookup_delete_where_Some. split; [done|]. intros ->.
  rewrite Hi in Hj. injection Hj as <-. apply Hne. split; [|done]. by rewrite Hc, Hn.
Qed.

Lemma dq_cascade_chunks P `{!forall k v, Decision (P k v)} d :
  deleting_queued d -> deleting_queued (cascade_chunks P d).
Proof. intros Hd c n r [Hr _]%lookup_delete_where_Some. by apply Hd. Qed.
Lemma dq_delete_chunks P `{!forall k v, Decision (P k v)} : tx_keeps deleting_queued (delete_chunks P).
Proof. intros d n d' Hd Hr. unfold delete_chunks in Hr. tx_inv Hr. by apply dq_cascade_chunks. Qed.
Lemma dq_delete_objects P `{!forall k v, Decision (P k v)} : tx_keeps deleting_queued (delete_objects P).
Proof. intros d n d' Hd Hr. unfold delete_objects in Hr. tx_inv Hr. by apply dq_cascade_chunks. Qed.
Lemma dq_delete_uploads P `{!forall k v, Decision (P k v)} : tx_keeps deleting_queued (delete_uploads P).
Proof. intros d n d' Hd Hr. unfold delete_uploads in Hr. tx_inv Hr. by apply dq_cascade_chunks. Qed.

Lemma dq_frame_enqueue_repair now c : tx_keeps deleting_queued (enqueue_repair now c).
Proof. apply frame_enqueue_repair; [by intros d x y z Hd|apply dq_put_repairs]. Qed.
Lemma dq_frame_enqueue_reconcile now n : tx_keeps deleting_queued (enqueue_reconcile now n).
Proof. apply frame_enqueue_reconcile; [by intros d x y z Hd|apply dq_put_reconciles]. Qed.

#[local] Hint Resolve dq_put_nodes dq_put_objects dq_put_uploads dq_put_parts dq_put_chunks
  dq_put_repairs dq_put_reconciles dq_delete_replicas dq_delete_chunks dq_delete_objects
  dq_delete_uploads dq_enqueue_deletion dq_enqueueObjectChunkDeletions
  dq_enqueuePartChunkDeletions dq_orphanPartChunks dq_trim dq_expire_deletion
  dq_frame_enqueue_repair dq_frame_enqueue_reconcile : frames.
#[local] Hint Resolve dq_update_replicas dq_upsert_replica dq_update_deletions | 1 : frames.
#[local] Hint Extern 2 (deletes_none _) => (intros ?; simpl; congruence) : frames.
#[local] Hint Extern 2 (keeps_target _) => (intros ?; done) : frames.
#[local] Hint Extern 2 (cr_state _ <> _) => (simpl; congruence) : frames.
#[local] Hint Extern 3 (tx_keeps _ (put_nodes _)) => apply dq_put_nodes : frames.
#[local] Hint Extern 3 (tx_keeps _ (put_chunks _)) => apply dq_put_chunks : frames.

Lemma dq_supersede now b k o : tx_keeps deleting_queued (supersedeCurrentVersion now b k o).
Proof. unfold supersedeCurrentVersion. preserve. Qed.
Lemma dq_orphanObjectChunks now o : tx_keeps deleting_queued (orphanObjectChunks now o).
Proof. unfold orphanObjectChunks. preserve. Qed.
#[local] Hint Resolve dq_supersede dq_orphanObjectChunks : frames.

Section operations.
Context `{PG : !Postgres} (sha256 : string -> string).

Lemma dq_CompleteUpload now o s n e : op_keeps deleting_queued (CompleteUpload now o s n e).
Proof. unfold CompleteUpload, CompleteUpload_tx. preserve. Qed.
Lemma dq_AbortUpload now o r : op_keeps deleting_queued (AbortUpload now o r).
Proof. unfold AbortUpload. preserve. Qed.
Lemma dq_DeleteObject now b k : op_keeps deleting_queued (DeleteObject now b k).
Proof. unfold DeleteObject. preserve. Qed.
Lemma dq_ReapStaleUploads now t l : op_keeps deleting_queued (ReapStaleUploads now t l).
Proof. unfold ReapStaleUploads. preserve. Qed.
Lemma dq_verify : op_keeps deleting_queued VerifyDurabilityCounters.
Proof. unfold VerifyDurabilityCounters. preserve. Qed.
Lemma dq_FailDeletion now i c b m : op_keeps deleting_queued (FailDeletion now i c b m).
Proof. unfold FailDeletion. preserve. Qed.
Lemma dq_BeginPart f now u n : op_keeps deleting_queued (BeginPart f now u n).
Proof. unfold BeginPart. preserve. Qed.
Lemma dq_reparent o u : tx_keeps deleting_queued (reparent_chunks o u).
Proof. unfold reparent_chunks. preserve. Qed.
Hint Resolve dq_reparent : frames.
Lemma dq_CompleteMultipartUpload f now u ex :
  op_keeps deleting_queued (CompleteMultipartUpload sha256 f now u ex).
Proof. unfold CompleteMultipartUpload, CompleteMultipartUpload_tx. preserve. Qed.
Lemma dq_AbortMultipartUpload now u : op_keeps deleting_queued (AbortMultipartUpload now u).
Proof. unfold AbortMultipartUpload. preserve. Qed.
Hint Resolve dq_CompleteUpload dq_AbortUpload dq_DeleteObject dq_ReapStaleUploads dq_verify
  dq_FailDeletion dq_BeginPart dq_CompleteMultipartUpload dq_AbortMultipartUpload : frames.

(** A worker finishes the job it claimed: the pair it passes is the job's. *)
Definition names_its_job (d : db) (c : call) : Prop :=
  match c with
  | C_FinishDeletion i c n =>
      forall r, chunk_deletions d !! i = Some r -> cd_chunk_id r = c /\ cd_node_id r = n
  | _ => True
  end.

Lemma exec_deleting_queued c d :
  names_its_job d c -> deleting_queued d -> deleting_queued (exec sha256 c d).
Proof.
  intros Hn Hd. destruct c; simpl in *;
    lazymatch goal with
    | |- deleting_queued (FinishDeletion ?i ?c ?n ?d).2 =>
        destruct (FinishDeletion i c n d) eqn:E; by eapply dq_FinishDeletion
    | |- _ => apply (op_keeps_snd deleting_queued); [|exact Hd]; first [solve [auto with frames] | preserve_op]
    end.
Qed.

(** States reached when workers only finish jobs they claimed. *)
Inductive reachable_gc : db -> Prop :=
| gc_init : reachable_gc empty_db
| gc_call c d : reachable_gc d -> names_its_job d c -> reachable_gc (exec sha256 c d).
End operations.

(** Retired data is never forgotten: each DELETING replica has a job in the
    deletion queue. *)
Lemma reachable_gc_queued `{PG : !Postgres} (sha256 : string -> string) (d : db) :
  reachable_gc sha256 d -> deleting_queued d.
Proof.
  intros Hr. induction Hr as [|c d Hr IH Hn].
  - intros c n r. simpl. by rewrite lookup_empty.
  - by apply exec_deleting_queued.
Qed.
Lemma reachable_gc_reachable `{PG : !Postgres} (sha256 : string -> string) (d : db) :
  reachable_gc sha256 d -> reachable sha256 d.
Proof. intros Hr. induction Hr; by constructor. Qed.

Lemma gc_trace `{PG : !Postgres} sha256 cs d :
  reachable_gc sha256 d -> Forall (fun c => forall d, names_its_job d c) cs ->
  reachable_gc sha256 (run_trace sha256 cs d).
Proof.
  revert d. induction cs as [|c cs IH]; intros d Hd Hcs; [done|].
  apply Forall_cons in Hcs as [Hc Hcs]. simpl. apply IH; [|done]. by constructor.
Qed.

Definition sample_deleted : list call := [C_DeleteObject 40 "photos" "cat.jpg"].

(** ** Claims stay valid *)

(** Job [i] is, or was, the deletion of (c, n); identifiers are not reused. *)
Definition job_named (i : Z) (c : N) (n : string) (d : db) : Prop :=
  (i <= chunk_deletions_seq d)%Z /\
  forall r, chunk_deletions d !! i = Some r -> cd_chunk_id r = c /\ cd_node_id r = n.

Section named.
Context (i : Z) (c : N) (n : string).
Abbreviation I := (job_named i c n).

Lemma named_put_nodes : frames_nodes I.
Proof. by intros m d u d' Hd (_&->)%put_nodes_ok. Qed.
Lemma named_put_objects : frames_objects I.
Proof. by intros m d u d' Hd (_&_&->)%put_objects_ok. Qed.
Lemma named_put_uploads : frames_uploads I.
Proof. by intros m d u d' Hd (_&_&->)%put_uploads_ok. Qed.
Lemma named_put_parts : frames_parts I.
Proof. by intros m d u d' Hd (_&_&_&->)%put_parts_ok. Qed.
Lemma named_put_chunks : frames_chunks I.
Proof. by intros m d u d' Hd (_&_&_&_&_&->)%put_chunks_ok. Qed.
Lemma named_put_repairs : frames_repairs I.
Proof. by intros m d u d' Hd (_&_&->)%put_repairs_ok. Qed.
Lemma named_put_reconciles : frames_reconciles I.
Proof. by intros m d u d' Hd (_&_&->)%put_reconciles_ok. Qed.
Lemma named_put_replicas : frames_replicas I.
Proof.
  intros ts m d u d' Hd (_&_&->)%put_replicas_ok.
  by destruct (trigger_fields ts (d <| chunk_replicas := m |>)) as (cs&->&_).
Qed.
Lemma named_update_deletions P `{!forall k v, Decision (P k v)} f :
  keeps_target f -> tx_keeps I (update_deletions P f).
Proof.
  intros Hf d k d' [Hs Hd] [_ ->]%update_deletions_ok. split; [done|]. simpl.
  intros r (r0&Hr0&->)%lookup_update_where_Some. destruct (Hf r0) as [E1 E2].
  case_decide; rewrite ?E1, ?E2; by apply Hd.
Qed.
Lemma named_delete_deletions P `{!forall k v, Decision (P k v)} : tx_keeps I (delete_deletions P).
Proof.
  intros d k d' [Hs Hd] [_ ->]%delete_deletions_ok. split; [done|].
  intros r [Hr _]%lookup_delete_where_Some. by apply Hd.
Qed.
Lemma named_enqueue_deletion now c' n' : tx_keeps I (enqueue_deletion now c' n').
Proof.
  intros d k d' [Hs Hd] Hr. unfold enqueue_deletion in Hr.
  apply tx_bind_ok in Hr as (m&d1&[-> ->]%gets_ok&Hr). case_decide; [by tx_inv Hr|].
  apply tx_bind_ok in Hr as (s&d1&[-> ->]%gets_ok&Hr).
  apply tx_bind_ok in Hr as (u&d1&Hm&Hr). tx_inv Hm.
  apply tx_bind_ok in Hr as (u2&d2&Hins&[-> ->]%tx_ret_ok).
  unfold insert_row in Hins. tx_inv Hins. simpl in *.
  match goal with Hp : put_deletions _ _ = _ |- _ => apply put_deletions_ok in Hp as (_&->) end.
  split; simpl; [lia|]. intros r. rewrite lookup_insert_ne by lia. apply Hd.
Qed.
Lemma named_enqueue_repair now c' : tx_keeps I (enqueue_repair now c').
Proof.
  unfold enqueue_repair. keeps; [by apply tx_keeps_modify|].
  apply keeps_insert_row, named_put_repairs.
Qed.
Lemma named_enqueue_reconcile now n' : tx_keeps I (enqueue_reconcile now n').
Proof.
  unfold enqueue_reconcile. keeps; [by apply tx_keeps_modify|].
  apply keeps_insert_row, named_put_reconciles.
Qed.
Lemma named_delete_chunks P `{!forall k v, Decision (P k v)} : tx_keeps I (delete_chunks P).
Proof. intros d k d' Hd Hr. unfold delete_chunks in Hr. by tx_inv Hr. Qed.
Lemma named_delete_objects P `{!forall k v, Decision (P k v)} : tx_keeps I (delete_objects P).
Proof. intros d k d' Hd Hr. unfold delete_objects in Hr. by tx_inv Hr. Qed.
Lemma named_delete_uploads P `{!forall k v, Decision (P k v)} : tx_keeps I (delete_uploads P).
Proof. intros d k d' Hd Hr. unfold delete_uploads in Hr. by tx_inv Hr. Qed.
End named.

#[local] Hint Resolve named_put_nodes named_put_objects named_put_uploads named_put_parts
  named_put_chunks named_put_repairs named_put_reconciles named_put_replicas
  named_delete_deletions named_delete_chunks named_delete_objects named_delete_uploads
  named_enqueue_deletion named_enqueue_repair named_enqueue_reconcile : frames.
#[local] Hint Resolve named_update_deletions | 1 : frames.
#[local] Hint Extern 3 (tx_keeps _ (put_nodes _)) => apply named_put_nodes : frames.
#[local] Hint Extern 3 (tx_keeps _ (put_chunks _)) => apply named_put_chunks : frames.

Lemma named_verify i c n : op_keeps (job_named i c n) VerifyDurabilityCounters.
Proof. unfold VerifyDurabilityCounters. preserve. Qed.
Lemma named_reparent `{PG : !Postgres} i c n o u : tx_keeps (job_named i c n) (reparent_chunks o u).
Proof. unfold reparent_chunks. preserve. Qed.
#[local] Hint Resolve named_verify named_reparent : frames.

Lemma exec_job_named `{PG : !Postgres} sha256 call i c n d :
  job_named i c n d -> job_named i c n (exec sha256 call d).
Proof.
  intros Hd. destruct call; simpl; (apply (op_keeps_snd (job_named i c n)); [|exact Hd]);
    first [solve [auto with frames] | preserve_op].
Qed.

(** A claim identifies its work for good: whatever runs later, the identifier
    denotes the same (chunk, node) pair if it denotes a job at all. *)
Lemma ClaimDeletions_named `{PG : !Postgres} (sha256 : string -> string) now limit lease d d' pds pd :
  schema_ok d -> ClaimDeletions now limit lease d = (Ok pds, d') -> pd ∈ pds ->
  job_named (pd_ID pd) (pd_ChunkID pd) (pd_NodeID pd) d'.
Proof.
  intros Hs Hclaim Hpd. assert (job_named (pd_ID pd) (pd_ChunkID pd) (pd_NodeID pd) d) as H0.
  { unfold ClaimDeletions, inTx in Hclaim.
    destruct (tx_bind _ _ d) as [[l dn]|e] eqn:E; simplify_eq.
    apply tx_bind_ok in E as (d0&d1&[-> ->]%gets_ok&E).
    apply tx_bind_ok in E as (due&d1&(_&->&->)%limit_rows_ok&E).
    apply tx_bind_ok in E as (z&d1&_&[-> ->]%tx_ret_ok).
    apply list_elem_of_fmap in Hpd as ([i q]&->&Hin). rewrite scan_perm in Hin.
    apply elem_of_take in Hin as (j&Hin&_). apply list_elem_of_lookup_2 in Hin.
    unfold order_by in Hin. rewrite merge_sort_Permutation, scan_perm in Hin.
    apply elem_of_rows_where in Hin as [Hq _]. simpl in *. split.
    - by eapply (so_seq_deletions _ Hs).
    - intros r Hr'. rewrite Hq in Hr'. by injection Hr' as <-. }
  assert (d' = exec sha256 (C_ClaimDeletions now limit lease) d) as -> by (simpl; by rewrite Hclaim).
  by apply exec_job_named.
Qed.
