(* ===== verification/Commit.v ===== *)
(** * Committing a chunk

    CommitChunk (src/internal/metadata/chunks.go) is the point where a chunk
    becomes durable. Its behaviour on every branch, and the replica states it
    leaves. *)

From stdpp Require Import gmap strings list sorting.
From S2P Require Import Prelude Sql Schema Statements Chunks Frames Runs Objects Store.

(** The replica row a commit leaves on node [n], from the old one. *)
Definition available_row (now : Z) (old : option replica_row) : replica_row :=
  match old with
  | Some r => r <| cr_state := ReplicaAvailable |> <| cr_updated_at := now |>
                <| cr_verified_at := Some now |>
  | None => mkReplica ReplicaAvailable now now (Some now) None
  end.
Definition unavailable_row (now : Z) (r : replica_row) : replica_row :=
  r <| cr_state := ReplicaUnavailable |> <| cr_updated_at := now |>.

Definition after_commit (now : Z) (succeeded failed : list string) (n : string)
    (old : option replica_row) : option replica_row :=
  let old := if decide (n ∈ failed) then unavailable_row now <$> old else old in
  if decide (n ∈ succeeded) then Some (available_row now old) else old.

(** Replica rows of chunk [c] change by [f], the rest of [d] up to counters not at all. *)
Record replicas_change (c : N) (f : string -> option replica_row -> option replica_row)
    (d d' : db) : Prop := {
  rc_here : forall n, chunk_replicas d' !! (c, n) = f n (chunk_replicas d !! (c, n));
  rc_other : forall c' n, c' <> c -> chunk_replicas d' !! (c', n) = chunk_replicas d !! (c', n);
  rc_nodes : storage_nodes d' = storage_nodes d;
  rc_objects : objects d' = objects d;
  rc_uploads : multipart_uploads d' = multipart_uploads d;
  rc_parts : multipart_parts d' = multipart_parts d;
  rc_chunks : forall i, strip_counter <$> chunks d' !! i = strip_counter <$> chunks d !! i;
  rc_schema : schema_ok d'
}.

Lemma trigger_nodes ts d : storage_nodes (chunk_replicas_durability ts d) = storage_nodes d.
Proof. by destruct (trigger_fields ts d) as (cs&->&_). Qed.

Lemma replicas_change_trigger c ts f d m :
  (forall n, m !! (c, n) = f n (chunk_replicas d !! (c, n))) ->
  (forall c' n, c' <> c -> m !! (c', n) = chunk_replicas d !! (c', n)) ->
  schema_ok (chunk_replicas_durability ts (d <| chunk_replicas := m |>)) ->
  replicas_change c f d (chunk_replicas_durability ts (d <| chunk_replicas := m |>)).
Proof.
  intros Hh Ho Hs. split; rewrite ?trigger_replicas, ?trigger_nodes, ?trigger_objects,
    ?trigger_uploads, ?trigger_parts; try done.
  intros i. by rewrite trigger_strip.
Qed.

Lemma replicas_change_trans c f g h d1 d2 d3 :
  replicas_change c f d1 d2 -> replicas_change c g d2 d3 ->
  (forall n old, h n old = g n (f n old)) -> replicas_change c h d1 d3.
Proof.
  intros H1 H2 Hh. split.
  - intros n. rewrite Hh, (rc_here _ _ _ _ H2), (rc_here _ _ _ _ H1). done.
  - intros c' n Hne. by rewrite (rc_other _ _ _ _ H2), (rc_other _ _ _ _ H1).
  - by rewrite (rc_nodes _ _ _ _ H2), (rc_nodes _ _ _ _ H1).
  - by rewrite (rc_objects _ _ _ _ H2), (rc_objects _ _ _ _ H1).
  - by rewrite (rc_uploads _ _ _ _ H2), (rc_uploads _ _ _ _ H1).
  - by rewrite (rc_parts _ _ _ _ H2), (rc_parts _ _ _ _ H1).
  - intros i. by rewrite (rc_chunks _ _ _ _ H2), (rc_chunks _ _ _ _ H1).
  - apply H2.
Qed.

Lemma replicas_change_refl c f d :
  schema_ok d -> (forall n old, f n old = old) -> replicas_change c f d d.
Proof. intros Hs Hf. by split. Qed.

Lemma mark_failed_run now c n d :
  schema_ok d ->
  exists d', mark_failed now c n d = Ok (tt, d') /\
    replicas_change c (fun n' old => if decide (n' = n) then unavailable_row now <$> old else old) d d'.
Proof.
  intros Hs. eexists. split.
  { unfold mark_failed, tx_bind. rewrite update_replicas_run by done. done. }
  apply replicas_change_trigger.
  - intros n'. rewrite lookup_update_where.
    destruct (chunk_replicas d !! (c, n')); simpl; repeat case_decide; naive_solver.
  - intros c' n' Hne. rewrite lookup_update_where.
    destruct (chunk_replicas d !! (c', n')); simpl; [rewrite decide_False; naive_solver|done].
  - eapply keeps_update_replicas; [exact Hs|]. by apply update_replicas_run.
Qed.

Lemma mark_available_run now c n d :
  schema_ok d -> is_Some (chunks d !! c) -> is_Some (storage_nodes d !! n) ->
  exists d', mark_available now c n d = Ok (tt, d') /\
    replicas_change c (fun n' old => if decide (n' = n) then Some (available_row now old) else old) d d'.
Proof.
  intros Hs Hc Hn. eexists. split; [by apply upsert_replica_run|].
  apply replicas_change_trigger.
  - intros n'. case_decide as Heq; [subst n'; by rewrite lookup_insert_eq|].
    rewrite lookup_insert_ne; congruence.
  - intros c' n' Hne. rewrite lookup_insert_ne; congruence.
  - eapply keeps_upsert_replica; [exact Hs|]. by apply upsert_replica_run.
Qed.

Lemma unavailable_row_idemp now r : unavailable_row now (unavailable_row now r) = unavailable_row now r.
Proof. by destruct r. Qed.
Lemma available_row_idemp now old : available_row now (Some (available_row now old)) = available_row now old.
Proof. by destruct old as [[]|]. Qed.

Lemma mark_all_failed_run now c ns d :
  schema_ok d ->
  exists d', tx_for ns (mark_failed now c) d = Ok (tt, d') /\
    replicas_change c (fun n old => if decide (n ∈ ns) then unavailable_row now <$> old else old) d d'.
Proof.
  revert d. induction ns as [|n ns IH]; intros d Hs.
  - exists d. split; [done|]. apply replicas_change_refl; [done|]. intros n old.
    by rewrite decide_False by apply not_elem_of_nil.
  - destruct (mark_failed_run now c n d Hs) as (d1&H1&R1).
    destruct (IH d1 (rc_schema _ _ _ _ R1)) as (d2&H2&R2). exists d2.
    split; [simpl; unfold tx_bind; by rewrite H1|].
    eapply replicas_change_trans; [exact R1|exact R2|]. intros n' old. simpl.
    destruct (decide (n' = n)) as [->|Hne].
    + rewrite decide_True by set_solver. case_decide; [|done]. destruct old; simpl; [|done].
      by rewrite unavailable_row_idemp.
    + repeat case_decide; set_solver.
Qed.

Lemma mark_all_available_run now c ns d :
  schema_ok d -> is_Some (chunks d !! c) ->
  (forall n, n ∈ ns -> is_Some (storage_nodes d !! n)) ->
  exists d', tx_for ns (mark_available now c) d = Ok (tt, d') /\
    replicas_change c (fun n old => if decide (n ∈ ns) then Some (available_row now old) else old) d d'.
Proof.
  revert d. induction ns as [|n ns IH]; intros d Hs Hc Hns.
  - exists d. split; [done|]. apply replicas_change_refl; [done|]. intros n old.
    by rewrite decide_False by apply not_elem_of_nil.
  - destruct (mark_available_run now c n d Hs Hc) as (d1&H1&R1); [apply Hns; set_solver|].
    destruct (IH d1 (rc_schema _ _ _ _ R1)) as (d2&H2&R2).
    { by rewrite <-(fmap_is_Some strip_counter), (rc_chunks _ _ _ _ R1), fmap_is_Some. }
    { intros n' Hn'. rewrite (rc_nodes _ _ _ _ R1). apply Hns. set_solver. }
    exists d2. split; [simpl; unfold tx_bind; by rewrite H1|].
    eapply replicas_change_trans; [exact R1|exact R2|]. intros n' old. simpl.
    destruct (decide (n' = n)) as [->|Hne].
    + rewrite decide_True by set_solver. case_decide; [|done]. by rewrite available_row_idemp.
    + repeat case_decide; set_solver.
Qed.

Definition committed_row (now : Z) (checksum : string) (sizeBytes : Z) (r : chunk_row) : chunk_row :=
  r <| ck_state := ChunkCommitted |> <| ck_checksum_sha256 := Some checksum |>
    <| ck_size_bytes := sizeBytes |> <| ck_committed_at := Some now |>.

(** The statements after the durability check never fail. *)
Lemma commit_tail_run {A} now c checksum size (ch : chunk_row) (n : A) d :
  schema_ok d -> sha256_hex checksum = true -> (0 <= size)%Z ->
  exists d',
    (do! update_chunks (fun k _ => k = c) (committed_row now checksum size) in
     do! update_objects (fun k o => ck_object_id ch = Some k /\ ob_state o = ObjectUploading)
           (fun o => o <| ob_updated_at := now |>) in
     let! part := gets (fun d => ck_part_id ch ≫= fun p => multipart_parts d !! p) in
     do! update_uploads (fun k u => mp_upload_id <$> part = Some k /\ mu_state u = MultipartInProgress)
           (fun u => u <| mu_updated_at := now |>) in
     tx_ret n) d = Ok (n, d') /\
    chunks d' = update_where (fun k _ => k = c) (committed_row now checksum size) (chunks d) /\
    chunk_replicas d' = chunk_replicas d /\ schema_ok d'.
Proof.
  intros Hs Hsum Hsz.
  destruct (update_chunks_run (fun k _ => k = c) (committed_row now checksum size) d Hs)
    as (d1&H1&Hd1&Hs1); [done| |].
  { intros k r Hr ->. destruct (so_chunks _ Hs c r Hr) as (?&_&_&?).
    split_and!; try done. simpl. by intros s [= <-]. }
  destruct (update_objects_run (fun k o => ck_object_id ch = Some k /\ ob_state o = ObjectUploading)
    (fun o => o <| ob_updated_at := now |>) d1 Hs1) as (d2&H2&Hd2&Hs2).
  { intros k r Hr _. apply (so_objects _ Hs1 k r Hr). }
  { apply current_idx_retire; [apply Hs1|]. intros k r [_ Hst]. simpl. congruence. }
  destruct (update_uploads_run (fun k u =>
      mp_upload_id <$> (ck_part_id ch ≫= fun p => multipart_parts d2 !! p) = Some k /\
      mu_state u = MultipartInProgress) (fun u => u <| mu_updated_at := now |>) d2 Hs2)
    as (d3&H3&Hd3&Hs3); [done|].
  exists d3. split_and!; [|by rewrite Hd3, Hd2, Hd1|by rewrite Hd3, Hd2, Hd1|done].
  unfold tx_bind at 1. rewrite H1. unfold tx_bind at 1. rewrite H2.
  unfold tx_bind at 1, gets. unfold tx_bind. rewrite H3. done.
Qed.


