(* ===== verification/ChunkInv.v ===== *)
(** * Committed chunks carry their checksum

    A COMMITTED chunk has a recorded SHA-256 digest in every reachable state;
    the read path and the reconciler rely on it. *)

From stdpp Require Import gmap strings list sorting.
From S2P Require Import Prelude Sql Schema Statements Chunks Frames Objects Nodes Repair Gc Reconcile Multipart Store.

Definition chunk_sealed (r : chunk_row) : Prop :=
  ck_state r = ChunkCommitted -> is_Some (ck_checksum_sha256 r).
Definition checksums_recorded (d : db) : Prop := map_Forall (fun _ r => chunk_sealed r) (chunks d).

Section frames.
Lemma sealed_put_nodes : frames_nodes checksums_recorded.
Proof. by intros m d u d' Hd (_&->)%put_nodes_ok. Qed.
Lemma sealed_put_objects : frames_objects checksums_recorded.
Proof. by intros m d u d' Hd (_&_&->)%put_objects_ok. Qed.
Lemma sealed_put_uploads : frames_uploads checksums_recorded.
Proof. by intros m d u d' Hd (_&_&->)%put_uploads_ok. Qed.
Lemma sealed_put_parts : frames_parts checksums_recorded.
Proof. by intros m d u d' Hd (_&_&_&->)%put_parts_ok. Qed.
Lemma sealed_put_replicas : frames_replicas checksums_recorded.
Proof.
  intros ts m d u d' Hd (_&_&->)%put_replicas_ok c r Hr.
  apply trigger_lookup_upd in Hr as (r0&n&Hr0&->). exact (Hd c r0 Hr0).
Qed.
Lemma sealed_put_deletions : frames_deletions checksums_recorded.
Proof. by intros m d u d' Hd (_&->)%put_deletions_ok. Qed.
Lemma sealed_put_repairs : frames_repairs checksums_recorded.
Proof. by intros m d u d' Hd (_&_&->)%put_repairs_ok. Qed.
Lemma sealed_put_reconciles : frames_reconciles checksums_recorded.
Proof. by intros m d u d' Hd (_&_&->)%put_reconciles_ok. Qed.
Lemma sealed_sequences : ignores_sequences checksums_recorded.
Proof. by intros d a b c Hd. Qed.

Lemma sealed_update_chunks P `{!forall k v, Decision (P k v)} f :
  (forall r, chunk_sealed r -> chunk_sealed (f r)) ->
  tx_keeps checksums_recorded (update_chunks P f).
Proof.
  intros Hf d n d' Hd [_ ->]%update_chunks_ok c r (r0&Hr0&->)%lookup_update_where_Some.
  specialize (Hd c r0 Hr0). case_decide; auto.
Qed.
Lemma sealed_insert_chunk i r : chunk_sealed r -> tx_keeps checksums_recorded (insert_chunk i r).
Proof.
  intros Hr d u d' Hd [Hi ->]%insert_chunk_ok. by apply map_Forall_insert_2.
Qed.
Lemma sealed_cascade_chunks P `{!forall k v, Decision (P k v)} d :
  checksums_recorded d -> checksums_recorded (cascade_chunks P d).
Proof. apply map_Forall_delete_where. Qed.
Lemma sealed_delete_chunks P `{!forall k v, Decision (P k v)} :
  tx_keeps checksums_recorded (delete_chunks P).
Proof. intros d n d' Hd Hr. unfold delete_chunks in Hr. tx_inv Hr. by apply sealed_cascade_chunks. Qed.
Lemma sealed_delete_objects P `{!forall k v, Decision (P k v)} :
  tx_keeps checksums_recorded (delete_objects P).
Proof. intros d n d' Hd Hr. unfold delete_objects in Hr. tx_inv Hr. by apply sealed_cascade_chunks. Qed.
Lemma sealed_delete_uploads P `{!forall k v, Decision (P k v)} :
  tx_keeps checksums_recorded (delete_uploads P).
Proof. intros d n d' Hd Hr. unfold delete_uploads in Hr. tx_inv Hr. by apply sealed_cascade_chunks. Qed.
End frames.

#[local] Hint Resolve sealed_put_nodes sealed_put_objects sealed_put_uploads sealed_put_parts
  sealed_put_replicas sealed_put_deletions sealed_put_repairs sealed_put_reconciles
  sealed_sequences sealed_delete_chunks sealed_delete_objects sealed_delete_uploads : frames.
#[local] Hint Resolve sealed_update_chunks sealed_insert_chunk | 1 : frames.
#[local] Hint Extern 2 (chunk_sealed _) => (unfold chunk_sealed in *; simpl; by eauto) : frames.

Section operations.
Context `{PG : !Postgres} (sha256 : string -> string).

Lemma sealed_put_renumbered o (renum : list N) d u d' :
  checksums_recorded d ->
  put_chunks (map_imap (fun c r => Some (reparented o renum c r)) (chunks d)) d = Ok (u, d') ->
  checksums_recorded d'.
Proof.
  intros Hd (_&_&_&_&_&->)%put_chunks_ok c r. simpl. rewrite map_lookup_imap.
  intros (r0&Hr0&[= <-])%bind_Some. specialize (Hd c r0 Hr0).
  unfold reparented. by destruct (position_in _ _).
Qed.
Lemma sealed_reparent o u : tx_keeps checksums_recorded (reparent_chunks o u).
Proof.
  intros d n d' Hd Hr. unfold reparent_chunks in Hr. tx_inv Hr. by eapply sealed_put_renumbered.
Qed.
Hint Resolve sealed_reparent : frames.

Lemma sealed_verify : op_keeps checksums_recorded VerifyDurabilityCounters.
Proof.
  apply op_keeps_inTx. intros d n d' Hd Hr. tx_inv Hr.
  match goal with Hp : put_chunks _ _ = _ |- _ => apply put_chunks_ok in Hp as (_&_&_&_&_&->) end.
  intros c r. simpl. rewrite map_lookup_imap. intros (r0&Hr0&[= <-])%bind_Some.
  specialize (Hd c r0 Hr0). unfold recounted. by case_decide.
Qed.
Hint Resolve sealed_verify : frames.

Lemma exec_checksums c d : checksums_recorded d -> checksums_recorded (exec sha256 c d).
Proof.
  intros Hd. destruct c; simpl; (eapply op_keeps_snd; [|exact Hd]);
    first [solve [auto with frames] | preserve_op].
Qed.

Lemma reachable_checksums d : reachable sha256 d -> checksums_recorded d.
Proof.
  apply reachable_invariant; [|apply exec_checksums].
  intros c r. simpl. by rewrite lookup_empty.
Qed.
End operations.
