(* ===== verification/CompleteInv.v ===== *)
(** * Complete objects have no holes

    In every reachable state an object in state COMPLETE owns exactly
    [chunk_count] chunks, all of them COMMITTED. *)

From stdpp Require Import gmap strings list sorting.
From S2P Require Import Prelude Sql Schema Statements Chunks Frames Runs Deletions Objects Nodes Repair Gc Reconcile Multipart Store.

Definition object_sealed (d : db) (o : N) (r : object_row) : Prop :=
  object_chunk_count d o = ob_chunk_count r /\
  forall c ch, chunks d !! c = Some ch -> ck_object_id ch = Some o -> ck_state ch = ChunkCommitted.

Record complete_ok (d : db) : Prop := {
  co_owner : forall c ch, chunks d !! c = Some ch -> is_Some (ck_object_id ch) -> ck_part_id ch = None;
  co_sealed : forall o r, objects d !! o = Some r -> ob_state r = ObjectComplete -> object_sealed d o r
}.

(** [same_chunks]: the chunk tables agree on ownership, position and state. *)
Definition chunk_shape (r : chunk_row) : option N * option N * ChunkState :=
  (ck_object_id r, ck_part_id r, ck_state r).

Lemma object_sealed_shape d d' o r :
  (forall c, chunk_shape <$> chunks d' !! c = chunk_shape <$> chunks d !! c) ->
  object_sealed d o r -> object_sealed d' o r.
Proof.
  intros Hsh [Hcnt Hall]. split.
  - rewrite <-Hcnt. apply count_where_ext. intros c. specialize (Hsh c).
    destruct (chunks d' !! c) as [r1|], (chunks d !! c) as [r2|]; simpl in Hsh; try done.
    unfold chunk_shape in Hsh. injection Hsh as ? ? ?.
    split; intros (?&[= <-]&?); eexists; (split; [done|congruence]).
  - intros c ch Hc Ho. specialize (Hsh c). rewrite Hc in Hsh. simpl in Hsh.
    symmetry in Hsh. apply fmap_Some in Hsh as (ch2&Hc2&Heq). unfold chunk_shape in Heq.
    injection Heq as ? ? ?. specialize (Hall c ch2 Hc2). rewrite <-Hall; congruence.
Qed.

Lemma complete_ok_shape d d' :
  (forall c, chunk_shape <$> chunks d' !! c = chunk_shape <$> chunks d !! c) ->
  objects d' = objects d -> complete_ok d -> complete_ok d'.
Proof.
  intros Hsh Ho [Hown Hse]. split.
  - intros c ch Hc Hs. specialize (Hsh c). rewrite Hc in Hsh. simpl in Hsh.
    symmetry in Hsh. apply fmap_Some in Hsh as (ch2&Hc2&Heq). unfold chunk_shape in Heq.
    injection Heq as Ha Hb _. rewrite Hb. apply (Hown c ch2); [done|]. by rewrite <-Ha.
  - intros o r. rewrite Ho. intros Hr Hst. eapply object_sealed_shape; eauto.
Qed.

Lemma trigger_shape ts d c :
  chunk_shape <$> chunks (chunk_replicas_durability ts d) !! c = chunk_shape <$> chunks d !! c.
Proof.
  destruct (trigger_fields ts d) as (cs&->&Hcs). simpl. rewrite Hcs.
  case_decide; [|done]. by destruct (chunks d !! c).
Qed.

Section frames.
Lemma complete_put_nodes : frames_nodes complete_ok.
Proof. by intros m d u d' [] (_&->)%put_nodes_ok. Qed.
Lemma complete_put_uploads : frames_uploads complete_ok.
Proof. by intros m d u d' [] (_&_&->)%put_uploads_ok. Qed.
Lemma complete_put_parts : frames_parts complete_ok.
Proof. by intros m d u d' [] (_&_&_&->)%put_parts_ok. Qed.
Lemma complete_put_replicas : frames_replicas complete_ok.
Proof.
  intros ts m d u d' Hd (_&_&->)%put_replicas_ok. eapply complete_ok_shape; [| |exact Hd].
  - intros c. by rewrite trigger_shape.
  - by rewrite trigger_objects.
Qed.
Lemma complete_put_deletions : frames_deletions complete_ok.
Proof. by intros m d u d' [] (_&->)%put_deletions_ok. Qed.
Lemma complete_put_repairs : frames_repairs complete_ok.
Proof. by intros m d u d' [] (_&_&->)%put_repairs_ok. Qed.
Lemma complete_put_reconciles : frames_reconciles complete_ok.
Proof. by intros m d u d' [] (_&_&->)%put_reconciles_ok. Qed.
Lemma complete_sequences : ignores_sequences complete_ok.
Proof. by intros d a b c []. Qed.

(** An update of [objects] that completes nothing. *)
Definition completes_nothing (P : N -> object_row -> Prop) (f : object_row -> object_row) : Prop :=
  forall k r, P k r -> ob_state (f r) = ObjectComplete ->
    ob_state r = ObjectComplete /\ ob_chunk_count (f r) = ob_chunk_count r.

Lemma complete_update_objects P `{!forall k v, Decision (P k v)} f :
  completes_nothing P f -> tx_keeps complete_ok (update_objects P f).
Proof.
  intros Hf d n d' [Hown Hse] [_ ->]%update_objects_ok. split; [done|].
  intros o r (r0&Hr0&->)%lookup_update_where_Some Hst. unfold object_sealed. simpl.
  case_decide as HP; [|by apply Hse].
  destruct (Hf o r0 HP Hst) as [Hst0 ->]. by apply Hse.
Qed.
Lemma complete_insert_object i r :
  ob_state r <> ObjectComplete -> tx_keeps complete_ok (insert_object i r).
Proof.
  intros Hr d u d' [Hown Hse] [Hi ->]%insert_object_ok. split; [done|].
  intros o r'. simpl. rewrite lookup_insert_Some. intros [[<- <-]|[_ Ho]] Hst; [done|].
  by apply Hse.
Qed.

(** Committing a chunk. *)
Definition commits (f : chunk_row -> chunk_row) : Prop :=
  forall r, ck_object_id (f r) = ck_object_id r /\ ck_part_id (f r) = ck_part_id r /\
    ck_state (f r) = ChunkCommitted.

Lemma complete_commit_chunks P `{!forall k v, Decision (P k v)} f :
  commits f -> tx_keeps complete_ok (update_chunks P f).
Proof.
  intros Hf d n d' [Hown Hse] [_ ->]%update_chunks_ok. split; simpl.
  - intros c ch (r0&Hr0&->)%lookup_update_where_Some.
    specialize (Hown c r0 Hr0). case_decide; [|by auto].
    destruct (Hf r0) as (->&->&_). auto.
  - intros o r Hr Hst. destruct (Hse o r Hr Hst) as [Hcnt Hall]. split.
    + rewrite <-Hcnt. apply count_where_ext. intros c. simpl. rewrite lookup_update_where.
      destruct (chunks d !! c) as [r0|]; [|naive_solver]. simpl. specialize (Hf r0).
      destruct_and!. case_decide; naive_solver congruence.
    + intros c ch (r0&Hr0&->)%lookup_update_where_Some. specialize (Hf r0).
      specialize (Hall c r0 Hr0). destruct_and!. case_decide; naive_solver congruence.
Qed.

(** Rewriting chunks of objects that are not COMPLETE, owners unchanged. *)
Lemma complete_update_unsealed P `{!forall k v, Decision (P k v)} f d n d' :
  (forall r, ck_object_id (f r) = ck_object_id r /\ ck_part_id (f r) = ck_part_id r) ->
  (forall c ch o r, chunks d !! c = Some ch -> P c ch -> ck_object_id ch = Some o ->
     objects d !! o = Some r -> ob_state r <> ObjectComplete) ->
  complete_ok d -> update_chunks P f d = Ok (n, d') -> complete_ok d'.
Proof.
  intros Hf HP [Hown Hse] [_ ->]%update_chunks_ok. split; simpl.
  - intros c ch (r0&Hr0&->)%lookup_update_where_Some.
    specialize (Hown c r0 Hr0). case_decide; [|by auto].
    destruct (Hf r0) as (->&->). auto.
  - intros o r Hr Hst. destruct (Hse o r Hr Hst) as [Hcnt Hall]. split.
    + rewrite <-Hcnt. apply count_where_ext. intros c. simpl. rewrite lookup_update_where.
      destruct (chunks d !! c) as [r0|]; [|naive_solver]. simpl. specialize (Hf r0).
      destruct_and!. case_decide; naive_solver congruence.
    + intros c ch (r0&Hr0&->)%lookup_update_where_Some Ho. specialize (Hf r0).
      destruct_and!. case_decide as Hp; [|by eapply Hall].
      destruct (HP c r0 o r); congruence.
Qed.
End frames.

#[local] Hint Resolve complete_put_nodes complete_put_uploads complete_put_parts
  complete_put_replicas complete_put_deletions complete_put_repairs complete_put_reconciles
  complete_sequences : frames.
#[local] Hint Resolve complete_update_objects complete_insert_object complete_commit_chunks
  | 1 : frames.
#[local] Hint Extern 3 (completes_nothing _ _) =>
  (unfold completes_nothing; simpl; intros; by split_and?) : frames.
#[local] Hint Extern 3 (_ <> ObjectComplete) => done : frames.
#[local] Hint Extern 3 (commits _) => done : frames.

Section operations.
Context `{PG : !Postgres} (sha256 : string -> string).

(** Chunks that belong to a part belong to no object. *)
Lemma complete_update_part_chunks P `{!forall k v, Decision (P k v)} f :
  (forall k r, P k r -> is_Some (ck_part_id r)) ->
  (forall r, ck_object_id (f r) = ck_object_id r /\ ck_part_id (f r) = ck_part_id r) ->
  tx_keeps complete_ok (update_chunks P f).
Proof.
  intros HP Hf d n d' Hd Hr. eapply complete_update_unsealed; [done| |done|done].
  intros c ch o r Hc Hp Ho. destruct (HP c ch Hp) as [p Hpart].
  rewrite (co_owner _ Hd c ch Hc) in Hpart; [done|by eauto].
Qed.

Lemma complete_enqueueObjectChunkDeletions now o :
  tx_keeps complete_ok (enqueueObjectChunkDeletions now o).
Proof. unfold enqueueObjectChunkDeletions, enqueue_deletions_for. preserve. Qed.

(** Orphaning is safe once the owner is not COMPLETE. *)
Lemma complete_orphanObjectChunks now o d u d' :
  complete_ok d -> (forall r, objects d !! o = Some r -> ob_state r <> ObjectComplete) ->
  orphanObjectChunks now o d = Ok (u, d') -> complete_ok d'.
Proof.
  intros Hd Ho Hr. unfold orphanObjectChunks in Hr.
  apply tx_bind_ok in Hr as (n&d1&H1&H2).
  apply complete_update_unsealed in H1; try done.
  - by eapply complete_enqueueObjectChunkDeletions.
  - intros c ch o' r Hc Heq Ho'. simpl in Heq. rewrite Heq in Ho'. injection Ho' as <-. auto.
Qed.

Lemma complete_AbortUpload now o reason : op_keeps complete_ok (AbortUpload now o reason).
Proof.
  apply op_keeps_inTx. intros d u d' Hd Hr.
  apply tx_bind_ok in Hr as (n&d1&H1&H2).
  pose proof H1 as H1'. apply update_objects_ok in H1' as [Hn Hd1].
  assert (complete_ok d1) as Hc1.
  { eapply complete_update_objects; [|exact Hd|exact H1]. done. }
  case_bool_decide as Hz; [by tx_inv H2|].
  eapply complete_orphanObjectChunks; [exact Hc1| |exact H2].
  intros r Hr. subst d1. simpl in Hr.
  apply lookup_update_where_Some in Hr as (r0&Hr0&->).
  case_decide as Hp; simpl; [done|]. intros Hst. apply Hz. rewrite Hn.
  apply count_where_zero. intros k v Hk [-> Hv]. rewrite Hr0 in Hk. injection Hk as <-.
  congruence.
Qed.

Lemma complete_fail_one now id f :
  (forall r, ob_state (f r) = ObjectFailed) ->
  tx_keeps complete_ok (do! update_objects (fun k _ => k = id) f in orphanObjectChunks now id).
Proof.
  intros Hf d u d' Hd Hr. apply tx_bind_ok in Hr as (n&d1&H1&H2).
  pose proof H1 as H1'. apply update_objects_ok in H1' as [Hn Hd1].
  assert (complete_ok d1) as Hc1.
  { eapply complete_update_objects; [|exact Hd|exact H1]. simpl. intros. congruence. }
  eapply complete_orphanObjectChunks; [exact Hc1| |exact H2].
  intros r Hr. subst d1. simpl in Hr.
  apply lookup_update_where_Some in Hr as (r0&Hr0&->). rewrite decide_True by done. congruence.
Qed.
Lemma complete_ReapStaleUploads now older limit :
  op_keeps complete_ok (ReapStaleUploads now older limit).
Proof.
  apply op_keeps_inTx, tx_keeps_bind; [preserve|]. intros m.
  apply tx_keeps_bind; [preserve|]. intros rows. apply tx_keeps_bind; [|preserve].
  apply tx_keeps_for. intros id _. by apply complete_fail_one.
Qed.

(** Reservation touches only chunks of an UPLOADING object or of a part. *)
Lemma assertOwnerWritable_ok owner d u d' :
  assertOwnerWritable owner d = Ok (u, d') ->
  d' = d /\ forall o r, co_object_id owner = Some o -> objects d !! o = Some r ->
    ob_state r = ObjectUploading.
Proof.
  unfold assertOwnerWritable. destruct (co_object_id owner) as [o|].
  - intros Hr. apply tx_bind_ok in Hr as (row&d1&[-> ->]%gets_ok&Hr).
    destruct (objects d !! o) as [r|] eqn:Ho; [|by tx_inv Hr].
    apply require_ok in Hr as [Hst%bool_decide_eq_true ->]. split; [done|].
    intros o' r' [= <-] Hr'. congruence.
  - intros Hr. apply tx_bind_ok in Hr as (row&d1&[-> ->]%gets_ok&Hr).
    split; [|done]. destruct (_ !! _); [by apply require_ok in Hr as [_ ->]|by tx_inv Hr].
Qed.

Lemma complete_upsert_chunk now id owner index size d c d' :
  ~ (is_Some (co_object_id owner) <-> is_Some (co_part_id owner)) ->
  (forall o r, co_object_id owner = Some o -> objects d !! o = Some r ->
     ob_state r = ObjectUploading) ->
  complete_ok d -> upsert_chunk now id owner index size d = Ok (c, d') -> complete_ok d'.
Proof.
  intros Hone Hw Hd Hr. unfold upsert_chunk in Hr.
  apply tx_bind_ok in Hr as (m&d1&[-> ->]%gets_ok&Hr).
  destruct (find_row _ _) as [[old row]|] eqn:Hf.
  - apply find_row_Some in Hf as [Hold Hpos].
    apply tx_bind_ok in Hr as (n&d2&Hu&[-> ->]%tx_ret_ok).
    eapply complete_update_unsealed; [| |exact Hd|exact Hu]; [done|].
    intros c' ch o r Hc' -> Ho Hor. rewrite Hold in Hc'. injection Hc' as <-.
    unfold position_taken in Hpos. destruct (co_part_id owner) as [p|].
    + destruct Hpos as [Hp _]. rewrite (co_owner _ Hd old row Hold) in Hp; [done|by eauto].
    + destruct Hpos as (_&Hoo&_). rewrite Ho in Hoo. by rewrite (Hw o r).
  - apply tx_bind_ok in Hr as ([]&d2&[Hfresh ->]%insert_chunk_ok&[-> ->]%tx_ret_ok).
    destruct Hd as [Hown Hse]. split; simpl.
    + intros c ch. rewrite lookup_insert_Some. intros [[_ <-]|[_ Hc]]; [|by eapply Hown].
      simpl. by destruct (co_part_id owner) as [p|]; [intros []|].
    + intros o r Ho Hst. destruct (Hse o r Ho Hst) as [Hcnt Hall].
      assert ((match co_part_id owner with Some _ => None | None => co_object_id owner end) <> Some o)
        as Hne.
      { destruct (co_part_id owner); [done|]. intros Heq.
        rewrite (Hw o r Heq Ho) in Hst. done. }
      split.
      * rewrite <-Hcnt. unfold object_chunk_count. simpl.
        rewrite count_where_insert_new by done. rewrite decide_False by done. lia.
      * intros c ch. simpl. rewrite lookup_insert_Some. intros [[_ <-]|[_ Hc]]; [done|].
        by eapply Hall.
Qed.

Lemma complete_ReserveChunk fresh now owner index size :
  op_keeps complete_ok (ReserveChunk fresh now owner index size).
Proof.
  unfold ReserveChunk. case_bool_decide as Hone; [apply op_keeps_throw|].
  apply op_keeps_inTx. intros d c d' Hd Hr.
  apply tx_bind_ok in Hr as ([]&d1&[-> Hw]%assertOwnerWritable_ok&Hr).
  by eapply complete_upsert_chunk.
Qed.

(** Retiring the previous version leaves chunk shapes and the new row alone. *)
Definition view_of (d0 : db) (o : N) (d : db) : Prop :=
  (forall c, chunk_shape <$> chunks d !! c = chunk_shape <$> chunks d0 !! c) /\
  objects d !! o = objects d0 !! o.

Lemma view_put_replicas d0 o : frames_replicas (view_of d0 o).
Proof.
  intros ts m d u d' [Hc Ho] (_&_&->)%put_replicas_ok. split.
  - intros c. by rewrite trigger_shape.
  - by rewrite trigger_objects.
Qed.
Lemma view_put_deletions d0 o : frames_deletions (view_of d0 o).
Proof. by intros m d u d' Hd (_&->)%put_deletions_ok. Qed.
Lemma view_sequences d0 o : ignores_sequences (view_of d0 o).
Proof. by intros d a b c Hd. Qed.
Hint Resolve view_put_replicas view_put_deletions view_sequences : frames.

Lemma view_supersede d0 now b k o : tx_keeps (view_of d0 o) (supersedeCurrentVersion now b k o).
Proof.
  clear sha256.
  unfold supersedeCurrentVersion, enqueueObjectChunkDeletions, enqueue_deletions_for. preserve.
  intros d n d' [Hc Ho] [_ ->]%update_objects_ok. split; [done|]. simpl.
  rewrite <-Ho, lookup_update_where. destruct (objects d !! o); [|done]. simpl.
  rewrite decide_False; [done|]. tauto.
Qed.

Lemma complete_supersede now b k o : tx_keeps complete_ok (supersedeCurrentVersion now b k o).
Proof.
  unfold supersedeCurrentVersion, enqueueObjectChunkDeletions, enqueue_deletions_for. preserve.
Qed.

(** Promoting an object whose chunks are all committed. *)
Lemma complete_promote o now size cnt etag d n d' :
  complete_ok d ->
  object_chunk_count d o = cnt -> object_committed_count d o = cnt ->
  update_objects (fun k _ => k = o) (complete_row now size cnt etag) d = Ok (n, d') ->
  complete_ok d'.
Proof.
  intros [Hown Hse] Htot Hcom [_ ->]%update_objects_ok. split; [done|].
  intros o' r (r0&Hr0&->)%lookup_update_where_Some Hst. simpl. case_decide as Heq; [subst o'|by apply Hse].
  split; [done|]. intros c ch Hc Ho.
  eapply (count_where_all (fun _ ch => ck_object_id ch = Some o)
            (fun _ ch => ck_state ch = ChunkCommitted)); [|exact Hc|exact Ho].
  unfold object_chunk_count in Htot. unfold object_committed_count in Hcom. simpl. congruence.
Qed.

Lemma counts_shape d d' o :
  (forall c, chunk_shape <$> chunks d' !! c = chunk_shape <$> chunks d !! c) ->
  object_chunk_count d' o = object_chunk_count d o /\
  object_committed_count d' o = object_committed_count d o.
Proof.
  intros Hsh. split; apply count_where_ext; intros c; specialize (Hsh c);
    destruct (chunks d' !! c) as [r1|], (chunks d !! c) as [r2|]; simpl in Hsh; try done;
    unfold chunk_shape in Hsh; injection Hsh as ? ? ?;
    split; intros (?&[= <-]&?); eexists; (split; [done|]); destruct_and?; split_and?; congruence.
Qed.

(** Promotion establishes what it checked. *)
Lemma complete_CompleteUpload now o size cnt etag :
  op_keeps complete_ok (CompleteUpload now o size cnt etag).
Proof.
  apply op_keeps_inTx. intros d obj d' Hd Hr. unfold CompleteUpload_tx in Hr.
  apply tx_bind_ok in Hr as (row&d1&[-> ->]%gets_ok&Hr).
  destruct (objects d !! o) as [r|] eqn:Ho; [|by tx_inv Hr].
  apply tx_bind_ok in Hr as ([]&d1&[Hst ->]%require_ok&Hr).
  apply tx_bind_ok in Hr as (tot&d1&[-> ->]%gets_ok&Hr).
  apply tx_bind_ok in Hr as (com&d1&[-> ->]%gets_ok&Hr).
  apply tx_bind_ok in Hr as ([]&d1&[[Ht Hc]%bool_decide_eq_true ->]%require_ok&Hr).
  apply tx_bind_ok in Hr as ([]&d1&Hs&Hr).
  apply tx_bind_ok in Hr as (n&d2&Hu&[-> ->]%tx_ret_ok).
  assert (view_of d o d1) as [Hsh _] by (eapply view_supersede; [|exact Hs]; done).
  apply (counts_shape d d1 o) in Hsh as [Hsh1 Hsh2].
  eapply complete_promote; [| | |exact Hu]; [|congruence..].
  by eapply complete_supersede.
Qed.

(** Assembly: the re-parented chunks are exactly the new object's chunks. *)
Lemma part_chunks_elem d u c k :
  (c, k) ∈ part_chunks d u ->
  exists ch p, chunks d !! c = Some ch /\ ck_state ch = ChunkCommitted /\
    (exists pid, ck_part_id ch = Some pid /\ multipart_parts d !! pid = Some p) /\
    complete_part_of u p /\ k = (mp_part_number p, ck_chunk_index ch).
Proof.
  unfold part_chunks. intros ([c' ch]&Hin&Heq)%list_elem_of_omap.
  apply elem_of_map_to_list in Hin. simpl in Heq.
  destruct (ck_part_id ch) as [pid|] eqn:Hpid; simpl in Heq; [|done].
  destruct (multipart_parts d !! pid) as [p|] eqn:Hp; [|done].
  case_bool_decide as Hok; [|done]. injection Heq as -> <-.
  destruct Hok as [Hcp Hst]. exists ch, p. split_and!; eauto.
Qed.

Lemma renumbering_elem d u c :
  c ∈ renumbering d u ->
  exists ch, chunks d !! c = Some ch /\ ck_state ch = ChunkCommitted /\ is_Some (ck_part_id ch).
Proof.
  unfold renumbering, order_by. intros ([c' k]&->&Hin)%list_elem_of_fmap.
  rewrite merge_sort_Permutation, scan_perm in Hin.
  apply part_chunks_elem in Hin as (ch&p&Hc&Hst&(pid&Hpid&_)&_). eauto.
Qed.

Lemma NoDup_renumbering d u : NoDup (renumbering d u).
Proof.
  unfold renumbering, order_by. rewrite merge_sort_Permutation, scan_perm.
  unfold part_chunks. pose proof (NoDup_fst_map_to_list (chunks d)) as Hnd.
  induction (map_to_list (chunks d)) as [|[c ch] l IH]; [constructor|].
  simpl in Hnd. apply NoDup_cons in Hnd as [Hc Hnd]. simpl.
  assert (forall c' k, (c', k) ∈ omap (fun kc : N * chunk_row =>
    match ck_part_id kc.2 ≫= fun p => multipart_parts d !! p with
    | Some p =>
        if bool_decide (complete_part_of u p /\ ck_state kc.2 = ChunkCommitted)
        then Some (kc.1, (mp_part_number p, ck_chunk_index kc.2)) else None
    | None => None
    end) l -> c' ∈ l.*1) as Hsub.
  { intros c' k ([c2 ch2]&Hin&Heq)%list_elem_of_omap. simpl in Heq.
    destruct (ck_part_id ch2 ≫= _) as [p|]; [|done]. case_bool_decide; [|done].
    injection Heq as <- _. apply list_elem_of_fmap. by exists (c2, ch2). }
  destruct (ck_part_id ch ≫= _) as [p|]; [|by apply IH].
  case_bool_decide; [|by apply IH]. simpl. apply NoDup_cons. split; [|by apply IH].
  intros ([c' k]&->&Hin)%list_elem_of_fmap. apply Hc. by eapply Hsub.
Qed.

Lemma position_in_Some l c i :
  position_in l c = Some i -> c ∈ l.
Proof.
  unfold position_in. intros ([j x]&Hf&_)%fmap_Some.
  apply list_find_Some in Hf as (Hl&->&_). by eapply list_elem_of_lookup_2.
Qed.
Lemma position_in_None l c : position_in l c = None -> c ∉ l.
Proof.
  unfold position_in. rewrite fmap_None. intros Hf Hin.
  apply list_find_None in Hf. rewrite Forall_forall in Hf. by apply (Hf c).
Qed.

Lemma reparent_chunks_ok o u d n d' :
  reparent_chunks o u d = Ok (n, d') ->
  n = Z.of_nat (length (renumbering d u)) /\
  d' = d <| chunks := map_imap (fun c r => Some (reparented o (renumbering d u) c r)) (chunks d) |>.
Proof.
  unfold reparent_chunks. intros Hr. tx_inv Hr.
  match goal with Hp : put_chunks _ _ = _ |- _ => apply put_chunks_ok in Hp as (_&_&_&_&_&->) end.
  done.
Qed.

Lemma lookup_reparented o (l : list N) (m : gmap N chunk_row) c ch :
  map_imap (fun c r => Some (reparented o l c r)) m !! c = Some ch <->
  exists r, m !! c = Some r /\ ch = reparented o l c r.
Proof.
  rewrite map_lookup_imap. rewrite bind_Some. naive_solver.
Qed.

Lemma complete_reparent o u d n d' :
  complete_ok d ->
  (forall r, objects d !! o = Some r -> ob_state r <> ObjectComplete) ->
  reparent_chunks o u d = Ok (n, d') -> complete_ok d'.
Proof.
  intros Hd Ho [_ ->]%reparent_chunks_ok. pose proof Hd as [Hown Hse]. split; simpl.
  - intros c ch (r&Hr&->)%lookup_reparented. unfold reparented.
    destruct (position_in _ _); [done|]. by eapply Hown.
  - intros o' r Hr Hst. assert (o' <> o) as Hne by (intros ->; by eapply Ho).
    destruct (Hse o' r Hr Hst) as [Hcnt Hall].
    assert (forall c q, chunks d !! c = Some q ->
      ck_object_id (reparented o (renumbering d u) c q) = Some o' <-> ck_object_id q = Some o') as Hid.
    { intros c q Hq. unfold reparented. destruct (position_in _ _) eqn:Hp; [|done]. simpl.
      apply position_in_Some, renumbering_elem in Hp as (q'&Hq'&_&[pid Hpid]).
      rewrite Hq in Hq'. injection Hq' as <-. split; [congruence|]. intros Hq'.
      rewrite (Hown c q Hq) in Hpid; [done|]. by rewrite Hq'. }
    split.
    + rewrite <-Hcnt. apply count_where_ext. intros c. simpl.
      setoid_rewrite lookup_reparented. split.
      * intros (w&(q&Hq&->)&Hw). exists q. split; [done|]. by apply (Hid c q).
      * intros (q&Hq&Hw). eexists. split; [eauto|]. by apply (Hid c q).
    + intros c ch (q&Hq&->)%lookup_reparented Hw. apply (Hid c q Hq) in Hw.
      rewrite <-(Hall c q Hq Hw). unfold reparented. by destruct (position_in _ _).
Qed.

Lemma reparent_counts o u d n d' :
  (forall c ch, chunks d !! c = Some ch -> ck_object_id ch <> Some o) ->
  reparent_chunks o u d = Ok (n, d') ->
  object_chunk_count d' o = n /\ object_committed_count d' o = n.
Proof.
  intros Hno [-> ->]%reparent_chunks_ok.
  set (l := renumbering d u).
  assert (forall c q, chunks d !! c = Some q ->
    (ck_object_id (reparented o l c q) = Some o <-> c ∈ l) /\
    (c ∈ l -> ck_state (reparented o l c q) = ChunkCommitted)) as Hid.
  { intros c q Hq. unfold reparented. destruct (position_in l c) eqn:Hp; simpl.
    - apply position_in_Some in Hp. split; [done|]. intros _.
      apply renumbering_elem in Hp as (q'&Hq'&Hst&_). congruence.
    - apply position_in_None in Hp. split; [|done]. split; [|done].
      intros Heq. by destruct (Hno c q Hq). }
  assert (length l = size (list_to_set l : gset N)) as ->.
  { rewrite size_list_to_set; [done|]. apply NoDup_renumbering. }
  unfold object_chunk_count, object_committed_count, count_where. simpl.
  rewrite <-!(size_dom (D:=gset N)). split; f_equal; f_equal; apply set_eq; intros c;
    rewrite elem_of_dom, elem_of_list_to_set; split.
  - intros [ch [(q&Hq&->)%lookup_reparented Hw]%map_lookup_filter_Some]. by apply (Hid c q).
  - intros Hc. destruct (renumbering_elem d u c Hc) as (q&Hq&_). eexists.
    apply map_lookup_filter_Some. split; [by apply lookup_reparented; eauto|]. by apply (Hid c q).
  - intros [ch [(q&Hq&->)%lookup_reparented [Hw _]]%map_lookup_filter_Some]. by apply (Hid c q).
  - intros Hc. destruct (renumbering_elem d u c Hc) as (q&Hq&_). eexists.
    apply map_lookup_filter_Some. split; [by apply lookup_reparented; eauto|].
    split; by apply (Hid c q).
Qed.

Hint Resolve complete_enqueueObjectChunkDeletions complete_supersede : frames.

Lemma complete_enqueuePartChunkDeletions now u :
  tx_keeps complete_ok (enqueuePartChunkDeletions now u).
Proof. unfold enqueuePartChunkDeletions, enqueue_deletions_for. preserve. Qed.
Hint Resolve complete_enqueuePartChunkDeletions : frames.

Lemma complete_orphan_upload_chunks (d0 : db) u f :
  (forall r, ck_object_id (f r) = ck_object_id r /\ ck_part_id (f r) = ck_part_id r) ->
  tx_keeps complete_ok (update_chunks (fun _ c =>
    (ck_part_id c ≫= fun p => mp_upload_id <$> multipart_parts d0 !! p) = Some u) f).
Proof.
  intros Hf. apply complete_update_part_chunks; [|done].
  intros _ r. destruct (ck_part_id r); simpl; [by eauto|done].
Qed.

Lemma complete_CompleteMultipartUpload fresh now u expected d r d' :
  schema_ok d -> complete_ok d ->
  CompleteMultipartUpload sha256 fresh now u expected d = (r, d') -> complete_ok d'.
Proof.
  intros Hsch Hd Hrun. unfold CompleteMultipartUpload, inTx in Hrun.
  destruct (CompleteMultipartUpload_tx _ _ _ _ _ d) as [[obj dn]|e] eqn:Hr; simplify_eq; [|done].
  unfold CompleteMultipartUpload_tx in Hr.
  apply tx_bind_ok in Hr as (row&d1&[-> ->]%gets_ok&Hr).
  destruct (multipart_uploads d !! u) as [up|]; [|by tx_inv Hr].
  apply tx_bind_ok in Hr as ([]&d1&[_ ->]%require_ok&Hr).
  apply tx_bind_ok in Hr as (ps&d1&[-> ->]%gets_ok&Hr).
  do 3 apply tx_bind_ok in Hr as ([]&d1&[_ ->]%require_ok&Hr).
  apply tx_bind_ok in Hr as (v&d1&[-> ->]%gets_ok&Hr).
  apply tx_bind_ok in Hr as ([]&d1&Hins&Hr).
  apply tx_bind_ok in Hr as (n&d2&Hrep&Hr).
  apply tx_bind_ok in Hr as ([]&d3&[Hn%bool_decide_eq_true ->]%require_ok&Hr).
  apply tx_bind_ok in Hr as ([]&d3&Hsup&Hr).
  apply tx_bind_ok in Hr as (n4&d4&Hpro&Hr).
  assert (complete_ok d1) as H1 by (eapply complete_insert_object; [|exact Hd|exact Hins]; done).
  pose proof Hins as [Hfresh ->]%insert_object_ok.
  assert (complete_ok d2) as H2.
  { eapply complete_reparent; [exact H1| |exact Hrep]. simpl. intros r.
    rewrite lookup_insert_eq. by intros [= <-]. }
  assert (complete_ok d4) as H4.
  { eapply complete_promote; [| | |exact Hpro]; [by eapply complete_supersede| |].
    all: assert (view_of d2 fresh d3) as [Hsh _] by (eapply view_supersede; [|exact Hsup]; done).
    all: apply (counts_shape d2 d3 fresh) in Hsh as [Hs1 Hs2]; rewrite ?Hs1, ?Hs2, <-Hn.
    all: eapply reparent_counts; [|exact Hrep]; simpl; intros c ch Hc Ho.
    all: destruct (so_chunk_object _ Hsch c ch Hc fresh Ho); congruence. }
  apply tx_bind_ok in Hr as ([]&d5&H5&Hr).
  apply tx_bind_ok in Hr as (dd&d6&[-> ->]%gets_ok&Hr).
  apply tx_bind_ok in Hr as (n6&d6&H6&Hr).
  apply tx_bind_ok in Hr as (n7&d7&H7&[-> ->]%tx_ret_ok).
  eapply (frame_update_uploads complete_ok); [apply complete_put_uploads| |exact H7].
  eapply complete_orphan_upload_chunks; [| |exact H6]; [done|].
  by eapply complete_enqueuePartChunkDeletions.
Qed.

(** ** Purges *)

(** Deleting chunks none of which belongs to a surviving COMPLETE object. *)
Lemma complete_cascade_chunks P `{!forall k v, Decision (P k v)} d :
  (forall c ch o r, chunks d !! c = Some ch -> P c ch -> ck_object_id ch = Some o ->
     objects d !! o = Some r -> ob_state r <> ObjectComplete) ->
  complete_ok d -> complete_ok (cascade_chunks P d).
Proof.
  intros HP [Hown Hse]. split; simpl.
  - intros c ch [Hc _]%lookup_delete_where_Some. by eapply Hown.
  - intros o r Hr Hst. destruct (Hse o r Hr Hst) as [Hcnt Hall]. split.
    + rewrite <-Hcnt. apply count_where_ext. intros c. simpl.
      setoid_rewrite lookup_delete_where_Some. split; intros (ch&Hc&Ho).
      * exists ch. tauto.
      * exists ch. split; [|done]. split; [done|]. intros Hp. by eapply HP.
    + intros c ch [Hc _]%lookup_delete_where_Some. by eapply Hall.
Qed.

Lemma complete_PurgeReclaimedChunks limit : op_keeps complete_ok (PurgeReclaimedChunks limit).
Proof.
  apply op_keeps_inTx. intros d x d' Hd Hr.
  apply tx_bind_ok in Hr as (dd&d1&[-> ->]%gets_ok&Hr).
  apply tx_bind_ok in Hr as (cs&d1&(_&->&->)%limit_rows_ok&Hr).
  set (dead := scan (rows_where _ (chunks d))) in *.
  apply tx_bind_ok in Hr as (n1&d1&Hdc&Hr).
  apply tx_bind_ok in Hr as (dd&d2&[-> ->]%gets_ok&Hr).
  apply tx_bind_ok in Hr as (os&d2&(_&->&->)%limit_rows_ok&Hr).
  set (gone := scan (rows_where _ (objects d1))) in *.
  apply tx_bind_ok in Hr as (n2&d2&Hdo&[-> ->]%tx_ret_ok).
  assert (complete_ok d1) as H1.
  { unfold delete_chunks in Hdc. tx_inv Hdc. apply complete_cascade_chunks; [|done].
    intros c ch o r Hc Hin Ho Hor Hst.
    apply list_elem_of_fmap in Hin as ([c' ch']&->&Hin). apply elem_of_take in Hin as (j&Hin&_).
    apply list_elem_of_lookup_2 in Hin. unfold dead in Hin. rewrite scan_perm in Hin.
    apply elem_of_rows_where in Hin as [Hc' [Horph _]]. simpl in Hc.
    rewrite Hc in Hc'. injection Hc' as <-.
    destruct (co_sealed _ Hd o r Hor Hst) as [_ Hall]. rewrite (Hall _ ch Hc Ho) in Horph. done. }
  unfold delete_objects in Hdo. tx_inv Hdo. unfold cascade_objects.
  apply complete_cascade_chunks.
  - simpl. intros c ch o r Hc Hdang Ho Hor. rewrite Ho in Hdang. simpl in Hdang. congruence.
  - destruct H1 as [Hown Hse]. split; simpl; [exact Hown|].
    intros o r [Hr _]%lookup_delete_where_Some. by eapply Hse.
Qed.

Lemma complete_PurgeCompletedMultipartUploads now older limit :
  op_keeps complete_ok (PurgeCompletedMultipartUploads now older limit).
Proof.
  unfold PurgeCompletedMultipartUploads. preserve.
  intros d n d' Hd Hr. unfold delete_uploads in Hr. tx_inv Hr. unfold cascade_uploads.
  apply complete_cascade_chunks; [|by destruct Hd].
  simpl. intros c ch o r Hc Hdang Ho. rewrite (co_owner _ Hd c ch Hc) in Hdang by eauto. done.
Qed.

Lemma complete_orphanPartChunks now p : tx_keeps complete_ok (orphanPartChunks now p).
Proof.
  unfold orphanPartChunks, enqueue_deletions_for. preserve.
  apply complete_update_part_chunks; [|done]. intros _ r Hr. rewrite Hr. by eauto.
Qed.
Lemma complete_AbortMultipartUpload now u : op_keeps complete_ok (AbortMultipartUpload now u).
Proof.
  unfold AbortMultipartUpload. preserve. by apply complete_orphan_upload_chunks.
Qed.
Lemma complete_verify : op_keeps complete_ok VerifyDurabilityCounters.
Proof.
  apply op_keeps_inTx. intros d n d' Hd Hr. tx_inv Hr.
  match goal with Hp : put_chunks _ _ = _ |- _ => apply put_chunks_ok in Hp as (_&_&_&_&_&->) end.
  eapply complete_ok_shape; [| |exact Hd]; [|done].
  intros c. simpl. rewrite map_lookup_imap. destruct (chunks d !! c) as [r|]; [|done].
  simpl. unfold recounted. by case_decide.
Qed.
Hint Resolve complete_AbortUpload complete_ReapStaleUploads complete_ReserveChunk
  complete_CompleteUpload complete_PurgeReclaimedChunks complete_orphanPartChunks
  complete_PurgeCompletedMultipartUploads complete_AbortMultipartUpload complete_verify : frames.

Lemma complete_AllocateChunk fresh now owner index size targets :
  op_keeps complete_ok (AllocateChunk fresh now owner index size targets).
Proof. unfold AllocateChunk, RecordChunkTargets. preserve. Qed.
Lemma complete_BeginPart fresh now u n : op_keeps complete_ok (BeginPart fresh now u n).
Proof. unfold BeginPart. preserve. Qed.
Hint Resolve complete_AllocateChunk complete_BeginPart : frames.

Lemma exec_complete c d : schema_ok d -> complete_ok d -> complete_ok (exec sha256 c d).
Proof.
  intros Hs Hd. destruct c; simpl;
    lazymatch goal with
    | |- complete_ok (CompleteMultipartUpload _ _ _ _ _ _).2 => idtac
    | |- _ => eapply op_keeps_snd; [|exact Hd]; first [solve [auto with frames] | preserve_op]
    end.
  destruct (CompleteMultipartUpload sha256 fresh now uploadID expected d) as [r d'] eqn:Hr.
  by eapply complete_CompleteMultipartUpload.
Qed.

Lemma reachable_complete d : reachable sha256 d -> complete_ok d.
Proof.
  intros Hr. assert (schema_ok d /\ complete_ok d) as [_ ?]; [|done].
  revert d Hr. apply reachable_invariant.
  - split; [apply empty_db_schema|]. split; intros ??; simpl; rewrite lookup_empty; done.
  - intros c d [H1 H2]. split; [by apply exec_schema|by apply exec_complete].
Qed.
End operations.

(** C6: in every reachable state a COMPLETE object owns exactly [chunk_count]
    chunks and every one of them is COMMITTED: no sequence of uploads, aborts,
    overwrites, repairs, multipart assemblies, reaps and purges leaves a
    visible object with a missing or uncommitted chunk. *)
Theorem complete_objects_have_no_holes `{PG : !Postgres} (sha256 : string -> string)
    (d : db) (o : N) (r : object_row) :
  reachable sha256 d -> objects d !! o = Some r -> ob_state r = ObjectComplete ->
  object_chunk_count d o = ob_chunk_count r /\
  object_committed_count d o = ob_chunk_count r /\
  forall c ch, chunks d !! c = Some ch -> ck_object_id ch = Some o -> ck_state ch = ChunkCommitted.
Proof.
  intros Hr Ho Hst. apply reachable_complete in Hr.
  destruct (co_sealed _ Hr o r Ho Hst) as [Hcnt Hall]. split; [done|]. split; [|done].
  rewrite <-Hcnt. apply count_where_ext. intros c. split; intros (ch&Hc&?).
  - exists ch. naive_solver.
  - exists ch. split; [done|]. split; [done|]. by eapply Hall.
Qed.

Lemma complete_objects_have_no_holes_witness :
  objects sample_db !! 10%N <> None /\
  forall r, objects sample_db !! 10%N = Some r ->
    object_chunk_count sample_db 10 = ob_chunk_count r.
Proof.
  split; [vm_compute; discriminate|]. intros r Hr.
  assert (ob_state r = ObjectComplete) as Hst.
  { revert Hr. vm_compute. intros [= <-]. reflexivity. }
  exact (proj1 (complete_objects_have_no_holes (PG:=c_locale) (fun s => s) sample_db 10 r
                  sample_reachable Hr Hst)).
Defined.
