(* ===== verification/Reads.v ===== *)
(** * The read path of the metadata store

    What [GetObject] returns (src/internal/metadata/objects.go, chunks.go): the
    grouping loop over the ordered join produces one entry per chunk, in index
    order, with exactly the readable replicas. *)

From stdpp Require Import gmap strings list sorting.
From S2P Require Import Prelude Sql Schema Statements Chunks Frames Objects Nodes Repair Gc Reconcile Multipart Store ChunkInv CompleteInv.

(** A chunk that can be read right now. *)
Definition readable_replica (d : db) (c : N) (n : string) : Prop :=
  (cr_state <$> chunk_replicas d !! (c, n)) = Some ReplicaAvailable /\
  exists nd, storage_nodes d !! n = Some nd /\ sn_health nd <> DEAD.
Definition readable (d : db) (c : N) : Prop := exists n, readable_replica d c n.

(** The same as a search of the replica table. *)
Definition readable_entry (d : db) (c : N) (k : N * string) (r : replica_row) : Prop :=
  k.1 = c /\ cr_state r = ReplicaAvailable /\
  match storage_nodes d !! k.2 with Some nd => sn_health nd <> DEAD | None => False end.
#[export] Instance readable_entry_dec d c k r : Decision (readable_entry d c k r).
Proof. unfold readable_entry. destruct (storage_nodes d !! k.2); apply _. Defined.

Lemma readable_search d c : readable d c <-> map_Exists (readable_entry d c) (chunk_replicas d).
Proof.
  unfold readable, readable_replica, readable_entry. split.
  - intros (n&(r&Hr&Hst)%fmap_Some&nd&Hnd&Hh). exists (c, n), r. simpl. rewrite Hnd. auto.
  - intros ([c' n]&r&Hr&Hc&Hst&Hn). simpl in *. subst c'. exists n. rewrite Hr. simpl.
    split; [congruence|]. destruct (storage_nodes d !! n) as [nd|]; [eauto|done].
Qed.
#[export] Instance readable_dec d c : Decision (readable d c).
Proof.
  refine (cast_if (decide (map_Exists (readable_entry d c) (chunk_replicas d))));
    by rewrite readable_search.
Defined.

(** ** The join *)

Lemma elem_of_replica_rows d c n r :
  (n, r) ∈ replica_rows_of d c <-> chunk_replicas d !! (c, n) = Some r.
Proof.
  unfold replica_rows_of. rewrite list_elem_of_fmap. split.
  - intros ([[c' n'] r']&[= -> ->]&Hin). apply elem_of_rows_where in Hin as [Hl Hc].
    simpl in Hc. by subst.
  - intros Hl. exists ((c, n), r). split; [done|]. by apply elem_of_rows_where.
Qed.

Lemma elem_of_left_join d cs j :
  j ∈ left_join d cs -> (jr_chunk j, jr_row j) ∈ cs /\
  match jr_replica j with
  | None => True
  | Some (n, r) => chunk_replicas d !! (jr_chunk j, n) = Some r /\ jr_node j = storage_nodes d !! n
  end.
Proof.
  unfold left_join. rewrite list_elem_of_bind. intros ([c ch]&Hj&Hin).
  cbn [fst snd] in Hj. destruct (replica_rows_of d c) as [|kr rs] eqn:Hrs.
  - apply list_elem_of_singleton in Hj as ->. done.
  - rewrite <-Hrs in Hj. apply list_elem_of_fmap in Hj as ([n r]&->&Hnr). simpl. split; [done|]. split; [|done].
    by apply elem_of_replica_rows.
Qed.

Lemma left_join_replica d cs c ch n r :
  (c, ch) ∈ cs -> chunk_replicas d !! (c, n) = Some r ->
  mkJoin c ch (Some (n, r)) (storage_nodes d !! n) ∈ left_join d cs.
Proof.
  intros Hin Hr. unfold left_join. apply list_elem_of_bind. exists (c, ch). split; [|done].
  apply elem_of_replica_rows in Hr. cbn [fst snd].
  destruct (replica_rows_of d c) as [|kr rs] eqn:Hrs; [set_solver|]. rewrite <-Hrs in *.
  apply list_elem_of_fmap. by exists (n, r).
Qed.

(** ** Order *)

Section order.
Context `{PG : !Postgres}.

#[export] Instance null_last_le_total : Total null_last_le.
Proof. intros [x|] [y|]; simpl; auto. apply (total text_le). Qed.
#[export] Instance null_last_le_trans : Transitive null_last_le.
Proof. intros [x|] [y|] [z|]; simpl; try done. apply (transitivity (R:=text_le)). Qed.
#[export] Instance join_le_total : Total join_le.
Proof.
  intros a b. unfold join_le.
  destruct (Z.lt_total (ck_chunk_index (jr_row a)) (ck_chunk_index (jr_row b))) as [|[|]]; auto.
  destruct (total null_last_le (fst <$> jr_replica a) (fst <$> jr_replica b)); auto.
Qed.
#[export] Instance join_le_trans : Transitive join_le.
Proof.
  intros a b c. unfold join_le. intros [?|[? ?]] [?|[? ?]]; [left; lia..|].
  right. split; [congruence|]. by etrans.
Qed.
End order.

(** ** The grouping loop *)

Definition jidx (j : join_row) : Z := ck_chunk_index (jr_row j).

Definition views_of (c : N) (js : list join_row) : list Replica :=
  filter (fun j => jr_chunk j = c) js ≫= replica_view.

Lemma views_of_cons_eq j js : views_of (jr_chunk j) (j :: js) = replica_view j ++ views_of (jr_chunk j) js.
Proof. unfold views_of. rewrite filter_cons_True by done. done. Qed.
Lemma views_of_cons_ne c j js : jr_chunk j <> c -> views_of c (j :: js) = views_of c js.
Proof. intros. unfold views_of. by rewrite filter_cons_False. Qed.
Lemma views_of_none c js : (forall j, j ∈ js -> jr_chunk j <> c) -> views_of c js = [].
Proof.
  induction js as [|j js IH]; intros Hn; [done|].
  rewrite views_of_cons_ne by (apply Hn; set_solver). apply IH. set_solver.
Qed.

Definition with_replicas (j : join_row) (rs : list Replica) : ChunkWithReplicas :=
  mkChunkView (jr_chunk j) (ck_chunk_index (jr_row j)) (ck_size_bytes (jr_row j))
    (nullString (ck_checksum_sha256 (jr_row j))) (ck_state (jr_row j))
    (ck_committed_at (jr_row j)) rs.

(** Rows of one owner: ordered by position, and the position determines the
    chunk. *)
Record ordered_rows (js : list join_row) : Prop := {
  or_sorted : StronglySorted (fun a b => (jidx a <= jidx b)%Z) js;
  or_determine : forall a b, a ∈ js -> b ∈ js -> (jidx a = jidx b <-> jr_chunk a = jr_chunk b)
}.

Lemma ordered_rows_cons j js :
  ordered_rows (j :: js) -> ordered_rows js /\ forall a, a ∈ js -> (jidx j <= jidx a)%Z.
Proof.
  intros [Hs Hd]. apply StronglySorted_inv in Hs as [Hs Hall]. split.
  - split; [done|]. intros a b Ha Hb. apply Hd; set_solver.
  - intros a Ha. rewrite Forall_forall in Hall. by apply Hall.
Qed.

(** The loop from a current chunk: the current chunk collects its rows, every
    other chunk gets exactly one entry with all of its rows, and entries come
    out in strictly increasing position. *)
Lemma group_rows_spec cur js :
  ordered_rows js ->
  (forall j, j ∈ js -> (cw_index cur <= jidx j)%Z /\
                       (jidx j = cw_index cur <-> jr_chunk j = cw_id cur)) ->
  exists rest,
    group_rows cur js =
      mkChunkView (cw_id cur) (cw_index cur) (cw_size_bytes cur) (cw_checksum cur) (cw_state cur)
        (cw_committed_at cur) (cw_replicas cur ++ views_of (cw_id cur) js) :: rest /\
    StronglySorted Z.lt (cw_index cur :: (cw_index <$> rest)) /\
    (forall x, x ∈ rest -> exists j, j ∈ js /\ jr_chunk j <> cw_id cur /\
       x = with_replicas j (views_of (jr_chunk j) js)) /\
    (forall j, j ∈ js -> jr_chunk j <> cw_id cur -> jr_chunk j ∈ cw_id <$> rest).
Proof.
  revert cur. induction js as [|j js IH]; intros cur Hord Hcur.
  - exists []. split_and!; try set_solver.
    + simpl. unfold views_of. simpl. rewrite app_nil_r. by destruct cur.
    + repeat constructor.
  - apply ordered_rows_cons in Hord as Hord'. destruct Hord' as [Hjs Hle]. simpl.
    case_bool_decide as Heq.
    + destruct (IH (mkChunkView (cw_id cur) (cw_index cur) (cw_size_bytes cur) (cw_checksum cur)
                (cw_state cur) (cw_committed_at cur) (cw_replicas cur ++ replica_view j)))
        as (rest&Hg&Hs&Hx&Hc); [done|set_solver|]. simpl in *.
      exists rest. split_and!; [|done| |].
      * rewrite Hg, <-Heq, views_of_cons_eq, app_assoc. done.
      * intros x (j'&Hj'&Hne&->)%Hx. exists j'. split_and!; [set_solver|done|].
        by rewrite views_of_cons_ne by congruence.
      * intros j' [->|Hj']%elem_of_cons Hne; [done|]. by apply Hc.
    + assert (cw_index cur < jidx j)%Z as Hlt.
      { destruct (Hcur j) as [H1 H2]; [set_solver|]. assert (jidx j <> cw_index cur) by tauto. lia. }
      destruct (IH (chunk_view j)) as (rest&Hg&Hs&Hx&Hc); [done| |].
      { intros j' Hj'. split; [by apply Hle|]. simpl. apply Hord; set_solver. }
      simpl in *. eexists. split_and!.
      * rewrite views_of_none; [rewrite app_nil_r; by destruct cur|].
        intros j' [->|Hj']%elem_of_cons; [done|]. specialize (Hle j' Hj').
        destruct (Hcur j') as [_ H2]; [set_solver|]. intros H3%H2. lia.
      * rewrite Hg. simpl. constructor; [done|]. apply StronglySorted_inv in Hs as [_ Hall].
        constructor; [done|]. eapply Forall_impl; [exact Hall|]. simpl. unfold jidx in *. lia.
      * rewrite Hg. intros x [->|(j'&Hj'&Hne&->)%Hx]%elem_of_cons.
        -- exists j. split_and!; [set_solver|done|]. unfold with_replicas.
           by rewrite views_of_cons_eq.
        -- exists j'. split_and!; [set_solver| |].
           ++ specialize (Hle j' Hj'). destruct (Hcur j') as [_ H2]; [set_solver|].
              intros H3%H2. lia.
           ++ by rewrite views_of_cons_ne by congruence.
      * rewrite Hg. simpl. intros j' [->|Hj']%elem_of_cons Hne; [set_solver|].
        destruct (decide (jr_chunk j' = jr_chunk j)) as [->|Hne']; [set_solver|].
        apply elem_of_cons. right. by apply Hc.
Qed.

Lemma group_all_spec js :
  ordered_rows js ->
  StronglySorted Z.lt (cw_index <$> group_all js) /\
  (forall x, x ∈ group_all js -> exists j, j ∈ js /\ x = with_replicas j (views_of (jr_chunk j) js)) /\
  (forall j, j ∈ js -> jr_chunk j ∈ cw_id <$> group_all js).
Proof.
  destruct js as [|j js]; intros Hord.
  - split_and!; try set_solver. constructor.
  - apply ordered_rows_cons in Hord as Hord'. destruct Hord' as [Hjs Hle]. simpl.
    destruct (group_rows_spec (chunk_view j) js Hjs) as (rest&->&Hs&Hx&Hc).
    { intros j' Hj'. split; [by apply Hle|]. simpl. apply Hord; set_solver. }
    simpl in *. split_and!; [done| |].
    + intros x [->|(j'&Hj'&Hne&->)%Hx]%elem_of_cons.
      * exists j. split; [set_solver|]. unfold with_replicas. by rewrite views_of_cons_eq.
      * exists j'. split; [set_solver|]. by rewrite views_of_cons_ne by congruence.
    + intros j' [->|Hj']%elem_of_cons; [set_solver|].
      destruct (decide (jr_chunk j' = jr_chunk j)) as [->|Hne']; [set_solver|].
      apply elem_of_cons. right. by apply Hc.
Qed.

(** ** The projection of one owner's chunks *)

Section projection.
Context `{PG : !Postgres}.
Context (P : N -> chunk_row -> Prop) `{!forall k v, Decision (P k v)} (d : db).
Hypothesis Hdet : forall c1 r1 c2 r2,
  chunks d !! c1 = Some r1 -> chunks d !! c2 = Some r2 -> P c1 r1 -> P c2 r2 ->
  ck_chunk_index r1 = ck_chunk_index r2 -> c1 = c2.

Let js := order_by join_le (filter readable_row (left_join d (rows_where P (chunks d)))).

Lemma elem_of_projection j :
  j ∈ js <->
  readable_row j /\ j ∈ left_join d (rows_where P (chunks d)).
Proof.
  unfold js, order_by. rewrite merge_sort_Permutation, scan_perm. apply list_elem_of_filter.
Qed.

Lemma projection_row j :
  j ∈ js -> chunks d !! jr_chunk j = Some (jr_row j) /\ P (jr_chunk j) (jr_row j) /\
  exists n r nd, jr_replica j = Some (n, r) /\ jr_node j = Some nd /\
    chunk_replicas d !! (jr_chunk j, n) = Some r /\ storage_nodes d !! n = Some nd /\
    cr_state r = ReplicaAvailable /\ sn_health nd <> DEAD.
Proof.
  intros [Hr Hin]%elem_of_projection.
  apply elem_of_left_join in Hin as [Hin Hrep]. apply elem_of_rows_where in Hin as [Hc HP].
  split; [done|]. split; [done|].
  unfold readable_row in Hr. destruct (jr_replica j) as [[n r]|]; [|done].
  destruct (jr_node j) as [nd|]; [|done].
  destruct Hrep as [Hl Hn]. exists n, r, nd. naive_solver.
Qed.

Lemma projection_ordered : ordered_rows js.
Proof.
  split.
  - eapply StronglySorted_weaken; [|apply StronglySorted_merge_sort; apply _].
    intros a b [Hab|[Hab _]]; unfold jidx; lia.
  - intros a b Ha Hb. apply projection_row in Ha as (Ha&HPa&_), Hb as (Hb&HPb&_). split.
    + unfold jidx. by eapply Hdet.
    + intros Heq. rewrite Heq in Ha. unfold jidx. congruence.
Qed.

Lemma projection_has c ch n :
  chunks d !! c = Some ch -> P c ch -> readable_replica d c n ->
  exists r nd, mkJoin c ch (Some (n, r)) (Some nd) ∈ js /\
    chunk_replicas d !! (c, n) = Some r /\ storage_nodes d !! n = Some nd.
Proof.
  intros Hc HP [(r&Hr&Hst)%fmap_Some (nd&Hnd&Hh)]. exists r, nd. split; [|done].
  apply elem_of_projection. split; [by split|]. rewrite <-Hnd.
  apply left_join_replica; [|done]. by apply elem_of_rows_where.
Qed.

Lemma projection_views c n :
  n ∈ (rp_node_id <$> views_of c js) <-> exists ch, chunks d !! c = Some ch /\ P c ch /\ readable_replica d c n.
Proof.
  unfold views_of. rewrite list_elem_of_fmap. split.
  - intros (v&->&(j&Hv&Hj)%list_elem_of_bind). apply list_elem_of_filter in Hj as [<- Hj].
    apply projection_row in Hj as (Hc&HP&n&r&nd&Hr&Hn&Hl&Hnd&Hst&Hh).
    unfold replica_view in Hv. rewrite Hr in Hv. apply list_elem_of_singleton in Hv as ->. simpl.
    eexists. split_and!; [done|done|]. split; [by rewrite Hl; simpl; rewrite Hst|eauto].
  - intros (ch&Hc&HP&Hr). destruct (projection_has c ch n Hc HP Hr) as (r&nd&Hin&_).
    eexists. split; cycle 1.
    + apply list_elem_of_bind. exists (mkJoin c ch (Some (n, r)) (Some nd)).
      split; [|by apply list_elem_of_filter]. simpl. by apply list_elem_of_singleton.
    + done.
Qed.

Lemma chunksWhere_spec :
  StronglySorted Z.lt (cw_index <$> chunksWhere P true d) /\
  (forall c, c ∈ cw_id <$> chunksWhere P true d <->
     exists ch, chunks d !! c = Some ch /\ P c ch /\ readable d c) /\
  (forall x, x ∈ chunksWhere P true d -> exists ch,
     chunks d !! cw_id x = Some ch /\ P (cw_id x) ch /\
     cw_index x = ck_chunk_index ch /\ cw_size_bytes x = ck_size_bytes ch /\
     cw_checksum x = nullString (ck_checksum_sha256 ch) /\ cw_state x = ck_state ch /\
     forall n, n ∈ (rp_node_id <$> cw_replicas x) <-> readable_replica d (cw_id x) n).
Proof.
  destruct (group_all_spec js projection_ordered) as (Hs&Hx&Hc).
  change (chunksWhere P true d) with (group_all js). split; [done|]. split.
  - intros c. split.
    + intros (x&->&(j&Hj&->)%Hx)%list_elem_of_fmap. simpl.
      apply projection_row in Hj as (Hch&HP&n&r&nd&Hr&Hn&Hl&Hnd&Hst&Hh).
      eexists. split_and!; [done|done|]. exists n. split; [by rewrite Hl; simpl; rewrite Hst|eauto].
    + intros (ch&Hch&HP&n&Hr). destruct (projection_has c ch n Hch HP Hr) as (r&nd&Hin&_).
      by apply Hc in Hin.
  - intros x (j&Hj&->)%Hx. pose proof Hj as (Hch&HP&_)%projection_row. simpl.
    exists (jr_row j). split_and!; try done. intros n. rewrite projection_views.
    split; [naive_solver|eauto].
Qed.

(** The address of a listed replica is the one its node registered. *)
Lemma chunksWhere_addresses x v :
  x ∈ chunksWhere P true d -> v ∈ cw_replicas x ->
  exists r nd, chunk_replicas d !! (cw_id x, rp_node_id v) = Some r /\ cr_state r = ReplicaAvailable /\
    storage_nodes d !! rp_node_id v = Some nd /\ rp_address v = sn_grpc_address nd.
Proof.
  destruct (group_all_spec js projection_ordered) as (_&Hx&_).
  change (chunksWhere P true d) with (group_all js). intros (j&Hj&->)%Hx. simpl. unfold views_of.
  intros (j'&Hv&Hj')%list_elem_of_bind. apply list_elem_of_filter in Hj' as [Hc Hj'].
  apply projection_row in Hj' as (_&_&n&r&nd&Hr&Hn&Hl&Hnd&Hst&_). unfold replica_view in Hv. rewrite Hr, Hn in Hv.
  apply list_elem_of_singleton in Hv as ->. simpl. rewrite <-Hc. exists r, nd. by split_and!.
Qed.
End projection.

(** ** GetObject *)

Section get.
Context `{PG : !Postgres}.

Lemma owner_positions d o :
  schema_ok d -> forall c1 r1 c2 r2,
  chunks d !! c1 = Some r1 -> chunks d !! c2 = Some r2 ->
  ck_object_id r1 = Some o /\ ck_state r1 = ChunkCommitted ->
  ck_object_id r2 = Some o /\ ck_state r2 = ChunkCommitted ->
  ck_chunk_index r1 = ck_chunk_index r2 -> c1 = c2.
Proof.
  intros Hs c1 r1 c2 r2 H1 H2 [Ho1 _] [Ho2 _] Hi.
  apply (proj1 (unique_on_spec _ _ _) (so_chunk_object_idx _ Hs) c1 r1 c2 r2 H1 H2);
    [by rewrite Ho1|by rewrite Ho2|congruence].
Qed.

(** The number of entries is the object's chunk count exactly when every chunk
    of the object is readable. *)
Lemma chunks_listed_iff d o :
  schema_ok d ->
  (forall c ch, chunks d !! c = Some ch -> ck_object_id ch = Some o -> ck_state ch = ChunkCommitted) ->
  Z.of_nat (length (ChunksForObject o true d)) = object_chunk_count d o <->
  forall c ch, chunks d !! c = Some ch -> ck_object_id ch = Some o -> readable d c.
Proof.
  intros Hs Hall.
  destruct (chunksWhere_spec _ d (owner_positions d o Hs)) as (Hsort&Hids&Hx).
  fold (ChunksForObject o true d) in Hsort, Hids, Hx.
  set (ids := cw_id <$> ChunksForObject o true d) in *.
  assert (NoDup ids) as Hnd.
  { clear Hids. unfold ids. clear ids. revert Hsort Hx.
    induction (ChunksForObject o true d) as [|x xs IH]; intros Hsort Hx; [constructor|].
    simpl in *. apply StronglySorted_inv in Hsort as [Hsort Hlt].
    apply NoDup_cons. split; cycle 1.
    { apply IH; [done|]. intros y Hy. apply Hx, elem_of_cons. by right. }
    intros (y&Heq&Hy)%list_elem_of_fmap. rewrite Forall_forall in Hlt.
    specialize (Hlt (cw_index y)). destruct (Hx x) as (ch&Hch&_&Hix&_); [by left|].
    destruct (Hx y) as (ch'&Hch'&_&Hiy&_); [by right|].
    rewrite Heq, Hch' in Hch. injection Hch as ->.
    assert (cw_index x < cw_index y)%Z; [|lia]. apply Hlt. apply list_elem_of_fmap. eauto. }
  set (own := dom (filter (fun kv => ck_object_id kv.2 = Some o) (chunks d)) : gset N).
  assert (forall c, c ∈ own <-> exists ch, chunks d !! c = Some ch /\ ck_object_id ch = Some o) as Hown.
  { intros c. unfold own. rewrite elem_of_dom. split.
    - intros [ch [Hc Ho]%map_lookup_filter_Some]. eauto.
    - intros (ch&Hc&Ho). exists ch. by apply map_lookup_filter_Some. }
  assert (object_chunk_count d o = Z.of_nat (size own)) as ->.
  { unfold object_chunk_count, count_where, own. by rewrite size_dom. }
  assert (length (ChunksForObject o true d) = size (list_to_set ids : gset N)) as ->.
  { rewrite size_list_to_set by done. unfold ids. by rewrite length_fmap. }
  assert (list_to_set ids ⊆ own) as Hsub.
  { intros c. rewrite elem_of_list_to_set, Hids, Hown. naive_solver. }
  split.
  - intros Heq c ch Hc Ho.
    assert (list_to_set ids = own) as Hset by (apply set_subseteq_size_eq; [done|lia]).
    assert (c ∈ own) as Hin by (apply Hown; eauto).
    rewrite <-Hset, elem_of_list_to_set, Hids in Hin. naive_solver.
  - intros Hread. f_equal. f_equal. apply (anti_symm (⊆)); [done|].
    intros c. rewrite elem_of_list_to_set, Hids, Hown. intros (ch&Hc&Ho).
    exists ch. split_and!; eauto.
Qed.

Lemma HeadObject_spec b k d :
  schema_ok d ->
  match HeadObject b k d with
  | (Ok obj, d') => d' = d /\ exists r, objects d !! o_ID obj = Some r /\ is_current b k r /\
                      obj = scanObject (o_ID obj) r
  | (Err e, d') => d' = d /\ e = ErrNotFound /\
                   forall o r, objects d !! o = Some r -> ~ is_current b k r
  end.
Proof.
  intros Hs. unfold HeadObject, inTx, tx_bind, gets.
  destruct (find_row _ (objects d)) as [[o r]|] eqn:Hf; simpl.
  - apply find_row_Some in Hf as [Ho Hc]. split; [done|]. by exists r.
  - split; [done|]. split; [done|]. exact (find_row_None _ _ Hf).
Qed.
End get.

(** C12: reading an object is exact on every branch. In a reachable state
    [GetObject] changes nothing; it succeeds only with the COMPLETE version of
    the key, listing every chunk of the object once, in strictly increasing
    index order, each with a valid SHA-256 and with exactly its AVAILABLE
    replicas on nodes that are not DEAD (at least one); it reports NotFound
    exactly when the key has no COMPLETE version; and it refuses with Conflict
    only when some chunk of the object has no readable replica. *)
Theorem GetObject_exact `{PG : !Postgres} (sha256 : string -> string) (d : db) (b k : string) :
  reachable sha256 d ->
  match GetObject b k d with
  | (Ok (obj, cs), d') =>
      d' = d /\
      (exists r, objects d !! o_ID obj = Some r /\ is_current b k r /\ obj = scanObject (o_ID obj) r) /\
      StronglySorted Z.lt (cw_index <$> cs) /\
      (forall c, c ∈ cw_id <$> cs <->
         exists ch, chunks d !! c = Some ch /\ ck_object_id ch = Some (o_ID obj)) /\
      (forall x, x ∈ cs -> sha256_hex (cw_checksum x) = true /\ cw_replicas x <> [] /\
         forall n, n ∈ (rp_node_id <$> cw_replicas x) <-> readable_replica d (cw_id x) n)
  | (Err ErrNotFound, d') => d' = d /\ forall o r, objects d !! o = Some r -> ~ is_current b k r
  | (Err ErrConflict, d') =>
      d' = d /\ exists o r c ch, objects d !! o = Some r /\ is_current b k r /\
        chunks d !! c = Some ch /\ ck_object_id ch = Some o /\ ~ readable d c
  | (Err _, _) => False
  end.
Proof.
  intros Hr. pose proof (reachable_schema sha256 d Hr) as Hs.
  pose proof (reachable_complete sha256 d Hr) as Hco.
  pose proof (reachable_checksums sha256 d Hr) as Hck.
  pose proof (HeadObject_spec b k d Hs) as Hh. unfold GetObject, op_bind.
  destruct (HeadObject b k d) as [[obj|e] d1]; cycle 1.
  { destruct Hh as (->&->&Hno). done. }
  destruct Hh as (->&r&Ho&Hc&Hobj). simpl.
  destruct (co_sealed _ Hco _ r Ho) as [Hcnt Hall]; [by destruct Hc as (_&_&?)|].
  pose proof (chunks_listed_iff d (o_ID obj) Hs Hall) as Hiff.
  assert (o_ChunkCount obj = object_chunk_count d (o_ID obj)) as Hoc.
  { transitivity (ob_chunk_count r); [by rewrite Hobj|done]. }
  case_bool_decide as Hlen; simpl.
  - rewrite Hoc in Hlen. pose proof (proj1 Hiff Hlen) as Hread.
    destruct (chunksWhere_spec _ d (owner_positions d (o_ID obj) Hs)) as (Hsort&Hids&Hx).
    fold (ChunksForObject (o_ID obj) true d) in Hsort, Hids, Hx.
    split_and!; [done|by exists r|done| |].
    + intros c. rewrite Hids. split; [naive_solver|]. intros (ch&Hch&Hoo).
      exists ch. split_and!; eauto.
    + intros x Hin. destruct (Hx x Hin) as (ch&Hch&[Hoo Hst]&_&_&Hsum&_&Hreps).
      split_and!; [|intros Hnil|exact Hreps].
      * rewrite Hsum. destruct (Hck _ ch Hch Hst) as [s Hsm]. rewrite Hsm. simpl.
        destruct (so_chunks _ Hs _ ch Hch) as (_&_&Hhex&_). by apply Hhex.
      * destruct (Hread _ ch Hch Hoo) as [n Hn]. apply Hreps in Hn. rewrite Hnil in Hn. set_solver.
  - rewrite Hoc in Hlen. split; [done|]. exists (o_ID obj), r.
    assert (~ map_Forall (fun c ch => ck_object_id ch = Some (o_ID obj) -> readable d c) (chunks d)) as Hnot.
    { intros Hf. apply Hlen, Hiff. intros c ch Hch Hoo. by apply (Hf c ch). }
    apply map_not_Forall in Hnot as (c&ch&Hch&Hn); [|apply _]. exists c, ch.
    split_and!; try done.
    + destruct (decide (ck_object_id ch = Some (o_ID obj))); [done|]. exfalso. apply Hn. done.
    + intros Hre. by apply Hn.
Qed.

Lemma GetObject_exact_witness :
  exists obj cs, GetObject (PG:=c_locale) "photos" "cat.jpg" sample_db = (Ok (obj, cs), sample_db) /\
    StronglySorted Z.lt (cw_index <$> cs) /\ (rp_node_id <$> (cs ≫= cw_replicas)) = ["n1"; "n3"].
Proof.
  pose proof (GetObject_exact (PG:=c_locale) (fun s => s) sample_db "photos" "cat.jpg"
                sample_reachable) as Hspec.
  destruct (GetObject (PG:=c_locale) "photos" "cat.jpg" sample_db) as [[[obj cs]|e] d'] eqn:Hg.
  - exists obj, cs. destruct Hspec as (->&_&Hsort&_). split_and!; [done|exact Hsort|].
    clear Hsort. apply (f_equal fst) in Hg. revert Hg. vm_compute. intros [= _ <-]. reflexivity.
  - apply (f_equal fst) in Hg. revert Hg. vm_compute. discriminate.
Defined.
