(* ===== verification/RepairQueue.v ===== *)
(** * The repair queue

    Claims, leases, enqueueing and completion of repair jobs
    (src/internal/metadata/repair.go): what each operation does on every branch,
    and that no job is lost in state RUNNING. *)

From stdpp Require Import gmap strings list sorting.
From S2P Require Import Prelude Sql Schema Statements Chunks Frames Runs Deletions Objects Nodes Repair Gc Reconcile Multipart Store Trim Commit ChunkInv CompleteInv Reads.

(** An UPDATE of jobs that activates none and moves none succeeds. *)
Lemma update_repairs_run P `{!forall k v, Decision (P k v)} f d :
  schema_ok d ->
  (forall k j, repair_jobs d !! k = Some j -> P k j ->
     rj_chunk_id (f j) = rj_chunk_id j /\ (repair_active (f j) -> repair_active j)) ->
  exists d', update_repairs P f d = Ok (count_where P (repair_jobs d), d') /\
    d' = d <| repair_jobs := update_where P f (repair_jobs d) |> /\ schema_ok d'.
Proof.
  intros Hs Hf. eexists.
  assert (update_repairs P f d =
    Ok (count_where P (repair_jobs d), d <| repair_jobs := update_where P f (repair_jobs d) |>)) as Hrun.
  { unfold update_repairs, update_table. unfold tx_bind at 1, gets. unfold tx_bind.
    rewrite (proj2 (put_repairs_ok _ d tt
      (d <| repair_jobs := update_where P f (repair_jobs d) |>))); [done|].
    pose proof (proj1 (unique_on_spec _ _ _) (so_repairs _ Hs)) as Hu. split_and!; [| |done].
    - apply unique_on_spec. intros k1 v1 k2 v2.
      intros (r1&Hr1&->)%lookup_update_where_Some (r2&Hr2&->)%lookup_update_where_Some.
      specialize (Hu k1 r1 k2 r2 Hr1 Hr2).
      destruct (decide (P k1 r1)) as [P1|_], (decide (P k2 r2)) as [P2|_];
        try (destruct (Hf _ _ Hr1 P1) as [-> ?]); try (destruct (Hf _ _ Hr2 P2) as [-> ?]); auto.
    - intros k r (r0&Hr0&->)%lookup_update_where_Some.
      destruct (decide (P k r0)) as [HP|_]; [destruct (Hf _ _ Hr0 HP) as [-> _]|];
        by apply (so_repair_chunk _ Hs k). }
  split_and!; [exact Hrun|done|]. by eapply keeps_update_repairs.
Qed.

(** Replacing one row, seen as an insertion. *)
Lemma update_where_one {K V} `{Countable K} (m : gmap K V) (k : K) (f : V -> V) v :
  m !! k = Some v -> update_where (fun k' _ => k' = k) f m = <[k := f v]> m.
Proof.
  intros Hk. apply map_eq. intros k'. rewrite lookup_update_where.
  destruct (decide (k' = k)) as [->|Hne].
  - by rewrite Hk, lookup_insert_eq.
  - rewrite lookup_insert_ne by done. by destruct (m !! k').
Qed.

(** The head of an ordered list is a least element. *)
Lemma order_by_head `{PG : !Postgres} {A} (R : relation A) `{!RelDecision R, !Transitive R, !Total R}
    (l : list A) a t :
  order_by R l = a :: t -> a ∈ l /\ forall b, b ∈ l -> R a b \/ a = b.
Proof.
  intros Ho. assert (order_by R l ≡ₚ l) as Hp by apply order_by_perm.
  assert (StronglySorted R (order_by R l)) as Hss by (apply StronglySorted_merge_sort; apply _).
  rewrite Ho in Hp, Hss. split; [rewrite <-Hp; by left|].
  intros b Hb. rewrite <-Hp in Hb. apply elem_of_cons in Hb as [->|Hb]; [by right|].
  apply StronglySorted_inv in Hss as [_ Hall]. rewrite Forall_forall in Hall. left. by apply Hall.
Qed.

#[export] Instance due_le_trans : Transitive due_le.
Proof. intros a b c. unfold due_le. lia. Qed.
#[export] Instance due_le_total : Total due_le.
Proof. intros a b. unfold due_le. lia. Qed.

Section queue.
Context `{PG : !Postgres}.

Lemma repair_sources_spec d c n :
  n ∈ (rp_node_id <$> repair_sources d c) <-> readable_replica d c n.
Proof.
  unfold repair_sources, order_by. rewrite <-list_fmap_compose.
  change (rp_node_id ∘ _) with (fst (A:=string) (B:=node_row)).
  rewrite merge_sort_Permutation, scan_perm, list_elem_of_fmap. unfold readable_replica. split.
  - intros ([n' nd]&->&[Hh Hin]%list_elem_of_filter). simpl in *. unfold available_nodes in Hin.
    apply list_elem_of_omap in Hin as ([[c' m] r]&Hr&Hn). apply elem_of_rows_where in Hr as [Hr [Hc Hst]].
    simpl in *. destruct (storage_nodes d !! m) as [x|] eqn:Hx; simplify_eq/=.
    rewrite Hr. simpl. rewrite Hst. eauto.
  - intros [Hst (nd&Hnd&Hh)]. apply fmap_Some in Hst as (r&Hr&Hst). exists (n, nd). split; [done|].
    apply list_elem_of_filter. split; [done|]. unfold available_nodes. apply list_elem_of_omap.
    exists ((c, n), r). split; [by apply elem_of_rows_where|]. simpl. by rewrite Hnd.
Qed.

Lemma occupancy_spec d c n :
  n ∈ (occupancy d c).*1 <-> is_Some (chunk_replicas d !! (c, n)).
Proof.
  unfold occupancy. rewrite <-list_fmap_compose, scan_perm, list_elem_of_fmap. split.
  - intros ([[c' m] r]&->&[Hr Hc]%elem_of_rows_where). simpl in *. subst. eauto.
  - intros [r Hr]. exists ((c, n), r). split; [done|]. by apply elem_of_rows_where.
Qed.
End queue.

(** C22: claiming a repair job is exact. On an integral database
    [ClaimRepairJob] takes, among the PENDING jobs whose retry time has come,
    one with the earliest time; the job becomes RUNNING under the caller's
    lease with one more attempt and nothing else changes; the sources it hands
    out are exactly the readable replicas of the chunk and the occupied nodes
    exactly those with a replica row in any state. It reports NoRepairWork
    exactly when no job is due, leaving the database as it was. *)
Theorem ClaimRepairJob_exact `{PG : !Postgres} (now : Z) (owner : string) (lease rf : Z) (d : db) :
  schema_ok d ->
  match ClaimRepairJob now owner lease rf d with
  | (Ok t, d') => exists j,
      repair_jobs d !! rt_JobID t = Some j /\ claimable now j /\ rt_ChunkID t = rj_chunk_id j /\
      (forall i q, repair_jobs d !! i = Some q -> claimable now q ->
         (rj_next_attempt_at j <= rj_next_attempt_at q)%Z) /\
      d' = d <| repair_jobs := <[rt_JobID t := claim_row now lease owner j]> (repair_jobs d) |> /\
      rt_DesiredReplicas t = Z.max 0 (rf - count_available (chunk_replicas d) (rt_ChunkID t)) /\
      (forall n, n ∈ (rp_node_id <$> rt_Sources t) <-> readable_replica d (rt_ChunkID t) n) /\
      (forall n, n ∈ rt_Occupied t <-> is_Some (chunk_replicas d !! (rt_ChunkID t, n)))
  | (Err ErrNoRepairWork, d') =>
      d' = d /\ forall i q, repair_jobs d !! i = Some q -> ~ claimable now q
  | (Err _, _) => False
  end.
Proof.
  intros Hs. unfold ClaimRepairJob, inTx, ClaimRepairJob_tx. unfold tx_bind at 1, gets at 1.
  destruct (order_by due_le _) as [|[i j] rest] eqn:Ho.
  - split; [done|]. intros i q Hq Hc.
    assert ((i, q) ∈ rows_where (fun _ j => claimable now j) (repair_jobs d)) as Hin
      by by apply elem_of_rows_where.
    rewrite <-(order_by_perm due_le), Ho in Hin.
    by apply elem_of_nil in Hin.
  - apply order_by_head in Ho as [[Hj Hcl]%elem_of_rows_where Hmin]; [|apply _..].
    destruct (update_repairs_run (fun k _ => k = i) (claim_row now lease owner) d Hs)
      as (d1&H1&Hd1&Hs1).
    { intros k q Hq ->. rewrite Hj in Hq. injection Hq as <-. split; [done|]. intros _. left. apply Hcl. }
    rewrite (update_where_one _ _ _ j Hj) in Hd1.
    destruct (so_repair_chunk _ Hs i j Hj (rj_chunk_id j) eq_refl) as [ch Hch].
    unfold tx_bind at 1. rewrite H1. unfold tx_bind at 1, gets at 1.
    assert (chunks d1 !! rj_chunk_id j = Some ch) as Hch1 by (by rewrite Hd1). rewrite Hch1.
    unfold tx_bind, gets, tx_ret. simpl. exists j. split_and!; try done.
    + intros i' q Hq Hcq. destruct (Hmin (i', q)) as [Hle|[= -> ->]]; [by apply elem_of_rows_where| |lia].
      unfold due_le in Hle. simpl in Hle. lia.
    + by rewrite (so_counters _ Hs _ ch Hch).
    + intros n. rewrite repair_sources_spec. by rewrite Hd1.
    + intros n. rewrite occupancy_spec. by rewrite Hd1.
Qed.

Lemma ClaimRepairJob_exact_witness :
  exists t d', ClaimRepairJob (PG:=c_locale) 8 "coordinator" 60 2
      (run_trace (PG:=c_locale) (fun s => s) (sample_cluster ++ sample_upload ++ take 2 sample_repair) empty_db)
      = (Ok t, d') /\ rt_JobID t = 1%Z /\ (rp_node_id <$> rt_Sources t) = ["n1"] /\ rt_DesiredReplicas t = 1%Z.
Proof.
  set (d := run_trace _ _ _).
  assert (schema_ok d) as Hs.
  { apply (reachable_schema (PG:=c_locale) (fun s => s)), reachable_trace. constructor. }
  pose proof (ClaimRepairJob_exact (PG:=c_locale) 8 "coordinator" 60 2 d Hs) as Hspec.
  destruct (ClaimRepairJob (PG:=c_locale) 8 "coordinator" 60 2 d) as [[t|e] d'] eqn:Hc.
  - exists t, d'. split; [reflexivity|]. destruct Hspec as (j&_&_&_&_&_&Hdes&_).
    apply (f_equal fst) in Hc. revert Hc Hdes. vm_compute. intros [= <-] Hdes.
    split; [reflexivity|]. split; [reflexivity|exact Hdes].
  - apply (f_equal fst) in Hc. revert Hc. vm_compute. discriminate.
Defined.
