(* ===== verification/RepairOps.v ===== *)
(** * Repair outcomes, corruption reports and dead nodes

    CompleteRepair, MarkReplicaCorrupt, RequeueFailedRepairs
    (src/internal/metadata/repair.go) and the demotion of a dead node's replicas
    (src/internal/metadata/nodes.go). *)

From stdpp Require Import gmap strings list sorting.
From S2P Require Import Prelude Sql Schema Statements Chunks Frames Runs Deletions Objects Nodes Repair Gc Reconcile Multipart Store Trim Commit ChunkInv CompleteInv Reads RepairQueue.

(** What a successful repair leaves on the target. *)
Definition repaired_row (now : Z) (old : option replica_row) : replica_row :=
  match old with
  | Some r => r <| cr_state := ReplicaAvailable |> <| cr_updated_at := now |>
                <| cr_verified_at := Some now |> <| cr_last_error := None |>
  | None => mkReplica ReplicaAvailable now now (Some now) None
  end.

Definition is_available (r : option replica_row) : bool :=
  bool_decide (cr_state <$> r = Some ReplicaAvailable).

(** The count of one chunk moves with one replica. *)
Lemma counted_is_available (c : N) (n : string) r :
  (if decide ((c, n).1 = c /\ cr_state r = ReplicaAvailable) then 1 else 0)%Z =
  Z.b2z (is_available (Some r)).
Proof.
  unfold is_available. simpl. destruct (decide (cr_state r = ReplicaAvailable)) as [E|E].
  - by rewrite decide_True, E.
  - rewrite decide_False by tauto. rewrite bool_decide_false; [done|]. congruence.
Qed.
Lemma count_available_replace (m : gmap (N * string) replica_row) c n r :
  count_available (<[(c, n) := r]> m) c =
  (count_available m c - Z.b2z (is_available (m !! (c, n))) + Z.b2z (is_available (Some r)))%Z.
Proof.
  unfold count_available. rewrite count_where_insert, counted_is_available.
  f_equal. f_equal. destruct (m !! (c, n)) as [w|]; [|done]. apply counted_is_available.
Qed.

(** Only the replica on [n] changes and it ends up not AVAILABLE. *)
Lemma count_available_one d d' c n g :
  replicas_change c (fun n' old => if decide (n' = n) then g <$> old else old) d d' ->
  is_available (chunk_replicas d' !! (c, n)) = false ->
  count_available (chunk_replicas d') c =
  (count_available (chunk_replicas d) c - Z.b2z (is_available (chunk_replicas d !! (c, n))))%Z.
Proof.
  intros R Hna. destruct (chunk_replicas d !! (c, n)) as [r|] eqn:Hr; cycle 1.
  { rewrite Z.sub_0_r. apply count_available_ext. intros n'. rewrite (rc_here _ _ _ _ R).
    case_decide; [subst; by rewrite Hr|done]. }
  rewrite (rc_here _ _ _ _ R), decide_True, Hr in Hna by done. simpl in Hna.
  rewrite (count_available_ext _ (<[(c, n) := g r]> (chunk_replicas d))).
  - rewrite count_available_replace, Hr, Hna. simpl. lia.
  - intros n'. rewrite (rc_here _ _ _ _ R). case_decide as Heq.
    + subst n'. by rewrite lookup_insert_eq, Hr.
    + rewrite lookup_insert_ne; congruence.
Qed.

Lemma update_replica_run c n (Q : replica_row -> Prop) `{!forall r, Decision (Q r)} f d :
  schema_ok d ->
  exists k d', update_replicas (fun q r => q = (c, n) /\ Q r) f d = Ok (k, d') /\
    replicas_change c (fun n' old =>
      if decide (n' = n) then (fun r => if decide (Q r) then f r else r) <$> old else old) d d'.
Proof.
  intros Hs. pose proof (update_replicas_run (fun q r => q = (c, n) /\ Q r) f d Hs) as Hrun.
  eexists _, _. split; [exact Hrun|]. apply replicas_change_trigger.
  - intros n'. rewrite lookup_update_where.
    destruct (chunk_replicas d !! (c, n')) as [r|]; simpl; repeat case_decide; simpl; try done; naive_solver.
  - intros c' n' Hne. rewrite lookup_update_where.
    destruct (chunk_replicas d !! (c', n')); simpl; [rewrite decide_False; naive_solver|done].
  - eapply keeps_update_replicas; [exact Hs|exact Hrun].
Qed.

Lemma complete_upsert_run now c n d :
  schema_ok d -> is_Some (chunks d !! c) -> is_Some (storage_nodes d !! n) ->
  exists d1, upsert_replica (c, n) (mkReplica ReplicaAvailable now now (Some now) None)
    (fun r => r <| cr_state := ReplicaAvailable |> <| cr_updated_at := now |>
                <| cr_verified_at := Some now |> <| cr_last_error := None |>) d = Ok (tt, d1) /\
    replicas_change c (fun n' old => if decide (n' = n) then Some (repaired_row now old) else old) d d1 /\
    repair_jobs d1 = repair_jobs d /\
    count_available (chunk_replicas d1) c =
    (count_available (chunk_replicas d) c + 1 - Z.b2z (is_available (chunk_replicas d !! (c, n))))%Z.
Proof.
  intros Hs Hc Hn. eexists. split; [by apply upsert_replica_run|]. split_and!.
  - apply replicas_change_trigger.
    + intros n'. case_decide as Heq; [subst n'; by rewrite lookup_insert_eq|].
      rewrite lookup_insert_ne; congruence.
    + intros c' n' Hne. rewrite lookup_insert_ne; congruence.
    + eapply keeps_upsert_replica; [exact Hs|]. by apply upsert_replica_run.
  - by destruct (trigger_fields [c] (d <| chunk_replicas :=
      <[(c, n) := match chunk_replicas d !! (c, n) with
                  | Some r => r <| cr_state := ReplicaAvailable |> <| cr_updated_at := now |>
                                <| cr_verified_at := Some now |> <| cr_last_error := None |>
                  | None => mkReplica ReplicaAvailable now now (Some now) None end]>
      (chunk_replicas d) |>)) as (cs&->&_).
  - rewrite trigger_replicas. simpl. rewrite count_available_replace.
    assert (is_available (Some match chunk_replicas d !! (c, n) with
      | Some r => r <| cr_state := ReplicaAvailable |> <| cr_updated_at := now |>
                    <| cr_verified_at := Some now |> <| cr_last_error := None |>
      | None => mkReplica ReplicaAvailable now now (Some now) None end) = true) as ->
      by by destruct (chunk_replicas d !! (c, n)).
    simpl. lia.
Qed.

(** C25: completing a repair adds exactly one copy. For an existing chunk and
    a registered target node [CompleteRepair] succeeds with the new number of
    AVAILABLE replicas: one more than before unless the target already held an
    AVAILABLE copy, in which case the same, so a retried completion counts
    once. The target is AVAILABLE and verified, every other replica is
    unchanged, and the job is SUCCEEDED without a lease. *)
Theorem CompleteRepair_exact (now job : Z) (c : N) (n : string) (d : db) :
  schema_ok d -> is_Some (chunks d !! c) -> is_Some (storage_nodes d !! n) ->
  exists d', CompleteRepair now job c n d = (Ok (count_available (chunk_replicas d') c), d') /\
    count_available (chunk_replicas d') c =
      (count_available (chunk_replicas d) c + 1 - Z.b2z (is_available (chunk_replicas d !! (c, n))))%Z /\
    chunk_replicas d' !! (c, n) = Some (repaired_row now (chunk_replicas d !! (c, n))) /\
    (forall k, k <> (c, n) -> chunk_replicas d' !! k = chunk_replicas d !! k) /\
    repair_jobs d' !! job = succeed_row now None <$> repair_jobs d !! job /\
    (forall i, i <> job -> repair_jobs d' !! i = repair_jobs d !! i).
Proof.
  intros Hs Hc Hn. destruct (complete_upsert_run now c n d Hs Hc Hn) as (d1&H1&R&Hjobs&Hcnt).
  assert (is_Some (chunks d1 !! c)) as [ch1 Hch1].
  { by rewrite <-(fmap_is_Some strip_counter), (rc_chunks _ _ _ _ R), fmap_is_Some. }
  destruct (update_repairs_run (fun k _ => k = job) (succeed_row now None) d1 (rc_schema _ _ _ _ R))
    as (d2&H2&Hd2&Hs2).
  { intros k j _ _. split; [done|]. by intros [|]. }
  exists d2. assert (chunk_replicas d2 = chunk_replicas d1) as Hrep by (by rewrite Hd2).
  rewrite Hrep. split_and!.
  - unfold CompleteRepair, inTx, CompleteRepair_tx. unfold tx_bind at 1. rewrite H1.
    unfold tx_bind at 1, gets. rewrite Hch1. unfold tx_bind. rewrite H2. simpl.
    by rewrite (so_counters _ (rc_schema _ _ _ _ R) c ch1 Hch1).
  - exact Hcnt.
  - rewrite (rc_here _ _ _ _ R). by rewrite decide_True.
  - intros [c' n'] Hne. destruct (decide (c' = c)) as [->|Hc'].
    + rewrite (rc_here _ _ _ _ R). rewrite decide_False; congruence.
    + by apply (rc_other _ _ _ _ R).
  - rewrite Hd2. simpl. rewrite lookup_update_where, Hjobs.
    destruct (repair_jobs d !! job); [|done]. simpl. by rewrite decide_True.
  - intros i Hne. rewrite Hd2. simpl. rewrite lookup_update_where, Hjobs.
    destruct (repair_jobs d !! i); [|done]. simpl. by rewrite decide_False.
Qed.

Lemma CompleteRepair_exact_witness :
  exists d', CompleteRepair 80 1 20 "n3" sample_db = (Ok 2%Z, d') /\
    count_available (chunk_replicas d') 20 = 2%Z.
Proof.
  assert (schema_ok sample_db) as Hs.
  { apply (reachable_schema (PG:=c_locale) (fun s => s)), sample_reachable. }
  assert (is_Some (chunks sample_db !! 20%N)) as Hc by (vm_compute; eexists; reflexivity).
  assert (is_Some (storage_nodes sample_db !! "n3")) as Hn by (vm_compute; eexists; reflexivity).
  destruct (CompleteRepair_exact 80 1 20 "n3" sample_db Hs Hc Hn) as (d'&Hrun&Hcnt&_).
  assert (count_available (chunk_replicas sample_db) 20 + 1 -
          Z.b2z (is_available (chunk_replicas sample_db !! (20%N, "n3"))) = 2)%Z as H2
    by (vm_compute; reflexivity).
  rewrite H2 in Hcnt. exists d'. rewrite Hcnt in Hrun. split; [exact Hrun|exact Hcnt].
Defined.

(** Two terminally failed jobs of one chunk: the second was enqueued after the
    first had failed. *)
Definition sample_twice_failed : list call := [
  C_SetNodeHealth 6 "n2" DEAD;
  C_EnqueueRepairs 7 2 10;
  C_ClaimRepairJob 8 "coordinator" 60 2;
  C_FailRepair 9 1 "no target" 30 1;
  C_EnqueueRepairs 10 2 10;
  C_ClaimRepairJob 11 "coordinator" 60 2;
  C_FailRepair 12 2 "no target" 30 1
].

(** Requeueing failed repairs can fail as a whole. A reachable database
    holds two FAILED jobs of one COMMITTED chunk and no active job, because
    EnqueueRepairs creates a new job for a chunk whose earlier job is FAILED;
    [RequeueFailedRepairs] then moves both to PENDING in one statement and is
    refused by the unique index on active jobs, so no failed repair of the
    cluster is requeued. *)
Theorem RequeueFailedRepairs_unique_violation :
  let d := run_trace (PG:=c_locale) (fun s => s)
             (sample_cluster ++ sample_upload ++ sample_twice_failed) empty_db in
  ((fun j => (rj_chunk_id j, rj_state j)) <$> repair_jobs d) =
    {[ 1%Z := (20%N, RepairFailed); 2%Z := (20%N, RepairFailed) ]} /\
  ck_state <$> chunks d !! 20%N = Some ChunkCommitted /\
  RequeueFailedRepairs (PG:=c_locale) 20 10 d = (Err (ErrSQL UniqueViolation), d).
Proof. vm_compute. split_and!; reflexivity. Qed.

(** ** Corruption reports *)

Definition corrupt_row (now : Z) (detail : string) (r : replica_row) : replica_row :=
  r <| cr_state := ReplicaCorrupt |> <| cr_updated_at := now |>
    <| cr_last_error := Some (truncate detail 500) |>.

(** What a corruption report does. *)
Lemma MarkReplicaCorrupt_run (now : Z) (c : N) (n detail : string) (d : db) :
  schema_ok d ->
  match MarkReplicaCorrupt now c n detail d with
  | (Ok usable, d') =>
      usable = count_available (chunk_replicas d') c /\
      usable = (count_available (chunk_replicas d) c - Z.b2z (is_available (chunk_replicas d !! (c, n))))%Z /\
      chunk_replicas d' !! (c, n) =
        (fun r => if decide (cr_state r = ReplicaDeleting) then r else corrupt_row now detail r) <$>
          chunk_replicas d !! (c, n) /\
      (forall k, k <> (c, n) -> chunk_replicas d' !! k = chunk_replicas d !! k) /\
      ~ readable_replica d' c n /\ deletion_queued d' c n /\
      objects d' = objects d /\
      (forall i, strip_counter <$> chunks d' !! i = strip_counter <$> chunks d !! i)
  | (Err ErrNotFound, d') => d' = d /\ chunks d !! c = None
  | (Err _, _) => False
  end.
Proof.
  intros Hs. unfold MarkReplicaCorrupt, inTx, MarkReplicaCorrupt_tx. unfold tx_bind at 1.
  destruct (update_replica_run c n (fun r => cr_state r <> ReplicaDeleting) (corrupt_row now detail) d Hs)
    as (k1&d1&H1&R). unfold corrupt_row in H1 at 1. rewrite H1.
  assert (chunk_replicas d1 !! (c, n) =
    (fun r => if decide (cr_state r = ReplicaDeleting) then r else corrupt_row now detail r) <$>
      chunk_replicas d !! (c, n)) as Hrow.
  { rewrite (rc_here _ _ _ _ R), decide_True by done. destruct (chunk_replicas d !! (c, n)); [|done].
    simpl. f_equal. repeat case_decide; tauto. }
  unfold tx_bind at 1, gets. destruct (chunks d1 !! c) as [ch|] eqn:Hc1; cycle 1.
  { split; [done|]. pose proof (rc_chunks _ _ _ _ R c) as Hx. rewrite Hc1 in Hx.
    by destruct (chunks d !! c). }
  assert (exists z d2, enqueue_deletion now c n d1 = Ok (z, d2)) as (z&d2&H2).
  { rewrite enqueue_deletion_run by apply R. case_decide; eauto. }
  unfold tx_bind. rewrite H2. simpl. apply enqueue_deletion_ok in H2 as ((m&q&Hd2)&_&Hq).
  assert (chunk_replicas d2 = chunk_replicas d1) as Hrep by (by rewrite Hd2).
  rewrite Hrep. assert (is_available (chunk_replicas d1 !! (c, n)) = false) as Hna.
  { rewrite Hrow. destruct (chunk_replicas d !! (c, n)) as [r|]; [|done]. unfold is_available. simpl.
    case_decide as Hdel; [by rewrite Hdel|done]. }
  split_and!.
  - by apply (so_counters _ (rc_schema _ _ _ _ R)).
  - rewrite (so_counters _ (rc_schema _ _ _ _ R) c ch Hc1).
    by apply (count_available_one _ _ c n _ R).
  - exact Hrow.
  - intros [c' n'] Hne. destruct (decide (c' = c)) as [->|Hc'].
    + rewrite (rc_here _ _ _ _ R). rewrite decide_False; congruence.
    + by apply (rc_other _ _ _ _ R).
  - intros [Hst _]. rewrite Hrep in Hst. unfold is_available in Hna.
    by apply bool_decide_eq_false in Hna.
  - done.
  - rewrite Hd2. apply (rc_objects _ _ _ _ R).
  - intros i. rewrite Hd2. apply (rc_chunks _ _ _ _ R).
Qed.

(** A corruption report isolates one copy. For a known chunk
    [MarkReplicaCorrupt] succeeds with the number of usable replicas that
    remain; the reported replica is CORRUPT (one already being deleted stays
    DELETING), is no longer served to readers or used as a repair source, and
    its deletion is queued; every other replica row, the object rows and the
    chunk itself stay as they were. An unknown chunk is NotFound and nothing
    changes. *)
Theorem MarkReplicaCorrupt_isolates (now : Z) (c : N) (n detail : string) (d : db) :
  schema_ok d ->
  match MarkReplicaCorrupt now c n detail d with
  | (Ok usable, d') =>
      usable = count_available (chunk_replicas d') c /\
      usable = (count_available (chunk_replicas d) c - Z.b2z (is_available (chunk_replicas d !! (c, n))))%Z /\
      chunk_replicas d' !! (c, n) =
        (fun r => if decide (cr_state r = ReplicaDeleting) then r else corrupt_row now detail r) <$>
          chunk_replicas d !! (c, n) /\
      (forall k, k <> (c, n) -> chunk_replicas d' !! k = chunk_replicas d !! k) /\
      ~ readable_replica d' c n /\ deletion_queued d' c n /\
      objects d' = objects d /\
      (forall i, strip_counter <$> chunks d' !! i = strip_counter <$> chunks d !! i)
  | (Err ErrNotFound, d') => d' = d /\ chunks d !! c = None
  | (Err _, _) => False
  end.
Proof. exact (MarkReplicaCorrupt_run now c n detail d). Qed.

Lemma MarkReplicaCorrupt_isolates_witness :
  exists d', MarkReplicaCorrupt 90 20 "n1" "sha256 mismatch" sample_db = (Ok 1%Z, d') /\
    ~ readable_replica d' 20 "n1" /\ deletion_queued d' 20 "n1".
Proof.
  assert (schema_ok sample_db) as Hs.
  { apply (reachable_schema (PG:=c_locale) (fun s => s)), sample_reachable. }
  pose proof (MarkReplicaCorrupt_isolates 90 20 "n1" "sha256 mismatch" sample_db Hs) as Hspec.
  destruct (MarkReplicaCorrupt 90 20 "n1" "sha256 mismatch" sample_db) as [[u|e] d'] eqn:E.
  - exists d'. destruct Hspec as (_&_&_&_&Hnr&Hq&_).
    apply (f_equal fst) in E. revert E. vm_compute (_.1). intros [= <-].
    split; [reflexivity|]. split; [exact Hnr|exact Hq].
  - apply (f_equal fst) in E. revert E. vm_compute. discriminate.
Defined.

(** ** Dead nodes *)

Lemma update_nodes_run P `{!forall k v, Decision (P k v)} f d :
  schema_ok d -> (forall r, node_check r -> node_check (f r)) ->
  exists d', update_nodes P f d = Ok (count_where P (storage_nodes d), d') /\
    d' = d <| storage_nodes := update_where P f (storage_nodes d) |> /\ schema_ok d'.
Proof.
  intros Hs Hf. eexists.
  assert (update_nodes P f d = Ok (count_where P (storage_nodes d),
    d <| storage_nodes := update_where P f (storage_nodes d) |>)) as Hrun.
  { unfold update_nodes, update_table. unfold tx_bind at 1, gets. unfold tx_bind.
    rewrite (proj2 (put_nodes_ok _ d tt
      (d <| storage_nodes := update_where P f (storage_nodes d) |>))); [done|].
    split; [|done]. intros k r (r0&Hr0&->)%lookup_update_where_Some.
    pose proof (so_nodes _ Hs k r0 Hr0). case_decide; auto. }
  split_and!; [exact Hrun|done|]. by eapply keeps_update_nodes.
Qed.

Definition demoted (now : Z) (n m : string) (r : replica_row) : replica_row :=
  if decide (m = n /\ demotable r) then unavailable_row now r else r.

Lemma demoted_count (now : Z) (n : string) (c : N) (m m' : gmap (N * string) replica_row) :
  (forall x, m' !! (c, x) = demoted now n x <$> m !! (c, x)) ->
  count_available m' c = (count_available m c - Z.b2z (is_available (m !! (c, n))))%Z.
Proof.
  intros Hm. destruct (m !! (c, n)) as [r|] eqn:Hr; cycle 1.
  { rewrite Z.sub_0_r. apply count_available_ext. intros x. rewrite Hm. unfold demoted.
    destruct (m !! (c, x)) eqn:Hx; [|done]. simpl. rewrite decide_False; [done|].
    intros [-> _]. congruence. }
  rewrite (count_available_ext _ (<[(c, n) := demoted now n n r]> m)).
  - rewrite count_available_replace, Hr.
    assert (is_available (Some (demoted now n n r)) = false) as ->; [|simpl; lia].
    unfold demoted, is_available, demotable. case_decide as Hd; [done|]. apply bool_decide_eq_false.
    simpl. intros [= Hst]. apply Hd. tauto.
  - intros x. rewrite Hm. destruct (decide (x = n)) as [->|Hne].
    + by rewrite lookup_insert_eq, Hr.
    + rewrite lookup_insert_ne by congruence. destruct (m !! (c, x)); [|done]. simpl.
      unfold demoted. rewrite decide_False; [done|]. tauto.
Qed.

(** A dead node stops counting at once. [SetNodeHealth] with DEAD demotes
    every AVAILABLE and WRITING replica of the node and no other row in the
    same transaction; the node serves no reader any more, the readability of
    every other copy is unchanged, and the AVAILABLE count of every chunk drops
    by exactly the copy the node held. *)
Theorem SetNodeHealth_dead_demotes (now : Z) (n : string) (d : db) :
  schema_ok d ->
  exists d', SetNodeHealth now n DEAD d =
      (Ok (count_where (fun k r => k.2 = n /\ demotable r) (chunk_replicas d)), d') /\
    (forall c x, chunk_replicas d' !! (c, x) = demoted now n x <$> chunk_replicas d !! (c, x)) /\
    (forall c, ~ readable_replica d' c n) /\
    (forall c x, x <> n -> readable_replica d' c x <-> readable_replica d c x) /\
    (forall c, count_available (chunk_replicas d') c =
       (count_available (chunk_replicas d) c - Z.b2z (is_available (chunk_replicas d !! (c, n))))%Z).
Proof.
  intros Hs.
  destruct (update_nodes_run (fun k _ => k = n)
    (fun r => r <| sn_health := DEAD |> <| sn_updated_at := now |>) d Hs) as (d1&H1&Hd1&Hs1); [done|].
  pose proof (update_replicas_run (fun k r => k.2 = n /\ demotable r) (unavailable_row now) d1 Hs1) as H2.
  assert (chunk_replicas d1 = chunk_replicas d) as Hr1 by (by rewrite Hd1). rewrite Hr1 in H2.
  eexists. split.
  { unfold SetNodeHealth, inTx. unfold tx_bind. rewrite H1. simpl. unfold demote_replicas.
    unfold unavailable_row in H2 at 1. rewrite H2. done. }
  set (d2 := chunk_replicas_durability _ _).
  assert (forall c x, chunk_replicas d2 !! (c, x) = demoted now n x <$> chunk_replicas d !! (c, x)) as Hrows.
  { intros c x. unfold d2. rewrite trigger_replicas. simpl. by rewrite lookup_update_where. }
  assert (storage_nodes d2 = storage_nodes d1) as Hnodes by (unfold d2; by rewrite trigger_nodes).
  split_and!; [done| | |].
  - intros c [Hst _]. rewrite Hrows in Hst. destruct (chunk_replicas d !! (c, n)) as [r|]; [|done].
    simpl in Hst. unfold demoted in Hst. case_decide as Hd; [done|]. apply Hd. split; [done|].
    left. congruence.
  - intros c x Hne. unfold readable_replica. rewrite Hrows, Hnodes, Hd1. simpl.
    rewrite lookup_update_where. f_equiv.
    + destruct (chunk_replicas d !! (c, x)); [|done]. simpl. unfold demoted.
      rewrite decide_False; [done|tauto].
    + f_equiv. intros nd. f_equiv. destruct (storage_nodes d !! x); [|done]. simpl.
      by rewrite decide_False.
  - intros c. apply (demoted_count now). intros x. apply Hrows.
Qed.

Lemma SetNodeHealth_dead_demotes_witness :
  exists d', SetNodeHealth 95 "n1" DEAD sample_db = (Ok 1%Z, d') /\
    count_available (chunk_replicas d') 20 = 1%Z /\ ~ readable_replica d' 20 "n1".
Proof.
  assert (schema_ok sample_db) as Hs.
  { apply (reachable_schema (PG:=c_locale) (fun s => s)), sample_reachable. }
  destruct (SetNodeHealth_dead_demotes 95 "n1" sample_db Hs) as (d'&Hrun&_&Hnr&_&Hcnt).
  exists d'. split_and!; [|rewrite Hcnt; vm_compute; reflexivity|apply Hnr].
  rewrite Hrun. apply f_equal2; [|reflexivity]. vm_compute. reflexivity.
Defined.

(** A DEAD node can hold AVAILABLE replicas. When a node dies between the
    allocation of a chunk and its commit, CommitChunk marks its replica
    AVAILABLE again: the reachable state counts two AVAILABLE replicas, one of
    them on the dead node, so with replication factor two EnqueueRepairs sees
    no damage although only one copy is readable. *)
Theorem dead_node_can_hold_available :
  let d := run_trace (PG:=c_locale) (fun s => s)
             (sample_cluster ++ take 2 sample_upload ++ [C_SetNodeHealth 3 "n2" DEAD] ++ drop 2 sample_upload)
             empty_db in
  reachable (PG:=c_locale) (fun s => s) d /\
  sn_health <$> storage_nodes d !! "n2" = Some DEAD /\
  cr_state <$> chunk_replicas d !! (20%N, "n2") = Some ReplicaAvailable /\
  ck_available_replicas <$> chunks d !! 20%N = Some 2%Z /\
  (EnqueueRepairs (PG:=c_locale) 10 2 10 d).1 = Ok 0%Z.
Proof.
  cbv zeta. split; [apply reachable_trace; constructor|].
  split_and!; vm_compute; reflexivity.
Qed.
