(* ===== verification/ReconcileOps.v ===== *)
(** * Reconciliation decisions

    What the reconciler may do to one copy (src/internal/metadata/reconcile.go):
    promote a STALE replica it has verified, and queue the deletion of bytes
    that no metadata row accounts for. *)

From stdpp Require Import gmap strings list sorting.
From S2P Require Import Prelude Sql Schema Statements Chunks Frames Runs Deletions Objects Nodes Repair Gc Reconcile Multipart Store Trim Commit ChunkInv CompleteInv Reads RepairQueue RepairOps.

(** The copy is known to the metadata or may still be on its way. *)
Definition accounted_for (d : db) (c : N) (n : string) : Prop :=
  is_Some (chunk_replicas d !! (c, n)) \/ ck_state <$> chunks d !! c = Some ChunkPending.

(** Only unaccounted bytes are condemned. [QueueOrphanDeletion] never
    fails on an integral database. When a replica row exists for the copy or
    its chunk is still PENDING it changes nothing and answers false; otherwise
    the deletion is queued afterwards, jobs already queued stay queued, nothing
    but the queue changes, and the answer says whether the job is new. *)
Theorem QueueOrphanDeletion_guarded (now : Z) (c : N) (n : string) (d : db) :
  schema_ok d ->
  exists b d', QueueOrphanDeletion now c n d = (Ok b, d') /\
    (accounted_for d c n -> b = false /\ d' = d) /\
    (~ accounted_for d c n ->
       queue_only d d' /\ queue_grows d d' /\ deletion_queued d' c n /\
       (b = true <-> ~ deletion_queued d c n)).
Proof.
  intros Hs. unfold QueueOrphanDeletion, inTx. unfold tx_bind at 1, gets.
  case_bool_decide as Hg.
  - pose proof (enqueue_deletion_run now c n d Hs) as Hrun.
    assert (~ accounted_for d c n) as Hna.
    { destruct Hg as [Hno Hst]. intros [[r Hr]|Hp]; congruence. }
    assert (exists z d', enqueue_deletion now c n d = Ok (z, d') /\
              (z = 1%Z <-> ~ deletion_queued d c n) /\ (z = 1 \/ z = 0)%Z) as (z&d'&Hz&Hiff&Hor).
    { rewrite Hrun. case_decide; eexists _, _; (split; [done|]); split; [split; [lia|tauto]|lia|tauto|lia]. }
    unfold tx_bind. rewrite Hz. eexists _, d'. split; [done|]. split; [done|]. intros _.
    apply enqueue_deletion_ok in Hz as (?&?&?). split_and!; [done..|].
    rewrite bool_decide_eq_true, <-Hiff. lia.
  - exists false, d. split; [done|]. split; [done|]. intros Hna. exfalso. apply Hg. split.
    + apply eq_None_not_Some. intros Hx. apply Hna. by left.
    + intros Hp. apply Hna. by right.
Qed.

Lemma QueueOrphanDeletion_guarded_witness :
  exists b d', QueueOrphanDeletion 100 77 "n1" sample_db = (Ok b, d') /\ deletion_queued d' 77 "n1".
Proof.
  assert (schema_ok sample_db) as Hs.
  { apply (reachable_schema (PG:=c_locale) (fun s => s)), sample_reachable. }
  destruct (QueueOrphanDeletion_guarded 100 77 "n1" sample_db Hs) as (b&d'&Hrun&_&Hq).
  exists b, d'. split; [exact Hrun|]. apply Hq. intros [[r Hr]|Hp].
  - revert Hr. vm_compute. discriminate.
  - revert Hp. vm_compute. discriminate.
Defined.

Definition promoted_row (now : Z) (r : replica_row) : replica_row :=
  r <| cr_state := ReplicaAvailable |> <| cr_updated_at := now |>
    <| cr_verified_at := Some now |> <| cr_last_error := None |>.

(** Verification restores exactly the copy it verified.
    [PromoteVerifiedReplica] answers true exactly when the replica was STALE;
    then this row is AVAILABLE and verified and the chunk gains one copy. A
    replica in any other state - CORRUPT, DELETING, UNAVAILABLE - is not
    resurrected, and no other row changes. *)
Theorem PromoteVerifiedReplica_only_stale (now : Z) (c : N) (n : string) (d : db) :
  schema_ok d ->
  exists b d', PromoteVerifiedReplica now c n d = (Ok b, d') /\
    (b = true <-> cr_state <$> chunk_replicas d !! (c, n) = Some ReplicaStale) /\
    chunk_replicas d' !! (c, n) =
      (if b then promoted_row now <$> chunk_replicas d !! (c, n) else chunk_replicas d !! (c, n)) /\
    (forall k, k <> (c, n) -> chunk_replicas d' !! k = chunk_replicas d !! k) /\
    count_available (chunk_replicas d') c = (count_available (chunk_replicas d) c + Z.b2z b)%Z.
Proof.
  intros Hs. unfold PromoteVerifiedReplica, inTx, tx_bind.
  pose proof (update_replicas_run (fun k r => k = (c, n) /\ cr_state r = ReplicaStale)
    (promoted_row now) d Hs) as Hrun.
  unfold promoted_row in Hrun at 1. rewrite Hrun. eexists _, _. split; [done|].
  set (b := bool_decide _).
  assert (b = true <-> cr_state <$> chunk_replicas d !! (c, n) = Some ReplicaStale) as Hb.
  { unfold b. rewrite bool_decide_eq_true, count_where_pos. split.
    - intros (k&r&Hr&->&Hst). rewrite Hr. simpl. congruence.
    - intros (r&Hr&Hst)%fmap_Some. by exists (c, n), r. }
  rewrite trigger_replicas. simpl.
  assert (forall k, update_where (fun k r => k = (c, n) /\ cr_state r = ReplicaStale) (promoted_row now)
    (chunk_replicas d) !! k = if decide (k = (c, n)) then
      (if b then promoted_row now <$> chunk_replicas d !! (c, n) else chunk_replicas d !! (c, n))
      else chunk_replicas d !! k) as Hrows.
  { intros k. rewrite lookup_update_where. case_decide as Hk; cycle 1.
    { destruct (chunk_replicas d !! k); [|done]. simpl. rewrite decide_False; [done|tauto]. }
    subst k. destruct (chunk_replicas d !! (c, n)) as [r|] eqn:Hr; [|by destruct b]. simpl in Hb |- *.
    destruct b.
    - rewrite decide_True; [done|]. split; [done|]. assert (Some (cr_state r) = Some ReplicaStale); [tauto|congruence].
    - rewrite decide_False; [done|]. intros [_ Hst]. destruct Hb as [_ Hb]. rewrite Hst in Hb. by specialize (Hb eq_refl). }
  split_and!; [done| | |].
  - rewrite Hrows. by rewrite decide_True.
  - intros k Hk. rewrite Hrows. by rewrite decide_False.
  - destruct b eqn:Eb; cycle 1.
    { rewrite Z.add_0_r. apply count_available_ext. intros n'. rewrite Hrows. case_decide; congruence. }
    destruct Hb as [Hst _]. specialize (Hst eq_refl). apply fmap_Some in Hst as (r&Hr&Hst).
    rewrite (count_available_ext _ (<[(c, n) := promoted_row now r]> (chunk_replicas d))).
    + rewrite count_available_replace, Hr. unfold is_available. simpl. rewrite <-Hst. simpl. lia.
    + intros n'. rewrite Hrows, Hr. case_decide as Hk.
      * injection Hk as ->. by rewrite lookup_insert_eq.
      * rewrite lookup_insert_ne; congruence.
Qed.

Lemma PromoteVerifiedReplica_only_stale_witness :
  exists d', PromoteVerifiedReplica 101 20 "n2" (run_trace (PG:=c_locale) (fun s => s)
      [C_SetNodeHealth 60 "n2" HEALTHY; C_MarkReplicasStaleOnNode 61 "n2"] sample_db) = (Ok true, d') /\
    count_available (chunk_replicas d') 20 = 3%Z.
Proof.
  set (d := run_trace _ _ _).
  assert (schema_ok d) as Hs.
  { apply (reachable_schema (PG:=c_locale) (fun s => s)), reachable_trace, sample_reachable. }
  destruct (PromoteVerifiedReplica_only_stale 101 20 "n2" d Hs) as (b&d'&Hrun&Hb&_&_&Hcnt).
  assert (b = true) as -> by (apply Hb; vm_compute; reflexivity).
  exists d'. split; [exact Hrun|]. rewrite Hcnt. vm_compute. reflexivity.
Defined.

(** ** The history *)

Record ReconcileSummary := mkReconcileSummary {
  rs_NodeID : string;
  rs_State : ReconcileState;
  rs_Result : ReconcileResult;
  rs_LastError : string;
  rs_CreatedAt : Z;
  rs_FinishedAt : option Z
}.
Definition summary_of (kr : Z * reconcile_row) : ReconcileSummary :=
  let r := kr.2 in
  mkReconcileSummary (nr_node_id r) (nr_state r)
    (mkReconcileResult (nr_chunks_seen r) (nr_orphans_found r) (nr_phantoms_found r) (nr_verified r) (nr_corrupt_found r))
    (nullString (nr_last_error r)) (nr_created_at r) (nr_finished_at r).

(** ORDER BY updated_at DESC *)
Definition updated_desc (a b : Z * reconcile_row) : Prop := (nr_updated_at b.2 <= nr_updated_at a.2)%Z.
#[export] Instance updated_desc_dec : RelDecision updated_desc.
Proof. intros a b. unfold updated_desc. apply _. Defined.

#[export] Instance updated_desc_trans : Transitive updated_desc.
Proof. intros a b c. unfold updated_desc. lia. Qed.
#[export] Instance updated_desc_total : Total updated_desc.
Proof. intros a b. unfold updated_desc. lia. Qed.

Section history.
Context `{PG : !Postgres}.

Definition RecentReconciliations (limit : Z) : Op db (list ReconcileSummary) :=
  let limit := if decide (limit <= 0 \/ 100 < limit)%Z then 20%Z else limit in
  inTx (
    let! m := gets node_reconciliations in
    let! rows := limit_rows limit (order_by updated_desc (rows_where (fun _ _ => True) m)) in
    tx_ret (summary_of <$> rows)).

(** The newest runs, at most a hundred: the list shows runs of the table, the
    last changed first, and leaves one out only if it is full and everything in
    it is at least as recent. *)
Lemma RecentReconciliations_exact limit d : exists rows,
  RecentReconciliations limit d = (Ok (summary_of <$> rows), d) /\ (length rows <= 100)%nat /\
  StronglySorted updated_desc rows /\ (forall kr, kr ∈ rows -> node_reconciliations d !! kr.1 = Some kr.2) /\
  (forall k r, node_reconciliations d !! k = Some r -> (k, r) ∉ rows ->
     rows <> [] /\ forall kr, kr ∈ rows -> (nr_updated_at r <= nr_updated_at kr.2)%Z).
Proof.
  set (n := if decide (limit <= 0 \/ 100 < limit)%Z then 20%Z else limit).
  assert (1 <= n <= 100)%Z as Hn by (unfold n; case_decide; lia).
  set (l := order_by updated_desc (rows_where (fun _ _ => True) (node_reconciliations d))).
  assert (StronglySorted updated_desc l) as Hs.
  { apply (StronglySorted_merge_sort updated_desc). }
  assert (forall k r, (k, r) ∈ l <-> node_reconciliations d !! k = Some r) as Hl.
  { intros k r. unfold l. rewrite order_by_perm, elem_of_rows_where. tauto. }
  rewrite <-(take_drop (Z.to_nat n) l) in Hs. exists (take (Z.to_nat n) l). split_and!.
  - unfold RecentReconciliations. fold n. unfold inTx, tx_bind, gets, limit_rows. fold l. by rewrite decide_False by lia.
  - rewrite length_take. lia.
  - by apply StronglySorted_app_1_l in Hs.
  - intros [k r] Hin. by apply Hl, (subseteq_take (Z.to_nat n)).
  - intros k r Hr Hout. apply Hl in Hr. split.
    + intros E. destruct l; [by apply elem_of_nil in Hr|]. destruct (Z.to_nat n) eqn:?; [lia|done].
    + intros kr Hin. rewrite <-(take_drop (Z.to_nat n) l) in Hr. apply elem_of_app in Hr as [Hr|Hr]; [done|].
      apply (StronglySorted_app_1_elem_of _ _ _ _ _ Hs Hin Hr).
Qed.
End history.
