(* ===== verification/Leases.v ===== *)
(** * Leases

    A job is RUNNING only under a lease, so a worker that dies cannot strand
    it: the reclaim statements return every expired job to the queue
    (src/internal/metadata/repair.go, reconcile.go). *)

From stdpp Require Import gmap strings list sorting.
From S2P Require Import Prelude Sql Schema Statements Chunks Frames Runs Deletions Objects Nodes Repair Gc Reconcile Multipart Store Trim Commit ChunkInv CompleteInv Reads RepairQueue.

Definition repair_leased (j : repair_row) : Prop :=
  rj_state j = RepairRunning -> is_Some (rj_lease_expires_at j) /\ is_Some (rj_owner j).
Definition reconcile_leased (j : reconcile_row) : Prop :=
  nr_state j = ReconcileRunning -> is_Some (nr_lease_expires_at j) /\ is_Some (nr_owner j).

Record leased (d : db) : Prop := {
  le_repairs : map_Forall (fun _ j => repair_leased j) (repair_jobs d);
  le_reconciles : map_Forall (fun _ j => reconcile_leased j) (node_reconciliations d)
}.

Lemma leased_put_nodes : frames_nodes leased.
Proof. by intros m d u d' [] (_&->)%put_nodes_ok. Qed.
Lemma leased_put_objects : frames_objects leased.
Proof. by intros m d u d' [] (_&_&->)%put_objects_ok. Qed.
Lemma leased_put_uploads : frames_uploads leased.
Proof. by intros m d u d' [] (_&_&->)%put_uploads_ok. Qed.
Lemma leased_put_parts : frames_parts leased.
Proof. by intros m d u d' [] (_&_&_&->)%put_parts_ok. Qed.
Lemma leased_put_chunks : frames_chunks leased.
Proof. by intros m d u d' [] (_&_&_&_&_&->)%put_chunks_ok. Qed.
Lemma leased_put_deletions : frames_deletions leased.
Proof. by intros m d u d' [] (_&->)%put_deletions_ok. Qed.
Lemma leased_put_replicas : frames_replicas leased.
Proof.
  intros ts m d u d' [] (_&_&->)%put_replicas_ok.
  by destruct (trigger_fields ts (d <| chunk_replicas := m |>)) as (cs&->&_).
Qed.
Lemma leased_sequences : ignores_sequences leased.
Proof. by intros d x y z []. Qed.

(** Updates that keep RUNNING rows leased. *)
Definition keeps_repair_lease (f : repair_row -> repair_row) : Prop :=
  forall j, repair_leased j -> repair_leased (f j).
Definition keeps_reconcile_lease (f : reconcile_row -> reconcile_row) : Prop :=
  forall j, reconcile_leased j -> reconcile_leased (f j).

Lemma leased_update_repairs P `{!forall k v, Decision (P k v)} f :
  keeps_repair_lease f -> tx_keeps leased (update_repairs P f).
Proof.
  intros Hf d n d' [H1 H2] [_ ->]%update_repairs_ok. split; [|done].
  intros k j (j0&Hj0&->)%lookup_update_where_Some. specialize (H1 k j0 Hj0). case_decide; auto.
Qed.
Lemma leased_update_reconciles P `{!forall k v, Decision (P k v)} f :
  keeps_reconcile_lease f -> tx_keeps leased (update_reconciles P f).
Proof.
  intros Hf d n d' [H1 H2] [_ ->]%update_reconciles_ok. split; [done|].
  intros k j (j0&Hj0&->)%lookup_update_where_Some. specialize (H2 k j0 Hj0). case_decide; auto.
Qed.
Lemma leased_delete_repairs P `{!forall k v, Decision (P k v)} : tx_keeps leased (delete_repairs P).
Proof.
  intros d n d' [H1 H2] [_ ->]%delete_repairs_ok. split; [|done]. by apply map_Forall_delete_where.
Qed.
Lemma leased_enqueue_repair now c : tx_keeps leased (enqueue_repair now c).
Proof.
  intros d n d' [H1 H2] Hr. unfold enqueue_repair in Hr. tx_inv Hr; [done|].
  match goal with Hp : put_repairs _ _ = _ |- _ => apply put_repairs_ok in Hp as (_&_&->) end.
  split; [|done]. by apply map_Forall_insert_2.
Qed.
Lemma leased_enqueue_reconcile now n : tx_keeps leased (enqueue_reconcile now n).
Proof.
  intros d k d' [H1 H2] Hr. unfold enqueue_reconcile in Hr. tx_inv Hr; [done|].
  match goal with Hp : put_reconciles _ _ = _ |- _ => apply put_reconciles_ok in Hp as (_&_&->) end.
  split; [done|]. by apply map_Forall_insert_2.
Qed.
Lemma leased_cascade_chunks P `{!forall k v, Decision (P k v)} d :
  leased d -> leased (cascade_chunks P d).
Proof. intros [H1 H2]. split; [|done]. by apply map_Forall_delete_where. Qed.
Lemma leased_delete_chunks P `{!forall k v, Decision (P k v)} : tx_keeps leased (delete_chunks P).
Proof. intros d n d' Hd Hr. unfold delete_chunks in Hr. tx_inv Hr. by apply leased_cascade_chunks. Qed.
Lemma leased_delete_objects P `{!forall k v, Decision (P k v)} : tx_keeps leased (delete_objects P).
Proof.
  intros d n d' [] Hr. unfold delete_objects in Hr. tx_inv Hr. by apply leased_cascade_chunks.
Qed.
Lemma leased_delete_uploads P `{!forall k v, Decision (P k v)} : tx_keeps leased (delete_uploads P).
Proof.
  intros d n d' [] Hr. unfold delete_uploads in Hr. tx_inv Hr. by apply leased_cascade_chunks.
Qed.

#[local] Hint Resolve leased_put_nodes leased_put_objects leased_put_uploads leased_put_parts
  leased_put_chunks leased_put_deletions leased_put_replicas leased_sequences
  leased_delete_repairs leased_enqueue_repair leased_enqueue_reconcile leased_delete_chunks
  leased_delete_objects leased_delete_uploads : frames.
#[local] Hint Resolve leased_update_repairs leased_update_reconciles | 1 : frames.
#[local] Hint Extern 2 (keeps_repair_lease _) =>
  (intros [] ?; unfold repair_leased, fail_row, claim_row, succeed_row in *; simpl in *;
   try case_bool_decide; naive_solver) : frames.
#[local] Hint Extern 2 (keeps_reconcile_lease _) =>
  (intros [] ?; unfold reconcile_leased in *; simpl in *; naive_solver) : frames.
#[local] Hint Extern 3 (tx_keeps _ (put_nodes _)) => apply leased_put_nodes : frames.
#[local] Hint Extern 3 (tx_keeps _ (put_chunks _)) => apply leased_put_chunks : frames.

Lemma leased_verify : op_keeps leased VerifyDurabilityCounters.
Proof. unfold VerifyDurabilityCounters. preserve. Qed.
Lemma leased_reparent `{PG : !Postgres} o u : tx_keeps leased (reparent_chunks o u).
Proof. unfold reparent_chunks. preserve. Qed.
#[local] Hint Resolve leased_verify leased_reparent : frames.

Lemma exec_leased `{PG : !Postgres} sha256 c d : leased d -> leased (exec sha256 c d).
Proof.
  intros Hd. destruct c; simpl; (apply (op_keeps_snd leased); [|exact Hd]);
    first [solve [auto with frames] | preserve_op].
Qed.

Lemma reachable_leased `{PG : !Postgres} sha256 d : reachable sha256 d -> leased d.
Proof.
  apply reachable_invariant; [|apply exec_leased].
  split; intros ??; simpl; by rewrite lookup_empty.
Qed.

(** C23: a crashed worker strands no repair. In every reachable state each
    RUNNING job carries a lease; [ReclaimExpiredRepairLeases] succeeds, returns
    every job whose lease has expired to the queue, immediately claimable and
    with its attempt count kept, leaves jobs under a live lease to their owner,
    and touches no other job. *)
Theorem expired_leases_are_reclaimed `{PG : !Postgres} (sha256 : string -> string) (now : Z) (d : db) :
  reachable sha256 d ->
  exists n d', ReclaimExpiredRepairLeases now d = (Ok n, d') /\
    forall i j, repair_jobs d !! i = Some j ->
      (rj_state j = RepairRunning -> exists t, rj_lease_expires_at j = Some t /\
         ((t < now)%Z /\ (exists j', repair_jobs d' !! i = Some j' /\ claimable now j' /\
            rj_chunk_id j' = rj_chunk_id j /\ rj_attempts j' = rj_attempts j) \/
          (now <= t)%Z /\ repair_jobs d' !! i = Some j)) /\
      (rj_state j <> RepairRunning -> repair_jobs d' !! i = Some j).
Proof.
  intros Hr. pose proof (reachable_schema sha256 d Hr) as Hs.
  apply reachable_leased in Hr as Hl. unfold ReclaimExpiredRepairLeases, inTx.
  match goal with |- context [@update_repairs ?P ?D ?f d] =>
    destruct (@update_repairs_run P D f d Hs) as (d'&Hrun&Hd'&_) end.
  { intros k j _ [Hst _]. split; [done|]. intros _. by right. }
  rewrite Hrun. eexists _, d'. split; [done|]. intros i j Hj.
  rewrite Hd'. simpl. rewrite lookup_update_where, Hj. simpl. split; intros Hst.
  - destruct (le_repairs _ Hl i j Hj Hst) as [[t Ht] _]. exists t. split; [done|].
    destruct (decide (t < now)%Z) as [Hlt|Hge].
    + left. split; [done|]. eexists. split.
      { rewrite decide_True; [done|]. split; [done|]. rewrite Ht. done. }
      split; [split; [done|]; simpl; lia|done].
    + right. split; [lia|]. rewrite decide_False; [done|]. rewrite Ht. simpl. tauto.
  - rewrite decide_False; [done|]. tauto.
Qed.

Lemma expired_leases_are_reclaimed_witness :
  exists n d', ReclaimExpiredRepairLeases 1000 (run_trace (PG:=c_locale) (fun s => s)
      (sample_cluster ++ sample_upload ++ take 3 sample_repair) empty_db) = (Ok n, d') /\
    exists j', repair_jobs d' !! 1%Z = Some j' /\ claimable 1000 j'.
Proof.
  set (d := run_trace _ _ _).
  assert (reachable (PG:=c_locale) (fun s => s) d) as Hr by (apply reachable_trace; constructor).
  destruct (expired_leases_are_reclaimed (PG:=c_locale) (fun s => s) 1000 d Hr) as (n&d'&Hrun&Hj).
  exists n, d'. split; [exact Hrun|].
  assert (exists j, repair_jobs d !! 1%Z = Some j /\ rj_state j = RepairRunning /\
            rj_lease_expires_at j = Some 68%Z) as (j&Hj1&Hst&Hl).
  { vm_compute. eexists. split; [reflexivity|]. split; reflexivity. }
  destruct (Hj 1%Z j Hj1) as [Hrun' _]. destruct (Hrun' Hst) as (t&Ht&[[_ (j'&Hj'&Hc&_)]|[Hle _]]).
  - exists j'. split; [exact Hj'|exact Hc].
  - rewrite Hl in Ht. injection Ht as <-. lia.
Defined.
