(* ===== verification/Uploads.v ===== *)
(** * Publishing and retiring object versions

    What CompleteUpload and DeleteObject do on every branch, and which calls
    can change the version a reader sees. *)

From stdpp Require Import gmap strings list sorting.
From S2P Require Import Prelude Sql Schema Statements Chunks Frames Runs Deletions Objects Nodes Repair Gc Reconcile Multipart Store ChunkInv CompleteInv Reads.

(** ** Retiring the chunks of several versions *)

Definition from_objects (d : db) (ids : list N) (c : N) : Prop :=
  match chunks d !! c ≫= ck_object_id with Some o => o ∈ ids | None => False end.
#[export] Instance from_objects_dec d ids c : Decision (from_objects d ids c).
Proof. unfold from_objects. destruct (_ ≫= _); apply _. Defined.

Lemma chunk_owner_strip d d' c :
  strip_counter <$> chunks d' !! c = strip_counter <$> chunks d !! c ->
  (chunks d' !! c ≫= ck_object_id) = (chunks d !! c ≫= ck_object_id).
Proof.
  destruct (chunks d' !! c), (chunks d !! c); simpl; try done.
  intros Heq%(inj Some). by apply strip_counter_eq in Heq as (?&_).
Qed.

Lemma retired_trans now (s1 s2 s : N -> Prop)
    `{!forall c, Decision (s1 c), !forall c, Decision (s2 c)} d1 d2 d3 :
  retired now s1 d1 d2 -> retired now s2 d2 d3 ->
  (forall c, s c <-> s1 c \/ s2 c) -> retired now s d1 d3.
Proof.
  intros [R1 Q1 G1 O1 U1 P1 C1 S1] [R2 Q2 G2 O2 U2 P2 C2 S2] Hs. split.
  - intros c n. rewrite Hs. destruct (R1 c n) as [Y1 N1], (R2 c n) as [Y2 N2].
    destruct (decide (s1 c)) as [H1|H1], (decide (s2 c)) as [H2|H2];
      (split; intros Hn); try (by exfalso; tauto).
    + rewrite (Y2 H2), (Y1 H1). by destruct (chunk_replicas d1 !! (c, n)).
    + by rewrite (N2 H2), (Y1 H1).
    + by rewrite (Y2 H2), (N1 H1).
    + by rewrite (N2 H2), (N1 H1).
  - intros c n r Hsc Hr Hst. destruct (decide (s1 c)) as [H1|H1]; [by eapply G2, Q1|].
    apply Hs in Hsc as [?|H2]; [done|]. eapply Q2; [done| |done].
    by rewrite (proj2 (R1 c n) H1).
  - intros c n Hq. by apply G2, G1.
  - congruence.
  - congruence.
  - congruence.
  - intros c. by rewrite C2, C1.
  - done.
Qed.

Lemma retire_objects_spec now ids d :
  schema_ok d ->
  exists d', tx_for ids (enqueueObjectChunkDeletions now) d = Ok (tt, d') /\
    retired now (from_objects d ids) d d'.
Proof.
  revert d. induction ids as [|o ids IH]; intros d Hs.
  - exists d. split; [done|]. split; try done.
    + intros c n. split; [|done]. unfold from_objects. destruct (_ ≫= _) eqn:E; [set_solver|done].
    + intros c n r. unfold from_objects. destruct (_ ≫= _) eqn:E; [set_solver|done].
    + by intros c n.
  - destruct (enqueueObjectChunkDeletions_spec now o d Hs) as (d1&H1&R1).
    destruct (IH d1 (rt_schema _ _ _ _ R1)) as (d2&H2&R2).
    exists d2. split; [simpl; unfold tx_bind; by rewrite H1|].
    apply (retired_trans now (chunk_of_object d o) (from_objects d1 ids) _ _ d1); [exact R1|exact R2|].
    intros c. unfold from_objects, chunk_of_object.
    rewrite (chunk_owner_strip d d1 c) by apply (rt_chunks _ _ _ _ R1).
    destruct (_ ≫= _) as [o'|]; [|naive_solver].
    rewrite elem_of_cons. naive_solver.
Qed.

(** What retiring versions does to their rows. *)
Definition delete_row (now : Z) (o : object_row) : object_row :=
  o <| ob_state := ObjectDeleting |> <| ob_deleted_at := Some now |> <| ob_updated_at := now |>.

Definition superseded (d : db) (b k : string) (o o' : N) : Prop :=
  o' <> o /\ exists r, objects d !! o' = Some r /\ is_current b k r.

Lemma supersede_spec now b k o d :
  schema_ok d ->
  exists d1 d', supersedeCurrentVersion now b k o d = Ok (tt, d') /\
    d1 = d <| objects := update_where (fun i r => is_current b k r /\ i <> o) (delete_row now) (objects d) |> /\
    retired now (from_objects d (rows_where (fun i r => is_current b k r /\ i <> o) (objects d)).*1) d1 d'.
Proof.
  intros Hs.
  destruct (update_objects_run (fun i r => is_current b k r /\ i <> o) (delete_row now) d Hs)
    as (d1&H1&Hd1&Hs1).
  { intros i r Hr _. apply (so_objects _ Hs i r Hr). }
  { apply current_idx_retire; [apply Hs|done]. }
  destruct (retire_objects_spec now
    (rows_where (fun i r => is_current b k r /\ i <> o) (objects d)).*1 d1 Hs1) as (d2&H2&R2).
  exists d1, d2. split_and!; [|done|].
  - unfold supersedeCurrentVersion. unfold tx_bind at 1, gets. unfold tx_bind.
    unfold delete_row in H1. rewrite H1. done.
  - by rewrite Hd1 in R2 |- *.
Qed.

(** ** CompleteUpload *)

(** The key's readable version is the row found under it. *)
Lemma HeadObject_current d b k o r :
  schema_ok d -> objects d !! o = Some r -> is_current b k r ->
  HeadObject b k d = (Ok (scanObject o r), d).
Proof.
  intros Hs Ho Hc. pose proof (HeadObject_spec b k d Hs) as Hh.
  destruct (HeadObject b k d) as [[obj|e] d']; cycle 1.
  { destruct Hh as (_&_&Hno). by destruct (Hno o r). }
  destruct Hh as (->&r'&Hr'&Hc'&Hobj).
  assert (o_ID obj = o) as Heq.
  { destruct Hc as (Hb&Hk&Hst), Hc' as (Hb'&Hk'&Hst').
    apply (proj1 (unique_on_spec _ _ _) (so_current _ Hs) _ r' _ r); try done. congruence. }
  rewrite Heq in *. rewrite Ho in Hr'. injection Hr' as <-. by rewrite Hobj.
Qed.

(** Promoting [o] once every other COMPLETE version of its key is gone. *)
Lemma promote_run now size cnt etag o r d :
  schema_ok d -> (0 <= size)%Z -> (0 <= cnt)%Z -> objects d !! o = Some r ->
  (forall o' r', objects d !! o' = Some r' -> is_current (ob_bucket r) (ob_key r) r' -> o' = o) ->
  exists d', update_objects (fun k _ => k = o) (complete_row now size cnt etag) d
               = Ok (count_where (fun k _ => k = o) (objects d), d') /\
    d' = d <| objects := update_where (fun k _ => k = o) (complete_row now size cnt etag) (objects d) |> /\
    schema_ok d'.
Proof.
  intros Hs Hsz Hcnt Ho Hno. apply update_objects_run; [done| |].
  - intros k r' Hr' ->. destruct (so_objects _ Hs o r' Hr') as (_&?&_). done.
  - apply unique_on_spec. pose proof (proj1 (unique_on_spec _ _ _) (so_current _ Hs)) as Hu.
    intros k1 v1 k2 v2 (r1&Hr1&->)%lookup_update_where_Some (r2&Hr2&->)%lookup_update_where_Some.
    repeat case_decide; subst; try done; intros Hc1 Hc2 [= Hb Hk].
    + simpl in *. rewrite Ho in Hr1. injection Hr1 as <-. symmetry. by eapply (Hno k2 r2).
    + simpl in *. rewrite Ho in Hr2. injection Hr2 as <-. by eapply (Hno k1 r1).
    + eapply Hu; eauto. congruence.
Qed.

Lemma from_superseded d b k o c :
  from_objects d (rows_where (fun i r => is_current b k r /\ i <> o) (objects d)).*1 c <->
  exists o', superseded d b k o o' /\ chunk_of_object d o' c.
Proof.
  unfold from_objects, chunk_of_object, superseded. destruct (_ ≫= _) as [o'|]; [|naive_solver].
  rewrite list_elem_of_fmap. split.
  - intros ([i r]&->&Hin). apply elem_of_rows_where in Hin as (Hr&Hc&Hne). simpl in *. eauto 10.
  - intros (o1&(Hne&r&Hr&Hc)&[= ->]). exists (o1, r). split; [done|]. by apply elem_of_rows_where.
Qed.

(** The run of the transaction once its checks pass, and what they are. *)
Lemma CompleteUpload_run now o size cnt etag r d :
  schema_ok d -> (0 <= size)%Z -> objects d !! o = Some r -> ob_state r = ObjectUploading ->
  object_chunk_count d o = cnt -> object_committed_count d o = cnt ->
  exists d1 d2 d3,
    CompleteUpload now o size cnt etag d = (Ok (scanObject o (complete_row now size cnt etag r)), d3) /\
    d1 = d <| objects := update_where (fun i r0 => is_current (ob_bucket r) (ob_key r) r0 /\ i <> o) (delete_row now) (objects d) |> /\
    retired now (from_objects d (rows_where (fun i r0 => is_current (ob_bucket r) (ob_key r) r0 /\ i <> o) (objects d)).*1) d1 d2 /\
    objects d2 !! o = Some r /\
    d3 = d2 <| objects := update_where (fun k _ => k = o) (complete_row now size cnt etag) (objects d2) |> /\ schema_ok d3.
Proof.
  intros Hs Hsz Ho Hst Htot Hcom. unfold CompleteUpload, inTx, CompleteUpload_tx, tx_bind, gets, require.
  rewrite Ho, bool_decide_true by done. simpl. rewrite bool_decide_true by done. simpl.
  destruct (supersede_spec now (ob_bucket r) (ob_key r) o d Hs) as (d1&d2&Hrun&Hd1&Hrt).
  rewrite Hrun. simpl.
  assert (objects d2 = update_where (fun i r0 => is_current (ob_bucket r) (ob_key r) r0 /\ i <> o)
            (delete_row now) (objects d)) as Hobj2 by (by rewrite (rt_objects _ _ _ _ Hrt), Hd1).
  assert (objects d2 !! o = Some r) as Ho2.
  { rewrite Hobj2, lookup_update_where, Ho. simpl. rewrite decide_False; [done|tauto]. }
  destruct (promote_run now size cnt etag o r d2) as (d3&Hup&Hd3&Hs3); try done.
  { apply (rt_schema _ _ _ _ Hrt). }
  { subst cnt. unfold object_chunk_count, count_where. lia. }
  { intros o' r'. rewrite Hobj2. intros (r0&Hr0&->)%lookup_update_where_Some Hc.
    destruct (decide (o' = o)) as [|Hne]; [done|]. exfalso. case_decide as Hd.
    - destruct Hc as (_&_&Hc). done.
    - apply Hd. done. }
  rewrite Hup. simpl. by exists d1, d2, d3.
Qed.

Lemma CompleteUpload_inv now o size cnt etag d obj d' :
  CompleteUpload now o size cnt etag d = (Ok obj, d') ->
  exists r, objects d !! o = Some r /\ ob_state r = ObjectUploading /\
    object_chunk_count d o = cnt /\ object_committed_count d o = cnt.
Proof.
  unfold CompleteUpload, inTx, CompleteUpload_tx, tx_bind, gets, require.
  destruct (objects d !! o) as [r|]; [|done]. case_bool_decide; simpl; [|done]. case_bool_decide; simpl; [|done].
  intros _. exists r. naive_solver.
Qed.

(** C13: publishing an upload is exact on every branch. On an integral database
    [CompleteUpload] succeeds exactly when the version is UPLOADING and both
    its chunk count and its committed chunk count equal the count the gateway
    uploaded, and never fails on a constraint. On success readers see the new
    version at once, the version it replaces is DELETING with all its replicas
    DELETING and their deletion queued, and no other object or replica
    changes. On NotFound, Conflict and DurabilityNotMet nothing changes. *)
Theorem CompleteUpload_exact (now : Z) (o : N) (size cnt : Z) (etag : string) (d : db) :
  schema_ok d -> (0 <= size)%Z ->
  match CompleteUpload now o size cnt etag d with
  | (Ok obj, d') => exists r,
      objects d !! o = Some r /\ ob_state r = ObjectUploading /\
      object_chunk_count d o = cnt /\ object_committed_count d o = cnt /\
      obj = scanObject o (complete_row now size cnt etag r) /\
      HeadObject (ob_bucket r) (ob_key r) d' = (Ok obj, d') /\
      let retired_id := superseded d (ob_bucket r) (ob_key r) o in
      (forall o', retired_id o' -> objects d' !! o' = delete_row now <$> objects d !! o') /\
      (forall o', o' <> o -> ~ retired_id o' -> objects d' !! o' = objects d !! o') /\
      (forall c n rp, chunk_replicas d !! (c, n) = Some rp ->
         ((exists o', retired_id o' /\ chunk_of_object d o' c) ->
            chunk_replicas d' !! (c, n) = Some (retire_row now rp) /\
            (cr_state rp <> ReplicaDeleting -> deletion_queued d' c n)) /\
         (~ (exists o', retired_id o' /\ chunk_of_object d o' c) ->
            chunk_replicas d' !! (c, n) = Some rp))
  | (Err ErrNotFound, d') => d' = d /\ objects d !! o = None
  | (Err ErrConflict, d') => d' = d /\
      exists r, objects d !! o = Some r /\ ob_state r <> ObjectUploading
  | (Err ErrDurabilityNotMet, d') => d' = d /\
      exists r, objects d !! o = Some r /\ ob_state r = ObjectUploading /\
        ~ (object_chunk_count d o = cnt /\ object_committed_count d o = cnt)
  | (Err _, _) => False
  end.
Proof.
  intros Hs Hsz. destruct (CompleteUpload now o size cnt etag d) as [[obj|e] d'] eqn:Hrun; cycle 1.
  { pose proof Hrun as Hfail. unfold CompleteUpload, inTx, CompleteUpload_tx, tx_bind, gets, require in Hfail.
    destruct (objects d !! o) as [r|] eqn:Ho; [|by injection Hfail as <- <-].
    destruct (decide (ob_state r = ObjectUploading)) as [Hst|Hst]; cycle 1.
    { rewrite bool_decide_false in Hfail by done. injection Hfail as <- <-. eauto. }
    rewrite bool_decide_true in Hfail by done. simpl in Hfail.
    destruct (decide (object_chunk_count d o = cnt /\ object_committed_count d o = cnt)) as [Hcnt|Hcnt]; cycle 1.
    { rewrite bool_decide_false in Hfail by done. injection Hfail as <- <-. eauto 6. }
    destruct (CompleteUpload_run now o size cnt etag r d) as (d1&d2&d3&Hok&_); [tauto..|]. by rewrite Hok in Hrun. }
  destruct (CompleteUpload_inv _ _ _ _ _ _ _ _ Hrun) as (r&Ho&Hst&Htot&Hcom).
  destruct (CompleteUpload_run now o size cnt etag r d) as (d1&d2&d3&Hrun3&Hd1&Hrt&Ho2&Hd3&Hs3); [done..|].
  rewrite Hrun3 in Hrun. injection Hrun as <- <-.
  assert (objects d2 = update_where (fun i r0 => is_current (ob_bucket r) (ob_key r) r0 /\ i <> o)
            (delete_row now) (objects d)) as Hobj2 by (by rewrite (rt_objects _ _ _ _ Hrt), Hd1).
  exists r. cbv zeta. split_and!; try done.
  - apply HeadObject_current; [done| |done].
    rewrite Hd3. simpl. rewrite lookup_update_where, Ho2. simpl. by rewrite decide_True.
  - intros o' (Hne&r'&Hr'&Hc). rewrite Hd3. simpl.
    rewrite lookup_update_where, Hobj2, lookup_update_where, Hr'. simpl.
    by rewrite decide_False, decide_True.
  - intros o' Hne Hnot. rewrite Hd3. simpl. rewrite lookup_update_where, Hobj2, lookup_update_where.
    destruct (objects d !! o') as [r'|] eqn:Hr'; [|done]. simpl.
    rewrite !decide_False; [done| |done]. intros [Hc _]. apply Hnot. split; eauto.
  - intros c n rp Hrp. rewrite <-from_superseded. destruct (rt_replicas _ _ _ _ Hrt c n) as [Hy Hn].
    assert (chunk_replicas d3 = chunk_replicas d2) as -> by (by rewrite Hd3).
    assert (chunk_replicas d1 !! (c, n) = Some rp) as Hrp1 by (by rewrite Hd1).
    split; intros Hsel.
    + rewrite (Hy Hsel), Hrp1. split; [done|]. intros Hnd.
      assert (deletion_queued d2 c n) by (by eapply (rt_queued _ _ _ _ Hrt)).
      by rewrite Hd3.
    + by rewrite (Hn Hsel).
Qed.

(** An overwrite of the sample object, about to be published. *)
Definition sample_overwrite : list call := [
  C_BeginUpload 11 20 "photos" "cat.jpg" "image/jpeg" 8;
  C_AllocateChunk 21 21 (mkOwner (Some 11%N) None) 0 5 ["n1"; "n3"];
  C_CommitChunk 22 21 sample_digest 5 ["n1"; "n3"] [] 2
].
Definition sample_pending : db :=
  run_trace (PG:=c_locale) (fun s => s) sample_overwrite sample_db.
Lemma sample_pending_reachable : reachable (PG:=c_locale) (fun s => s) sample_pending.
Proof. apply reachable_trace, sample_reachable. Qed.
Lemma sample_pending_schema : schema_ok sample_pending.
Proof. apply (reachable_schema (PG:=c_locale) (fun s => s)), sample_pending_reachable. Qed.

Lemma CompleteUpload_exact_witness :
  exists obj d', CompleteUpload 30 11 5 1 "etag2" sample_pending = (Ok obj, d') /\
    HeadObject "photos" "cat.jpg" d' = (Ok obj, d') /\
    (cr_state <$> chunk_replicas d' !! (20%N, "n3")) = Some ReplicaDeleting.
Proof.
  assert (0 <= 5)%Z as H5 by lia.
  pose proof (CompleteUpload_exact 30 11 5 1 "etag2" sample_pending
                sample_pending_schema H5) as Hspec.
  destruct (CompleteUpload 30 11 5 1 "etag2" sample_pending) as [[obj|e] d'] eqn:Hc.
  - exists obj, d'. destruct Hspec as (r&Hr&_&_&_&_&Hh&_).
    assert (ob_bucket r = "photos" /\ ob_key r = "cat.jpg") as [Hb Hk].
    { revert Hr. vm_compute. intros [= <-]. split; reflexivity. }
    rewrite Hb, Hk in Hh. split_and!; [reflexivity|exact Hh|].
    change d' with ((Ok (E:=store_error) obj, d').2). rewrite <-Hc. vm_compute. reflexivity.
  - apply (f_equal fst) in Hc. revert Hc. vm_compute. discriminate.
Defined.
