(* ===== verification/Visibility.v ===== *)
(** * Which calls a reader can notice

    A key's readable version changes only by CompleteUpload,
    CompleteMultipartUpload or DeleteObject on that key. *)

From stdpp Require Import gmap strings list sorting.
From S2P Require Import Prelude Sql Schema Statements Chunks Frames Runs Deletions Objects Nodes Repair Gc Reconcile Multipart Store ChunkInv CompleteInv Reads Uploads.

(** The databases agree on the COMPLETE version of (b, k). *)
Definition same_current (b k : string) (d0 d : db) : Prop :=
  forall o r, is_current b k r -> (objects d !! o = Some r <-> objects d0 !! o = Some r).

Lemma same_current_objects b k d0 d d' :
  objects d' = objects d -> same_current b k d0 d -> same_current b k d0 d'.
Proof. intros He Hv o r Hc. rewrite He. by apply Hv. Qed.

Lemma same_current_head b k d0 d :
  schema_ok d0 -> schema_ok d -> same_current b k d0 d ->
  (HeadObject b k d).1 = (HeadObject b k d0).1.
Proof.
  intros Hs0 Hs Hv. pose proof (HeadObject_spec b k d Hs) as H1.
  destruct (HeadObject b k d) as [[obj|e] d1].
  - destruct H1 as (->&r&Hr&Hc&->). simpl in *.
    apply (Hv _ _ Hc) in Hr. by rewrite (HeadObject_current d0 b k _ r Hs0 Hr Hc).
  - destruct H1 as (->&->&Hno). pose proof (HeadObject_spec b k d0 Hs0) as H0.
    destruct (HeadObject b k d0) as [[obj|e] d1].
    + destruct H0 as (->&r&Hr&Hc&->). apply (Hv _ _ Hc) in Hr. by destruct (Hno _ _ Hr).
    + by destruct H0 as (_&->&_).
Qed.

Section frames.
Context (b k : string) (d0 : db).
Abbreviation I := (same_current b k d0).

Lemma seen_put_nodes : frames_nodes I.
Proof. by intros m d u d' Hd (_&->)%put_nodes_ok. Qed.
Lemma seen_put_uploads : frames_uploads I.
Proof. by intros m d u d' Hd (_&_&->)%put_uploads_ok. Qed.
Lemma seen_put_parts : frames_parts I.
Proof. by intros m d u d' Hd (_&_&_&->)%put_parts_ok. Qed.
Lemma seen_put_chunks : frames_chunks I.
Proof. by intros m d u d' Hd (_&_&_&_&_&->)%put_chunks_ok. Qed.
Lemma seen_put_replicas : frames_replicas I.
Proof.
  intros ts m d u d' Hd (_&_&->)%put_replicas_ok. eapply same_current_objects, Hd.
  by rewrite trigger_objects.
Qed.
Lemma seen_put_deletions : frames_deletions I.
Proof. by intros m d u d' Hd (_&->)%put_deletions_ok. Qed.
Lemma seen_put_repairs : frames_repairs I.
Proof. by intros m d u d' Hd (_&_&->)%put_repairs_ok. Qed.
Lemma seen_put_reconciles : frames_reconciles I.
Proof. by intros m d u d' Hd (_&_&->)%put_reconciles_ok. Qed.
Lemma seen_sequences : ignores_sequences I.
Proof. by intros d x y z Hd. Qed.

(** An UPDATE that neither takes nor produces the current version. *)
Definition avoids_current (P : N -> object_row -> Prop) (f : object_row -> object_row) : Prop :=
  forall i r, P i r -> ~ is_current b k r /\ ~ is_current b k (f r).

Lemma seen_update_objects_at P `{!forall i v, Decision (P i v)} f d n d' :
  (forall i r, objects d !! i = Some r -> P i r -> ~ is_current b k r /\ ~ is_current b k (f r)) ->
  I d -> update_objects P f d = Ok (n, d') -> I d'.
Proof.
  intros HP Hd [_ ->]%update_objects_ok o r Hc. rewrite <-(Hd o r Hc). simpl.
  rewrite lookup_update_where. destruct (objects d !! o) as [r0|] eqn:Hr0; simpl; [|done].
  case_decide as Hp; [|done]. destruct (HP o r0 Hr0 Hp) as [H1 H2].
  split; intros [= <-]; done.
Qed.
Lemma seen_update_objects P `{!forall i v, Decision (P i v)} f :
  avoids_current P f -> tx_keeps I (update_objects P f).
Proof. intros HP d n d' Hd. eapply seen_update_objects_at; [|done]. intros i r _. by apply HP. Qed.
Lemma seen_insert_object i r : ~ is_current b k r -> tx_keeps I (insert_object i r).
Proof.
  intros Hr d u d' Hd [Hi ->]%insert_object_ok o r' Hc. rewrite <-(Hd o r' Hc). simpl.
  destruct (decide (o = i)) as [->|Hne]; [|by rewrite lookup_insert_ne].
  rewrite lookup_insert_eq, Hi. split; [intros [= <-]; done|done].
Qed.
Lemma seen_delete_chunks P `{!forall i v, Decision (P i v)} : tx_keeps I (delete_chunks P).
Proof. intros d n d' Hd Hr. unfold delete_chunks in Hr. by tx_inv Hr. Qed.
Lemma seen_delete_uploads P `{!forall i v, Decision (P i v)} : tx_keeps I (delete_uploads P).
Proof. intros d n d' Hd Hr. unfold delete_uploads in Hr. by tx_inv Hr. Qed.
Lemma seen_delete_objects P `{!forall i v, Decision (P i v)} d n d' :
  (forall i r, objects d !! i = Some r -> P i r -> ~ is_current b k r) ->
  I d -> delete_objects P d = Ok (n, d') -> I d'.
Proof.
  intros HP Hd Hr. unfold delete_objects in Hr. tx_inv Hr. intros o r Hc.
  rewrite <-(Hd o r Hc). simpl. rewrite lookup_delete_where_Some. split; [tauto|].
  intros Ho. split; [done|]. intros Hp. by eapply HP.
Qed.
End frames.

#[local] Hint Resolve seen_put_nodes seen_put_uploads seen_put_parts seen_put_chunks
  seen_put_replicas seen_put_deletions seen_put_repairs seen_put_reconciles seen_sequences
  seen_delete_chunks seen_delete_uploads : frames.
#[local] Hint Resolve seen_update_objects seen_insert_object | 1 : frames.

Ltac not_current := unfold avoids_current, is_current; simpl; naive_solver congruence.
#[local] Hint Extern 2 (avoids_current _ _ _ _) => solve [not_current] : frames.
#[local] Hint Extern 2 (~ is_current _ _ _) => solve [not_current] : frames.

Section operations.
Context `{PG : !Postgres} (b k : string) (d0 : db).

Lemma seen_verify : op_keeps (same_current b k d0) VerifyDurabilityCounters.
Proof. unfold VerifyDurabilityCounters. preserve. apply seen_put_chunks. Qed.
Lemma seen_reparent o u : tx_keeps (same_current b k d0) (reparent_chunks o u).
Proof. unfold reparent_chunks. preserve. apply seen_put_chunks. Qed.

Lemma seen_supersede now b' k' o :
  (b', k') <> (b, k) -> tx_keeps (same_current b k d0) (supersedeCurrentVersion now b' k' o).
Proof.
  intros Hne. unfold supersedeCurrentVersion, enqueueObjectChunkDeletions, enqueue_deletions_for.
  preserve.
Qed.

Lemma seen_fail_stale now id f r0 :
  objects d0 !! id = Some r0 -> ob_state r0 = ObjectUploading ->
  (forall r, ob_state (f r) = ObjectFailed) ->
  tx_keeps (same_current b k d0)
    (do! update_objects (fun i _ => i = id) f in orphanObjectChunks now id).
Proof.
  intros Hr0 Hst Hf. apply tx_keeps_bind.
  - intros d n d' Hd. apply seen_update_objects_at; [|done]. intros i r Hr ->. split.
    + intros Hc. apply (Hd id r Hc) in Hr. destruct Hc as (_&_&Hc). congruence.
    + intros (_&_&Hc). rewrite Hf in Hc. done.
  - intros _. unfold orphanObjectChunks, enqueueObjectChunkDeletions, enqueue_deletions_for.
    preserve.
Qed.

(** Promoting a row of another key. *)
Lemma seen_promote now size cnt etag o r d n d' :
  objects d !! o = Some r -> (ob_bucket r, ob_key r) <> (b, k) -> same_current b k d0 d ->
  update_objects (fun i _ => i = o) (complete_row now size cnt etag) d = Ok (n, d') ->
  same_current b k d0 d'.
Proof.
  intros Ho Hne. apply seen_update_objects_at. intros i r' Hr' ->.
  rewrite Ho in Hr'. injection Hr' as <-. unfold is_current. simpl.
  split; intros (<-&<-&_); done.
Qed.

Lemma seen_CompleteUpload now o size cnt etag d u d' :
  (forall r, objects d !! o = Some r -> (ob_bucket r, ob_key r) <> (b, k)) ->
  same_current b k d0 d -> CompleteUpload_tx now o size cnt etag d = Ok (u, d') ->
  same_current b k d0 d'.
Proof.
  intros Hne Hd Hr. unfold CompleteUpload_tx in Hr.
  apply tx_bind_ok in Hr as (row&d1&[-> ->]%gets_ok&Hr).
  destruct (objects d !! o) as [r|] eqn:Ho; [|by tx_inv Hr]. specialize (Hne r eq_refl).
  apply tx_bind_ok in Hr as ([]&d1&[_ ->]%require_ok&Hr).
  do 2 apply tx_bind_ok in Hr as (?&d1&[-> ->]%gets_ok&Hr).
  apply tx_bind_ok in Hr as ([]&d1&[_ ->]%require_ok&Hr).
  apply tx_bind_ok in Hr as ([]&d1&Hs&Hr).
  apply tx_bind_ok in Hr as (n&d2&Hu&[-> ->]%tx_ret_ok).
  assert (view_of d o d1) as [_ Ho1] by (eapply view_supersede; [|exact Hs]; done).
  eapply seen_promote; [|exact Hne| |exact Hu]; [congruence|].
  eapply seen_supersede; [exact Hne|exact Hd|exact Hs].
Qed.

Lemma seen_CompleteMultipartUpload sha256 fresh now u expected d r d' :
  (forall up, multipart_uploads d !! u = Some up -> (mu_bucket up, mu_key up) <> (b, k)) ->
  same_current b k d0 d ->
  CompleteMultipartUpload_tx sha256 fresh now u expected d = Ok (r, d') -> same_current b k d0 d'.
Proof.
  intros Hne Hd Hr. unfold CompleteMultipartUpload_tx in Hr.
  apply tx_bind_ok in Hr as (row&d1&[-> ->]%gets_ok&Hr).
  destruct (multipart_uploads d !! u) as [up|]; [|by tx_inv Hr]. specialize (Hne up eq_refl).
  apply tx_bind_ok in Hr as ([]&d1&[_ ->]%require_ok&Hr).
  apply tx_bind_ok in Hr as (ps&d1&[-> ->]%gets_ok&Hr).
  do 3 apply tx_bind_ok in Hr as ([]&d1&[_ ->]%require_ok&Hr).
  apply tx_bind_ok in Hr as (v&d1&[-> ->]%gets_ok&Hr).
  apply tx_bind_ok in Hr as ([]&d1&Hins&Hr).
  apply tx_bind_ok in Hr as (n&d2&Hrep&Hr).
  apply tx_bind_ok in Hr as ([]&d3&[_ ->]%require_ok&Hr).
  apply tx_bind_ok in Hr as ([]&d3&Hsup&Hr).
  apply tx_bind_ok in Hr as (n4&d4&Hpro&Hr).
  assert (same_current b k d0 d2) as H2.
  { eapply seen_reparent; [|exact Hrep]. eapply seen_insert_object; [|exact Hd|exact Hins].
    not_current. }
  assert (view_of d2 fresh d3) as [_ Hv] by (eapply view_supersede; [|exact Hsup]; done).
  apply insert_object_ok in Hins as [_ Hd1].
  assert (objects d2 = objects d1) as Ho2.
  { unfold reparent_chunks in Hrep. tx_inv Hrep.
    match goal with Hp : put_chunks _ _ = _ |- _ => by apply put_chunks_ok in Hp as (_&_&_&_&_&->) end. }
  assert (same_current b k d0 d4) as H4.
  { eapply seen_promote; [| | |exact Hpro].
    - rewrite Hv, Ho2, Hd1. simpl. by rewrite lookup_insert_eq.
    - exact Hne.
    - eapply seen_supersede; [exact Hne|exact H2|exact Hsup]. }
  revert H4 Hr. apply tx_keeps_apply. unfold enqueuePartChunkDeletions, enqueue_deletions_for.
  preserve.
Qed.

Lemma seen_ReapStaleUploads now older limit d n d' :
  d0 = d -> (ReapStaleUploads now older limit d) = (n, d') -> same_current b k d0 d'.
Proof.
  intros Heq Hr. assert (same_current b k d0 d) as Hd by (by rewrite Heq).
  assert (objects d0 = objects d) as Hobj by (by rewrite Heq). clear Heq.
  unfold ReapStaleUploads, inTx in Hr.
  destruct (tx_bind _ _ d) as [[n' dn]|e] eqn:E; simplify_eq; [|done].
  apply tx_bind_ok in E as (m&d1&[-> ->]%gets_ok&E).
  apply tx_bind_ok in E as (rows&d1&(_&->&->)%limit_rows_ok&E).
  apply tx_bind_ok in E as ([]&d1&Hf&[-> ->]%tx_ret_ok).
  revert Hd Hf. apply tx_keeps_apply. apply tx_keeps_for. intros id Hid.
  apply list_elem_of_fmap in Hid as ([i r]&->&Hin). apply elem_of_take in Hin as (j&Hin&_).
  apply list_elem_of_lookup_2 in Hin. unfold order_by in Hin.
  rewrite merge_sort_Permutation, scan_perm in Hin.
  apply elem_of_rows_where in Hin as [Hr [Hst _]]. 
  eapply seen_fail_stale; [by rewrite Hobj|done|done].
Qed.

Lemma seen_PurgeReclaimedChunks limit : op_keeps (same_current b k d0) (PurgeReclaimedChunks limit).
Proof.
  apply op_keeps_inTx. intros d x d' Hd Hr.
  apply tx_bind_ok in Hr as (dd&d1&[-> ->]%gets_ok&Hr).
  apply tx_bind_ok in Hr as (cs&d1&(_&->&->)%limit_rows_ok&Hr).
  apply tx_bind_ok in Hr as (n1&d1&Hdc&Hr).
  apply tx_bind_ok in Hr as (dd&d2&[-> ->]%gets_ok&Hr).
  apply tx_bind_ok in Hr as (os&d2&(_&->&->)%limit_rows_ok&Hr).
  apply tx_bind_ok in Hr as (n2&d2&Hdo&[-> ->]%tx_ret_ok).
  eapply seen_delete_objects; [| |exact Hdo]; [|by eapply seen_delete_chunks].
  intros i r Hi Hin Hc. apply list_elem_of_fmap in Hin as ([i' r']&->&Hin).
  apply elem_of_take in Hin as (j&Hin&_). apply list_elem_of_lookup_2 in Hin.
  rewrite scan_perm in Hin. apply elem_of_rows_where in Hin as [Hi' [Hst _]]. simpl in *.
  rewrite Hi in Hi'. injection Hi' as <-. destruct Hc as (_&_&Hc). naive_solver congruence.
Qed.

Lemma seen_DeleteObject now b' k' :
  (b', k') <> (b, k) -> op_keeps (same_current b k d0) (DeleteObject now b' k').
Proof.
  intros Hne. unfold DeleteObject, enqueueObjectChunkDeletions, enqueue_deletions_for. preserve.
Qed.

(** The calls that publish or delete the version of one key. *)
Definition publishes (d : db) (c : call) : Prop :=
  match c with
  | C_CompleteUpload _ o _ _ _ =>
      exists r, objects d !! o = Some r /\ ob_bucket r = b /\ ob_key r = k
  | C_CompleteMultipartUpload _ _ u _ =>
      exists up, multipart_uploads d !! u = Some up /\ mu_bucket up = b /\ mu_key up = k
  | C_DeleteObject _ b' k' => b' = b /\ k' = k
  | _ => False
  end.
End operations.

#[local] Hint Resolve seen_verify seen_PurgeReclaimedChunks : frames.
#[local] Hint Extern 3 (tx_keeps _ (put_nodes _)) => apply seen_put_nodes : frames.

Lemma exec_same_current `{PG : !Postgres} sha256 b k c d :
  ~ publishes b k d c -> same_current b k d (exec sha256 c d).
Proof.
  intros Hp. assert (same_current b k d d) as Hd by done.
  destruct c; simpl in *;
    lazymatch goal with
    | |- same_current _ _ _ (CompleteUpload _ _ _ _ _ _).2 => idtac
    | |- same_current _ _ _ (CompleteMultipartUpload _ _ _ _ _ _).2 => idtac
    | |- same_current _ _ _ (DeleteObject _ _ _ _).2 => idtac
    | |- same_current _ _ _ (ReapStaleUploads _ _ _ _).2 => idtac
    | |- _ => apply (op_keeps_snd (same_current b k d)); [|exact Hd]; first [solve [auto with frames] | preserve_op]
    end.
  - unfold CompleteUpload, inTx. destruct (CompleteUpload_tx _ _ _ _ _ d) as [[u d']|e] eqn:E; [|done].
    eapply seen_CompleteUpload; [|exact Hd|exact E]. intros r Hr [= <- <-]. eauto.
  - apply (op_keeps_snd (same_current b k d)); [|exact Hd]. apply seen_DeleteObject. intros [= <- <-]. eauto.
  - destruct (ReapStaleUploads now olderThan limit d) as [n d'] eqn:E. by eapply seen_ReapStaleUploads.
  - unfold CompleteMultipartUpload, inTx.
    destruct (CompleteMultipartUpload_tx sha256 _ _ _ _ d) as [[u d']|e] eqn:E; [|done].
    eapply seen_CompleteMultipartUpload; [|exact Hd|exact E]. intros r Hr [= <- <-]. eauto.
Qed.

(** No call of the sequence publishes or deletes the key. *)
Fixpoint quiet `{PG : !Postgres} (sha256 : string -> string) (b k : string) (cs : list call) (d : db)
    : Prop :=
  match cs with
  | [] => True
  | c :: cs => ~ publishes b k d c /\ quiet sha256 b k cs (exec sha256 c d)
  end.

(** C14: an overwrite is invisible until it is published. Whatever calls run,
    in any number and order - new uploads of the same key, their chunks being
    allocated and committed, aborts, reaps, node failures, repairs, deletions
    being executed, purges - what [HeadObject] returns for a key stays the same
    as long as none of them is a CompleteUpload, CompleteMultipartUpload or
    DeleteObject of that key. *)
Theorem readers_see_only_published `{PG : !Postgres} (sha256 : string -> string)
    (b k : string) (cs : list call) (d : db) :
  reachable sha256 d -> quiet sha256 b k cs d ->
  (HeadObject b k (run_trace sha256 cs d)).1 = (HeadObject b k d).1.
Proof.
  revert d. induction cs as [|c cs IH]; intros d Hr Hq; [done|]. destruct Hq as [Hp Hq]. simpl.
  assert (reachable sha256 (exec sha256 c d)) as Hr' by by constructor.
  fold (run_trace sha256 cs (exec sha256 c d)). rewrite (IH _ Hr' Hq).
  apply same_current_head; [by eapply reachable_schema..|]. by apply exec_same_current.
Qed.

Lemma readers_see_only_published_witness :
  (HeadObject "photos" "cat.jpg" sample_pending).1 = (HeadObject "photos" "cat.jpg" sample_db).1.
Proof.
  apply (readers_see_only_published (PG:=c_locale) (fun s => s) "photos" "cat.jpg"
           sample_overwrite sample_db sample_reachable).
  cbn [quiet publishes sample_overwrite]. split_and!; exact (fun H => H) || exact Logic.I.
Defined.
