(* ===== verification/Assembly.v ===== *)
(** * Assembling a multipart upload

    CompleteMultipartUpload (src/internal/metadata/multipart.go) publishes the
    concatenation of the completed parts: the chunks keep their content and are
    renumbered 0, 1, 2, ... in (part number, index in part) order. *)

From stdpp Require Import gmap strings list sorting.
From S2P Require Import Prelude Sql Schema Statements Chunks Frames Runs Deletions Objects Nodes Repair Gc Reconcile Multipart Store ChunkInv CompleteInv Reads Uploads.

(** Where a chunk of a completed part stands in the upload. *)
Definition part_position (d : db) (u c : N) : option (Z * Z) :=
  match chunks d !! c with
  | Some ch =>
      match ck_part_id ch ≫= fun p => multipart_parts d !! p with
      | Some p =>
          if bool_decide (complete_part_of u p /\ ck_state ch = ChunkCommitted)
          then Some (mp_part_number p, ck_chunk_index ch) else None
      | None => None
      end
  | None => None
  end.

Definition position_lt (a b : Z * Z) : Prop := (a.1 < b.1)%Z \/ a.1 = b.1 /\ (a.2 < b.2)%Z.

#[export] Instance window_le_trans : Transitive window_le.
Proof. intros [? [? ?]] [? [? ?]] [? [? ?]]. unfold window_le. simpl. lia. Qed.
#[export] Instance window_le_total : Total window_le.
Proof. intros [? [? ?]] [? [? ?]]. unfold window_le. simpl. lia. Qed.

Section assembly.
Context `{PG : !Postgres}.

Lemma part_chunks_position d u c k : (c, k) ∈ part_chunks d u <-> part_position d u c = Some k.
Proof.
  unfold part_chunks, part_position. rewrite list_elem_of_omap. split.
  - intros ([c' ch]&Hin&Heq). apply elem_of_map_to_list in Hin. simpl in Heq.
    destruct (ck_part_id ch ≫= _) as [p|] eqn:Hp; [|done]. case_bool_decide as Hok; [|done].
    injection Heq as -> <-. rewrite Hin, Hp. by rewrite bool_decide_true.
  - destruct (chunks d !! c) as [ch|] eqn:Hc; [|done]. intros Heq. exists (c, ch).
    split; [by apply elem_of_map_to_list|]. simpl.
    destruct (ck_part_id ch ≫= _) as [p|]; [|done]. case_bool_decide; [|done].
    by injection Heq as <-.
Qed.

(** Distinct chunks of an upload have distinct positions. *)
Lemma part_position_inj d u c1 c2 k :
  schema_ok d -> part_position d u c1 = Some k -> part_position d u c2 = Some k -> c1 = c2.
Proof.
  intros Hs H1 H2. unfold part_position in *.
  destruct (chunks d !! c1) as [r1|] eqn:Hc1; [|done].
  destruct (chunks d !! c2) as [r2|] eqn:Hc2; [|done].
  destruct (ck_part_id r1) as [q1|] eqn:Hq1; [|done]. destruct (ck_part_id r2) as [q2|] eqn:Hq2; [|done].
  simpl in *. destruct (multipart_parts d !! q1) as [p1|] eqn:Hp1; [|done].
  destruct (multipart_parts d !! q2) as [p2|] eqn:Hp2; [|done].
  case_bool_decide as Hok1; [|done]. case_bool_decide as Hok2; [|done].
  destruct Hok1 as [[Hu1 Hst1] _], Hok2 as [[Hu2 Hst2] _].
  assert (mp_part_number p1 = mp_part_number p2 /\ ck_chunk_index r1 = ck_chunk_index r2) as [Hn Hi]
    by (split; congruence).
  assert (q1 = q2) as Hq.
  { apply (proj1 (unique_on_spec _ _ _) (so_part_complete _ Hs) q1 p1 q2 p2); try done. congruence. }
  apply (proj1 (unique_on_spec _ _ _) (so_chunk_part_idx _ Hs) c1 r1 c2 r2); try done;
    rewrite ?Hq1, ?Hq2; [done..|]. congruence.
Qed.

Lemma renumbering_spec d u :
  schema_ok d ->
  NoDup (renumbering d u) /\
  (forall c, c ∈ renumbering d u <-> is_Some (part_position d u c)) /\
  forall i j ci cj ki kj, (i < j)%nat ->
    renumbering d u !! i = Some ci -> renumbering d u !! j = Some cj ->
    part_position d u ci = Some ki -> part_position d u cj = Some kj -> position_lt ki kj.
Proof.
  intros Hs. split; [apply NoDup_renumbering|]. split.
  - intros c. unfold renumbering. rewrite list_elem_of_fmap. split.
    + intros ([c' k]&->&Hin). rewrite order_by_perm in Hin. apply part_chunks_position in Hin. eauto.
    + intros [k Hk]. exists (c, k). split; [done|]. rewrite order_by_perm. by apply part_chunks_position.
  - intros i j ci cj ki kj Hij Hi Hj Hki Hkj.
    unfold renumbering in Hi, Hj. rewrite list_lookup_fmap in Hi, Hj.
    apply fmap_Some in Hi as ([c1 k1]&Hi&->). apply fmap_Some in Hj as ([c2 k2]&Hj&->). simpl in *.
    assert (forall x, x ∈ order_by window_le (part_chunks d u) -> part_position d u x.1 = Some x.2) as Hel.
    { intros [c k] Hx. rewrite order_by_perm in Hx. by apply part_chunks_position. }
    assert (k1 = ki) as <- by (apply list_elem_of_lookup_2, Hel in Hi; simpl in Hi; congruence).
    assert (k2 = kj) as <- by (apply list_elem_of_lookup_2, Hel in Hj; simpl in Hj; congruence).
    assert (StronglySorted window_le (order_by window_le (part_chunks d u))) as Hss
      by (apply StronglySorted_merge_sort; apply _).
    assert (window_le (c1, k1) (c2, k2)) as Hle by (by eapply StronglySorted_lookup).
    assert (k1 <> k2) as Hne.
    { intros ->. assert (c1 = c2) as -> by (by eapply part_position_inj).
      assert (i = j); [|lia]. eapply NoDup_lookup; [apply NoDup_renumbering| |];
      unfold renumbering; rewrite list_lookup_fmap, ?Hi, ?Hj; done. }
    unfold window_le, position_lt in *. simpl in *. destruct k1, k2. simpl in *.
    destruct Hle as [?|[? ?]]; [by left|right]. split; [done|].
    assert (z0 <> z2) by (intros ->; subst; done). lia.
Qed.

Lemma position_in_lookup (l : list N) c i :
  NoDup l -> position_in l c = Some i <-> exists k, i = Z.of_nat k /\ l !! k = Some c.
Proof.
  intros Hnd. unfold position_in. rewrite fmap_Some. split.
  - intros ([k x]&Hf&->). apply list_find_Some in Hf as (Hk&->&_). by exists k.
  - intros (k&->&Hk). exists (k, c). split; [|done]. apply list_find_Some.
    split_and!; [done|done|]. intros j y Hj Hlt ->.
    assert (j = k); [by eapply NoDup_lookup|lia].
Qed.

(** ** What the statements after the renumbering leave alone *)

Definition tail_view (d0 d : db) : Prop :=
  objects d = objects d0 /\ multipart_parts d = multipart_parts d0 /\
  forall c, strip_counter <$> chunks d !! c = strip_counter <$> chunks d0 !! c.

Lemma tail_put_replicas d0 : frames_replicas (tail_view d0).
Proof.
  intros ts m d u d' (Ho&Hp&Hc) (_&_&->)%put_replicas_ok. split_and!.
  - by rewrite trigger_objects.
  - by rewrite trigger_parts.
  - intros c. by rewrite trigger_strip.
Qed.
Lemma tail_put_deletions d0 : frames_deletions (tail_view d0).
Proof. by intros m d u d' Hd (_&->)%put_deletions_ok. Qed.
Lemma tail_sequences d0 : ignores_sequences (tail_view d0).
Proof. by intros d x y z Hd. Qed.
Hint Resolve tail_put_replicas tail_put_deletions tail_sequences : frames.

Lemma tail_enqueuePart d0 now u : tx_keeps (tail_view d0) (enqueuePartChunkDeletions now u).
Proof. unfold enqueuePartChunkDeletions, enqueue_deletions_for. preserve. Qed.

Definition supersede_view (d0 d : db) : Prop :=
  multipart_parts d = multipart_parts d0 /\
  forall c, strip_counter <$> chunks d !! c = strip_counter <$> chunks d0 !! c.

Lemma supersede_put_replicas d0 : frames_replicas (supersede_view d0).
Proof.
  intros ts m d u d' (Hp&Hc) (_&_&->)%put_replicas_ok. split; [by rewrite trigger_parts|].
  intros c. by rewrite trigger_strip.
Qed.
Lemma supersede_put_deletions d0 : frames_deletions (supersede_view d0).
Proof. by intros m d u d' Hd (_&->)%put_deletions_ok. Qed.
Lemma supersede_put_objects d0 : frames_objects (supersede_view d0).
Proof. by intros m d u d' Hd (_&_&->)%put_objects_ok. Qed.
Lemma supersede_sequences d0 : ignores_sequences (supersede_view d0).
Proof. by intros d x y z Hd. Qed.
Hint Resolve supersede_put_replicas supersede_put_deletions supersede_put_objects
  supersede_sequences : frames.

Lemma supersede_keeps_chunks d0 now b k o :
  tx_keeps (supersede_view d0) (supersedeCurrentVersion now b k o).
Proof.
  unfold supersedeCurrentVersion, enqueueObjectChunkDeletions, enqueue_deletions_for. preserve.
Qed.

(** The tail of the transaction: retiring and orphaning what was not assembled. *)
Lemma assembly_tail now u (fresh : N) (obj : Object) d a d' :
  (do! enqueuePartChunkDeletions now u in
   let! d := gets (fun d => d) in
   do! update_chunks (fun _ c =>
         (ck_part_id c ≫= fun p => mp_upload_id <$> multipart_parts d !! p) = Some u)
         (fun c => c <| ck_state := ChunkOrphaned |>) in
   do! update_uploads (fun k _ => k = u)
         (fun u => u <| mu_state := MultipartCompleted |> <| mu_object_id := Some fresh |>
                     <| mu_completed_at := Some now |> <| mu_updated_at := now |>) in
   tx_ret obj) d = Ok (a, d') ->
  a = obj /\ objects d' = objects d /\
  (forall c ch, chunks d !! c = Some ch -> ck_part_id ch = None ->
     exists ch', chunks d' !! c = Some ch' /\ strip_counter ch' = strip_counter ch) /\
  (forall c ch', chunks d' !! c = Some ch' -> exists ch, chunks d !! c = Some ch /\
     ck_object_id ch' = ck_object_id ch).
Proof.
  intros Hr. apply tx_bind_ok in Hr as ([]&d1&H1&Hr).
  apply tx_bind_ok in Hr as (dd&d2&[-> ->]%gets_ok&Hr).
  apply tx_bind_ok in Hr as (n2&d2&[_ Hd2]%update_chunks_ok&Hr).
  apply tx_bind_ok in Hr as (n3&d3&[_ Hd3]%update_uploads_ok&[-> ->]%tx_ret_ok).
  assert (tail_view d d1) as (Ho&_&Hc) by (eapply tail_enqueuePart; [|exact H1]; done).
  split_and!; [done|by rewrite Hd3, Hd2| |].
  - intros c ch Hch Hp. specialize (Hc c). rewrite Hch in Hc. simpl in Hc.
    apply fmap_Some in Hc as (ch1&Hch1&Heq). exists ch1. split; [|done].
    rewrite Hd3, Hd2. simpl. rewrite lookup_update_where, Hch1. simpl. rewrite decide_False; [done|].
    symmetry in Heq. apply strip_counter_eq in Heq as (_&Hpp&_). by rewrite Hpp, Hp.
  - intros c ch' Hch'. rewrite Hd3, Hd2 in Hch'. simpl in Hch'.
    apply lookup_update_where_Some in Hch' as (ch1&Hch1&->). specialize (Hc c). rewrite Hch1 in Hc.
    symmetry in Hc. apply fmap_Some in Hc as (ch&Hch&Heq). exists ch. split; [done|].
    apply strip_counter_eq in Heq as (Hob&_). rewrite <-Hob. by case_decide.
Qed.

(** ** The steps of the transaction *)

Definition completed_parts (d : db) (u : N) : list (N * part_row) :=
  order_by part_number_le (rows_where (fun _ p => complete_part_of u p) (multipart_parts d)).

Definition assembled_row (up : upload_row) (version now : Z) : object_row :=
  mkObject (mu_bucket up) (mu_key up) version ObjectUploading 0 (mu_chunk_size up) 0
    None (mu_content_type up) None now now None None.

Lemma assembly_steps sha256 fresh now u expected d r d' :
  CompleteMultipartUpload_tx sha256 fresh now u expected d = Ok (r, d') ->
  exists up etag version n d1 d2 d3 d4 n4,
    multipart_uploads d !! u = Some up /\ mu_state up = MultipartInProgress /\
    completed_parts d u <> [] /\
    insert_object fresh (assembled_row up version now) d = Ok (tt, d1) /\
    reparent_chunks fresh u d1 = Ok (n, d2) /\
    n = foldl (fun acc kp => int32 (acc + mp_chunk_count kp.2)) 0%Z (completed_parts d u) /\
    supersedeCurrentVersion now (mu_bucket up) (mu_key up) fresh d2 = Ok (tt, d3) /\
    let size := foldl (fun acc kp => int64 (acc + mp_size_bytes kp.2)) 0%Z (completed_parts d u) in
    update_objects (fun k _ => k = fresh) (complete_row now size n etag) d3 = Ok (n4, d4) /\
    r = scanObject fresh (complete_row now size n etag (assembled_row up version now)) /\
    objects d' = objects d4 /\
    (forall c ch, chunks d4 !! c = Some ch -> ck_part_id ch = None ->
       exists ch', chunks d' !! c = Some ch' /\ strip_counter ch' = strip_counter ch) /\
    (forall c ch', chunks d' !! c = Some ch' -> exists ch, chunks d4 !! c = Some ch /\
       ck_object_id ch' = ck_object_id ch).
Proof.
  intros Hr. unfold CompleteMultipartUpload_tx in Hr.
  apply tx_bind_ok in Hr as (row&d1&[-> ->]%gets_ok&Hr).
  destruct (multipart_uploads d !! u) as [up|] eqn:Hup; [|by tx_inv Hr].
  apply tx_bind_ok in Hr as ([]&d1&[Hst%bool_decide_eq_true ->]%require_ok&Hr).
  apply tx_bind_ok in Hr as (ps&d1&[-> ->]%gets_ok&Hr).
  fold (completed_parts d u) in Hr.
  apply tx_bind_ok in Hr as ([]&d1&[_ ->]%require_ok&Hr).
  apply tx_bind_ok in Hr as ([]&d1&[Hne ->]%require_ok&Hr).
  apply negb_true_iff, bool_decide_eq_false in Hne.
  apply tx_bind_ok in Hr as ([]&d1&[_ ->]%require_ok&Hr).
  apply tx_bind_ok in Hr as (v&d1&[-> ->]%gets_ok&Hr).
  apply tx_bind_ok in Hr as ([]&d1&Hins&Hr).
  apply tx_bind_ok in Hr as (n&d2&Hrep&Hr).
  apply tx_bind_ok in Hr as ([]&d3&[Hn%bool_decide_eq_true ->]%require_ok&Hr).
  apply tx_bind_ok in Hr as ([]&d3&Hsup&Hr).
  apply tx_bind_ok in Hr as (n4&d4&Hpro&Hr). rewrite <-Hn in Hpro, Hr.
  apply assembly_tail in Hr as (->&Hobj&Hfw&Hbw).
  eexists up, _, _, n, d1, d2, d3, d4, n4. split_and!; done.
Qed.
End assembly.

(** Chunks of the new object, before and after. *)
Lemma assembled_chunks `{PG : !Postgres} sha256 fresh now u expected d r d' :
  schema_ok d -> CompleteMultipartUpload_tx sha256 fresh now u expected d = Ok (r, d') ->
  (forall c i ch, renumbering d u !! i = Some c -> chunks d !! c = Some ch ->
     exists ch', chunks d' !! c = Some ch' /\
       strip_counter ch' = strip_counter (ch <| ck_object_id := Some fresh |> <| ck_part_id := None |>
                                             <| ck_chunk_index := Z.of_nat i |>)) /\
  (forall c ch', chunks d' !! c = Some ch' -> ck_object_id ch' = Some fresh -> c ∈ renumbering d u).
Proof.
  intros Hs (up&etag&v&n&d1&d2&d3&d4&n4&_&_&_&Hins&Hrep&_&Hsup&Hpro&_&_&Hfw&Hbw)%assembly_steps.
  apply insert_object_ok in Hins as [Hfresh ->]. apply reparent_chunks_ok in Hrep as [_ Hd2].
  change (renumbering (d <| objects := _ |>) u) with (renumbering d u) in Hd2. simpl in Hd2.
  apply update_objects_ok in Hpro as [_ Hd4].
  assert (supersede_view d2 d3) as [_ Hc3] by (eapply supersede_keeps_chunks; [|exact Hsup]; done).
  assert (forall c, strip_counter <$> chunks d4 !! c =
    (fun ch => strip_counter (reparented fresh (renumbering d u) c ch)) <$> chunks d !! c) as H4.
  { intros c. rewrite Hd4. simpl. rewrite Hc3, Hd2. simpl. rewrite map_lookup_imap.
    by destruct (chunks d !! c). }
  split.
  - intros c i ch Hl Hc.
    assert (reparented fresh (renumbering d u) c ch =
      ch <| ck_object_id := Some fresh |> <| ck_part_id := None |> <| ck_chunk_index := Z.of_nat i |>) as Hre.
    { unfold reparented. rewrite (proj2 (position_in_lookup _ c (Z.of_nat i) (NoDup_renumbering d u))); eauto. }
    specialize (H4 c). rewrite Hc in H4. simpl in H4. rewrite Hre in H4.
    apply fmap_Some in H4 as (ch4&Hc4&Heq4).
    destruct (Hfw c ch4 Hc4) as (ch'&Hc'&Heq').
    { symmetry in Heq4. by apply strip_counter_eq in Heq4 as (_&->&_). }
    exists ch'. split; [done|]. congruence.
  - intros c ch' Hc' Ho. destruct (Hbw c ch' Hc') as (ch4&Hc4&Ho4). rewrite Ho in Ho4.
    specialize (H4 c). rewrite Hc4 in H4. simpl in H4. symmetry in H4.
    apply fmap_Some in H4 as (ch&Hc&Heq). apply strip_counter_eq in Heq as (Hob&_).
    unfold reparented in Hob. destruct (position_in _ c) as [i|] eqn:Hp; [by eapply position_in_Some|].
    destruct (so_chunk_object _ Hs c ch Hc fresh) as [x Hx]; congruence.
Qed.

(** C17: a multipart object is its parts in order. When
    [CompleteMultipartUpload] succeeds, the chunks of the new object are
    exactly the COMMITTED chunks of the COMPLETE parts of the upload, their
    indexes are 0, 1, 2, ... without gaps, in strictly increasing
    (part number, index in part) order, with content, size and digest
    unchanged; the object's chunk count is their number; and readers see it at
    once. *)
Theorem assembly_preserves_part_order `{PG : !Postgres} (sha256 : string -> string)
    (fresh : N) (now : Z) (u : N) (expected : list CompletedPartRef) (d d' : db) (obj : Object) :
  schema_ok d ->
  CompleteMultipartUpload sha256 fresh now u expected d = (Ok obj, d') ->
  let l := renumbering d u in
  (forall c, c ∈ l <-> is_Some (part_position d u c)) /\
  (forall i j ci cj ki kj, (i < j)%nat -> l !! i = Some ci -> l !! j = Some cj ->
     part_position d u ci = Some ki -> part_position d u cj = Some kj -> position_lt ki kj) /\
  (forall i c, l !! i = Some c <-> exists ch', chunks d' !! c = Some ch' /\
     ck_object_id ch' = Some fresh /\ ck_chunk_index ch' = Z.of_nat i) /\
  (forall c ch, c ∈ l -> chunks d !! c = Some ch -> exists ch', chunks d' !! c = Some ch' /\
     ck_size_bytes ch' = ck_size_bytes ch /\ ck_checksum_sha256 ch' = ck_checksum_sha256 ch /\
     ck_state ch' = ChunkCommitted) /\
  o_ID obj = fresh /\ o_ChunkCount obj = Z.of_nat (length l) /\
  HeadObject (o_Bucket obj) (o_Key obj) d' = (Ok obj, d').
Proof.
  intros Hs Hrun l. pose proof (keeps_CompleteMultipartUpload sha256 fresh now u expected d _ _ Hs Hrun) as Hs'.
  unfold CompleteMultipartUpload, inTx in Hrun.
  destruct (CompleteMultipartUpload_tx _ _ _ _ _ d) as [[r dn]|e] eqn:Htx; simplify_eq.
  destruct (assembled_chunks _ _ _ _ _ _ _ _ Hs Htx) as [Hfw Hbw].
  destruct (renumbering_spec d u Hs) as (Hnd&Hel&Hord). split_and!; [done|done| | | | |].
  - intros i c. split.
    + intros Hi. destruct (renumbering_elem d u c) as (ch&Hc&_); [by eapply list_elem_of_lookup_2|].
      destruct (Hfw c i ch Hi Hc) as (ch'&Hc'&Heq). apply strip_counter_eq in Heq as (Ho&_&Hi'&_). eauto.
    + intros (ch'&Hc'&Ho&Hi). specialize (Hbw c ch' Hc' Ho) as Hin.
      apply list_elem_of_lookup in Hin as [j Hj].
      destruct (renumbering_elem d u c) as (ch&Hc&_); [by eapply list_elem_of_lookup_2|].
      destruct (Hfw c j ch Hj Hc) as (ch2&Hc2&Heq). apply strip_counter_eq in Heq as (_&_&Hi2&_).
      simpl in Hi2. assert (i = j) as -> by (rewrite Hc' in Hc2; injection Hc2 as <-; lia). done.
  - intros c ch Hin Hc. apply list_elem_of_lookup in Hin as Hj. destruct Hj as [j Hj].
    destruct (Hfw c j ch Hj Hc) as (ch'&Hc'&Heq). exists ch'.
    apply strip_counter_eq in Heq as (_&_&_&?&?&Hst&_). split_and!; [done..|].
    destruct (renumbering_elem d u c Hin) as (q&Hq&Hqs&_). rewrite Hst. simpl. congruence.
  - by apply assembly_steps in Htx as (up&etag&v&n&d1&d2&d3&d4&n4&_&_&_&_&_&_&_&_&->&_).
  - apply assembly_steps in Htx as (up&etag&v&n&d1&d2&d3&d4&n4&_&_&_&Hins&Hrep&_&_&_&->&_).
    apply insert_object_ok in Hins as [_ ->]. by apply reparent_chunks_ok in Hrep as [-> _].
  - apply assembly_steps in Htx as (up&etag&v&n&d1&d2&d3&d4&n4&_&_&_&Hins&Hrep&_&Hsup&Hpro&->&Hobj&_).
    apply HeadObject_current; [done| |done]. rewrite Hobj.
    apply update_objects_ok in Hpro as [_ ->]. simpl. rewrite lookup_update_where.
    assert (view_of d2 fresh d3) as [_ ->] by (eapply view_supersede; [|exact Hsup]; done).
    apply reparent_chunks_ok in Hrep as [_ ->]. apply insert_object_ok in Hins as [_ ->]. simpl.
    rewrite lookup_insert_eq. simpl. by rewrite decide_True.
Qed.

(** Two parts uploaded in reverse order. *)
Definition sample_multipart : list call := [
  C_CreateMultipartUpload 30 10 "photos" "film.mp4" "video/mp4" 8;
  C_BeginPart 31 11 30 2;
  C_AllocateChunk 40 12 (mkOwner None (Some 31%N)) 0 8 ["n1"; "n2"];
  C_CommitChunk 13 40 sample_digest 8 ["n1"; "n2"] [] 2;
  C_CompletePart 14 31 8 1 "e2";
  C_BeginPart 32 15 30 1;
  C_AllocateChunk 41 16 (mkOwner None (Some 32%N)) 0 8 ["n1"; "n2"];
  C_CommitChunk 17 41 sample_digest 8 ["n1"; "n2"] [] 2;
  C_CompletePart 18 32 8 1 "e1"
].

Lemma assembly_preserves_part_order_witness :
  exists d obj d', CompleteMultipartUpload (PG:=c_locale) (fun s => s) 50 20 30 [] d = (Ok obj, d') /\
    renumbering (PG:=c_locale) d 30 = [41%N; 40%N] /\ o_ChunkCount obj = 2%Z /\
    HeadObject (o_Bucket obj) (o_Key obj) d' = (Ok obj, d').
Proof.
  set (d := run_trace (PG:=c_locale) (fun s => s) (sample_cluster ++ sample_multipart) empty_db).
  assert (schema_ok d) as Hs.
  { apply (reachable_schema (PG:=c_locale) (fun s => s)), reachable_trace. constructor. }
  assert (renumbering (PG:=c_locale) d 30 = [41%N; 40%N]) as Hl by (vm_compute; reflexivity).
  destruct (CompleteMultipartUpload (PG:=c_locale) (fun s => s) 50 20 30 [] d) as [[obj|e] d'] eqn:E.
  - exists d, obj, d'.
    destruct (assembly_preserves_part_order (PG:=c_locale) (fun s => s) 50 20 30 [] d d' obj Hs E)
      as (_&_&_&_&_&Hcnt&Hh).
    rewrite Hl in Hcnt. split; [exact E|]. split; [exact Hl|]. split; [exact Hcnt|exact Hh].
  - exfalso. apply (f_equal fst) in E. revert E. vm_compute. discriminate.
Defined.
