(* ===== verification/Health.v ===== *)
(** * Node health (src/internal/health/health.go)

    The liveness classification of storage nodes and the coordinator's monitor:
    a table of last heartbeats that reports state transitions. *)

From stdpp Require Import gmap strings list.
From S2P Require Import Prelude.

(** [time.Time] in nanoseconds, the zero value being 0; [time.Duration] is a
    64-bit count of nanoseconds and [Time.Sub] saturates. *)
Definition max_duration : Z := 9223372036854775807.
Definition min_duration : Z := -9223372036854775808.
Definition time_sub (t u : Z) : Z := Z.max min_duration (Z.min max_duration (t - u)).
Definition is_zero (t : Z) : bool := (t =? 0)%Z.

Inductive State := StateUnknown | StateHealthy | StateSuspect | StateDead.
#[export] Instance State_eq_dec : EqDecision State.
Proof. solve_decision. Defined.

Definition State_String (s : State) : string :=
  match s with
  | StateHealthy => "HEALTHY"
  | StateSuspect => "SUSPECT"
  | StateDead => "DEAD"
  | StateUnknown => "UNKNOWN"
  end.

Definition ParseState (s : string) : result string State :=
  if String.eqb s "HEALTHY" then Ok StateHealthy
  else if String.eqb s "SUSPECT" then Ok StateSuspect
  else if String.eqb s "DEAD" then Ok StateDead
  else if String.eqb s "UNKNOWN" || String.eqb s EmptyString then Ok StateUnknown
  else Err s.

Record Thresholds := mkThresholds {
  SuspectAfter : Z;
  DeadAfter : Z
}.

Definition Classify (lastHeartbeat now : Z) (t : Thresholds) : State :=
  if is_zero lastHeartbeat then StateDead
  else
    let age := time_sub now lastHeartbeat in
    if (DeadAfter t <=? age)%Z then StateDead
    else if (SuspectAfter t <=? age)%Z then StateSuspect
    else StateHealthy.

Record Transition := mkTransition {
  tn_NodeID : string;
  tn_From : State;
  tn_To : State;
  tn_At : Z;
  tn_Age : Z;
  tn_Address : string
}.

Record nodeState := mkNodeState {
  ns_address : string;
  ns_state : State;
  ns_lastHeartbeat : Z
}.

(** The monitor's mutable part; thresholds are fixed at construction. *)
Abbreviation nodes_map := (gmap string nodeState).

(** Ranging over a Go map visits every entry once, in no particular order. *)
Class GoRange := {
  range : nodes_map -> list (string * nodeState);
  range_perm : forall m, range m ≡ₚ map_to_list m
}.
Definition range_by_key : GoRange := {| range := map_to_list; range_perm := fun m => Permutation_refl _ |}.

(** [now] is read up to three times: for the classification, for [At] and for
    [Age]. *)
Definition Observe (thr : Thresholds) (now1 now2 now3 : Z) (nodeID address : string) (at_ : Z)
    (m : nodes_map) : option Transition * nodes_map :=
  let ns := default (mkNodeState EmptyString StateUnknown 0) (m !! nodeID) in
  if (at_ <? ns_lastHeartbeat ns)%Z then (None, <[nodeID := ns]> m)
  else
    let prev := ns_state ns in
    let next := Classify at_ now1 thr in
    let m' := <[nodeID := mkNodeState address next at_]> m in
    if decide (next = prev) then (None, m')
    else (Some (mkTransition nodeID prev next now2 (time_sub now3 at_) address), m').

Definition Seed (thr : Thresholds) (now : Z) (nodeID address : string) (lastHeartbeat : Z)
    (m : nodes_map) : nodes_map :=
  <[nodeID := mkNodeState address (Classify lastHeartbeat now thr) lastHeartbeat]> m.

Definition swept (thr : Thresholds) (now : Z) (ns : nodeState) : nodeState :=
  mkNodeState (ns_address ns) (Classify (ns_lastHeartbeat ns) now thr) (ns_lastHeartbeat ns).

(** One step of the loop of [Sweep]. *)
Definition sweep_one (thr : Thresholds) (now : Z) (acc : list Transition * nodes_map)
    (e : string * nodeState) : list Transition * nodes_map :=
  let next := Classify (ns_lastHeartbeat e.2) now thr in
  if decide (next = ns_state e.2) then acc
  else (acc.1 ++ [mkTransition e.1 (ns_state e.2) next now (time_sub now (ns_lastHeartbeat e.2))
                    (ns_address e.2)],
        <[e.1 := swept thr now e.2]> acc.2).

Definition Sweep `{!GoRange} (thr : Thresholds) (now : Z) (m : nodes_map)
    : list Transition * nodes_map :=
  foldl (sweep_one thr now) ([], m) (range m).

Definition Monitor_State (nodeID : string) (m : nodes_map) : State :=
  match m !! nodeID with Some ns => ns_state ns | None => StateUnknown end.

Definition Snapshot `{!GoRange} (m : nodes_map) : list (string * string * State * Z) :=
  (fun e : string * nodeState =>
     (e.1, ns_address e.2, ns_state e.2, ns_lastHeartbeat e.2)) <$> range m.

Definition Forget (nodeID : string) (m : nodes_map) : nodes_map := delete nodeID m.

(** ** Histories *)

Inductive event :=
| EObserve (now1 now2 now3 : Z) (nodeID address : string) (at_ : Z)
| ESeed (now : Z) (nodeID address : string) (lastHeartbeat : Z)
| ESweep (now : Z)
| EForget (nodeID : string).

Section monitor.
Context `{!GoRange} (thr : Thresholds).

Definition step (m : nodes_map) (e : event) : nodes_map :=
  match e with
  | EObserve n1 n2 n3 id a t => (Observe thr n1 n2 n3 id a t m).2
  | ESeed now id a t => Seed thr now id a t m
  | ESweep now => (Sweep thr now m).2
  | EForget id => Forget id m
  end.
Definition run (es : list event) : nodes_map := foldl step ∅ es.

(** Specification: the latest heartbeat of one node in a history. *)
Definition latest_step (id : string) (last : option Z) (e : event) : option Z :=
  match e with
  | EObserve _ _ _ id' _ t => if decide (id' = id) then Some (Z.max (default 0%Z last) t) else last
  | ESeed _ id' _ t => if decide (id' = id) then Some t else last
  | ESweep _ => last
  | EForget id' => if decide (id' = id) then None else last
  end.
Definition latest (es : list event) (id : string) : option Z := foldl (latest_step id) None es.

Definition transition_of (now : Z) (e : string * nodeState) : option Transition :=
  let next := Classify (ns_lastHeartbeat e.2) now thr in
  if decide (next = ns_state e.2) then None
  else Some (mkTransition e.1 (ns_state e.2) next now (time_sub now (ns_lastHeartbeat e.2)) (ns_address e.2)).

Lemma swept_same now ns : Classify (ns_lastHeartbeat ns) now thr = ns_state ns -> swept thr now ns = ns.
Proof. destruct ns. unfold swept. simpl. congruence. Qed.

Lemma sweep_loop now l acc :
  NoDup l.*1 -> (forall e, e ∈ l -> acc.2 !! e.1 = Some e.2) ->
  (foldl (sweep_one thr now) acc l).1 = acc.1 ++ omap (transition_of now) l /\
  forall id, (foldl (sweep_one thr now) acc l).2 !! id =
    if decide (id ∈ l.*1) then swept thr now <$> acc.2 !! id else acc.2 !! id.
Proof.
  revert acc. induction l as [|[k ns] l IH]; intros acc Hnd Hel.
  - split; [by rewrite app_nil_r|]. intros id.
    case_decide as Hin; [by apply elem_of_nil in Hin|done].
  - cbn [foldl fmap list_fmap fst]. apply NoDup_cons in Hnd as [Hk Hnd]. simpl in Hk, Hnd.
    assert (acc.2 !! k = Some ns) as Hacc by (apply (Hel (k, ns)); by left).
    assert (forall e, e ∈ l -> e.1 <> k) as Hne.
    { intros e He Heq. apply Hk. rewrite <-Heq. apply list_elem_of_fmap. eauto. }
    destruct (IH (sweep_one thr now acc (k, ns)) Hnd) as [IH1 IH2].
    { intros e He. unfold sweep_one. simpl. case_decide; [apply Hel; by right|]. simpl.
      rewrite lookup_insert_ne by (intros E; by apply (Hne e He)). apply Hel. by right. }
    split.
    + rewrite IH1. unfold sweep_one, transition_of. simpl. case_decide; [done|]. simpl.
      by rewrite <-app_assoc.
    + intros id. rewrite IH2. unfold sweep_one. simpl.
      destruct (decide (id = k)) as [->|Hid].
      * rewrite decide_False by done. rewrite (decide_True (P := k ∈ k :: l.*1)) by (by left).
        rewrite Hacc. case_decide as Hc; simpl.
        -- rewrite Hacc. f_equal. symmetry. by apply swept_same.
        -- by rewrite lookup_insert_eq.
      * assert ((if decide (Classify (ns_lastHeartbeat ns) now thr = ns_state ns) then acc
                 else (acc.1 ++ [mkTransition k (ns_state ns) (Classify (ns_lastHeartbeat ns) now thr) now
                        (time_sub now (ns_lastHeartbeat ns)) (ns_address ns)],
                       <[k := swept thr now ns]> acc.2)).2 !! id = acc.2 !! id) as ->.
        { case_decide; [done|]. simpl. by rewrite lookup_insert_ne by congruence. }
        apply decide_ext. rewrite elem_of_cons. tauto.
Qed.

Lemma Sweep_spec now m :
  (forall id, (Sweep thr now m).2 !! id = swept thr now <$> m !! id) /\
  (Sweep thr now m).1 = omap (transition_of now) (range m).
Proof.
  unfold Sweep. destruct (sweep_loop now (range m) ([], m)) as [H1 H2].
  - rewrite range_perm. apply NoDup_fst_map_to_list.
  - intros [k ns] He. rewrite range_perm in He. by apply elem_of_map_to_list in He.
  - split; [|done]. intros id. rewrite H2. simpl. case_decide as Hd; [done|].
    destruct (m !! id) as [ns|] eqn:Hm; [|done]. exfalso. apply Hd. apply list_elem_of_fmap.
    exists (id, ns). split; [done|]. rewrite range_perm. by apply elem_of_map_to_list.
Qed.

(** The table holds the latest heartbeat of the history. *)
Lemma run_latest es id : ns_lastHeartbeat <$> run es !! id = latest es id.
Proof.
  unfold run, latest. assert (ns_lastHeartbeat <$> (∅ : nodes_map) !! id = None) as H0
    by by rewrite lookup_empty.
  revert H0. generalize (∅ : nodes_map) as m, (None : option Z) as last.
  induction es as [|e es IH]; intros m last H0; [done|]. simpl. apply IH. clear IH es.
  destruct e as [n1 n2 n3 k a t|now k a t|now|k]; simpl.
  - unfold Observe. destruct (decide (k = id)) as [->|Hne].
    + destruct (m !! id) as [ns|] eqn:Hm; simpl in *; subst last; simpl.
      * destruct (t <? ns_lastHeartbeat ns)%Z eqn:Hlt.
        -- simpl. rewrite lookup_insert_eq. simpl. f_equal. lia.
        -- case_decide; simpl; rewrite lookup_insert_eq; simpl; f_equal; lia.
      * destruct (t <? 0)%Z eqn:Hlt; [|case_decide]; simpl; rewrite lookup_insert_eq; simpl; f_equal; lia.
    + destruct (_ <? _)%Z; [|case_decide]; simpl; by rewrite lookup_insert_ne.
  - unfold Seed. case_decide as Hk; [subst; by rewrite lookup_insert_eq|by rewrite lookup_insert_ne].
  - destruct (Sweep_spec now m) as [Hs _]. rewrite Hs. by destruct (m !! id).
  - unfold Forget. case_decide as Hk; [subst; by rewrite lookup_delete_eq|by rewrite lookup_delete_ne].
Qed.
End monitor.

(** C30: after a sweep the monitor agrees with the heartbeats. For every
    history of heartbeats (in or out of order), rehydrations, sweeps and
    removals, a sweep at time [now] leaves each tracked node in exactly the
    state its latest heartbeat deserves at [now] and untracked nodes UNKNOWN;
    and it reports one transition per node whose state changed, with the old
    and the new state, and none for the others. *)
Theorem sweep_agrees_with_heartbeats `{!GoRange} (thr : Thresholds) (es : list event) (now : Z) :
  let m := run thr es in
  let '(ts, m') := Sweep thr now m in
  (forall id, Monitor_State id m' =
     match latest es id with Some t => Classify t now thr | None => StateUnknown end) /\
  NoDup (tn_NodeID <$> ts) /\
  (forall id from to, (exists t, t ∈ ts /\ tn_NodeID t = id /\ tn_From t = from /\ tn_To t = to) <->
     is_Some (latest es id) /\ from = Monitor_State id m /\ to = Monitor_State id m' /\ from <> to).
Proof.
  intros m. destruct (Sweep thr now m) as [ts m'] eqn:E.
  destruct (Sweep_spec thr now m) as [Hm Hts]. rewrite E in Hm, Hts. simpl in Hm, Hts.
  assert (forall id, ns_lastHeartbeat <$> m !! id = latest es id) as Hl by apply run_latest.
  assert (forall id, Monitor_State id m' =
     match latest es id with Some t => Classify t now thr | None => StateUnknown end) as Hst.
  { intros id. unfold Monitor_State. rewrite Hm, <-Hl. by destruct (m !! id). }
  split_and!; [exact Hst| |].
  - rewrite Hts, range_perm.
    assert (sublist (tn_NodeID <$> omap (transition_of thr now) (map_to_list m)) (map_to_list m).*1) as Hsub.
    { induction (map_to_list m) as [|e l IH]; [constructor|]. simpl. unfold transition_of at 1.
      case_decide; simpl; by constructor. }
    eapply sublist_NoDup; [|exact Hsub]. apply NoDup_fst_map_to_list.
  - intros id from to. rewrite Hst, <-Hl. unfold Monitor_State. rewrite Hts. split.
    + intros (t&Ht&Hid&Hf&Hto). apply list_elem_of_omap in Ht as ([k ns]&Hin&Heq).
      rewrite range_perm in Hin. apply elem_of_map_to_list in Hin.
      unfold transition_of in Heq. simpl in Heq. case_decide as Hd; [done|]. injection Heq as <-.
      simpl in *. subst. rewrite Hin. simpl. split_and!; eauto.
    + intros ([t Ht]&->&->&Hne). destruct (m !! id) as [ns|] eqn:Hns; [|done]. simpl in *.
      eexists. split.
      { apply list_elem_of_omap. exists (id, ns). split.
        - rewrite range_perm. by apply elem_of_map_to_list.
        - unfold transition_of. simpl. rewrite decide_False by congruence. done. }
      done.
Qed.
