(* ===== verification/Chunking.v ===== *)
(** * Splitting a stream into chunks (src/internal/chunking/chunking.go)

    The splitter the gateway reads an upload through. A reader is its remaining
    bytes and how it ends; [io.ReadFull] of the standard library is modelled on
    it. The buffer the chunks alias is not modelled: a chunk is used before the
    next call, as the contract of [Next] requires. *)

From Stdlib Require Import Strings.Byte.
From stdpp Require Import base list strings numbers.
From S2P Require Import Prelude.

Abbreviation bytes := (list Byte.byte).

(** How a reader can fail: with io.ErrUnexpectedEOF, as the body of a request
    does when the connection ends before the declared length or the last chunk,
    or with another error. *)
Inductive read_fault := UnexpectedEOF | Fault (e : string).

(** An [io.Reader]: the bytes it will deliver, then EOF or a fault. *)
Record Reader := mkReader {
  rd_data : bytes;
  rd_fail : option read_fault
}.

Inductive read_error := EOF | ErrUnexpectedEOF | ErrRead (e : string).

(** [io.ReadFull(r, buf)]: the bytes read, the error, the reader afterwards. *)
Definition ReadFull (r : Reader) (size : nat) : bytes * option read_error * Reader :=
  if decide (size <= length (rd_data r))%nat
  then (take size (rd_data r), None, mkReader (drop size (rd_data r)) (rd_fail r))
  else (rd_data r,
        Some (match rd_fail r with
              | Some UnexpectedEOF => ErrUnexpectedEOF
              | Some (Fault e) => ErrRead e
              | None => match rd_data r with [] => EOF | _ => ErrUnexpectedEOF end
              end),
        mkReader [] (rd_fail r)).

Record Splitter := mkSplitter {
  sp_r : Reader;
  sp_chunkSize : nat;
  sp_maxTotal : Z;
  sp_index : Z;
  sp_totalRead : Z;
  sp_done : bool
}.

Record Chunk := mkChunk {
  ch_Index : Z;
  ch_Data : bytes
}.

Inductive split_error := SplitEOF | SplitRead (index : Z) (e : string) | ErrChunkTooLarge.

(** [NewSplitterBuffer] with a buffer of [bufLen] bytes. *)
Definition NewSplitterBuffer (r : Reader) (bufLen : nat) (maxTotal : Z) : option Splitter :=
  if decide (bufLen = 0)%nat then None else Some (mkSplitter r bufLen maxTotal 0 0 false).

Definition NewSplitter (r : Reader) (chunkSize maxTotal : Z) : option Splitter :=
  if decide (chunkSize <= 0)%Z then None else NewSplitterBuffer r (Z.to_nat chunkSize) maxTotal.

(** [Next] once the bytes are read: account for them, then emit the chunk. *)
Definition emit (s : Splitter) (data : bytes) (r' : Reader) (done : bool)
    : result split_error Chunk * Splitter :=
  let total := int64 (sp_totalRead s + Z.of_nat (length data)) in
  if decide (0 < sp_maxTotal s /\ sp_maxTotal s < total)%Z then
    (Err ErrChunkTooLarge,
     mkSplitter r' (sp_chunkSize s) (sp_maxTotal s) (sp_index s) total true)
  else if decide (data = []) then
    (Err SplitEOF, mkSplitter r' (sp_chunkSize s) (sp_maxTotal s) (sp_index s) total done)
  else
    (Ok (mkChunk (sp_index s) data),
     mkSplitter r' (sp_chunkSize s) (sp_maxTotal s) (int64 (sp_index s + 1)) total done).

Definition Next (s : Splitter) : result split_error Chunk * Splitter :=
  if sp_done s then (Err SplitEOF, s)
  else
    let '(data, err, r') := ReadFull (sp_r s) (sp_chunkSize s) in
    let fail e :=
      (Err e, mkSplitter r' (sp_chunkSize s) (sp_maxTotal s) (sp_index s) (sp_totalRead s) true) in
    match err with
    | None => emit s data r' (sp_done s)
    | Some EOF => fail SplitEOF
    | Some ErrUnexpectedEOF => emit s data r' true
    | Some (ErrRead e) => fail (SplitRead (sp_index s) e)
    end.

Definition TotalRead (s : Splitter) : Z := sp_totalRead s.
Definition Count (s : Splitter) : Z := sp_index s.

Definition PlanChunks (objectSize chunkSize : Z) : Z :=
  if decide (chunkSize <= 0 \/ objectSize <= 0)%Z then 0%Z
  else int64 (Z.quot (int64 (objectSize + chunkSize - 1)) chunkSize).

(** The upload loop: [Next] until it reports an error. *)
Fixpoint drain (fuel : nat) (s : Splitter) : list Chunk * option split_error * Splitter :=
  match fuel with
  | O => ([], None, s)
  | S fuel' =>
      match Next s with
      | (Err e, s') => ([], Some e, s')
      | (Ok c, s') => let '(cs, e, s'') := drain fuel' s' in (c :: cs, e, s'')
      end
  end.

(** ** The split is exact *)

(** The endings the splitter does not report as an error. *)
Definition ends_quietly (fail : option read_fault) : Prop := match fail with Some (Fault _) => False | _ => True end.

(** What draining a splitter with [data] ahead yields. *)
Record split_ok (data : bytes) (fail : option read_fault) (k : nat) (max I T : Z)
    (cs : list Chunk) (e : option split_error) (s' : Splitter) : Prop := {
  sk_data : exists rest, data = concat (ch_Data <$> cs) ++ rest /\
    match e with
    | Some SplitEOF => ends_quietly fail /\ rest = [] /\ TotalRead s' = (T + Z.of_nat (length data))%Z /\
                       Count s' = (I + Z.of_nat (length cs))%Z
    | Some ErrChunkTooLarge => (0 < max /\ max < T + Z.of_nat (length data))%Z
    | Some (SplitRead i er) => fail = Some (Fault er) /\ i = (I + Z.of_nat (length cs))%Z /\ (length rest < k)%nat
    | None => False
    end;
  sk_index : forall j c, cs !! j = Some c -> ch_Index c = (I + Z.of_nat j)%Z;
  sk_size : forall j c, cs !! j = Some c ->
    length (ch_Data c) = k \/ (0 < length (ch_Data c) < k)%nat /\ S j = length cs;
  sk_limit : (0 < max -> Z.of_nat (length (concat (ch_Data <$> cs))) <= Z.max 0 (max - T))%Z
}.

Lemma split_ok_nil data fail k max I T e s' :
  match e with
  | Some SplitEOF => ends_quietly fail /\ data = [] /\ TotalRead s' = T /\ Count s' = I
  | Some ErrChunkTooLarge => (0 < max /\ max < T + Z.of_nat (length data))%Z
  | Some (SplitRead i er) => fail = Some (Fault er) /\ i = I /\ (length data < k)%nat
  | None => False
  end ->
  split_ok data fail k max I T [] e s'.
Proof.
  intros He. split; try by intros j c.
  - exists data. split; [done|]. destruct e as [[]|]; simpl in *; [|naive_solver lia|done|done].
    destruct He as (?&->&->&->). simpl. split_and!; [done|done|lia|lia].
  - simpl. lia.
Qed.

(** Prepending a chunk read from the front of [data]. *)
Lemma split_ok_cons data fail k max I T n cs e s' :
  (0 < n <= length data)%nat -> (n = k \/ (n < k)%nat /\ cs = []) ->
  (0 < max -> T + Z.of_nat n <= max)%Z ->
  split_ok (drop n data) fail k max (I + 1) (T + Z.of_nat n) cs e s' ->
  split_ok data fail k max I T (mkChunk I (take n data) :: cs) e s'.
Proof.
  intros Hn Hk Hmax [(rest&Hd&He) Hi Hs Hl].
  assert (length data = (n + length (drop n data))%nat) as Hlen by (rewrite length_drop; lia).
  split.
  - exists rest. split.
    { rewrite <-(take_drop n data) at 1. rewrite Hd. simpl. by rewrite <-app_assoc. }
    rewrite Hlen. destruct e as [[]|]; simpl in *; [|naive_solver lia|lia|done].
    destruct He as (?&->&->&->). split_and!; [done|done|lia|lia].
  - intros [|j] c Hc; simpl in Hc; [injection Hc as <-; simpl; lia|].
    rewrite (Hi j c Hc). lia.
  - intros [|j] c Hc; simpl in Hc.
    + injection Hc as <-. simpl. rewrite length_take.
      destruct Hk as [->|[Hlt ->]]; [left; lia|right; simpl; lia].
    + destruct (Hs j c Hc) as [?|[? ?]]; [by left|right; simpl; lia].
  - intros Hpos. specialize (Hl Hpos). specialize (Hmax Hpos).
    change (concat (ch_Data <$> mkChunk I (take n data) :: cs))
      with (take n data ++ concat (ch_Data <$> cs)).
    rewrite length_app, length_take. lia.
Qed.

Lemma drain_done fuel s : sp_done s = true -> drain (S fuel) s = ([], Some SplitEOF, s).
Proof. intros Hd. simpl. unfold Next. by rewrite Hd. Qed.

Lemma int64_small z : (- 2 ^ 63 <= z < 2 ^ 63)%Z -> int64 z = z.
Proof. intros Hz. apply wrap_signed_id; lia. Qed.
Lemma int32_small z : (- 2 ^ 31 <= z < 2 ^ 31)%Z -> int32 z = z.
Proof. intros H. apply wrap_signed_id; lia. Qed.

(** Reading one chunk of [n > 0] bytes within the limit. *)
Lemma emit_ok s data r' done :
  (0 <= sp_totalRead s)%Z -> (0 <= sp_index s < 2 ^ 63 - 1)%Z ->
  (sp_totalRead s + Z.of_nat (length data) < 2 ^ 63)%Z -> data <> [] ->
  emit s data r' done =
  if decide (0 < sp_maxTotal s /\ sp_maxTotal s < sp_totalRead s + Z.of_nat (length data))%Z
  then (Err ErrChunkTooLarge, mkSplitter r' (sp_chunkSize s) (sp_maxTotal s) (sp_index s)
          (sp_totalRead s + Z.of_nat (length data)) true)
  else (Ok (mkChunk (sp_index s) data), mkSplitter r' (sp_chunkSize s) (sp_maxTotal s) (sp_index s + 1)
          (sp_totalRead s + Z.of_nat (length data)) done).
Proof.
  intros HT HI Hlt Hne. unfold emit. rewrite !int64_small by lia.
  case_decide; [done|]. by rewrite decide_False.
Qed.

Lemma drain_spec fuel data fail k max I T :
  (0 < k)%nat -> (length data < fuel)%nat -> (0 <= T)%Z -> (0 <= I)%Z ->
  (T + Z.of_nat (length data) < 2 ^ 63)%Z -> (I + Z.of_nat (length data) < 2 ^ 63 - 1)%Z ->
  let '(cs, e, s') := drain fuel (mkSplitter (mkReader data fail) k max I T false) in
  split_ok data fail k max I T cs e s'.
Proof.
  intros Hk. revert data I T. induction fuel as [|fuel IH]; intros data I T Hf HT HI HTb HIb; [lia|].
  simpl. unfold Next. simpl. unfold ReadFull. simpl.
  destruct (decide (k <= length data)%nat) as [Hfull|Hshort].
  - assert (length (take k data) = k) as Hlen by (rewrite length_take; lia).
    rewrite emit_ok; simpl; [|lia..|intros E; rewrite E in Hlen; simpl in Hlen; lia].
    rewrite Hlen. case_decide as Hmax.
    { apply split_ok_nil. simpl. lia. }
    specialize (IH (drop k data) (I + 1)%Z (T + Z.of_nat k)%Z).
    rewrite length_drop in IH. do 5 (ospecialize (IH _); [lia|]).
    destruct (drain fuel _) as [[cs e] s']. apply split_ok_cons; [lia|by left|lia|done].
  - assert (ends_quietly fail \/ exists er, fail = Some (Fault er)) as [Hquiet|[er ->]]
      by (destruct fail as [[]|]; simpl; eauto); cycle 1.
    { apply split_ok_nil. simpl. split_and!; [done|done|lia]. }
    destruct (decide (data = [])) as [->|Hne].
    { destruct fail as [[]|]; [|done|by apply split_ok_nil]. unfold emit. cbn. rewrite Z.add_0_r, int64_small by lia.
      case_decide; apply split_ok_nil; [cbn; lia|done]. }
    assert (0 < length data)%nat as Hpos by (destruct data; [done|simpl; lia]).
    assert (match fail with Some UnexpectedEOF => ErrUnexpectedEOF | Some (Fault e) => ErrRead e
            | None => match data with [] => EOF | _ => ErrUnexpectedEOF end end = ErrUnexpectedEOF) as ->
      by (destruct fail as [[]|]; [done|done|by destruct data]).
    rewrite emit_ok by (done || (cbn; lia)). cbn [sp_totalRead sp_index sp_maxTotal sp_chunkSize].
    case_decide as Hmax; [by apply split_ok_nil|].
    destruct fuel as [|fuel]; [lia|]. rewrite drain_done by done.
    rewrite <-(take_ge data (length data)) at 2 by done.
    apply split_ok_cons; [lia|right; split; [lia|done]|lia|].
    rewrite drop_ge by done. apply split_ok_nil. done.
Qed.

(** Every chunk but the last is full, so their number is a ceiling. *)
Lemma full_chunks_count (k : nat) (cs : list Chunk) :
  (0 < k)%nat -> cs <> [] ->
  (forall j c, cs !! j = Some c ->
     length (ch_Data c) = k \/ (0 < length (ch_Data c) < k)%nat /\ S j = length cs) ->
  (k * (length cs - 1) < length (concat (ch_Data <$> cs)) <= k * length cs)%nat.
Proof.
  intros Hk. induction cs as [|c cs IH]; intros Hne Hs; [done|].
  change (concat (ch_Data <$> c :: cs)) with (ch_Data c ++ concat (ch_Data <$> cs)).
  rewrite length_app. pose proof (Hs 0%nat c eq_refl) as Hc. simpl length in Hc |- *.
  destruct cs as [|c' cs].
  - simpl. lia.
  - assert (length (ch_Data c) = k) as -> by (simpl in Hc; lia).
    ospecialize (IH _ _); [done|intros j x Hx; destruct (Hs (S j) x Hx) as [?|[? ?]]; [by left|]|].
    { right. simpl in *. lia. }
    simpl length in IH |- *. nia.
Qed.

Lemma PlanChunks_spec (size chunkSize n : Z) :
  (0 < chunkSize < 2 ^ 62)%Z -> (0 <= size < 2 ^ 62)%Z ->
  (size = 0 /\ n = 0 \/ 0 < n /\ chunkSize * (n - 1) < size <= chunkSize * n)%Z ->
  PlanChunks size chunkSize = n.
Proof.
  intros Hc Hs Hn. unfold PlanChunks. destruct Hn as [[-> ->]|[Hn Hb]].
  { rewrite decide_True; [done|lia]. }
  rewrite decide_False by nia. rewrite (int64_small (size + chunkSize - 1)) by lia.
  rewrite Z.quot_div_nonneg by lia.
  assert ((size + chunkSize - 1) / chunkSize = n)%Z as ->.
  { symmetry. apply (Z.div_unique _ _ _ (size + chunkSize - 1 - chunkSize * n)); lia. }
  apply int64_small. nia.
Qed.

(** C38: splitting an upload loses, duplicates and reorders nothing. Draining a
    splitter always ends. If it reports the end of the stream, the chunks
    concatenate to exactly the bytes the stream delivered, are numbered
    0, 1, 2, ..., all but the last have the chunk size and the last is not
    empty, and their number is what [PlanChunks] predicts; the stream then ended,
    or failed with io.ErrUnexpectedEOF, which the splitter cannot tell from the
    short read of a last chunk. Every other read error is reported with the
    index of the next chunk, after a prefix of full chunks. A stream longer than
    the limit is refused after at most the limit was emitted. *)
Theorem Splitter_exact (r : Reader) (chunkSize maxTotal : Z) (s : Splitter) (fuel : nat) :
  NewSplitter r chunkSize maxTotal = Some s -> (chunkSize < 2 ^ 62)%Z ->
  (Z.of_nat (length (rd_data r)) < 2 ^ 62)%Z -> (length (rd_data r) < fuel)%nat ->
  let '(cs, e, s') := drain fuel s in
  match e with
  | Some SplitEOF =>
      ends_quietly (rd_fail r) /\ concat (ch_Data <$> cs) = rd_data r /\
      TotalRead s' = Z.of_nat (length (rd_data r)) /\ Count s' = Z.of_nat (length cs) /\
      Z.of_nat (length cs) = PlanChunks (Z.of_nat (length (rd_data r))) chunkSize
  | Some ErrChunkTooLarge =>
      (0 < maxTotal < Z.of_nat (length (rd_data r)))%Z /\
      concat (ch_Data <$> cs) `prefix_of` rd_data r
  | Some (SplitRead i er) =>
      rd_fail r = Some (Fault er) /\ i = Z.of_nat (length cs) /\ concat (ch_Data <$> cs) `prefix_of` rd_data r
  | None => False
  end /\
  (forall j c, cs !! j = Some c -> ch_Index c = Z.of_nat j /\
     (Z.of_nat (length (ch_Data c)) = chunkSize \/
      (0 < Z.of_nat (length (ch_Data c)) < chunkSize)%Z /\ S j = length cs)) /\
  (0 < maxTotal -> Z.of_nat (length (concat (ch_Data <$> cs))) <= maxTotal)%Z.
Proof.
  intros Hnew Hck Hlen Hf. unfold NewSplitter, NewSplitterBuffer in Hnew. case_decide; [done|].
  case_decide; [done|]. injection Hnew as <-. destruct r as [data fail]. simpl in *.
  pose proof (drain_spec fuel data fail (Z.to_nat chunkSize) maxTotal 0 0) as Hd.
  do 6 (ospecialize (Hd _); [lia|]). destruct (drain fuel _) as [[cs e] s'].
  destruct Hd as [(rest&Hcat&He) Hi Hs Hl]. split_and!.
  - destruct e as [[| |]|]; [| | |done].
    + destruct He as (?&->&HT&HC). rewrite app_nil_r in Hcat. split_and!; [done|done|lia|lia|].
      symmetry. apply PlanChunks_spec; [lia|lia|]. destruct (decide (cs = [])) as [->|Hne].
      { left. rewrite Hcat. done. }
      right. pose proof (full_chunks_count (Z.to_nat chunkSize) cs) as Hfc.
      do 3 (ospecialize (Hfc _); [done || lia|]). rewrite Hcat. destruct cs; [done|]. simpl length in *. nia.
    + destruct He as (?&?&_). split_and!; [done|lia|]. by exists rest.
    + split; [lia|]. by exists rest.
  - intros j c Hc. rewrite (Hi j c Hc). split; [lia|]. destruct (Hs j c Hc) as [?|[? ?]]; [left; lia|right; lia].
  - intros Hpos. specialize (Hl Hpos). lia.
Qed.

(** A stream that ends, one cut off with io.ErrUnexpectedEOF, one that fails
    otherwise, and one that is longer than the limit. *)
Lemma Splitter_exact_witness :
  let split fail max := let s := default (mkSplitter (mkReader [] None) 0 0 0 0 false) (NewSplitter (mkReader (repeat x61 5) fail) 2 max) in drain 6 s in
  (concat (ch_Data <$> (split None 0%Z).1.1) = repeat x61 5 /\ Z.of_nat (length (split None 0%Z).1.1) = PlanChunks 5 2) /\
  (concat (ch_Data <$> (split (Some UnexpectedEOF) 0%Z).1.1) = repeat x61 5) /\
  (exists i e, (split (Some (Fault "reset")) 0%Z).1.2 = Some (SplitRead i e) /\ i = 2%Z /\
     concat (ch_Data <$> (split (Some (Fault "reset")) 0%Z).1.1) `prefix_of` repeat x61 5) /\
  (Z.of_nat (length (concat (ch_Data <$> (split None 3%Z).1.1))) <= 3)%Z.
Proof.
  pose proof (Splitter_exact (mkReader (repeat x61 5) None) 2 0 _ 6 eq_refl) as H1.
  pose proof (Splitter_exact (mkReader (repeat x61 5) (Some UnexpectedEOF)) 2 0 _ 6 eq_refl) as H2.
  pose proof (Splitter_exact (mkReader (repeat x61 5) (Some (Fault "reset"))) 2 0 _ 6 eq_refl) as H3.
  pose proof (Splitter_exact (mkReader (repeat x61 5) None) 2 3 _ 6 eq_refl) as H4.
  do 3 (ospecialize (H1 _); [cbn; lia|]). do 3 (ospecialize (H2 _); [cbn; lia|]). do 3 (ospecialize (H3 _); [cbn; lia|]).
  do 3 (ospecialize (H4 _); [cbn; lia|]). split; [|split; [|split]].
  - revert H1. vm_compute. intros [(_&Hc&_&_&Hp) _]. split; assumption.
  - revert H2. vm_compute. intros [(_&Hc&_) _]. exact Hc.
  - revert H3. vm_compute. intros [(_&Hi&Hp) _]. eexists _, _. split; [reflexivity|]. split; [exact Hi|exact Hp].
  - destruct H4 as (_&_&H4). exact (H4 ltac:(lia)).
Defined.
