(* ===== verification/GoStrings.v ===== *)
(** * What the gateway uses of Go's strings and strconv

    HasPrefix, TrimPrefix, HasSuffix, TrimSuffix, TrimSpace, IndexByte, Contains
    of one byte, ParseInt in base 10 with 64 bits, and the decimal form fmt
    prints, on byte strings. *)

From Stdlib Require Import Ascii.
From stdpp Require Import base list strings numbers.
From S2P Require Import Prelude Chunking.

Definition byte_of (c : Ascii.ascii) : N := Ascii.N_of_ascii c.

Definition HasPrefix (s p : string) : bool := String.prefix p s.
Definition TrimPrefix (s p : string) : string :=
  if HasPrefix s p then String.substring (String.length p) (String.length s - String.length p) s else s.

(** ** TrimSpace *)

(** Go's white space, by the length of its UTF-8 encoding. *)
Definition space1 (a : N) : bool := ((9 <=? a) && (a <=? 13) || (a =? 32))%N.
Definition space2 (a b : N) : bool := ((a =? 194) && ((b =? 133) || (b =? 160)))%N.
Definition space3 (a b c : N) : bool :=
  ((a =? 225) && (b =? 154) && (c =? 128) ||
   (a =? 226) && (b =? 128) &&
     ((128 <=? c) && (c <=? 138) || (c =? 168) || (c =? 169) || (c =? 175)) ||
   (a =? 226) && (b =? 129) && (c =? 159) ||
   (a =? 227) && (b =? 128) && (c =? 128))%N.

(** One leading white-space rune: its length in bytes. *)
Definition space_rune (s : list N) : option nat :=
  match s with
  | [] => None
  | a :: s' =>
      if space1 a then Some 1%nat
      else match s' with
           | [] => None
           | b :: s'' =>
               if space2 a b then Some 2%nat
               else match s'' with
                    | [] => None
                    | c :: _ => if space3 a b c then Some 3%nat else None
                    end
           end
  end.

(** The same at the end of the text, given in reverse. *)
Definition space_rune_rev (s : list N) : option nat :=
  match s with
  | [] => None
  | c :: s' =>
      if space1 c then Some 1%nat
      else match s' with
           | [] => None
           | b :: s'' =>
               if space2 b c then Some 2%nat
               else match s'' with
                    | [] => None
                    | a :: _ => if space3 a b c then Some 3%nat else None
                    end
           end
  end.

(** Drop leading runes; [fuel] bounds their number by the length of the text. *)
Fixpoint trim_runes (rune : list N -> option nat) (fuel : nat) (s : list N) : list N :=
  match fuel with
  | O => s
  | S fuel' => match rune s with Some n => trim_runes rune fuel' (drop n s) | None => s end
  end.

Definition to_bytes (s : string) : list N := byte_of <$> String.list_ascii_of_string s.
Definition of_bytes (l : list N) : string := String.string_of_list_ascii (Ascii.ascii_of_N <$> l).

Definition TrimSpace (s : string) : string :=
  let l := trim_runes space_rune (String.length s) (to_bytes s) in
  of_bytes (rev (trim_runes space_rune_rev (length l) (rev l))).

(** ** Searching *)

Fixpoint IndexByte (s : string) (c : Ascii.ascii) : option nat :=
  match s with
  | EmptyString => None
  | String a s' => if bool_decide (a = c) then Some 0%nat else S <$> IndexByte s' c
  end.
Definition ContainsByte (s : string) (c : Ascii.ascii) : bool :=
  match IndexByte s c with Some _ => true | None => false end.

(** [s[:i]] and [s[i:]]. *)
Definition slice_to (s : string) (i : nat) : string := String.substring 0 i s.
Definition slice_from (s : string) (i : nat) : string :=
  String.substring i (String.length s - i) s.

Definition HasSuffix (s suffix : string) : bool :=
  (String.length suffix <=? String.length s)%nat &&
  String.eqb (slice_from s (String.length s - String.length suffix)) suffix.
Definition TrimSuffix (s suffix : string) : string :=
  if HasSuffix s suffix then slice_to s (String.length s - String.length suffix) else s.

(** ** Decimal integers *)

Definition digit_value (c : Ascii.ascii) : option Z :=
  let n := Z.of_N (byte_of c) in
  if decide (48 <= n <= 57)%Z then Some (n - 48)%Z else None.

Fixpoint digits_value (acc : Z) (s : string) : option Z :=
  match s with
  | EmptyString => Some acc
  | String c s' => match digit_value c with
                   | Some v => digits_value (acc * 10 + v) s'
                   | None => None
                   end
  end.

(** [strconv.ParseInt(s, 10, 64)]; [None] is any error. *)
Definition ParseInt (s : string) : option Z :=
  let unsigned t := match t with EmptyString => None | _ => digits_value 0 t end in
  let value :=
    match s with
    | String "+"%char t => unsigned t
    | String "-"%char t => Z.opp <$> unsigned t
    | _ => unsigned s
    end in
  match value with
  | Some v => if decide (- 2 ^ 63 <= v < 2 ^ 63)%Z then Some v else None
  | None => None
  end.

(** [fmt.Sprintf("%d", n)] *)
Definition digit (n : Z) : Ascii.ascii := Ascii.ascii_of_N (Z.to_N (48 + n mod 10)).
Fixpoint format_digits (fuel : nat) (n : Z) (tail : string) : string :=
  match fuel with
  | O => tail
  | S fuel' =>
      let tail := String (digit n) tail in
      if decide (n < 10)%Z then tail else format_digits fuel' (n / 10) tail
  end.
(** A 64-bit integer has at most 19 digits. *)
Definition FormatInt (n : Z) : string :=
  if decide (n < 0)%Z then String "-"%char (format_digits 20 (- n) EmptyString)
  else format_digits 20 n EmptyString.

(** ** Facts *)

Lemma digit_value_digit n : digit_value (digit n) = Some (n mod 10)%Z.
Proof.
  unfold digit_value, digit, byte_of. pose proof (Z.mod_pos_bound n 10).
  rewrite Ascii.N_ascii_embedding by lia. rewrite Z2N.id by lia.
  rewrite decide_True by lia. f_equal. lia.
Qed.

Lemma string_app_cons c (a b : string) : String c a +:+ b = String c (a +:+ b).
Proof. done. Qed.
Lemma digits_value_app acc s t :
  digits_value acc (s +:+ t) = match digits_value acc s with Some v => digits_value v t | None => None end.
Proof.
  revert acc. induction s as [|c s IH]; intros acc; [done|]. rewrite string_app_cons. simpl.
  destruct (digit_value c); [|done]. apply IH.
Qed.

Lemma string_app_assoc (a b c : string) : (a +:+ b) +:+ c = a +:+ (b +:+ c).
Proof. induction a as [|x a IH]; [done|]. rewrite !string_app_cons. by rewrite IH. Qed.
Lemma string_app_nil (a : string) : a +:+ EmptyString = a.
Proof. induction a as [|x a IH]; [done|]. rewrite string_app_cons. by rewrite IH. Qed.
Lemma string_length_app (a b : string) : String.length (a +:+ b) = (String.length a + String.length b)%nat.
Proof. induction a as [|x a IH]; [done|]. rewrite string_app_cons. simpl. by rewrite IH. Qed.

(** The printed digits, read back. *)
Lemma format_digits_spec fuel n tail :
  (0 <= n < 10 ^ Z.of_nat (S fuel))%Z ->
  exists c p, format_digits (S fuel) n tail = String c p +:+ tail /\
    is_Some (digit_value c) /\
    forall acc, digits_value acc (String c p) =
      Some (acc * 10 ^ Z.of_nat (String.length (String c p)) + n)%Z.
Proof.
  revert n tail. induction fuel as [|fuel IH]; intros n tail Hn.
  - assert (n < 10)%Z by (change (10 ^ Z.of_nat 1)%Z with 10%Z in Hn; lia).
    exists (digit n), EmptyString. cbn [format_digits]. rewrite decide_True by done.
    split; [done|]. split; [rewrite digit_value_digit; eauto|]. intros acc.
    cbn [digits_value String.length]. rewrite digit_value_digit, Z.mod_small by lia. f_equal; lia.
  - cbn [format_digits]. destruct (decide (n < 10)%Z) as [Hlt|Hge].
    + exists (digit n), EmptyString. split; [done|]. split; [rewrite digit_value_digit; eauto|].
      intros acc. cbn [digits_value String.length]. rewrite digit_value_digit, Z.mod_small by lia.
      f_equal; lia.
    + destruct (IH (n / 10)%Z (String (digit n) tail)) as (c&p&Hf&Hc&Hv).
      { rewrite Nat2Z.inj_succ, Z.pow_succ_r in Hn by lia. split; [apply Z.div_pos; lia|].
        apply Z.div_lt_upper_bound; lia. }
      cbn [format_digits] in Hf. exists c, (p +:+ String (digit n) EmptyString). split_and!; [|done|].
      * rewrite Hf. rewrite !string_app_cons. f_equal. by rewrite string_app_assoc.
      * intros acc.
        change (String c (p +:+ String (digit n) EmptyString)) with (String c p +:+ String (digit n) EmptyString).
        rewrite digits_value_app, Hv, string_length_app. cbn [digits_value].
        rewrite digit_value_digit. f_equal. cbn [String.length].
        rewrite Nat2Z.inj_add, Z.pow_add_r by lia. change (10 ^ Z.of_nat 1)%Z with 10%Z.
        pose proof (Z.div_mod n 10). lia.
Qed.

Lemma digit_not_sign c : is_Some (digit_value c) -> c <> "+"%char /\ c <> "-"%char.
Proof. intros Hc. split; intros ->; vm_compute in Hc; by destruct Hc. Qed.

(** Printing and parsing a non-negative 64-bit integer is the identity. *)
Lemma ParseInt_FormatInt n : (0 <= n < 2 ^ 63)%Z -> ParseInt (FormatInt n) = Some n.
Proof.
  intros Hn. unfold FormatInt. rewrite decide_False by lia.
  destruct (format_digits_spec 19 n EmptyString) as (c&p&->&Hc&Hv); [lia|].
  rewrite string_app_nil. unfold ParseInt.
  assert (digits_value 0 (String c p) = Some n) as Hval by (rewrite Hv; f_equal; lia).
  apply digit_not_sign in Hc as [H1 H2].
  assert (match String c p with
          | String "+"%char t => match t with EmptyString => None | _ => digits_value 0 t end
          | String "-"%char t => Z.opp <$> match t with EmptyString => None | _ => digits_value 0 t end
          | _ => match String c p with EmptyString => None | _ => digits_value 0 (String c p) end
          end = Some n) as ->.
  { rewrite Hval. destruct c as [[] [] [] [] [] [] [] []]; try done; by destruct H1 || by destruct H2. }
  rewrite decide_True; [done|lia].
Qed.

(** ** Text of digits and dashes *)

Definition plain (c : Ascii.ascii) : Prop := (45 <= byte_of c <= 57)%N.
Definition plain_text (s : string) : Prop := Forall plain (String.list_ascii_of_string s).

(** ASCII without white space. *)
Definition printable_text (s : string) : Prop := Forall (fun c => (33 <= byte_of c <= 127)%N) (String.list_ascii_of_string s).

Lemma printable_not_space a b c : (33 <= a <= 127)%N ->
  space1 a = false /\ space2 a b = false /\ space3 a b c = false /\
  space2 b a = false /\ space3 c b a = false.
Proof.
  intros Ha. unfold space1, space2, space3.
  split_and!; repeat match goal with
    | |- context [(?x =? ?y)%N] => destruct (N.eqb_spec x y); try lia
    | |- context [(?x <=? ?y)%N] => destruct (N.leb_spec x y); try lia
    end; simpl; rewrite ?andb_false_r; try done.
Qed.

Lemma trim_printable rune fuel (l : list N) :
  (forall a t, (33 <= a <= 127)%N -> rune (a :: t) = None) ->
  Forall (fun a => (33 <= a <= 127)%N) l -> rune [] = None -> trim_runes rune fuel l = l.
Proof.
  intros Hr Hl H0. destruct fuel as [|fuel]; [done|]. simpl. destruct l as [|a l]; [by rewrite H0|].
  apply Forall_cons_1 in Hl as [Ha _]. by rewrite (Hr a l Ha).
Qed.

Lemma space_rune_printable a t : (33 <= a <= 127)%N -> space_rune (a :: t) = None /\ space_rune_rev (a :: t) = None.
Proof.
  intros Ha. unfold space_rune, space_rune_rev.
  destruct t as [|b [|c t]].
  - destruct (printable_not_space a 0 0 Ha) as (->&_). done.
  - destruct (printable_not_space a b 0 Ha) as (->&->&_&->&_). done.
  - destruct (printable_not_space a b c Ha) as (->&->&->&->&->). done.
Qed.

Lemma of_to_bytes s : of_bytes (to_bytes s) = s.
Proof.
  unfold of_bytes, to_bytes. rewrite <-list_fmap_compose.
  rewrite (list_fmap_ext _ id) by (intros i x _; apply Ascii.ascii_N_embedding).
  rewrite list_fmap_id. apply String.string_of_list_ascii_of_string.
Qed.

Lemma TrimSpace_printable s : printable_text s -> TrimSpace s = s.
Proof.
  intros Hs. unfold TrimSpace.
  assert (Forall (fun a => (33 <= a <= 127)%N) (to_bytes s)) as Hb by (unfold to_bytes; by apply Forall_fmap).
  rewrite (trim_printable space_rune) by (done || (intros; by apply space_rune_printable)).
  rewrite (trim_printable space_rune_rev); [|intros; by apply space_rune_printable|by apply Forall_rev|done].
  rewrite rev_involutive. apply of_to_bytes.
Qed.
Lemma plain_printable s : plain_text s -> printable_text s.
Proof. apply Forall_impl. unfold plain. lia. Qed.
Lemma TrimSpace_plain s : plain_text s -> TrimSpace s = s.
Proof. intros Hs. by apply TrimSpace_printable, plain_printable. Qed.

Lemma list_ascii_app a b :
  String.list_ascii_of_string (a +:+ b) = String.list_ascii_of_string a ++ String.list_ascii_of_string b.
Proof. induction a as [|c a IH]; [done|]. rewrite string_app_cons. simpl. by rewrite IH. Qed.
Lemma printable_app a b : printable_text a -> printable_text b -> printable_text (a +:+ b).
Proof. unfold printable_text. rewrite list_ascii_app. apply Forall_app_2. Qed.
Lemma to_bytes_app a b : to_bytes (a +:+ b) = to_bytes a ++ to_bytes b.
Proof. unfold to_bytes. by rewrite list_ascii_app, fmap_app. Qed.
Lemma of_bytes_app a b : of_bytes (a ++ b) = of_bytes a +:+ of_bytes b.
Proof.
  unfold of_bytes. rewrite fmap_app. induction (Ascii.ascii_of_N <$> a) as [|c l IH]; [done|].
  simpl. by rewrite IH.
Qed.

Lemma plain_text_app a b : plain_text (a +:+ b) <-> plain_text a /\ plain_text b.
Proof.
  unfold plain_text. induction a as [|c a IH].
  - split; [done|]. by intros [_ ?].
  - rewrite string_app_cons. simpl. rewrite !Forall_cons_iff, IH. tauto.
Qed.

(** Printed digits contain digits only. *)
Definition digits_only (s : string) : Prop :=
  Forall (fun c => (48 <= byte_of c <= 57)%N) (String.list_ascii_of_string s).

Lemma digits_plain s : digits_only s -> plain_text s.
Proof. apply Forall_impl. unfold plain. lia. Qed.

Lemma FormatInt_digits n : (0 <= n)%Z -> digits_only (FormatInt n) .
Proof.
  intros Hn. unfold FormatInt. rewrite decide_False by lia.
  assert (digits_only EmptyString) as Ht by constructor. revert Ht.
  generalize EmptyString. generalize 20%nat. intros fuel. revert n Hn.
  induction fuel as [|fuel IH]; intros n Hn t Ht; [done|]. simpl.
  assert (digits_only (String (digit n) t)) as Hd.
  { constructor; [|done]. unfold digit, byte_of. pose proof (Z.mod_pos_bound n 10).
    rewrite Ascii.N_ascii_embedding by lia. lia. }
  case_decide; [done|]. apply IH; [apply Z.div_pos; lia|done].
Qed.

Lemma FormatInt_nonempty n : (0 <= n < 2 ^ 63)%Z -> FormatInt n <> EmptyString.
Proof. intros Hn He. pose proof (ParseInt_FormatInt n Hn) as Hp. by rewrite He in Hp. Qed.

Lemma IndexByte_digits s t : digits_only s -> IndexByte (s +:+ String "-"%char t) "-"%char = Some (String.length s).
Proof.
  induction s as [|c s IH]; intros Hs; [done|]. apply Forall_cons_1 in Hs as [Hc Hs].
  rewrite string_app_cons. simpl. rewrite bool_decide_false.
  - by rewrite IH.
  - intros ->. vm_compute in Hc. destruct Hc as [Hc _]. by apply Hc.
Qed.

Lemma ContainsByte_comma s : plain_text s -> ContainsByte s ","%char = false.
Proof.
  unfold ContainsByte. intros Hs. assert (IndexByte s ","%char = None) as ->; [|done].
  induction s as [|c s IH]; [done|]. apply Forall_cons_1 in Hs as [Hc Hs]. simpl.
  rewrite bool_decide_false; [by rewrite IH|]. intros ->. vm_compute in Hc. destruct Hc as [Hc _]. by apply Hc.
Qed.

Lemma substring_app_l a b : String.substring 0 (String.length a) (a +:+ b) = a.
Proof. induction a as [|c a IH]; [by destruct b|]. rewrite string_app_cons. simpl. by rewrite IH. Qed.
Lemma substring_full a : String.substring 0 (String.length a) a = a.
Proof. rewrite <-(string_app_nil a) at 2. apply substring_app_l. Qed.
Lemma substring_app_r a b : String.substring (String.length a) (String.length b) (a +:+ b) = b.
Proof. induction a as [|c a IH]; [apply substring_full|]. rewrite string_app_cons. simpl. apply IH. Qed.

Lemma slice_to_app a b : slice_to (a +:+ b) (String.length a) = a.
Proof. apply substring_app_l. Qed.
Lemma slice_from_app a b : slice_from (a +:+ b) (String.length a) = b.
Proof.
  unfold slice_from. rewrite string_length_app.
  replace (String.length a + String.length b - String.length a)%nat with (String.length b) by lia.
  apply substring_app_r.
Qed.

Lemma HasSuffix_app a b : HasSuffix (a +:+ b) b = true.
Proof.
  unfold HasSuffix. rewrite string_length_app, Nat.add_sub, slice_from_app.
  apply andb_true_iff. split; [apply Nat.leb_le; lia|apply String.eqb_refl].
Qed.
Lemma TrimSuffix_app a b : TrimSuffix (a +:+ b) b = a.
Proof. unfold TrimSuffix. by rewrite HasSuffix_app, string_length_app, Nat.add_sub, slice_to_app. Qed.

(** ** Suffixes *)

Lemma slice_split s i : (i <= String.length s)%nat -> slice_to s i +:+ slice_from s i = s.
Proof.
  unfold slice_to, slice_from. revert i. induction s as [|c s IH]; intros i Hi; [by destruct i|].
  destruct i as [|i].
  - change (String.length (String c s) - 0)%nat with (String.length (String c s)). by rewrite substring_full.
  - simpl in *. rewrite string_app_cons, IH by lia. done.
Qed.
Lemma HasSuffix_spec s c : HasSuffix s c = true <-> exists a, s = a +:+ c.
Proof.
  split.
  - unfold HasSuffix. intros [H1 H2]%andb_true_iff. apply Nat.leb_le in H1. apply String.eqb_eq in H2.
    exists (slice_to s (String.length s - String.length c)). rewrite <-(slice_split s (String.length s - String.length c)) at 1 by lia.
    by rewrite H2.
  - intros [a ->]. apply HasSuffix_app.
Qed.

Lemma list_ascii_inj a b : String.list_ascii_of_string a = String.list_ascii_of_string b -> a = b.
Proof.
  intros H. apply (f_equal String.string_of_list_ascii) in H.
  by rewrite !String.string_of_list_ascii_of_string in H.
Qed.

(** A suffix without digits ends before the digits of a number begin. *)
Definition no_digits (s : string) : Prop :=
  Forall (fun c => ~ (48 <= byte_of c <= 57)%N) (String.list_ascii_of_string s).
Lemma HasSuffix_digits d b c : digits_only d -> no_digits c -> HasSuffix (d +:+ b) c = HasSuffix b c.
Proof.
  intros Hd Hc. apply eq_bool_prop_intro. rewrite !Is_true_true, !HasSuffix_spec. split.
  - intros [a Ha]. apply (f_equal String.list_ascii_of_string) in Ha. rewrite !list_ascii_app in Ha.
    apply app_eq_inv in Ha as [(k&Hk&Hk')|(k&Hk&Hk')].
    + exists EmptyString. destruct k as [|x k].
      * apply list_ascii_inj. by rewrite list_ascii_app, Hk'.
      * exfalso. unfold digits_only, no_digits in *. rewrite Hk in Hd. rewrite Hk' in Hc.
        apply Forall_app in Hd as [_ Hd]. apply Forall_cons_1 in Hd as [Hd _]. by apply Forall_cons_1 in Hc as [Hc _].
    + exists (String.string_of_list_ascii k). apply list_ascii_inj.
      by rewrite list_ascii_app, String.list_ascii_of_string_of_list_ascii.
  - intros [a ->]. exists (d +:+ a). by rewrite string_app_assoc.
Qed.
