(* ===== verification/RangeReq.v ===== *)
(** * Range requests (src/internal/gateway/rangereq.go)

    Resolving a Range header against an object, and selecting the chunks and
    the part of each chunk that a resolved range needs. *)

From Stdlib Require Import Ascii.
From stdpp Require Import base list strings numbers.
From S2P Require Import Prelude Chunking GoStrings.

Inductive range_error := errUnsatisfiableRange | errIgnorableRange.

Record byteRange := mkRange {
  br_start : Z;
  br_end : Z
}.
Definition br_length (b : byteRange) : Z := int64 (int64 (br_end b - br_start b) + 1).

Definition contentRange (b : byteRange) (total : Z) : string :=
  "bytes " +:+ FormatInt (br_start b) +:+ "-" +:+ FormatInt (br_end b) +:+ "/" +:+ FormatInt total.

(** The switch at the end of parseRange, on the two trimmed bounds. *)
Definition resolveRange (fromText toText : string) (size : Z) : result range_error byteRange :=
  let ignored := Err errIgnorableRange in
  if String.eqb fromText EmptyString then
    match ParseInt toText with
    | None => ignored
    | Some n =>
        if decide (n <= 0)%Z then ignored
        else
          let n := if decide (size < n)%Z then size else n in
          Ok (mkRange (int64 (size - n)) (int64 (size - 1)))
    end
  else if String.eqb toText EmptyString then
    match ParseInt fromText with
    | None => ignored
    | Some start =>
        if decide (start < 0)%Z then ignored
        else if decide (size <= start)%Z then Err errUnsatisfiableRange
        else Ok (mkRange start (int64 (size - 1)))
    end
  else
    match ParseInt fromText with
    | None => ignored
    | Some start =>
        if decide (start < 0)%Z then ignored
        else
          match ParseInt toText with
          | None => ignored
          | Some end_ =>
              if decide (end_ < start)%Z then ignored
              else if decide (size <= start)%Z then Err errUnsatisfiableRange
              else Ok (mkRange start (if decide (size <= end_)%Z then int64 (size - 1) else end_))
          end
    end.

Definition parseRange (header : string) (size : Z) : result range_error byteRange :=
  let ignored := Err errIgnorableRange in
  if String.eqb header EmptyString then ignored
  else if negb (HasPrefix header "bytes=") then ignored
  else
    let spec := TrimSpace (TrimPrefix header "bytes=") in
    if String.eqb spec EmptyString || ContainsByte spec ","%char then ignored
    else
      match IndexByte spec "-"%char with
      | None => ignored
      | Some dash =>
          let fromText := TrimSpace (slice_to spec dash) in
          let toText := TrimSpace (slice_from spec (S dash)) in
          if decide (size = 0)%Z then Err errUnsatisfiableRange
          else resolveRange fromText toText size
      end.

(** ** Chunk selection *)

(** The fields of the generated ChunkPlacement message. *)
Record NodeInfo := mkNodeInfo {
  ni_NodeId : string;
  ni_GrpcAddress : string
}.
Record ChunkPlacement := mkPlacement {
  cp_ChunkId : string;
  cp_ChunkIndex : Z;
  cp_SizeBytes : Z;
  cp_ChecksumSha256 : string;
  cp_Nodes : list NodeInfo
}.

Record chunkSpan := mkSpan {
  cs_chunk : ChunkPlacement;
  cs_from : Z;
  cs_to : Z
}.

Fixpoint select_from (offset : Z) (chunks : list ChunkPlacement) (br : byteRange) : list chunkSpan :=
  match chunks with
  | [] => []
  | c :: chunks' =>
      let start := offset in
      let end_ := int64 (offset + cp_SizeBytes c) in
      if decide (end_ <= br_start br)%Z then select_from end_ chunks' br
      else if decide (br_end br < start)%Z then []
      else
        let from := if decide (start < br_start br)%Z then int64 (br_start br - start) else 0%Z in
        let to := if decide (br_end br < int64 (end_ - 1))%Z
                  then int64 (int64 (br_end br - start) + 1) else cp_SizeBytes c in
        mkSpan c from to :: select_from end_ chunks' br
  end.
Definition selectChunks (chunks : list ChunkPlacement) (br : byteRange) : list chunkSpan :=
  select_from 0 chunks br.

Definition objectSizeFromChunks (chunks : list ChunkPlacement) : Z :=
  foldl (fun n c => int64 (n + cp_SizeBytes c)) 0%Z chunks.

Definition allChunks (chunks : list ChunkPlacement) : list chunkSpan :=
  (fun c => mkSpan c 0 (cp_SizeBytes c)) <$> chunks.

(** ** Resolving a header *)

Lemma parseRange_in_bounds header size br :
  (0 <= size < 2 ^ 63)%Z -> parseRange header size = Ok br ->
  (0 <= br_start br <= br_end br)%Z /\ (br_end br < size)%Z.
Proof.
  unfold parseRange, resolveRange. intros Hs H.
  repeat (first [case_match | case_decide]; try discriminate); simplify_eq; simpl; rewrite ?int64_small by lia; lia.
Qed.

Lemma parseRange_parts f t size :
  digits_only f -> digits_only t ->
  parseRange ("bytes=" +:+ f +:+ String "-"%char t) size =
  if decide (size = 0)%Z then Err errUnsatisfiableRange else resolveRange f t size.
Proof.
  intros Hf Ht. set (spec := f +:+ String "-"%char t).
  assert (plain_text spec) as Hp.
  { apply plain_text_app. split; [by apply digits_plain|].
    constructor; [|by apply digits_plain]. by vm_compute. }
  assert (TrimPrefix ("bytes=" +:+ spec) "bytes=" = spec) as Hpre.
  { unfold TrimPrefix, HasPrefix. simpl. rewrite !string_app_cons. simpl.
    change (EmptyString +:+ spec) with spec. rewrite Nat.sub_0_r. destruct spec; [done|]. simpl. f_equal. apply substring_full. }
  unfold parseRange. rewrite Hpre, (TrimSpace_plain spec Hp), (ContainsByte_comma spec Hp).
  assert (String.eqb spec EmptyString = false) as -> by (by subst spec; destruct f).
  simpl. unfold HasPrefix, spec. rewrite (IndexByte_digits f t Hf).
  rewrite slice_to_app. rewrite (TrimSpace_plain f) by by apply digits_plain.
  replace (slice_from (f +:+ String "-" t) (S (String.length f))) with t.
  - rewrite (TrimSpace_plain t) by by apply digits_plain. by destruct f.
  - replace (f +:+ String "-" t) with ((f +:+ "-") +:+ t) by by rewrite string_app_assoc.
    replace (S (String.length f)) with (String.length (f +:+ "-")); [by rewrite slice_from_app|].
    rewrite string_length_app. simpl. lia.
Qed.

Lemma eqb_FormatInt n : (0 <= n < 2 ^ 63)%Z -> String.eqb (FormatInt n) EmptyString = false.
Proof. intros Hn. apply String.eqb_neq. by apply FormatInt_nonempty. Qed.

(** ** What parseRange accepts *)

(** C39: parseRange resolves every header to a range inside the object or
    to one of its two errors, and answers the three canonical forms exactly:
    first-last is cut at the end of the object, first- runs to the end, -n is
    the last n bytes (all of them when n exceeds the size), and a first byte
    beyond the object is unsatisfiable. *)
Theorem parseRange_exact (size : Z) :
  (0 <= size < 2 ^ 63)%Z ->
  (forall header br, parseRange header size = Ok br ->
     (0 <= br_start br <= br_end br)%Z /\ (br_end br < size)%Z /\
     br_length br = (br_end br - br_start br + 1)%Z) /\
  (forall first last, (0 <= first <= last)%Z -> (last < 2 ^ 63)%Z ->
     parseRange ("bytes=" +:+ FormatInt first +:+ String "-" (FormatInt last)) size =
       if decide (size <= first)%Z then Err errUnsatisfiableRange
       else Ok (mkRange first (Z.min last (size - 1)))) /\
  (forall first, (0 <= first < 2 ^ 63)%Z ->
     parseRange ("bytes=" +:+ FormatInt first +:+ "-") size =
       if decide (size <= first)%Z then Err errUnsatisfiableRange
       else Ok (mkRange first (size - 1))) /\
  (forall n, (0 < n < 2 ^ 63)%Z ->
     parseRange ("bytes=-" +:+ FormatInt n) size =
       if decide (size = 0)%Z then Err errUnsatisfiableRange
       else Ok (mkRange (Z.max 0 (size - n)) (size - 1))).
Proof.
  intros Hs. split_and!.
  - intros header br H. destruct (parseRange_in_bounds header size br Hs H) as [H1 H2].
    unfold br_length. rewrite !int64_small by (rewrite ?int64_small by lia; lia). lia.
  - intros first last Hf Hl. rewrite parseRange_parts by (apply FormatInt_digits; lia). unfold resolveRange.
    rewrite !eqb_FormatInt, !ParseInt_FormatInt by lia.
    repeat case_decide; rewrite ?int64_small by lia; (done || lia || (do 2 f_equal; lia)).
  - intros first Hf. rewrite parseRange_parts by (constructor || (apply FormatInt_digits; lia)). unfold resolveRange.
    rewrite eqb_FormatInt, ParseInt_FormatInt by lia. simpl.
    repeat case_decide; rewrite ?int64_small by lia; (done || lia).
  - intros n Hn. change ("bytes=-" +:+ FormatInt n) with ("bytes=" +:+ EmptyString +:+ String "-" (FormatInt n)).
    rewrite parseRange_parts by (constructor || (apply FormatInt_digits; lia)). unfold resolveRange. simpl.
    rewrite ParseInt_FormatInt by lia.
    repeat case_decide; rewrite ?int64_small by lia; (done || lia || (do 2 f_equal; lia)).
Qed.

(** A 1000-byte object: a range across its end, and the last 10 bytes. *)
Lemma parseRange_exact_witness :
  parseRange "bytes=990-2000" 1000 = Ok (mkRange 990 999) /\
  parseRange "bytes=-10" 1000 = Ok (mkRange 990 999).
Proof.
  destruct (parseRange_exact 1000 ltac:(lia)) as (_&H1&_&H2). split.
  - etransitivity; [apply (H1 990 2000)%Z; lia|by vm_compute].
  - etransitivity; [apply (H2 10)%Z; lia|by vm_compute].
Defined.

(** ** Selecting chunks *)

Section spans.
Context {B : Type} (content : ChunkPlacement -> list B).

(** The bytes of one span, and of a list of chunks. *)
Definition span_bytes (s : chunkSpan) : list B :=
  drop (Z.to_nat (cs_from s)) (take (Z.to_nat (cs_to s)) (content (cs_chunk s))).
Definition object_bytes (chunks : list ChunkPlacement) : list B := concat (content <$> chunks).

(** Every chunk holds as many bytes as its placement records. *)
Definition sized (chunks : list ChunkPlacement) : Prop :=
  Forall (fun c => cp_SizeBytes c = Z.of_nat (length (content c))) chunks.

Definition span_ok (s : chunkSpan) : Prop :=
  (0 <= cs_from s <= cs_to s)%Z /\ (cs_to s <= cp_SizeBytes (cs_chunk s))%Z.

Lemma object_bytes_cons c chunks : object_bytes (c :: chunks) = content c ++ object_bytes chunks.
Proof. done. Qed.

Lemma take_upto (l : list B) n m :
  n `min` length l = m `min` length l -> take n l = take m l.
Proof.
  intros H. rewrite <-(firstn_all l) at 1 2. rewrite !take_take. by rewrite H.
Qed.

Lemma select_from_exact chunks (o st en : nat) :
  sized chunks -> (Z.of_nat o + Z.of_nat (length (object_bytes chunks)) < 2 ^ 63)%Z ->
  (st <= en)%nat -> (Z.of_nat en < 2 ^ 63)%Z ->
  let spans := select_from (Z.of_nat o) chunks (mkRange (Z.of_nat st) (Z.of_nat en)) in
  concat (span_bytes <$> spans) = take (S en - o `max` st) (drop (st - o) (object_bytes chunks)) /\
  Forall span_ok spans /\ (cs_chunk <$> spans) `sublist_of` chunks.
Proof.
  intros Hz. revert o. induction Hz as [|c chunks Hc Hz IH]; intros o Hlen Hse Hen.
  { unfold object_bytes. simpl. rewrite drop_nil, take_nil. split_and!; constructor. }
  rewrite object_bytes_cons in *. rewrite length_app in Hlen. simpl. rewrite Hc.
  rewrite int64_small by lia. rewrite <-Nat2Z.inj_add.
  destruct (IH (o + length (content c))%nat) as (IH1&IH2&IH3); [lia..|].
  case_decide; [|case_decide].
  - rewrite IH1, drop_app_ge by lia. split_and!; [|done|by apply sublist_cons].
    f_equal; [lia|f_equal; lia].
  - replace (S en - o `max` st)%nat with 0%nat by lia. split_and!; [done|constructor|apply sublist_nil_l].
  - rewrite fmap_cons. simpl. rewrite IH1. split_and!.
    + rewrite drop_app_le, take_app by lia. rewrite length_drop. f_equal.
      * unfold span_bytes. simpl. rewrite skipn_firstn_comm.
        replace (Z.to_nat (if decide _ then _ else 0%Z)) with (st - o)%nat
          by (case_decide; rewrite ?int64_small by lia; lia).
        apply take_upto. rewrite length_drop. case_decide; rewrite ?int64_small in * by (rewrite ?int64_small by lia; lia); lia.
      * f_equal; [lia|]. replace (st - _)%nat with 0%nat by lia. by rewrite drop_0.
    + constructor; [|done]. unfold span_ok. simpl. rewrite Hc.
      repeat case_decide; rewrite ?int64_small in * by (rewrite ?int64_small by lia; lia); lia.
    + by apply sublist_skip.
Qed.

Lemma objectSize_total chunks (n : nat) :
  sized chunks -> (Z.of_nat n + Z.of_nat (length (object_bytes chunks)) < 2 ^ 63)%Z ->
  foldl (fun n c => int64 (n + cp_SizeBytes c)) (Z.of_nat n) chunks =
    Z.of_nat (n + length (object_bytes chunks)).
Proof.
  intros Hz. revert n. induction Hz as [|c chunks Hc Hz IH]; intros n Hlen; [simpl; by rewrite Nat.add_0_r|].
  rewrite object_bytes_cons, length_app in *. simpl. rewrite Hc, int64_small by lia.
  rewrite <-Nat2Z.inj_add, IH by lia. f_equal. lia.
Qed.

Lemma allChunks_bytes chunks : sized chunks -> concat (span_bytes <$> allChunks chunks) = object_bytes chunks.
Proof.
  induction 1 as [|c chunks Hc _ IH]; [done|]. unfold allChunks in *. rewrite !fmap_cons. simpl. rewrite IH.
  unfold span_bytes. simpl. by rewrite Hc, drop_0, take_ge by lia.
Qed.
End spans.

Lemma selectChunks_bytes {B} (content : ChunkPlacement -> list B) chunks br :
  sized content chunks -> (Z.of_nat (length (object_bytes content chunks)) < 2 ^ 63)%Z ->
  (0 <= br_start br <= br_end br)%Z -> (br_end br < objectSizeFromChunks chunks)%Z ->
  concat (span_bytes content <$> selectChunks chunks br) =
    take (Z.to_nat (br_length br)) (drop (Z.to_nat (br_start br)) (object_bytes content chunks)) /\
  length (concat (span_bytes content <$> selectChunks chunks br)) = Z.to_nat (br_length br) /\
  Forall span_ok (selectChunks chunks br) /\
  (cs_chunk <$> selectChunks chunks br) `sublist_of` chunks /\
  objectSizeFromChunks chunks = Z.of_nat (length (object_bytes content chunks)) /\
  concat (span_bytes content <$> allChunks chunks) = object_bytes content chunks.
Proof.
  intros Hz Hlen Hb He.
  assert (objectSizeFromChunks chunks = Z.of_nat (length (object_bytes content chunks))) as Hsize
    by (apply (objectSize_total content chunks 0); [done|lia]).
  rewrite Hsize in He. destruct br as [st en]. simpl in *.
  destruct (select_from_exact content chunks 0 (Z.to_nat st) (Z.to_nat en)) as (H1&H2&H3); [done|lia..|].
  unfold selectChunks. rewrite !Z2Nat.id in * by lia. change (Z.of_nat 0) with 0%Z in *.
  assert (Z.to_nat (br_length (mkRange st en)) = S (Z.to_nat en) - 0 `max` Z.to_nat st)%nat as Hl
    by (unfold br_length; simpl; rewrite !int64_small by (rewrite ?int64_small by lia; lia); lia).
  rewrite Nat.sub_0_r in H1. rewrite Hl. split_and!; try done.
  - rewrite H1, length_take, length_drop. lia.
  - by apply allChunks_bytes.
Qed.

(** For an object whose chunks hold the sizes their placements record,
    whatever those sizes are, the spans selectChunks picks for a range inside
    the object concatenate to exactly the requested bytes, stay inside their
    chunks and follow the chunk order; objectSizeFromChunks is the object's
    length, and allChunks is the whole object. *)
Theorem selectChunks_exact {B} (content : ChunkPlacement -> list B) chunks br :
  sized content chunks -> (Z.of_nat (length (object_bytes content chunks)) < 2 ^ 63)%Z ->
  (0 <= br_start br <= br_end br)%Z -> (br_end br < objectSizeFromChunks chunks)%Z ->
  concat (span_bytes content <$> selectChunks chunks br) =
    take (Z.to_nat (br_length br)) (drop (Z.to_nat (br_start br)) (object_bytes content chunks)) /\
  length (concat (span_bytes content <$> selectChunks chunks br)) = Z.to_nat (br_length br) /\
  Forall span_ok (selectChunks chunks br) /\
  (cs_chunk <$> selectChunks chunks br) `sublist_of` chunks /\
  objectSizeFromChunks chunks = Z.of_nat (length (object_bytes content chunks)) /\
  concat (span_bytes content <$> allChunks chunks) = object_bytes content chunks.
Proof. apply selectChunks_bytes. Qed.

(** Three chunks of 4, 1 and 3 bytes, as a multipart assembly leaves them, and
    a range across all of them. *)
Definition sample_placement (i n : Z) : ChunkPlacement := mkPlacement EmptyString i n EmptyString [].
Definition sample_content (c : ChunkPlacement) : list Z :=
  (fun k => cp_ChunkIndex c * 10 + Z.of_nat k)%Z <$> seq 0 (Z.to_nat (cp_SizeBytes c)).
Lemma selectChunks_exact_witness :
  concat (span_bytes sample_content <$>
    selectChunks [sample_placement 0 4; sample_placement 1 1; sample_placement 2 3] (mkRange 2 5)) =
  [2; 3; 10; 20]%Z.
Proof.
  destruct (selectChunks_exact sample_content
    [sample_placement 0 4; sample_placement 1 1; sample_placement 2 3] (mkRange 2 5)) as (H&_).
  - repeat constructor.
  - vm_compute. done.
  - simpl. lia.
  - vm_compute. done.
  - etransitivity; [exact H|by vm_compute].
Defined.
