(* ===== verification/GoFloat.v ===== *)
(** * Go's float64 and sort.Slice

    float64 as IEEE 754 binary64 on the Standard Library's executable
    specification, with what the placement code uses of it: arithmetic,
    comparisons and conversions. The lemmas say when an operation yields NaN
    and that the comparisons order the other values; integers below 2^53 and
    their products are exact. sort.Slice is an
    operation of a class, with its documented behaviour as laws. *)

From Stdlib Require Import Floats.SpecFloat.
From stdpp Require Import base list numbers sorting sets.
From S2P Require Import Prelude.

Abbreviation float64 := spec_float.
Definition fadd : float64 -> float64 -> float64 := SFadd 53 1024.
Definition fmul : float64 -> float64 -> float64 := SFmul 53 1024.
Definition fdiv : float64 -> float64 -> float64 := SFdiv 53 1024.
Definition fopp : float64 -> float64 := SFopp.
Definition flt : float64 -> float64 -> bool := SFltb.
Definition fle : float64 -> float64 -> bool := SFleb.
Definition feq : float64 -> float64 -> bool := SFeqb.

(** [float64(n)] for an integer, rounded to nearest even. *)
Definition of_int (n : Z) : float64 := binary_normalize 53 1024 n 0 false.
Definition f0 : float64 := S754_zero false.
Definition f1 : float64 := of_int 1.
(** A decimal literal [n / d] that is the nearest float64 to the quotient. *)
Definition flit (n d : Z) : float64 := fdiv (of_int n) (of_int d).

(** Truncation toward zero of a finite value. *)
Definition ftrunc (x : float64) : option Z :=
  match x with
  | S754_zero _ => Some 0%Z
  | S754_finite s m e =>
      let a := if (0 <=? e)%Z then (Zpos m * 2 ^ e)%Z else (Zpos m / 2 ^ (- e))%Z in
      Some (if s then (- a)%Z else a)
  | _ => None
  end.

Definition is_nan (x : float64) : bool := match x with S754_nan => true | _ => false end.

(** ** When operations are not NaN *)

Lemma iter_pos_ind {A} (P : A -> Prop) f n (x : A) :
  (forall y, P y -> P (f y)) -> P x -> P (SpecFloat.iter_pos f n x).
Proof. intros Hf. revert x. induction n; simpl; auto. Qed.

Lemma shr_nonneg mrs e n : (0 <= shr_m mrs)%Z -> (0 <= shr_m (shr mrs e n).1)%Z.
Proof.
  intros H. destruct n as [|p|p]; simpl; try done.
  apply (iter_pos_ind (fun m => 0 <= shr_m m)%Z); [|done].
  intros [m r s]. simpl. destruct m as [|[]|]; simpl; lia.
Qed.

Lemma shr_fexp_nonneg m e l : (0 <= m)%Z -> (0 <= shr_m (shr_fexp 53 1024 m e l).1)%Z.
Proof. intros H. apply shr_nonneg. by destruct l as [|[]]. Qed.

Lemma round_nonneg m l : (0 <= m)%Z -> (0 <= round_nearest_even m l)%Z.
Proof. intros H. destruct l as [|[]]; simpl; try case_match; lia. Qed.

(** Rounding never makes a NaN. *)
Lemma binary_round_aux_num s m e l : (0 <= m)%Z -> is_nan (binary_round_aux 53 1024 s m e l) = false.
Proof.
  intros H. unfold binary_round_aux.
  pose proof (shr_fexp_nonneg m e l H) as H1. destruct (shr_fexp 53 1024 m e l) as [mrs e'].
  pose proof (shr_fexp_nonneg _ e' loc_Exact (round_nonneg _ (loc_of_shr_record mrs) H1)) as H2.
  destruct (shr_fexp 53 1024 (round_nearest_even _ _) e' loc_Exact) as [mrs' e''].
  simpl in H2. destruct (shr_m mrs') as [|p|p]; [done|by case_match|lia].
Qed.

Lemma of_int_num n : is_nan (of_int n) = false.
Proof.
  unfold of_int, binary_normalize, binary_round.
  destruct n; [done|..]; destruct (shl_align _ _ _); by apply binary_round_aux_num.
Qed.

Lemma fdiv_finite_num s m e s' m' e' : is_nan (fdiv (S754_finite s m e) (S754_finite s' m' e')) = false.
Proof.
  unfold fdiv, SFdiv, SFdiv_core_binary.
  set (m1 := match _ with Z0 => _ | Zpos _ => _ | Zneg _ => _ end).
  assert (0 <= m1)%Z as Hm1 by (subst m1; case_match; [lia|apply Z.shiftl_nonneg; lia|lia]).
  pose proof (Z_div_pos m1 (Zpos m') ltac:(lia) Hm1) as Hq. unfold Z.div in Hq.
  destruct (Z.div_eucl m1 (Zpos m')) as [q r]. by apply binary_round_aux_num.
Qed.

(** ** The order of the values that are not NaN *)

(** Comparison of float64 values is the lexicographic order of these keys. *)
Definition fkey (x : float64) : Z * Z * Z :=
  match x with
  | S754_infinity true => (-2, 0, 0)
  | S754_finite true m e => (-1, - e, - Zpos m)
  | S754_zero _ | S754_nan => (0, 0, 0)
  | S754_finite false m e => (1, e, Zpos m)
  | S754_infinity false => (2, 0, 0)
  end%Z.
Definition key_lt (x y : Z * Z * Z) : Prop :=
  (x.1.1 < y.1.1 \/ x.1.1 = y.1.1 /\ (x.1.2 < y.1.2 \/ x.1.2 = y.1.2 /\ x.2 < y.2))%Z.

Lemma fcompare_key x y :
  is_nan x = false -> is_nan y = false ->
  match SFcompare x y with
  | Some Lt => key_lt (fkey x) (fkey y)
  | Some Eq => fkey x = fkey y
  | Some Gt => key_lt (fkey y) (fkey x)
  | None => False
  end.
Proof.
  destruct x as [?|[]| |[] m e], y as [?|[]| |[] m' e']; try done; intros _ _; simpl;
    unfold key_lt; simpl; try lia;
    (destruct (Z.compare_spec e e'); simpl; try lia; subst;
     change (Pos.compare_cont Eq m m') with (m ?= m')%positive;
     destruct (Pos.compare_spec m m'); simpl; subst; try done; lia).
Qed.

Lemma flt_key x y : is_nan x = false -> is_nan y = false -> flt x y = true <-> key_lt (fkey x) (fkey y).
Proof.
  intros Hx Hy. pose proof (fcompare_key x y Hx Hy) as H. unfold flt, SFltb.
  destruct (SFcompare x y) as [[]|]; [|done| |done]; (split; [done|]); unfold key_lt in *; intros; exfalso.
  - rewrite H in *. lia.
  - lia.
Qed.
Lemma feq_key x y : is_nan x = false -> is_nan y = false -> feq x y = true <-> fkey x = fkey y.
Proof.
  intros Hx Hy. pose proof (fcompare_key x y Hx Hy) as H. unfold feq, SFeqb.
  destruct (SFcompare x y) as [[]|]; [done| | |done]; (split; [done|]); unfold key_lt in *; intros E;
    rewrite E in *; lia.
Qed.

(** ** sort.Slice *)

Section slices.
Context {A : Type}.

(** [less] is a strict weak order on the elements of [l], which is what
    sort.Slice asks of it. *)
Record strict_weak (less : A -> A -> bool) (l : list A) : Prop := {
  sw_irrefl : forall a, a ∈ l -> less a a = false;
  sw_trans : forall a b c, a ∈ l -> b ∈ l -> c ∈ l ->
    less a b = true -> less b c = true -> less a c = true;
  sw_incomparable : forall a b c, a ∈ l -> b ∈ l -> c ∈ l ->
    less a b = false -> less b c = false -> less a c = false
}.

(** No element comes before a smaller one. *)
Definition in_order (less : A -> A -> bool) : list A -> Prop :=
  StronglySorted (fun a b => less b a = false).
End slices.

(** sort.Slice permutes the slice, and orders it when [less] is a strict weak
    order; equal elements may come in any order. *)
Class GoSort := {
  sort_slice : forall {A}, (A -> A -> bool) -> list A -> list A;
  sort_slice_perm : forall {A} (less : A -> A -> bool) l, sort_slice less l ≡ₚ l;
  sort_slice_sorted : forall {A} (less : A -> A -> bool) l,
    strict_weak less l -> in_order less (sort_slice less l)
}.

(** A sorted slice under a total order is unique. *)
Lemma in_order_unique {A} (less : A -> A -> bool) l1 l2 :
  (forall a b, a ∈ l1 -> b ∈ l1 -> less a b = false -> less b a = false -> a = b) ->
  l1 ≡ₚ l2 -> in_order less l1 -> in_order less l2 -> l1 = l2.
Proof.
  intros Hanti Hp Hs1. revert l2 Hp. induction Hs1 as [|a l1 Hs1 IH Ha]; intros l2 Hp Hs2.
  { by apply Permutation_nil in Hp. }
  destruct l2 as [|b l2]; [symmetry in Hp; by apply Permutation_nil_cons in Hp|].
  apply StronglySorted_inv in Hs2 as [Hs2 Hb]. rewrite Forall_forall in Ha, Hb.
  assert (a = b) as <-.
  { assert (a ∈ b :: l2) as Hin1 by (rewrite <-Hp; by left).
    assert (b ∈ a :: l1) as Hin2 by (rewrite Hp; by left).
    apply elem_of_cons in Hin1 as [?|Hin1]; [done|]. apply elem_of_cons in Hin2 as [?|Hin2]; [done|].
    apply Hanti; [by left|by right|by apply Hb|by apply Ha]. }
  f_equal. apply IH; [|by apply Permutation_cons_inv in Hp|done].
  intros x y Hx Hy. apply Hanti; by right.
Qed.

(** Filtering keeps the order. *)
Lemma in_order_filter {A} (less : A -> A -> bool) (P : A -> Prop) `{forall x, Decision (P x)} l :
  in_order less l -> in_order less (filter P l).
Proof.
  induction 1 as [|a l Hs IH Ha]; [constructor|]. rewrite filter_cons. case_decide; [|done].
  constructor; [done|]. rewrite Forall_forall in *. intros x Hx. apply list_elem_of_filter in Hx as [_ Hx]. auto.
Qed.

(** Insertion sort has the behaviour of the class. *)
Section insertion.
Context {A : Type} (less : A -> A -> bool).

Fixpoint insert_sorted (a : A) (l : list A) : list A :=
  match l with
  | [] => [a]
  | b :: l' => if less b a then b :: insert_sorted a l' else a :: l
  end.
Definition insertion_sort (l : list A) : list A := foldr insert_sorted [] l.

Lemma insert_sorted_perm a l : insert_sorted a l ≡ₚ a :: l.
Proof. induction l as [|b l IH]; [done|]. simpl. case_match; [|done]. rewrite IH. apply Permutation_swap. Qed.

Lemma insertion_sort_perm l : insertion_sort l ≡ₚ l.
Proof. induction l as [|a l IH]; [done|]. simpl. by rewrite insert_sorted_perm, IH. Qed.

Lemma insert_sorted_in_order a l :
  strict_weak less (a :: l) -> in_order less l -> in_order less (insert_sorted a l).
Proof.
  intros Hw. induction 1 as [|b l Hs IH Hb]; simpl; [repeat constructor|].
  assert (strict_weak less (a :: l)) as Hw'.
  { destruct Hw as [W1 W2 W3]. split; intros *; rewrite ?elem_of_cons in *; intros.
    - apply W1. rewrite !elem_of_cons. tauto.
    - eapply W2 with b0; rewrite ?elem_of_cons; tauto.
    - eapply W3 with b0; rewrite ?elem_of_cons; tauto. }
  rewrite Forall_forall in Hb. assert (a ∈ a :: b :: l) by set_solver. assert (b ∈ a :: b :: l) by set_solver.
  destruct (less b a) eqn:E.
  - constructor; [by apply IH|]. apply Forall_forall. intros x Hx.
    rewrite insert_sorted_perm in Hx. apply elem_of_cons in Hx as [->|Hx]; [|by apply Hb].
    destruct (less a b) eqn:E'; [|done].
    pose proof (sw_trans _ _ Hw a b a) as Ht. rewrite (sw_irrefl _ _ Hw a) in Ht by done. exfalso. by discriminate Ht.
  - constructor; [by constructor; [|apply Forall_forall]|]. apply Forall_forall. intros x Hx.
    apply elem_of_cons in Hx as [->|Hx]; [done|].
    apply (sw_incomparable _ _ Hw x b a); [set_solver|done|done|by apply Hb|done].
Qed.

Lemma strict_weak_sub l l' : l' ⊆ l -> strict_weak less l -> strict_weak less l'.
Proof. intros Hl [W1 W2 W3]. split; eauto. Qed.

Lemma insertion_sort_in_order l : strict_weak less l -> in_order less (insertion_sort l).
Proof.
  induction l as [|a l IH]; intros Hw; [constructor|]. simpl. apply insert_sorted_in_order.
  - eapply strict_weak_sub; [|done]. intros x. by rewrite !elem_of_cons, insertion_sort_perm.
  - apply IH. eapply strict_weak_sub; [|done]. set_solver.
Qed.
End insertion.

Definition sort_by_insertion : GoSort := {|
  sort_slice := @insertion_sort;
  sort_slice_perm := @insertion_sort_perm;
  sort_slice_sorted := @insertion_sort_in_order
|}.

(** ** Integers below 2^53 *)

Lemma digits2_log2 p : Zpos (digits2_pos p) = (Z.log2 (Zpos p) + 1)%Z.
Proof.
  induction p as [p IH|p IH|]; [| |done]; simpl digits2_pos; rewrite Pos2Z.inj_succ, IH.
  - rewrite (Pos2Z.inj_xI p), Z.add_1_r, Z.log2_succ_double by lia. lia.
  - rewrite (Pos2Z.inj_xO p), Z.log2_double by lia. lia.
Qed.
Lemma Zdigits2_log2 m : (0 < m)%Z -> Zdigits2 m = (Z.log2 m + 1)%Z.
Proof. destruct m as [|p|p]; [lia| |lia]. intros _. apply digits2_log2. Qed.

(** Shifting out zero bits is exact. *)
Lemma shr_1_exact m : (0 <= m)%Z -> (2 | m)%Z ->
  shr_1 {| shr_m := m; shr_r := false; shr_s := false |} = {| shr_m := m / 2; shr_r := false; shr_s := false |}.
Proof.
  intros Hm [k ->]. rewrite Z.div_mul by done. destruct k as [|p|p]; [done| |lia].
  rewrite <-Pos2Z.inj_mul, Pos.mul_comm. done.
Qed.
Lemma shr_iter_exact p m : (0 <= m)%Z -> (2 ^ Zpos p | m)%Z ->
  SpecFloat.iter_pos shr_1 p {| shr_m := m; shr_r := false; shr_s := false |} =
  {| shr_m := m / 2 ^ Zpos p; shr_r := false; shr_s := false |}.
Proof.
  revert m. induction p as [p IH|p IH|]; intros m Hm [k ->]; cbn [SpecFloat.iter_pos].
  - rewrite (Pos2Z.inj_xI p), Z.pow_add_r, Z.pow_mul_r, Z.pow_1_r by lia.
    assert (0 <= k)%Z by nia.
    assert (0 < 2 ^ Zpos p)%Z by lia.
    replace ((2 ^ 2) ^ Zpos p)%Z with (2 ^ Zpos p * 2 ^ Zpos p)%Z by (rewrite <-Z.pow_mul_l; done).
    rewrite shr_1_exact by (try nia; exists (k * (2 ^ Zpos p * 2 ^ Zpos p))%Z; lia).
    replace (k * (2 ^ Zpos p * 2 ^ Zpos p * 2))%Z with (k * 2 ^ Zpos p * 2 ^ Zpos p * 2)%Z by lia.
    rewrite Z.div_mul by done.
    rewrite IH by (try nia; by eexists). rewrite Z.div_mul by lia.
    rewrite IH by (try nia; by eexists). rewrite Z.div_mul by lia.
    f_equal. replace (k * 2 ^ Zpos p * 2 ^ Zpos p * 2)%Z with (k * (2 ^ Zpos p * 2 ^ Zpos p * 2))%Z by lia.
    by rewrite Z.div_mul by nia.
  - assert (0 <= k)%Z by (assert (0 < 2 ^ Zpos p~0)%Z by lia; nia).
    rewrite (Pos2Z.inj_xO p), Z.pow_mul_r by lia.
    assert (0 < 2 ^ Zpos p)%Z by lia.
    replace ((2 ^ 2) ^ Zpos p)%Z with (2 ^ Zpos p * 2 ^ Zpos p)%Z by (rewrite <-Z.pow_mul_l; done).
    rewrite Z.mul_assoc.
    rewrite IH by (try nia; by eexists). rewrite Z.div_mul by lia.
    rewrite IH by (try nia; by eexists). rewrite Z.div_mul by lia.
    f_equal. rewrite <-Z.mul_assoc. by rewrite Z.div_mul by nia.
  - apply shr_1_exact; [done|]. by exists k.
Qed.

(** A value of at most 53 bits is rounded to itself. *)
Lemma shr_fexp_exact m e v : (0 < v < 2 ^ 53)%Z -> (e <= 0)%Z -> m = (v * 2 ^ (- e))%Z ->
  exists m' e', shr_fexp 53 1024 m e loc_Exact = ({| shr_m := m'; shr_r := false; shr_s := false |}, e') /\
    (e' <= 0)%Z /\ m' = (v * 2 ^ (- e'))%Z /\ (Z.log2 v + 1 - 53 <= e')%Z.
Proof.
  intros Hv He ->. assert (0 < 2 ^ (- e))%Z by lia.
  unfold shr_fexp. rewrite Zdigits2_log2 by nia. rewrite Z.log2_mul_pow2 by lia.
  assert (0 <= Z.log2 v < 53)%Z as Hlog by (split; [apply Z.log2_nonneg|apply Z.log2_lt_pow2; lia]).
  unfold fexp, emin. replace (- e + Z.log2 v + 1 + e)%Z with (Z.log2 v + 1)%Z by lia.
  rewrite Z.max_l by lia. set (n := (Z.log2 v + 1 - 53 - e)%Z). unfold shr, shr_record_of_loc.
  destruct n as [|p|p] eqn:Hn; unfold n in *.
  - exists (v * 2 ^ (- e))%Z, e. split_and!; [done|lia|done|lia].
  - assert (2 ^ (- e) = 2 ^ (- (Z.log2 v + 1 - 53)) * 2 ^ Zpos p)%Z as Hsplit by (rewrite <-Z.pow_add_r by lia; f_equal; lia).
    rewrite shr_iter_exact; [|nia|exists (v * 2 ^ (- (Z.log2 v + 1 - 53)))%Z; rewrite Hsplit; lia].
    eexists _, _. split_and!; [done|lia| |lia].
    rewrite Hsplit, Z.mul_assoc, Z.div_mul by lia. f_equal. f_equal. lia.
  - exists (v * 2 ^ (- e))%Z, e. split_and!; [done|lia|done|lia].
Qed.

Lemma round_aux_exact m e v : (0 < v < 2 ^ 53)%Z -> (e <= 0)%Z -> m = (v * 2 ^ (- e))%Z ->
  exists p e', binary_round_aux 53 1024 false m e loc_Exact = S754_finite false p e' /\
    (e' <= 0)%Z /\ Zpos p = (v * 2 ^ (- e'))%Z.
Proof.
  intros Hv He Hm. unfold binary_round_aux.
  destruct (shr_fexp_exact m e v Hv He Hm) as (m1&e1&->&He1&Hm1&Hl1). cbn [shr_m shr_r shr_s loc_of_shr_record round_nearest_even].
  destruct (shr_fexp_exact m1 e1 v Hv He1 Hm1) as (m2&e2&->&He2&Hm2&Hl2). cbn [shr_m].
  assert (0 < 2 ^ (- e2))%Z by lia. destruct m2 as [|p|p]; [nia| |nia].
  rewrite (proj2 (Z.leb_le e2 (1024 - 53))) by lia. eauto.
Qed.

Lemma iter_xO p d : Zpos (Pos.iter xO p d) = (Zpos p * 2 ^ Zpos d)%Z.
Proof.
  induction d as [|d IH] using Pos.peano_ind; [simpl; lia|].
  rewrite Pos.iter_succ, Pos2Z.inj_xO, IH, Pos2Z.inj_succ, Z.pow_succ_r by lia. lia.
Qed.

Lemma of_int_exact v : (0 < v < 2 ^ 53)%Z ->
  exists p e, of_int v = S754_finite false p e /\ (e <= 0)%Z /\ Zpos p = (v * 2 ^ (- e))%Z.
Proof.
  intros Hv. destruct v as [|q|q]; [lia| |lia]. unfold of_int, binary_normalize, binary_round.
  unfold shl_align, fexp, emin. rewrite digits2_log2.
  assert (0 <= Z.log2 (Zpos q) < 53)%Z by (split; [apply Z.log2_nonneg|apply Z.log2_lt_pow2; lia]).
  rewrite Z.max_l by lia. destruct (Z.log2 (Zpos q) + 1 + 0 - 53 - 0)%Z as [|d|d] eqn:Hd.
  - apply round_aux_exact; [lia|lia|rewrite Z.pow_0_r; lia].
  - lia.
  - apply round_aux_exact; [lia|lia|]. rewrite iter_xO. f_equal. f_equal. lia.
Qed.

Lemma ftrunc_exact p e v : (0 < v)%Z -> (e <= 0)%Z -> Zpos p = (v * 2 ^ (- e))%Z ->
  ftrunc (S754_finite false p e) = Some v.
Proof.
  intros Hv He Hp. unfold ftrunc. rewrite Hp. f_equal. assert (0 < 2 ^ (- e))%Z by lia.
  destruct (Z.leb_spec 0 e) as [H0|H0].
  - assert (e = 0%Z) as -> by lia. rewrite Z.pow_0_r. lia.
  - by rewrite Z.div_mul by lia.
Qed.

(** Products of integers below 2^53 are exact. *)
Lemma fmul_of_int a b : (0 <= a)%Z -> (0 < b < 2 ^ 53)%Z -> (a * b < 2 ^ 53)%Z ->
  ftrunc (fmul (of_int a) (of_int b)) = Some (a * b)%Z.
Proof.
  intros Ha Hb Hab. destruct (of_int_exact b) as (q&f&->&Hf&Hq); [lia|].
  destruct (decide (a = 0)%Z) as [->|Ha0]; [done|].
  destruct (of_int_exact a) as (p&e&->&He&Hp); [nia|]. unfold fmul, SFmul. cbn [xorb].
  assert (0 < 2 ^ (- e) /\ 0 < 2 ^ (- f))%Z as [H1 H2] by lia.
  destruct (round_aux_exact (Zpos (p * q)) (e + f) (a * b)) as (r&g&->&Hg&Hr);
    [nia|lia| |by apply ftrunc_exact; [nia| |]].
  rewrite Pos2Z.inj_mul, Hp, Hq. replace (- (e + f))%Z with (- e + - f)%Z by lia. rewrite Z.pow_add_r by lia. lia.
Qed.
