(* ===== verification/Rounding.v ===== *)
(** * Rounding of float64 operations

    Round to nearest keeps bounds: when the exact sum or product of two finite
    values lies between two representable ones, so does the rounded result, and
    it is finite. Values are compared as integers after scaling by a power of two
    that makes every float64, and every product of two, an integer. *)

From Stdlib Require Import Floats.SpecFloat.
From stdpp Require Import base list numbers.
From S2P Require Import Prelude GoFloat.

Local Open Scope Z_scope.

(** ** One rounding *)

Definition fexp64 (e : Z) : Z := Z.max (e - 53) (-1074).
Lemma fexp64_eq e : fexp 53 1024 e = fexp64 e.
Proof. reflexivity. Qed.

Lemma shr_1_half mrs : 0 <= shr_m mrs -> shr_m (shr_1 mrs) = shr_m mrs / 2.
Proof.
  destruct mrs as [[|[p|p|]|p] r s]; simpl; intros H; try done; try lia.
  - rewrite (Pos2Z.inj_xI p), Z.mul_comm, Z.div_add_l by lia. change (1 / 2) with 0. lia.
  - rewrite (Pos2Z.inj_xO p), Z.mul_comm, Z.div_mul by lia. done.
Qed.
Lemma shr_iter_div p mrs : 0 <= shr_m mrs -> shr_m (SpecFloat.iter_pos shr_1 p mrs) = shr_m mrs / 2 ^ Zpos p.
Proof.
  revert mrs. induction p as [p IH|p IH|]; intros mrs H; cbn [SpecFloat.iter_pos].
  - pose proof (shr_1_half mrs H) as H1. assert (0 <= shr_m (shr_1 mrs)) by (rewrite H1; apply Z.div_pos; lia).
    assert (0 < 2 ^ Zpos p) by lia.
    rewrite !IH, H1, !Z.div_div by (try apply Z.div_pos; rewrite ?IH; try apply Z.div_pos; lia).
    f_equal. rewrite (Pos2Z.inj_xI p), Z.pow_add_r, Z.pow_1_r, Z.pow_mul_r by lia. change (2 ^ 2) with (2 * 2). rewrite Z.pow_mul_l. lia.
  - assert (0 < 2 ^ Zpos p) by lia.
    rewrite !IH, Z.div_div by (rewrite ?IH; try apply Z.div_pos; lia).
    f_equal. rewrite (Pos2Z.inj_xO p), Z.pow_mul_r by lia. change (2 ^ 2) with (2 * 2). rewrite Z.pow_mul_l. lia.
  - by apply shr_1_half.
Qed.

Lemma round_near mrs : round_nearest_even (shr_m mrs) (loc_of_shr_record mrs) = shr_m mrs \/
  round_nearest_even (shr_m mrs) (loc_of_shr_record mrs) = shr_m mrs + 1 /\ (shr_r mrs || shr_s mrs) = true.
Proof. destruct mrs as [m [] []]; simpl; auto. destruct (Z.even m); auto. Qed.

(** The mantissa after the first step of a rounding by [n] bits. *)
Definition rounds_to (m n m1 : Z) : Prop := m1 = m / 2 ^ n \/ m1 = m / 2 ^ n + 1 /\ ~ (2 ^ n | m).

Lemma shr_fexp_rounds m e : 0 < m ->
  let n := Z.max 0 (fexp64 (Z.log2 m + 1 + e) - e) in
  exists mrs, shr_fexp 53 1024 m e loc_Exact = (mrs, e + n) /\ 0 <= shr_m mrs /\
    rounds_to m n (round_nearest_even (shr_m mrs) (loc_of_shr_record mrs)).
Proof.
  intros Hm n. unfold shr_fexp. rewrite Zdigits2_log2, fexp64_eq by done. unfold shr_record_of_loc, shr.
  destruct (fexp64 (Z.log2 m + 1 + e) - e) as [|p|p] eqn:E; unfold n.
  - eexists. rewrite Z.add_0_r. split; [done|]. cbn. split; [lia|]. left. by rewrite Z.pow_0_r, Z.div_1_r.
  - eexists. split; [done|]. assert (0 < 2 ^ Zpos p) by lia.
    pose proof (shr_iter_div p {| shr_m := m; shr_r := false; shr_s := false |} ltac:(simpl; lia)) as Hs. cbn [shr_m] in Hs.
    split; [rewrite Hs; apply Z.div_pos; lia|]. change (Z.max 0 (Zpos p)) with (Zpos p).
    destruct (decide (m mod 2 ^ Zpos p = 0)) as [Hd|Hd].
    + rewrite shr_iter_exact by (lia || by apply Z.mod_divide; [lia|]). by left.
    + destruct (round_near (SpecFloat.iter_pos shr_1 p {| shr_m := m; shr_r := false; shr_s := false |})) as [Hr|[Hr _]];
        rewrite Hr, Hs; [by left|right]. split; [done|]. intros Hdiv. apply Hd. by apply Z.mod_divide; [lia|].
  - eexists. replace (e + Z.max 0 (Zneg p)) with e by lia. split; [done|]. cbn. split; [lia|]. left.
    change (Z.max 0 (Zneg p)) with 0. by rewrite Z.pow_0_r, Z.div_1_r.
Qed.

Lemma rounds_to_bounds m n m1 : 0 < m -> 0 <= n -> rounds_to m n m1 -> 0 <= m1 /\ m - 2 ^ n < 2 ^ n * m1 < m + 2 ^ n.
Proof.
  intros Hm Hn Hr. assert (0 < 2 ^ n) by lia. pose proof (Z.div_mod m (2 ^ n) ltac:(lia)) as E.
  pose proof (Z.mod_pos_bound m (2 ^ n) ltac:(lia)) as Hb. pose proof (Z.div_pos m (2 ^ n) ltac:(lia) ltac:(lia)).
  destruct Hr as [->|[-> Hnd]]; [lia|].
  assert (m mod 2 ^ n <> 0) by (intros Hz; apply Hnd; by apply Z.mod_divide; [lia|]). lia.
Qed.

(** The second step only renormalises. *)
Lemma shr_fexp_renormalise m e m1 : 0 < m ->
  let n := Z.max 0 (fexp64 (Z.log2 m + 1 + e) - e) in rounds_to m n m1 ->
  let k := Z.max 0 (fexp64 (Zdigits2 m1 + (e + n)) - (e + n)) in
  (2 ^ k | m1) /\ shr_fexp 53 1024 m1 (e + n) loc_Exact =
    ({| shr_m := m1 / 2 ^ k; shr_r := false; shr_s := false |}, e + n + k).
Proof.
  intros Hm n Hr kk. assert (0 <= n) as Hn by lia. destruct (rounds_to_bounds m n m1 Hm Hn Hr) as [H0 Hb].
  assert (exists k, 0 <= k /\ (2 ^ k | m1) /\ k = Z.max 0 (fexp64 (Zdigits2 m1 + (e + n)) - (e + n))) as (k&Hk&Hd&Hkeq).
  { pose proof (Z.log2_spec m Hm) as Hl. pose proof (Z.log2_nonneg m). set (d := Z.log2 m) in *.
    destruct (decide (m1 = 0)) as [->|Hne].
    { exists (Z.max 0 (fexp64 (0 + (e + n)) - (e + n))). split_and!; [lia|by apply Z.divide_0_r|done]. }
    rewrite Zdigits2_log2 by lia. pose proof (Z.log2_spec m1 ltac:(lia)) as Hl1. pose proof (Z.log2_nonneg m1). set (d1 := Z.log2 m1) in *.
    assert (0 < 2 ^ n) by lia.
    destruct (decide (n = 0)) as [Hn0|Hn0].
    { exists 0. split_and!; [lia|apply Z.divide_1_l|].
      assert (m1 = m) as -> by (rewrite Hn0 in Hb; change (2 ^ 0) with 1 in Hb; lia). change d1 with d. unfold n, fexp64 in *. lia. }
    assert (d1 <= Z.max 0 (d + 1 - n)) as Hd1.
    { apply Z.lt_succ_r. apply (Z.pow_lt_mono_r_iff 2); [lia|lia|]. eapply Z.le_lt_trans; [apply Hl1|].
      destruct (Z.le_gt_cases n (d + 1)) as [Hnd|Hnd].
      - rewrite Z.max_r by lia. rewrite Z.pow_succ_r by lia.
        assert (2 ^ Z.succ d = 2 ^ n * 2 ^ (d + 1 - n)) as E by (rewrite <-Z.pow_add_r by lia; f_equal; lia).
        assert (0 < 2 ^ (d + 1 - n)) by lia. nia.
      - rewrite Z.max_l by lia. assert (2 ^ Z.succ d <= 2 ^ n) by (apply Z.pow_le_mono_r; lia). change (2 ^ Z.succ 0) with 2. nia. }
    destruct (decide (d1 + 1 <= Z.max 1 (d + 1 - n))) as [Hs|Hs].
    - exists 0. split_and!; [lia|apply Z.divide_1_l|]. unfold n, fexp64 in *. lia.
    - assert (d1 = d + 1 - n /\ 1 <= d1) as [Hd1' Hd2] by lia.
      assert (m1 = 2 ^ d1) as Hpow.
      { assert (2 ^ Z.succ d = 2 ^ n * 2 ^ d1) as E by (rewrite <-Z.pow_add_r by lia; f_equal; lia). nia. }
      destruct (decide (fexp64 (d1 + 1 + (e + n)) <= e + n)) as [Hle|Hle].
      + exists 0. split_and!; [lia|apply Z.divide_1_l|lia].
      + exists 1. split_and!; [lia| |unfold n, fexp64 in *; lia]. rewrite Hpow. exists (2 ^ (d1 - 1)).
        rewrite <-Z.pow_add_r by lia. f_equal. lia. }
  assert (kk = k) as -> by done. split; [done|]. unfold shr_fexp. rewrite fexp64_eq. cbn [shr_record_of_loc]. unfold shr.
  destruct (fexp64 (Zdigits2 m1 + (e + n)) - (e + n)) as [|p|p] eqn:E.
  - rewrite Hkeq. cbn [Z.max Z.compare]. rewrite Z.pow_0_r, Z.div_1_r, Z.add_0_r. done.
  - assert (k = Zpos p) as -> by lia. by rewrite shr_iter_exact by (lia || done).
  - assert (k = 0) as -> by lia. rewrite Z.pow_0_r, Z.div_1_r, Z.add_0_r. done.
Qed.

(** What a rounding yields: the mantissa [m1] at exponent [e + n], renormalised. *)
Lemma round_aux_spec s m e : 0 < m ->
  let n := Z.max 0 (fexp64 (Z.log2 m + 1 + e) - e) in
  exists m1, let k := Z.max 0 (fexp64 (Zdigits2 m1 + (e + n)) - (e + n)) in rounds_to m n m1 /\ (2 ^ k | m1) /\
    binary_round_aux 53 1024 s m e loc_Exact =
      match m1 / 2 ^ k with
      | Z0 => S754_zero s
      | Zpos p => if Z.leb (e + n + k) 971 then S754_finite s p (e + n + k) else S754_infinity s
      | Zneg _ => S754_nan
      end.
Proof.
  intros Hm n. unfold binary_round_aux. destruct (shr_fexp_rounds m e Hm) as (mrs&->&_&Hr). fold n in Hr |- *.
  set (m1 := round_nearest_even _ _) in *. destruct (shr_fexp_renormalise m e m1 Hm Hr) as [Hd E]. fold n in E, Hd. rewrite E.
  exists m1. by split_and!.
Qed.

(** ** Bounds *)

(** [m * 2^e], scaled. *)
Definition scale : Z := 4000.
Definition scaled (m e : Z) : Z := m * 2 ^ (e + scale).

Lemma scaled_shift m e n : - scale <= e -> 0 <= n -> scaled (m * 2 ^ n) e = scaled m (e + n).
Proof. intros He Hn. unfold scaled. rewrite <-Z.mul_assoc, <-Z.pow_add_r by lia. f_equal. f_equal. lia. Qed.
Lemma log2_scaled m e : 0 < m -> - scale <= e -> Z.log2 (scaled m e) = Z.log2 m + e + scale.
Proof. intros Hm He. unfold scaled. rewrite Z.log2_mul_pow2 by lia. lia. Qed.

(** The exponent is the one of the representation. *)
Definition canonical (m e : Z) : Prop := 0 < m /\ e = fexp64 (Z.log2 m + 1 + e) /\ e <= 971.

Section one_rounding.
Context (m e m1 mb eb : Z) (Hm : 0 < m) (He : - scale <= e) (Hb : canonical mb eb).
Let n := Z.max 0 (fexp64 (Z.log2 m + 1 + e) - e).
Context (Hr : rounds_to m n m1).

Lemma rounded_le : scaled m e <= scaled mb eb -> scaled m1 (e + n) <= scaled mb eb.
Proof.
  intros Hle. destruct Hb as (Hmb&Heb&_). destruct (rounds_to_bounds m n m1 Hm ltac:(lia) Hr) as [H1 H2].
  destruct (decide (n = 0)) as [Hn|Hn].
  { rewrite Hn, Z.add_0_r in *. change (2 ^ 0) with 1 in H2. replace m1 with m by lia. done. }
  pose proof (Z.log2_le_mono _ _ Hle) as Hl. rewrite !log2_scaled in Hl by (unfold fexp64, scale in *; lia).
  assert (e + n <= eb) as Hf by (unfold n, fexp64 in *; lia). assert (- scale <= e + n) by lia.
  set (M := mb * 2 ^ (eb - (e + n))).
  assert (scaled mb eb = scaled M (e + n)) as EM by (unfold M; rewrite scaled_shift by lia; f_equal; lia).
  rewrite EM in Hle |- *. rewrite <-(scaled_shift _ e n) in Hle by lia. unfold scaled in *.
  apply Z.mul_le_mono_pos_r in Hle; [|lia]. clearbody M n. apply Z.mul_le_mono_nonneg_r; [lia|].
  apply Z.lt_succ_r, (Z.mul_lt_mono_pos_l (2 ^ n)); lia.
Qed.

Lemma rounded_ge : scaled mb eb <= scaled m e -> scaled mb eb <= scaled m1 (e + n).
Proof.
  intros Hle. destruct Hb as (Hmb&Heb&_). destruct (rounds_to_bounds m n m1 Hm ltac:(lia) Hr) as [H1 H2].
  destruct (decide (n = 0)) as [Hn|Hn].
  { rewrite Hn, Z.add_0_r in *. change (2 ^ 0) with 1 in H2. replace m1 with m by lia. done. }
  destruct (decide (e + n <= eb)) as [Hf|Hf].
  - set (M := mb * 2 ^ (eb - (e + n))).
    assert (scaled mb eb = scaled M (e + n)) as EM by (unfold M; rewrite scaled_shift by lia; f_equal; lia).
    rewrite EM in Hle |- *. rewrite <-(scaled_shift _ e n) in Hle by lia. unfold scaled in *.
    apply Z.mul_le_mono_pos_r in Hle; [|lia]. clearbody M n. apply Z.mul_le_mono_nonneg_r; [lia|].
    enough (M - 1 < m1) by lia. apply (Z.mul_lt_mono_pos_l (2 ^ n)); lia.
  - pose proof (Z.log2_spec m Hm) as Hl. pose proof (Z.log2_spec mb Hmb) as Hlb.
    assert (n = Z.log2 m + 1 - 53) as Hn' by (unfold n, fexp64 in *; lia).
    assert (2 ^ Z.log2 m = 2 ^ n * 2 ^ 52) as E by (rewrite <-Z.pow_add_r by lia; f_equal; lia). assert (0 < 2 ^ n) by lia.
    assert (2 ^ 52 <= m1) as Hm1 by nia.
    assert (mb < 2 ^ 53) as Hmb'.
    { eapply Z.lt_le_trans; [apply Hlb|]. apply Z.pow_le_mono_r; unfold fexp64 in *; lia. }
    transitivity (scaled (2 ^ 53) eb); [unfold scaled; apply Z.mul_le_mono_nonneg_r; lia|].
    transitivity (scaled (2 ^ 52) (e + n)).
    + replace (e + n) with (eb + (e + n - eb)) by lia. rewrite <-scaled_shift by (unfold fexp64, scale in *; lia).
      unfold scaled. apply Z.mul_le_mono_nonneg_r; [lia|]. change (2 ^ 53) with (2 ^ 52 * 2 ^ 1).
      apply Z.mul_le_mono_nonneg_l; [lia|]. apply Z.pow_le_mono_r; lia.
    + unfold scaled. apply Z.mul_le_mono_nonneg_r; lia.
Qed.
End one_rounding.

(** The scaled value of a float64, and the ones that have one. *)
Definition value (x : float64) : Z :=
  match x with S754_finite s m e => if s then - scaled (Zpos m) e else scaled (Zpos m) e | _ => 0 end.
Definition representable (x : float64) : Prop :=
  match x with S754_zero _ => True | S754_finite _ m e => canonical (Zpos m) e | _ => False end.

Lemma scaled_pos m e : 0 < m -> 0 < scaled m e \/ e < - scale.
Proof. intros Hm. destruct (Z.lt_ge_cases e (- scale)); [by right|left]. unfold scaled. assert (0 < 2 ^ (e + scale)) by lia. nia. Qed.
Lemma scaled_nonneg m e : 0 <= m -> 0 <= scaled m e.
Proof. intros Hm. unfold scaled. pose proof (Z.pow_nonneg 2 (e + scale)). nia. Qed.

Definition signed (s : bool) (v : Z) : Z := if s then - v else v.

Lemma rounded_log2 m n m1 : 0 < m -> 0 <= n -> rounds_to m n m1 -> 0 < m1 -> Z.log2 m - n <= Z.log2 m1.
Proof.
  intros Hm Hn Hr Hm1. destruct (Z.le_gt_cases n (Z.log2 m)) as [Hl|Hl]; [|pose proof (Z.log2_nonneg m1); lia].
  apply Z.log2_le_pow2; [done|]. pose proof (Z.log2_spec m Hm).
  assert (2 ^ Z.log2 m = 2 ^ n * 2 ^ (Z.log2 m - n)) as Ep by (rewrite <-Z.pow_add_r by lia; f_equal; lia).
  destruct (rounds_to_bounds m n m1 Hm Hn Hr) as [_ [Hlb _]]. enough (2 ^ (Z.log2 m - n) - 1 < m1) by lia.
  apply (Z.mul_lt_mono_pos_l (2 ^ n)); lia.
Qed.

(** A rounding of a value whose exponent is not too large: zero, an infinity or
    the renormalised mantissa, all with the sign. *)
Lemma round_form s m e : 0 < m -> - scale <= e <= fexp64 (Z.log2 m + 1 + e) ->
  let n := Z.max 0 (fexp64 (Z.log2 m + 1 + e) - e) in
  let x := binary_round_aux 53 1024 s m e loc_Exact in
  exists m1, rounds_to m n m1 /\
    (x = S754_infinity s /\ 0 < m1 /\ 971 < Z.log2 m1 + (e + n) - 52 \/
     representable x /\ value x = signed s (scaled m1 (e + n)) /\ (x = S754_zero s \/ exists p f, x = S754_finite s p f)).
Proof.
  intros Hm He n x. destruct (round_aux_spec s m e Hm) as (m1&Hr&Hd&E). fold x n in E, Hr. exists m1. split; [done|].
  set (k := Z.max 0 (fexp64 (Zdigits2 m1 + (e + n)) - (e + n))) in *. fold n k in Hd, E.
  assert (0 <= k) as Hk by lia. assert (- scale <= e + n) as Hen by lia.
  destruct (rounds_to_bounds m n m1 Hm ltac:(lia) Hr) as [Hm1 _].
  assert (m1 = m1 / 2 ^ k * 2 ^ k) as Hm1k by (destruct Hd as [q Hq]; rewrite Hq at 2; rewrite Z.div_mul by lia; done).
  destruct (m1 / 2 ^ k) as [|p|p]; rewrite E.
  - right. split; [done|]. rewrite Hm1k. unfold scaled. split; [destruct s; simpl; lia|auto].
  - assert (0 < m1) as Hm1p by (assert (0 < 2 ^ k) by lia; nia).
    pose proof (rounded_log2 m n m1 Hm ltac:(lia) Hr Hm1p) as Hlm.
    assert (Z.log2 m1 = Z.log2 (Zpos p) + k) as Hlp by (rewrite Hm1k, Z.log2_mul_pow2 by lia; lia).
    clear E.
    assert (e + n + k = fexp64 (Z.log2 (Zpos p) + 1 + (e + n + k))) as Hf.
    { unfold k in *. rewrite Zdigits2_log2 in * by done. unfold n, fexp64 in *. lia. }
    destruct (Z.leb_spec (e + n + k) 971) as [Hle|Hgt]; [right|left].
    + split; [by split_and!|]. split; [|eauto]. cbn [value].
      assert (scaled m1 (e + n) = scaled (Zpos p) (e + n + k)) as -> by (rewrite Hm1k, scaled_shift by lia; done). by destruct s.
    + split_and!; [done..|]. clearbody k n. unfold fexp64 in Hf. lia.
  - exfalso. assert (0 < 2 ^ k) by lia. nia.
Qed.

(** A rounded value stays between the representable values around the exact one. *)
Lemma round_between s m e lo hi : 0 < m -> - scale <= e <= fexp64 (Z.log2 m + 1 + e) -> representable lo -> representable hi ->
  value lo <= signed s (scaled m e) <= value hi ->
  let x := binary_round_aux 53 1024 s m e loc_Exact in
  representable x /\ value lo <= value x <= value hi.
Proof.
  intros Hm He Hlo Hhi Hv x. destruct (round_form s m e Hm He) as (m1&Hr&Hx). fold x in Hx.
  set (n := Z.max 0 (fexp64 (Z.log2 m + 1 + e) - e)) in *.
  destruct (rounds_to_bounds m n m1 Hm ltac:(lia) Hr) as [Hm1 _].
  assert (0 < scaled m e) as Hpos by (destruct (scaled_pos m e Hm); lia).
  assert (forall mb eb, canonical mb eb -> scaled m e <= scaled mb eb -> scaled m1 (e + n) <= scaled mb eb) as Hle
    by (intros; apply rounded_le; (lia || done)).
  assert (forall mb eb, canonical mb eb -> scaled mb eb <= scaled m e -> scaled mb eb <= scaled m1 (e + n)) as Hge
    by (intros; apply rounded_ge; (lia || done)).
  assert (exists mb eb, canonical mb eb /\ scaled m e <= scaled mb eb /\
    (if s then value lo = - scaled mb eb else value hi = scaled mb eb)) as (mb&eb&Hc&Hcb&Hcv).
  { destruct s; simpl in Hv.
    - destruct lo as [| | |[] p f]; simpl in *; try lia; [|pose proof (scaled_nonneg (Zpos p) f); lia].
      exists (Zpos p), f. split_and!; [done|lia|done].
    - destruct hi as [| | |[] p f]; simpl in *; try lia; [pose proof (scaled_nonneg (Zpos p) f); lia|].
      exists (Zpos p), f. split_and!; [done|lia|done]. }
  pose proof (Hle _ _ Hc Hcb) as Hup. pose proof (scaled_nonneg m1 (e + n) Hm1) as Hnn.
  destruct Hx as [(_&Hm1p&Hbig)|(Hrep&Hval&_)].
  { exfalso. destruct Hc as (Hmb&Heb&Hmax). pose proof (Z.log2_le_mono _ _ Hup) as Hl. rewrite !log2_scaled in Hl by (unfold n, fexp64, scale in *; lia). unfold fexp64 in *. lia. }
  rewrite Hval. split_and!; [done| |].
  - destruct s; simpl in *; [lia|]. destruct lo as [| | |[] p f]; simpl in *; try lia; [pose proof (scaled_nonneg (Zpos p) f); lia|].
    apply Hge; [done|lia].
  - destruct s; simpl in *; [|lia]. destruct hi as [| | |[] p f]; simpl in *; try lia; [|pose proof (scaled_nonneg (Zpos p) f); lia].
    enough (scaled (Zpos p) f <= scaled m1 (e + n)) by lia. apply Hge; [done|lia].
Qed.

(** ** The operations *)

Lemma canonical_bounds m e : canonical m e -> - 1074 <= e <= 971 /\ Z.log2 m <= 52 /\ (e = - 1074 \/ Z.log2 m = 52).
Proof. unfold canonical, fexp64. lia. Qed.

(** A product, whose scale is doubled. *)
Lemma fmul_between x y lo hi : representable x -> representable y -> representable lo -> representable hi ->
  value lo * 2 ^ scale <= value x * value y <= value hi * 2 ^ scale ->
  representable (fmul x y) /\ value lo <= value (fmul x y) <= value hi.
Proof.
  intros Hx Hy Hlo Hhi Hv. assert (0 < 2 ^ scale) as H2 by (apply Z.pow_pos_nonneg; done).
  destruct x as [sx|sx| |sx mx ex], y as [sy|sy| |sy my ey]; try done; simpl in Hx, Hy;
    try (cbn [value fmul SFmul] in *; split; [done|];
         rewrite ?Z.mul_0_l, ?Z.mul_0_r in Hv; split; [apply (Z.mul_le_mono_pos_r _ _ _ H2); lia|apply (Z.mul_le_mono_pos_r _ _ _ H2); lia]).
  cbn [fmul SFmul]. pose proof (canonical_bounds _ _ Hx) as Hbx. pose proof (canonical_bounds _ _ Hy) as Hby.
  assert (value (S754_finite sx mx ex) * value (S754_finite sy my ey) =
    signed (xorb sx sy) (scaled (Zpos mx * Zpos my) (ex + ey)) * 2 ^ scale) as Ev.
  { assert (scaled (Zpos mx) ex * scaled (Zpos my) ey = scaled (Zpos mx * Zpos my) (ex + ey) * 2 ^ scale) as Es.
    { unfold scaled. transitivity (Zpos mx * Zpos my * (2 ^ (ex + scale) * 2 ^ (ey + scale))); [ring|].
      rewrite <-(Z.mul_assoc _ _ (2 ^ scale)), <-!Z.pow_add_r by (unfold scale; lia). f_equal. f_equal. lia. }
    cbn [value]. destruct sx, sy; cbn [xorb signed]; lia. }
  rewrite Ev in Hv.
  destruct (round_between (xorb sx sy) (Zpos mx * Zpos my) (ex + ey) lo hi) as [Hr Hb]; try done.
  - assert (Z.log2 (Zpos mx) + Z.log2 (Zpos my) <= Z.log2 (Zpos mx * Zpos my)) by (apply Z.log2_mul_below; lia).
    pose proof (Z.log2_nonneg (Zpos mx)). pose proof (Z.log2_nonneg (Zpos my)). unfold fexp64, scale. lia.
  - split; apply (Z.mul_le_mono_pos_r _ _ _ H2); lia.
Qed.

Lemma shl_align_scaled m e e' : - scale <= e' -> let a := shl_align m e e' in
  scaled (Zpos a.1) a.2 = scaled (Zpos m) e /\ a.2 = Z.min e e'.
Proof.
  intros He. unfold shl_align. destruct (e' - e) as [|d|d] eqn:E; cbn [fst snd]; [split; [done|lia]..|].
  split; [|lia]. assert (Zpos (Pos.iter xO m d) = Zpos m * 2 ^ Zpos d) as ->.
  { change (Zpos (Zpower.shift_pos d m) = Zpos m * 2 ^ Zpos d). rewrite Zpower.shift_pos_correct. apply Z.mul_comm. }
  rewrite scaled_shift by lia. f_equal. lia.
Qed.
Lemma scaled_opp m e : scaled (- m) e = - scaled m e.
Proof. unfold scaled. lia. Qed.

(** A sum before it is rounded. *)
Lemma normalize_between m e lo hi : - 1074 <= e -> representable lo -> representable hi ->
  value lo <= scaled m e <= value hi ->
  let x := binary_normalize 53 1024 m e false in representable x /\ value lo <= value x <= value hi.
Proof.
  intros He Hlo Hhi Hv. assert (forall s q, m = signed s (Zpos q) -> let x := binary_round 53 1024 s q e in
    representable x /\ value lo <= value x <= value hi) as Hround.
  { intros s q ->. unfold binary_round. rewrite fexp64_eq.
    replace (Zpos (digits2_pos q)) with (Z.log2 (Zpos q) + 1) by (by rewrite <-(Zdigits2_log2 (Zpos q)) by lia).
    pose proof (shl_align_scaled q e (fexp64 (Z.log2 (Zpos q) + 1 + e)) ltac:(unfold fexp64, scale; lia)) as [Es Ee].
    destruct (shl_align _ _ _) as [q' e']. cbn [fst snd] in Es, Ee.
    assert (Z.log2 (Zpos q') + e' = Z.log2 (Zpos q) + e) as El.
    { pose proof (f_equal Z.log2 Es) as El. rewrite !log2_scaled in El by (unfold fexp64, scale in *; lia). lia. }
    destruct (round_between s (Zpos q') e' lo hi) as [Hr Hb]; try done.
    - unfold fexp64, scale in *. lia.
    - rewrite Es. destruct s; cbn [signed] in *; [rewrite scaled_opp in Hv|]; done. }
  destruct m as [|p|p]; cbn [binary_normalize].
  - split; [done|]. unfold scaled in Hv. simpl in Hv |- *. lia.
  - by apply (Hround false).
  - by apply (Hround true).
Qed.

Lemma fadd_between x y lo hi : representable x -> representable y -> representable lo -> representable hi ->
  value lo <= value x + value y <= value hi -> representable (fadd x y) /\ value lo <= value (fadd x y) <= value hi.
Proof.
  intros Hx Hy Hlo Hhi Hv.
  destruct x as [sx|sx| |sx mx ex], y as [sy|sy| |sy my ey]; try done; try (by cbn [fadd SFadd value] in *; rewrite ?Z.add_0_r in Hv).
  - cbn [fadd SFadd]. destruct sx, sy; done.
  - simpl in Hx, Hy. unfold fadd, SFadd. pose proof (canonical_bounds _ _ Hx). pose proof (canonical_bounds _ _ Hy).
    apply normalize_between; [lia|done|done|].
    pose proof (shl_align_scaled mx ex (Z.min ex ey) ltac:(unfold scale; lia)) as [Ex Ex'].
    pose proof (shl_align_scaled my ey (Z.min ex ey) ltac:(unfold scale; lia)) as [Ey Ey'].
    destruct (shl_align mx ex _) as [mx' ?], (shl_align my ey _) as [my' ?]. cbn [fst snd] in *. subst.
    replace (Z.min ex (Z.min ex ey)) with (Z.min ex ey) in Ex by lia. replace (Z.min ey (Z.min ex ey)) with (Z.min ex ey) in Ey by lia.
    assert (forall a b, scaled (a + b) (Z.min ex ey) = scaled a (Z.min ex ey) + scaled b (Z.min ex ey)) as -> by (intros; unfold scaled; lia).
    destruct sx, sy; cbn [cond_Zopp value] in *; rewrite ?Pos2Z.opp_pos, <-?Pos2Z.opp_pos, ?scaled_opp; lia.
Qed.

(** ** Order, integers and truncation *)

Lemma scaled_lt m e m' e' : canonical m e -> canonical m' e' -> (e < e' \/ e = e' /\ m < m') -> scaled m e < scaled m' e'.
Proof.
  intros Hc Hc' [Hlt|[-> Hlt]].
  - pose proof (canonical_bounds _ _ Hc) as (?&?&_). pose proof (canonical_bounds _ _ Hc') as (?&_&[?|Hl']); [lia|].
    destruct Hc as [Hm _], Hc' as [Hm' _]. pose proof (Z.log2_spec m Hm) as [_ Hu]. pose proof (Z.log2_spec m' Hm') as [Hd _].
    rewrite Hl' in Hd. assert (2 ^ Z.succ (Z.log2 m) <= 2 ^ 53) by (apply Z.pow_le_mono_r; lia).
    replace e' with (e + (e' - e)) by lia. rewrite <-scaled_shift by (unfold scale; lia). unfold scaled.
    apply Z.mul_lt_mono_pos_r; [apply Z.pow_pos_nonneg; unfold scale; lia|].
    assert (2 ^ 1 <= 2 ^ (e' - e)) by (apply Z.pow_le_mono_r; lia). change (2 ^ 53) with (2 * 2 ^ 52) in *. nia.
  - pose proof (canonical_bounds _ _ Hc). unfold scaled. apply Z.mul_lt_mono_pos_r; [apply Z.pow_pos_nonneg; unfold scale; lia|done].
Qed.
Lemma flt_value x y : representable x -> representable y -> flt x y = true <-> value x < value y.
Proof.
  intros Hx Hy. assert (is_nan x = false /\ is_nan y = false) as [Nx Ny] by (by destruct x, y).
  assert (forall m e, canonical m e -> 0 < scaled m e) as Hpos.
  { intros m e H. pose proof (canonical_bounds _ _ H). destruct (scaled_pos m e (proj1 H)); [done|unfold scale in *; lia]. }
  rewrite (flt_key x y Nx Ny). unfold key_lt.
  destruct x as [|?| |sx mx ex], y as [|?| |sy my ey]; try done; simpl in Hx, Hy.
  - simpl. lia.
  - pose proof (Hpos _ _ Hy). destruct sy; simpl; lia.
  - pose proof (Hpos _ _ Hx). destruct sx; simpl; lia.
  - pose proof (Hpos _ _ Hx). pose proof (Hpos _ _ Hy). pose proof (scaled_lt _ _ _ _ Hx Hy). pose proof (scaled_lt _ _ _ _ Hy Hx).
    destruct (decide (ex = ey)) as [->|Hne]; [destruct (decide (mx = my)) as [->|]|]; destruct sx, sy; cbn [fkey fst snd value]; lia.
Qed.

(** The representation of an integer that needs no rounding. *)
Definition exact_int (n : Z) : float64 := S754_finite false (Z.to_pos (n * 2 ^ (52 - Z.log2 n))) (Z.log2 n - 52).
Lemma exact_int_value n : 0 < n < 2 ^ 53 -> representable (exact_int n) /\ value (exact_int n) = n * 2 ^ scale.
Proof.
  intros Hn. assert (0 <= Z.log2 n < 53) as Hl by (split; [apply Z.log2_nonneg|apply Z.log2_lt_pow2; lia]).
  assert (0 < 2 ^ (52 - Z.log2 n)) as Hp by lia. unfold exact_int. cbn [representable value]. rewrite Z2Pos.id by nia. split.
  - unfold canonical. rewrite Z.log2_mul_pow2 by lia. unfold fexp64. split; [nia|lia].
  - rewrite scaled_shift by (unfold scale; lia). unfold scaled. f_equal. f_equal. lia.
Qed.
Lemma of_int_value n : 0 <= n < 2 ^ 53 -> representable (of_int n) /\ value (of_int n) = n * 2 ^ scale.
Proof.
  intros Hn. destruct (decide (n = 0)) as [->|Hne]; [done|]. destruct (exact_int_value n ltac:(lia)) as [Hr Hv].
  destruct (normalize_between n 0 (exact_int n) (exact_int n)) as [H1 H2]; [lia|done|done|rewrite Hv; done|].
  fold (of_int n) in H1, H2. split; [done|lia].
Qed.

Lemma ftrunc_value x : representable x -> 0 <= value x -> ftrunc x = Some (value x / 2 ^ scale).
Proof.
  destruct x as [|?| |s m e]; try done; intros Hc Hv. simpl in Hc.
  pose proof (canonical_bounds _ _ Hc) as [He _]. assert (0 < 2 ^ scale) by (by apply Z.pow_pos_nonneg).
  assert (s = false) as ->.
  { destruct s; [|done]. simpl in Hv. destruct (scaled_pos (Zpos m) e); [lia|lia|unfold scale in *; lia]. }
  cbn [ftrunc value]. f_equal. unfold scaled. destruct (Z.leb_spec 0 e) as [H0|H0].
  - rewrite Z.pow_add_r, Z.mul_assoc, Z.div_mul by (unfold scale in *; lia). done.
  - assert (0 < 2 ^ (- e)) by lia. assert (2 ^ scale = 2 ^ (- e) * 2 ^ (e + scale)) as -> by (rewrite <-Z.pow_add_r by (unfold scale; lia); f_equal; lia).
    rewrite Z.div_mul_cancel_r by (try apply Z.pow_nonzero; unfold scale; lia). done.
Qed.

(** ** Values that are neither NaN nor negative *)

Definition non_negative (x : float64) : Prop := representable x /\ 0 <= value x \/ x = S754_infinity false.

Lemma round_non_negative m e : 0 < m -> - scale <= e <= fexp64 (Z.log2 m + 1 + e) ->
  non_negative (binary_round_aux 53 1024 false m e loc_Exact).
Proof.
  intros Hm He. destruct (round_form false m e Hm He) as (m1&Hr&[[E _]|(H1&E&_)]); [by right|left].
  split; [done|]. rewrite E. apply scaled_nonneg. eapply rounds_to_bounds; [done| |done]. lia.
Qed.
Lemma positive_sign x : representable x -> 0 <= value x -> (exists s, x = S754_zero s) \/ exists m e, x = S754_finite false m e /\ canonical (Zpos m) e.
Proof.
  destruct x as [s|?| |[] m e]; try done; intros Hc Hv; [by left; exists s| |by right; exists m, e].
  exfalso. simpl in *. pose proof (canonical_bounds _ _ Hc). destruct (scaled_pos (Zpos m) e); unfold scale in *; lia.
Qed.
(** The product of a positive finite value with such a value. *)
Lemma fmul_non_negative x y : representable x -> 0 < value x -> non_negative y -> non_negative (fmul x y).
Proof.
  intros Hx Hv Hy. destruct (positive_sign x Hx ltac:(lia)) as [[s ->]|(m&e&->&Hc)]; [simpl in Hv; lia|].
  destruct Hy as [[Hy Hvy]| ->]; [|by right]. destruct (positive_sign y Hy Hvy) as [[s ->]|(m'&e'&->&Hc')]; [by left|].
  pose proof (canonical_bounds _ _ Hc) as Hb. pose proof (canonical_bounds _ _ Hc') as Hb'. apply round_non_negative; [lia|].
  assert (Z.log2 (Zpos m) + Z.log2 (Zpos m') <= Z.log2 (Zpos m * Zpos m')) by (apply Z.log2_mul_below; lia).
  pose proof (Z.log2_nonneg (Zpos m)). pose proof (Z.log2_nonneg (Zpos m')). unfold fexp64, scale. rewrite Pos2Z.inj_mul. lia.
Qed.
(** Multiplication by a power of two, [math.Ldexp]. *)
Lemma ldexp_non_negative x n : representable x -> 0 <= value x -> - 2000 <= n -> non_negative (SFldexp 53 1024 x n).
Proof.
  intros Hx Hv Hn. destruct (positive_sign x Hx Hv) as [[s ->]|(m&e&->&Hc)]; [by left|].
  pose proof (canonical_bounds _ _ Hc) as Hb. cbn [SFldexp]. unfold binary_round. rewrite fexp64_eq, digits2_log2.
  pose proof (Z.log2_nonneg (Zpos m)).
  pose proof (shl_align_scaled m (e + n) (fexp64 (Z.log2 (Zpos m) + 1 + (e + n))) ltac:(unfold fexp64, scale; lia)) as [Es Ee].
  destruct (shl_align _ _ _) as [q' e']. cbn [fst snd] in Es, Ee.
  assert (Z.log2 (Zpos q') + e' = Z.log2 (Zpos m) + (e + n)) as El.
  { pose proof (f_equal Z.log2 Es) as El. rewrite !log2_scaled in El by (unfold fexp64, scale in *; lia). lia. }
  apply round_non_negative; [done|]. unfold fexp64, scale in *. lia.
Qed.
