(* ===== verification/Placement.v ===== *)
(** * Replica placement (src/internal/placement/)

    The filters every strategy shares, the weighted random strategy
    (placement.go) and the rendezvous strategy (rendezvous.go). Scores are
    float64; math.Log, the sort, the random source and the conversion of a
    float64 out of the int64 range are operations of classes. *)

From Stdlib Require Import Floats.SpecFloat.
From stdpp Require Import base numbers gmap strings list.
From S2P Require Import Prelude Chunking GoFloat.

(** ** The shared part of placement.go *)

Inductive Health := HealthUnknown | HealthHealthy | HealthSuspect | HealthDead.
#[export] Instance Health_eq_dec : EqDecision Health.
Proof. solve_decision. Defined.

Definition Health_String (h : Health) : string :=
  match h with
  | HealthHealthy => "HEALTHY"
  | HealthSuspect => "SUSPECT"
  | HealthDead => "DEAD"
  | HealthUnknown => "UNKNOWN"
  end.

Record NodeInfo := mkNode {
  ID : string;
  Address : string;
  nHealth : Health;
  TotalBytes : Z;
  UsedBytes : Z;
  AvailableBytes : Z;
  ActiveRequests : Z;
  ChunkCount : Z
}.

Definition FreeRatio (n : NodeInfo) : float64 :=
  if decide (TotalBytes n <= 0)%Z then f0
  else
    let r := fdiv (of_int (AvailableBytes n)) (of_int (TotalBytes n)) in
    if flt r f0 then f0
    else if flt f1 r then f1
    else r.

Inductive placement_error :=
  | ErrInsufficientNodes
  | ErrInvalidRequest
  | ErrUnknownStrategy (name : string).

Record Request := mkRequest {
  Key : string;
  Replicas : Z;
  ChunkSize : Z;
  Exclude : list string
}.
Definition excluded (r : Request) (id : string) : bool := bool_decide (id ∈ Exclude r).

Record Config := mkConfig {
  AllowSuspect : bool;
  CapacityHeadroom : float64;
  LoadPenalty : float64;
  MinWeight : float64
}.
Definition DefaultConfig : Config := mkConfig false (of_int 2) (of_int 1) (flit 1 100).

(** What Go leaves to the implementation or takes from its libraries: the value
    of [int64(x)] for an [x] that does not fit, and math.Log, which is a finite
    negative number between 0 and 1. *)
Class GoMath := {
  int64_overflow : float64 -> Z;
  Log : float64 -> float64;
  Log_unit : forall u, flt f0 u = true -> flt u f1 = true ->
    exists m e, Log u = S754_finite true m e
}.
Definition to_int64 `{!GoMath} (x : float64) : Z :=
  match ftrunc x with
  | Some z => if decide (- 2 ^ 63 <= z < 2 ^ 63)%Z then z else int64_overflow x
  | None => int64_overflow x
  end.

(** The space a node must have free for the chunk. *)
Definition required `{!GoMath} (req : Request) (cfg : Config) : Z :=
  let headroom := if flt (CapacityHeadroom cfg) f1 then f1 else CapacityHeadroom cfg in
  to_int64 (fmul (of_int (ChunkSize req)) headroom).

Definition eligibleNodes `{!GoMath} (nodes : list NodeInfo) (req : Request) (cfg : Config) : list NodeInfo :=
  let required := required req cfg in
  filter (fun n =>
    negb (bool_decide (nHealth n = HealthDead) || bool_decide (nHealth n = HealthUnknown)) &&
    negb (bool_decide (nHealth n = HealthSuspect) && negb (AllowSuspect cfg)) &&
    negb (AvailableBytes n <? required)%Z &&
    negb (excluded req (ID n)) = true) nodes.

(** ** The weighted strategy *)

(** A *rand.Rand: its Float64 draws, and how many were taken. *)
Record Rand := mkRand {
  draws : nat -> float64;
  drawn : nat
}.
Definition Float64 (r : Rand) : float64 * Rand := (draws r (drawn r), mkRand (draws r) (S (drawn r))).

Record weighted := mkWeighted {
  w_node : NodeInfo;
  w_weight : float64
}.

(** The weight both strategies give a node. *)
Definition node_weight (cfg : Config) (n : NodeInfo) : float64 :=
  let weight := FreeRatio n in
  let weight := if flt f0 (LoadPenalty cfg)
                then fdiv weight (fadd f1 (fmul (LoadPenalty cfg) (of_int (ActiveRequests n)))) else weight in
  let weight := if bool_decide (nHealth n = HealthSuspect) then fmul weight (flit 1 10) else weight in
  if flt weight (MinWeight cfg) then MinWeight cfg else weight.
Definition Weighted_score (cfg : Config) (n : NodeInfo) : float64 := node_weight cfg n.

Definition heavier (a b : weighted) : bool :=
  if negb (feq (w_weight a) (w_weight b)) then flt (w_weight b) (w_weight a)
  else String.ltb (ID (w_node a)) (ID (w_node b)).

Definition eligible `{!GoMath, !GoSort} (cfg : Config) (nodes : list NodeInfo) (req : Request) : list weighted :=
  let candidates := eligibleNodes nodes req cfg in
  sort_slice heavier ((fun n => mkWeighted n (Weighted_score cfg n)) <$> candidates).

Fixpoint sample_scan (target acc : float64) (i : nat) (items : list weighted) : option nat :=
  match items with
  | [] => None
  | it :: items' =>
      if fle (w_weight it) f0 then sample_scan target acc (S i) items'
      else
        let acc := fadd acc (w_weight it) in
        if flt target acc then Some i else sample_scan target acc (S i) items'
  end.

Definition sampleIndex (items : list weighted) (rng : Rand) : option nat * Rand :=
  let total := foldl (fun total it => if flt f0 (w_weight it) then fadd total (w_weight it) else total) f0 items in
  if fle total f0 then (None, rng)
  else
    let '(f, rng) := Float64 rng in
    let target := fmul f total in
    match sample_scan target f0 0 items with
    | Some i => (Some i, rng)
    | None => (Some (length items - 1)%nat, rng)
    end.

(** The selection loop; every round drops a candidate, so the number of
    candidates is fuel enough. [None] is an index out of range, or no fuel. *)
Fixpoint select_loop (fuel : nat) (replicas : Z) (remaining : list weighted)
    (chosen : gset string) (selected : list NodeInfo) (rng : Rand) : option (list NodeInfo * Rand) :=
  match fuel with
  | O => None
  | S fuel' =>
      if decide (Z.of_nat (length selected) < replicas)%Z then
        let '(idx, rng) := sampleIndex remaining rng in
        let idx := match idx with None => 0%nat | Some idx => idx end in
        match remaining !! idx with
        | None => None
        | Some pick =>
            let '(chosen, selected) :=
              if decide (ID (w_node pick) ∈ chosen) then (chosen, selected)
              else ({[ID (w_node pick)]} ∪ chosen, selected ++ [w_node pick]) in
            let remaining := take idx remaining ++ drop (S idx) remaining in
            match remaining with
            | [] => Some (selected, rng)
            | _ => select_loop fuel' replicas remaining chosen selected rng
            end
        end
      else Some (selected, rng)
  end.

Definition Weighted_SelectNodes `{!GoMath, !GoSort} (cfg : Config) (nodes : list NodeInfo) (req : Request)
    (rng : Rand) : option (result placement_error (list NodeInfo) * Rand) :=
  if decide (Replicas req < 1)%Z then Some (Err ErrInvalidRequest, rng)
  else if decide (ChunkSize req < 0)%Z then Some (Err ErrInvalidRequest, rng)
  else
    let candidates := eligible cfg nodes req in
    if decide (Z.of_nat (length candidates) < Replicas req)%Z then Some (Err ErrInsufficientNodes, rng)
    else
      match select_loop (length candidates) (Replicas req) candidates ∅ [] rng with
      | None => None
      | Some (selected, rng) =>
          if decide (Z.of_nat (length selected) < Replicas req)%Z then Some (Err ErrInsufficientNodes, rng)
          else Some (Ok selected, rng)
      end.

(** ** The rendezvous strategy *)

Definition u64 (z : Z) : Z := (z mod 2 ^ 64)%Z.

(** hash/fnv's New64a *)
Definition fnv64a_step (h : Z) (b : Z) : Z := u64 (Z.lxor h b * 1099511628211).
Definition fnv64a (bytes : list Z) : Z := foldl fnv64a_step 14695981039346656037%Z bytes.

(** binary.BigEndian.PutUint64 *)
Definition PutUint64 (v : Z) : list Z :=
  (fun i => Z.shiftr v (8 * Z.of_nat (7 - i)) mod 256)%Z <$> seq 0 8.

Definition string_bytes (s : string) : list Z :=
  (fun c => Z.of_N (Ascii.N_of_ascii c)) <$> String.list_ascii_of_string s.

Definition mix64 (x : Z) : Z :=
  let x := Z.lxor x (Z.shiftr x 33) in
  let x := u64 (x * 0xff51afd7ed558ccd) in
  let x := Z.lxor x (Z.shiftr x 33) in
  let x := u64 (x * 0xc4ceb9fe1a85ec53) in
  Z.lxor x (Z.shiftr x 33).

(** The bytes hashed for one (key, node) pair. *)
Definition hash_input (key nodeID : string) : list Z :=
  PutUint64 (u64 (Z.of_nat (String.length key))) ++ string_bytes key ++ string_bytes nodeID.

Definition SmallestNonzeroFloat64 : float64 := S754_finite false 1 (-1074).
(** math.Nextafter(1, 0) *)
Definition below_one : float64 := S754_finite false 9007199254740991 (-53).

Definition hashUnitInterval (key nodeID : string) : float64 :=
  let sum := fnv64a (hash_input key nodeID) in
  let u := fdiv (of_int (Z.shiftr (mix64 sum) 1)) (of_int (2 ^ 63)) in
  let u := if fle u f0 then SmallestNonzeroFloat64 else u in
  if fle f1 u then below_one else u.

Definition Rendezvous_weight (cfg : Config) (n : NodeInfo) : float64 := node_weight cfg n.

Definition Rendezvous_score `{!GoMath} (cfg : Config) (key : string) (n : NodeInfo) : float64 :=
  let u := hashUnitInterval key (ID n) in
  let weight := Rendezvous_weight cfg n in
  let weight :=
    if fle weight f0 then
      let weight := MinWeight cfg in
      if fle weight f0 then flit 1 1000000000 else weight
    else weight in
  fdiv (fopp weight) (Log u).

Record scoredNode := mkScored {
  s_node : NodeInfo;
  s_score : float64
}.
Definition better (a b : scoredNode) : bool :=
  if negb (feq (s_score a) (s_score b)) then flt (s_score b) (s_score a)
  else String.ltb (ID (s_node a)) (ID (s_node b)).

Definition Rank `{!GoMath, !GoSort} (cfg : Config) (nodes : list NodeInfo) (req : Request) : list NodeInfo :=
  let candidates := eligibleNodes nodes req cfg in
  let scored := (fun n => mkScored n (Rendezvous_score cfg (Key req) n)) <$> candidates in
  s_node <$> sort_slice better scored.

Definition Rendezvous_SelectNodes `{!GoMath, !GoSort} (cfg : Config) (nodes : list NodeInfo) (req : Request) :
    result placement_error (list NodeInfo) :=
  if decide (Replicas req < 1)%Z then Err ErrInvalidRequest
  else if decide (ChunkSize req < 0)%Z then Err ErrInvalidRequest
  else if String.eqb (Key req) EmptyString then Err ErrInvalidRequest
  else
    let candidates := eligibleNodes nodes req cfg in
    if decide (Z.of_nat (length candidates) < Replicas req)%Z then Err ErrInsufficientNodes
    else
      let scored := (fun n => mkScored n (Rendezvous_score cfg (Key req) n)) <$> candidates in
      Ok (take (Z.to_nat (Replicas req)) (s_node <$> sort_slice better scored)).

(** ** New *)

(** A strategy value; a weighted one carries its random source. *)
Inductive Strategy :=
  | Weighted (cfg : Config) (rng : Rand)
  | Rendezvous (cfg : Config).

Definition New (name : string) (cfg : Config) (rng : Rand) : result placement_error Strategy :=
  if String.eqb name EmptyString || String.eqb name "weighted" then Ok (Weighted cfg rng)
  else if String.eqb name "rendezvous" then Ok (Rendezvous cfg)
  else Err (ErrUnknownStrategy name).

(** The interface's method; [None] is a panic. *)
Definition SelectNodes `{!GoMath, !GoSort} (s : Strategy) (nodes : list NodeInfo) (req : Request) :
    option (result placement_error (list NodeInfo) * Strategy) :=
  match s with
  | Weighted cfg rng =>
      match Weighted_SelectNodes cfg nodes req rng with
      | Some (r, rng) => Some (r, Weighted cfg rng)
      | None => None
      end
  | Rendezvous cfg => Some (Rendezvous_SelectNodes cfg nodes req, s)
  end.

(** ** The selection of a strategy is exact *)

(** What a strategy promises about the nodes it returns. *)
Definition placement_ok `{!GoMath} (cfg : Config) (nodes : list NodeInfo) (req : Request) (sel : list NodeInfo) : Prop :=
  Z.of_nat (length sel) = Replicas req /\
  NoDup (ID <$> sel) /\
  forall n, n ∈ sel ->
    n ∈ nodes /\ (ID n ∉ Exclude req) /\ (required req cfg <= AvailableBytes n)%Z /\
    (nHealth n = HealthHealthy \/ nHealth n = HealthSuspect /\ AllowSuspect cfg = true).

Section selection.
Context `{!GoMath, !GoSort}.

Lemma eligibleNodes_spec nodes req cfg n :
  n ∈ eligibleNodes nodes req cfg <->
  n ∈ nodes /\ (ID n ∉ Exclude req) /\ (required req cfg <= AvailableBytes n)%Z /\
  (nHealth n = HealthHealthy \/ nHealth n = HealthSuspect /\ AllowSuspect cfg = true).
Proof.
  unfold eligibleNodes, excluded. rewrite list_elem_of_filter.
  rewrite !andb_true_iff, !negb_true_iff, orb_false_iff, andb_false_iff, Z.ltb_ge, !bool_decide_eq_false, negb_false_iff.
  destruct (nHealth n); naive_solver.
Qed.

Lemma sample_scan_bound target acc i items k :
  sample_scan target acc i items = Some k -> (i <= k < i + length items)%nat.
Proof.
  revert acc i. induction items as [|it items IH]; intros acc i; simpl; [done|].
  repeat case_match; intros Hs; try (apply IH in Hs; lia). simplify_eq. lia.
Qed.

Lemma sampleIndex_bound items rng i rng' :
  items <> [] -> sampleIndex items rng = (Some i, rng') -> (i < length items)%nat.
Proof.
  intros Hne. assert (0 < length items)%nat by (destruct items; [done|simpl; lia]).
  unfold sampleIndex. simpl. case_match; [done|]. case_match; intros; simplify_eq; [|lia].
  match goal with H : sample_scan _ _ _ _ = _ |- _ => apply sample_scan_bound in H end. lia.
Qed.

Lemma take_drop_perm {A} (l : list A) i x : l !! i = Some x -> l ≡ₚ x :: (take i l ++ drop (S i) l).
Proof. intros Hi. rewrite <-(take_drop_middle l i x Hi) at 1. symmetry. apply Permutation_middle. Qed.

(** One round's bookkeeping: the picked node joins the selection unless its
    ID is already in it. *)
Lemma pick_spec (chosen : gset string) selected n chosen' selected' :
  chosen = list_to_set (ID <$> selected) -> NoDup (ID <$> selected) ->
  (if decide (ID n ∈ chosen) then (chosen, selected)
   else ({[ID n]} ∪ chosen, selected ++ [n])) = (chosen', selected') ->
  chosen' = list_to_set (ID <$> selected') /\ NoDup (ID <$> selected') /\
  (length selected' <= S (length selected))%nat /\
  (forall m, m ∈ selected' -> m ∈ selected \/ m = n) /\
  (forall m, m ∈ selected \/ m = n -> ID m ∈ ID <$> selected').
Proof.
  intros -> Hnd. case_decide as Hin; intros [= <- <-].
  - rewrite elem_of_list_to_set in Hin. split_and!; [done|done|lia|by left|].
    intros m [Hm| ->]; [by apply list_elem_of_fmap_2|done].
  - rewrite elem_of_list_to_set in Hin. rewrite !fmap_app, length_app. simpl. split_and!; [set_solver| |lia|set_solver|].
    + apply NoDup_app. split_and!; [done| |apply NoDup_singleton]. set_solver.
    + intros m [Hm| ->]; apply elem_of_app; [left; by apply list_elem_of_fmap_2|right; by left].
Qed.

Lemma select_loop_spec fuel R remaining chosen selected rng :
  fuel = length remaining -> remaining <> [] -> (Z.of_nat (length selected) <= R)%Z ->
  chosen = list_to_set (ID <$> selected) -> NoDup (ID <$> selected) ->
  exists sel rng', select_loop fuel R remaining chosen selected rng = Some (sel, rng') /\
    NoDup (ID <$> sel) /\ (Z.of_nat (length sel) <= R)%Z /\
    (forall n, n ∈ sel -> n ∈ selected \/ n ∈ w_node <$> remaining) /\
    ((Z.of_nat (length sel) < R)%Z -> forall n, n ∈ selected \/ n ∈ w_node <$> remaining -> ID n ∈ ID <$> sel).
Proof.
  revert remaining chosen selected rng.
  induction fuel as [|fuel IH]; intros remaining chosen selected rng Hf Hne HR Hc Hnd; [by destruct remaining|].
  simpl. case_decide as Hlt.
  2:{ exists selected, rng. split_and!; [done|done|done|by left|lia]. }
  destruct (sampleIndex remaining rng) as [oi rng1] eqn:Hi.
  set (idx := match oi with None => 0%nat | Some i => i end).
  assert (idx < length remaining)%nat as Hidx.
  { subst idx. destruct oi; [by eapply sampleIndex_bound|lia]. }
  destruct (lookup_lt_is_Some_2 remaining idx Hidx) as [pick Hpick]. rewrite Hpick.
  pose proof (take_drop_perm _ _ _ Hpick) as Hperm.
  set (rest := take idx remaining ++ drop (S idx) remaining) in *. clearbody rest idx.
  destruct (if decide _ then _ else _) as [chosen' selected'] eqn:Hnext.
  apply pick_spec in Hnext as (N1&N2&N3&N4&N5); [|done..].
  assert (forall n, n ∈ w_node <$> remaining <-> n = w_node pick \/ n ∈ w_node <$> rest) as Hrem.
  { intros n. rewrite Hperm. apply elem_of_cons. }
  destruct rest as [|r rest].
  - exists selected', rng1. split_and!; [done|done|lia| |].
    + intros n Hn. rewrite Hrem. apply N4 in Hn. tauto.
    + intros _ n Hn. rewrite Hrem in Hn. apply N5. destruct Hn as [?|[?|Hn]]; [tauto..|].
      by apply elem_of_nil in Hn.
  - destruct (IH (r :: rest) chosen' selected' rng1) as (sel&rng'&E&S1&S2&S3&S4);
      [apply Permutation_length in Hperm; simpl in *; lia|done|lia|done|done|].
    exists sel, rng'. split_and!; [done|done|done| |].
    + intros n Hn. rewrite Hrem. apply S3 in Hn as [Hn|Hn]; [apply N4 in Hn|]; tauto.
    + intros Hs n Hn. rewrite Hrem in Hn. destruct Hn as [Hn|[Hn|Hn]].
      * destruct (proj1 (list_elem_of_fmap _ _ _) (N5 n ltac:(tauto))) as (m&->&Hm). apply S4; [done|by left].
      * destruct (proj1 (list_elem_of_fmap _ _ _) (N5 n ltac:(tauto))) as (m&->&Hm). apply S4; [done|by left].
      * apply S4; [done|by right].
Qed.

(** The answer both strategies owe a well-formed request. *)
Definition answers_exactly cfg nodes req (r : result placement_error (list NodeInfo)) : Prop :=
  if decide (Replicas req <= Z.of_nat (length (eligibleNodes nodes req cfg)))%Z
  then exists sel, r = Ok sel /\ placement_ok cfg nodes req sel
  else r = Err ErrInsufficientNodes.

Definition valid_request (req : Request) : Prop :=
  (1 <= Replicas req)%Z /\ (0 <= ChunkSize req)%Z /\ Key req <> EmptyString.

Lemma eligible_nodes cfg nodes req : w_node <$> eligible cfg nodes req ≡ₚ eligibleNodes nodes req cfg.
Proof. unfold eligible. rewrite sort_slice_perm, <-list_fmap_compose. by rewrite list_fmap_id. Qed.

Lemma eligible_ids nodes req cfg : NoDup (ID <$> nodes) -> NoDup (ID <$> eligibleNodes nodes req cfg).
Proof. intros Hnd. eapply sublist_NoDup; [done|]. apply fmap_sublist, sublist_filter. Qed.

Lemma Weighted_exact cfg nodes req rng :
  NoDup (ID <$> nodes) -> (1 <= Replicas req)%Z -> (0 <= ChunkSize req)%Z ->
  exists r rng', Weighted_SelectNodes cfg nodes req rng = Some (r, rng') /\ answers_exactly cfg nodes req r.
Proof.
  intros Hnd HR HS. unfold Weighted_SelectNodes, answers_exactly.
  rewrite !decide_False by lia. pose proof (eligible_nodes cfg nodes req) as Hp.
  assert (length (eligible cfg nodes req) = length (eligibleNodes nodes req cfg)) as Hl
    by (by rewrite <-Hp, length_fmap).
  rewrite Hl. destruct (decide (Replicas req <= _)%Z); [|rewrite decide_True by lia; by eauto].
  rewrite decide_False by lia.
  destruct (select_loop_spec (length (eligibleNodes nodes req cfg)) (Replicas req) (eligible cfg nodes req) ∅ [] rng)
    as (sel&rng'&E&S1&S2&S3&S4); [done| |simpl; lia|done|constructor|].
  { intros He. rewrite He in Hl. simpl in Hl. lia. }
  rewrite E. setoid_rewrite Hp in S3. setoid_rewrite Hp in S4.
  assert (Z.of_nat (length sel) = Replicas req) as Hlen.
  { destruct (decide (Z.of_nat (length sel) < Replicas req)%Z) as [Hlt|]; [|lia].
    assert (length (ID <$> eligibleNodes nodes req cfg) <= length (ID <$> sel))%nat as Hle.
    { apply submseteq_length, NoDup_submseteq; [by apply eligible_ids|].
      intros x Hx. apply list_elem_of_fmap in Hx as (n&->&Hn). by apply S4; [|right]. }
    rewrite !length_fmap in Hle. lia. }
  rewrite decide_False by lia. eexists _, _. split; [done|]. exists sel. split; [done|]. split_and!; [done|done|].
  intros n Hn. apply eligibleNodes_spec. destruct (S3 n Hn) as [Hn'|]; [by apply elem_of_nil in Hn'|done].
Qed.

Lemma Rank_perm cfg nodes req : Rank cfg nodes req ≡ₚ eligibleNodes nodes req cfg.
Proof. unfold Rank. rewrite sort_slice_perm, <-list_fmap_compose. by rewrite list_fmap_id. Qed.
Lemma Rank_length cfg nodes req : length (Rank cfg nodes req) = length (eligibleNodes nodes req cfg).
Proof. apply Permutation_length, Rank_perm. Qed.

Lemma Rendezvous_select cfg nodes req :
  valid_request req ->
  Rendezvous_SelectNodes cfg nodes req =
  if decide (Replicas req <= Z.of_nat (length (Rank cfg nodes req)))%Z
  then Ok (take (Z.to_nat (Replicas req)) (Rank cfg nodes req)) else Err ErrInsufficientNodes.
Proof.
  intros (HR&HS&HK). unfold Rendezvous_SelectNodes. rewrite !decide_False by lia.
  rewrite (proj2 (String.eqb_neq _ _) HK), Rank_length.
  case_decide; [by rewrite decide_False by lia|by rewrite decide_True by lia].
Qed.

Lemma Rendezvous_exact cfg nodes req :
  NoDup (ID <$> nodes) -> valid_request req ->
  answers_exactly cfg nodes req (Rendezvous_SelectNodes cfg nodes req).
Proof.
  intros Hnd Hv. rewrite Rendezvous_select by done. unfold answers_exactly. rewrite Rank_length.
  case_decide; [|done]. exists (take (Z.to_nat (Replicas req)) (Rank cfg nodes req)). split; [done|]. split_and!.
  - rewrite length_take, Rank_length. destruct Hv. lia.
  - eapply sublist_NoDup; [|apply fmap_sublist, sublist_take].
    rewrite (Rank_perm cfg nodes req). by apply eligible_ids.
  - intros n Hn. apply eligibleNodes_spec. rewrite <-(Rank_perm cfg nodes req). by eapply subseteq_take.
Qed.
End selection.

Lemma SelectNodes_answers `{!GoMath, !GoSort} cfg nodes req s :
  NoDup (ID <$> nodes) -> (exists rng, s = Weighted cfg rng) \/ s = Rendezvous cfg ->
  exists r s', SelectNodes s nodes req = Some (r, s') /\
    (valid_request req -> answers_exactly cfg nodes req r) /\
    ((Replicas req < 1 \/ ChunkSize req < 0)%Z -> r = Err ErrInvalidRequest).
Proof.
  intros Hnd [[rng ->]| ->]; simpl.
  - destruct (decide (1 <= Replicas req /\ 0 <= ChunkSize req)%Z) as [[HR HS]|Hbad].
    + destruct (Weighted_exact cfg nodes req rng Hnd HR HS) as (r&rng'&->&Hr).
      eexists _, _. split_and!; [done|done|lia].
    + unfold Weighted_SelectNodes. repeat case_decide; try lia; eexists _, _;
        (split_and!; [done|intros (?&?&_); lia|done]).
  - eexists _, _. split_and!; [done|by apply Rendezvous_exact|].
    intros Hbad. unfold Rendezvous_SelectNodes. repeat case_decide; (done || lia).
Qed.

(** C28: a strategy made by New answers every well-formed request about
    distinct nodes exactly, without panicking: if at least Replicas nodes are
    eligible it returns Replicas distinct nodes, each known, not excluded, with
    room for the chunk and healthy (or suspect where the configuration allows
    it), and otherwise ErrInsufficientNodes. Other names than the two
    strategies' are refused, and malformed requests are invalid. *)
Theorem SelectNodes_exact `{!GoMath, !GoSort} name cfg rng nodes req :
  NoDup (ID <$> nodes) ->
  match New name cfg rng with
  | Err e => e = ErrUnknownStrategy name /\ name <> EmptyString /\ name <> "weighted" /\ name <> "rendezvous"
  | Ok s =>
      exists r s', SelectNodes s nodes req = Some (r, s') /\
        (valid_request req -> answers_exactly cfg nodes req r) /\
        ((Replicas req < 1 \/ ChunkSize req < 0)%Z -> r = Err ErrInvalidRequest)
  end.
Proof.
  intros Hnd. unfold New.
  destruct (String.eqb_spec name EmptyString) as [|Hn0]; [apply SelectNodes_answers; eauto|].
  destruct (String.eqb_spec name "weighted") as [|Hn1]; [apply SelectNodes_answers; eauto|].
  destruct (String.eqb_spec name "rendezvous") as [|Hn2]; [apply SelectNodes_answers; eauto|done].
Qed.

(** Three nodes of 1000 bytes, the first one dead, and two replicas of 100. *)
Definition sample_math : GoMath := {|
  int64_overflow := fun _ => (- 2 ^ 63)%Z;
  Log := fun _ => S754_finite true 1 0;
  Log_unit := fun _ _ _ => ex_intro _ 1%positive (ex_intro _ 0%Z eq_refl)
|}.
Definition sample_rand : Rand := mkRand (fun _ => flit 1 2) 0.
Definition sample_node (id : string) (h : Health) : NodeInfo := mkNode id EmptyString h 1000 0 1000 0 0.
Definition sample_nodes : list NodeInfo :=
  [sample_node "n1" HealthDead; sample_node "n2" HealthHealthy; sample_node "n3" HealthHealthy].
Lemma SelectNodes_exact_witness :
  exists sel, placement_ok (H := sample_math) DefaultConfig sample_nodes (mkRequest "chunk" 2 100 []) sel.
Proof.
  destruct (SelectNodes_exact (H := sample_math) (H0 := sort_by_insertion) "weighted" DefaultConfig sample_rand
    sample_nodes (mkRequest "chunk" 2 100 []) ltac:(by apply (bool_decide_unpack _); vm_compute))
    as (r&s'&_&H&_).
  assert (valid_request (mkRequest "chunk" 2 100 [])) as Hv by (split_and!; [simpl; lia|simpl; lia|done]).
  specialize (H Hv). unfold answers_exactly in H.
  destruct (decide _) as [|Hn] in H; [|exfalso; apply Hn; vm_compute; discriminate].
  destruct H as (sel&_&H). by exists sel.
Defined.
