(* ===== verification/Retry.v ===== *)
(** * Bounded retries (src/internal/retry/retry.go)

    Policy with its two instances, the backoff of Delay down to the float64
    operations, math.Pow included, the marking of permanent errors, and Do. Do
    runs over any state: what the context does and the random draws are a record
    of oracles, and the run keeps the calls it made and the timers it set. *)

From Stdlib Require Import Floats.SpecFloat.
From stdpp Require Import base list numbers strings.
From S2P Require Import Prelude GoFloat Rounding Placement.

Local Open Scope Z_scope.

Definition fsub (x y : float64) : float64 := fadd x (fopp y).
Definition f2 : float64 := of_int 2.
Definition fhalf : float64 := flit 1 2.

(** ** math.Pow *)

(** The loop over the bits of the exponent: [x1 * 2^xe] is squared, [a1 * 2^ae]
    accumulates. *)
Fixpoint pow_loop (i : positive) (x1 : float64) (xe : Z) (a1 : float64) (ae : Z) : float64 * Z :=
  if (xe <? - 2 ^ 12) || (2 ^ 12 <? xe) then (a1, ae + xe)
  else
    let '(a1, ae) := match i with xO _ => (a1, ae) | _ => (fmul a1 x1, ae + xe) end in
    let x2 := fmul x1 x1 in
    let '(x2, xe2) := if flt x2 fhalf then (fadd x2 x2, 2 * xe - 1) else (x2, 2 * xe) in
    match i with xH => (a1, ae) | xO i' | xI i' => pow_loop i' x2 xe2 a1 ae end.

(** [math.Pow(x, y)] for an integral [y >= 0] and an [x] that is NaN or at
    least 1. *)
Definition Pow (x : float64) (y : Z) : float64 :=
  if (y =? 0) || feq x f1 then f1
  else if y =? 1 then x
  else
    match x with
    | S754_nan | S754_infinity _ => x
    | _ =>
        if 2 ^ 63 <=? y then S754_infinity false
        else
          let '(x1, xe) := SFfrexp 53 1024 x in
          let '(a1, ae) := pow_loop (Z.to_pos y) x1 xe f1 0 in
          SFldexp 53 1024 a1 ae
    end.

(** ** Policies *)

(** Durations are in nanoseconds. *)
Record Policy := mkPolicy {
  MaxAttempts : Z;
  BaseDelay : Z;
  MaxDelay : Z;
  Multiplier : float64;
  Jitter : float64
}.

Definition DefaultPolicy : Policy := mkPolicy 3 100000000 2000000000 (of_int 2) (flit 2 10).
Definition StartupPolicy : Policy := mkPolicy 30 250000000 3000000000 (flit 15 10) (flit 2 10).

Section delay.
Context `{GM : !GoMath}.

(** The part of Delay before the jitter. *)
Definition nominal (p : Policy) (attempt : Z) : float64 :=
  let attempt := if attempt <? 1 then 1 else attempt in
  let mult := if fle (Multiplier p) f1 then f2 else Multiplier p in
  let d := fmul (of_int (BaseDelay p)) (Pow mult (attempt - 1)) in
  if (0 <? MaxDelay p) && flt (of_int (MaxDelay p)) d then of_int (MaxDelay p) else d.
(** The factor of the jitter for the draw [r]. *)
Definition jitter (frac r : float64) : float64 := fadd f1 (fmul frac (fsub (fmul f2 r) f1)).
Definition Delay (p : Policy) (attempt : Z) (r : float64) : Z :=
  let d := nominal p attempt in
  let d := if flt f0 (Jitter p)
           then fmul d (jitter (if flt f1 (Jitter p) then f1 else Jitter p) r) else d in
  to_int64 (if flt d f0 then f0 else d).
End delay.

(** ** Errors *)

(** Go errors as they wrap each other: [fmt.Errorf] with one [%w], with the two
    of an aborted retry, and the mark of a permanent error. *)
Inductive error {E : Type} :=
| Leaf (e : E)
| permanent (err : error)
| Errorf (err : error)
| GivingUp (attempts : Z) (last : error)
| RetryAborted (attempts : Z) (cause last : error).
Arguments error : clear implicits.

(** [errors.Unwrap], nil for an error that wraps two. *)
Definition Unwrap {E} (err : error E) : option (error E) :=
  match err with
  | permanent e | Errorf e | GivingUp _ e => Some e
  | Leaf _ | RetryAborted _ _ _ => None
  end.
Definition Permanent {E} (err : option (error E)) : option (error E) := permanent <$> err.
(** [errors.As] for the mark. *)
Fixpoint IsPermanent {E} (err : error E) : bool :=
  match err with
  | permanent _ => true
  | Errorf e | GivingUp _ e => IsPermanent e
  | RetryAborted _ a b => IsPermanent a || IsPermanent b
  | Leaf _ => false
  end.

(** ** Do *)

(** What a run of Do meets: whether the context is done before an attempt and
    while it waits after one, the error of the context, the draws of the jitter. *)
Record context {E : Type} := mkContext {
  cx_done : Z -> bool;
  cx_interrupted : Z -> bool;
  cx_Err : error E;
  cx_draw : Z -> float64
}.
Arguments context : clear implicits.
Arguments mkContext {E}.

(** A finished run: its error, the state, the calls of [fn] with their results
    and the timers that were set. *)
Record run {E T : Type} := mkRun {
  rn_err : option (error E);
  rn_state : T;
  rn_calls : list (Z * option (error E));
  rn_timers : list Z
}.
Arguments run : clear implicits.
Arguments mkRun {E T}.

(** The attempts a policy allows, at least one. *)
Definition attempts_of (p : Policy) : Z := if MaxAttempts p <? 1 then 1 else MaxAttempts p.

Section do.
Context `{GM : !GoMath} {E T : Type} (ctx : context E) (p : Policy) (fn : Z -> T -> option (error E) * T).

(** The loop from [attempt], with [left] attempts after it. *)
Fixpoint do_loop (left : nat) (attempt : Z) (last : option (error E)) (s : T) : run E T :=
  if cx_done ctx attempt then
    mkRun (Some (match last with Some l => RetryAborted (attempt - 1) (cx_Err ctx) l | None => cx_Err ctx end)) s [] []
  else
    let '(r, s) := fn attempt s in
    match r with
    | None => mkRun None s [(attempt, None)] []
    | Some e =>
        if IsPermanent e then mkRun (Unwrap e) s [(attempt, Some e)] []
        else
          match left with
          | O => mkRun (Some (GivingUp (attempts_of p) e)) s [(attempt, Some e)] []
          | S left' =>
              let d := Delay p attempt (cx_draw ctx attempt) in
              if cx_interrupted ctx attempt then mkRun (Some (RetryAborted attempt (cx_Err ctx) e)) s [(attempt, Some e)] [d]
              else
                let rest := do_loop left' (attempt + 1) (Some e) s in
                mkRun (rn_err rest) (rn_state rest) ((attempt, Some e) :: rn_calls rest) (d :: rn_timers rest)
          end
    end.
Definition Do (s : T) : run E T := do_loop (Z.to_nat (attempts_of p) - 1) 1 None s.
End do.

(** ** Bounds of the delays *)

Definition unit_draw (r : float64) : Prop := representable r /\ 0 <= value r < value f1.

(** The policies whose delays are bounded: positive durations of at most 2^52 ns
    (52 days), a finite multiplier and jitter. *)
Record policy_ok (p : Policy) : Prop := {
  ok_base : 0 < BaseDelay p < 2 ^ 53;
  ok_max : 0 < MaxDelay p < 2 ^ 52;
  ok_mult : representable (Multiplier p);
  ok_jitter : representable (Jitter p)
}.

Lemma f1_value : representable f1 /\ value f1 = 2 ^ scale.
Proof. destruct (of_int_value 1) as [H1 H2]; [lia|]. split; [done|]. unfold f1. lia. Qed.
Lemma f2_value : representable f2 /\ value f2 = 2 * 2 ^ scale.
Proof. by apply of_int_value. Qed.
Lemma fopp_value x : representable x -> representable (fopp x) /\ value (fopp x) = - value x.
Proof. destruct x as [|?| |[] m e]; simpl; try done; intros; (split; [done|lia]). Qed.
Lemma scale_pos : 0 < 2 ^ scale.
Proof. by apply Z.pow_pos_nonneg. Qed.

Lemma jitter_between frac r lo hi : representable frac -> 0 <= value frac <= value f1 -> unit_draw r ->
  representable lo -> representable hi -> value lo <= value f1 - value frac -> value f1 + value frac <= value hi ->
  representable (jitter frac r) /\ value lo <= value (jitter frac r) <= value hi.
Proof.
  intros Hf Hfv [Hr Hrv] Hlo Hhi Hl Hh. destruct f1_value as [R1 V1], f2_value as [R2 V2]. pose proof scale_pos as Hs.
  destruct (fmul_between f2 r f0 f2) as [Ra Va]; [done|done|done|done|change (value f0) with 0; rewrite V1, V2 in *; nia|].
  destruct (fopp_value f1 R1) as [Ro Vo]. change (value f0) with 0 in Va.
  destruct (fadd_between (fmul f2 r) (fopp f1) (fopp f1) f1) as [Rb Vb]; [done..|rewrite Vo, V1, V2 in *; lia|].
  destruct (fopp_value frac Hf) as [Rf Vf].
  destruct (fmul_between frac (fadd (fmul f2 r) (fopp f1)) (fopp frac) frac) as [Rc Vc]; [done..|rewrite Vf, Vo, V1 in *; nia|].
  apply fadd_between; [done..|]. unfold fsub. lia.
Qed.

Lemma fhalf_value : representable fhalf /\ 2 * value fhalf = value f1.
Proof. split; vm_compute; [split_and!; (done || by intros)|done]. Qed.
Lemma fle_value x y : representable x -> representable y -> fle x y = false -> value y < value x.
Proof.
  intros Hx Hy Hle. apply flt_value; [done..|]. assert (is_nan x = false /\ is_nan y = false) as [Nx Ny] by (by destruct x, y).
  apply flt_key; [done..|]. pose proof (fcompare_key x y Nx Ny) as Hk. unfold fle, SFleb in Hle.
  by destruct (SFcompare x y) as [[]|].
Qed.

(** Between 0 and 1. *)
Definition unit_interval (x : float64) : Prop := representable x /\ 0 <= value x <= value f1.
Lemma fmul_unit x y : unit_interval x -> unit_interval y -> unit_interval (fmul x y).
Proof.
  intros [Rx Vx] [Ry Vy]. destruct f1_value as [R1 V1]. pose proof scale_pos.
  destruct (fmul_between x y f0 f1) as [R V]; [done..|change (value f0) with 0; rewrite V1 in *; nia|by split].
Qed.
Lemma double_unit x : unit_interval x -> flt x fhalf = true -> unit_interval (fadd x x).
Proof.
  intros [R V] Hlt. destruct fhalf_value as [Rh Hh], f1_value as [R1 _]. apply flt_value in Hlt; [|done..].
  destruct (fadd_between x x f0 f1) as [R3 V3]; [done..|change (value f0) with 0; lia|by split].
Qed.
Lemma pow_loop_unit i x1 xe a1 ae : unit_interval x1 -> 1 <= xe -> unit_interval a1 -> 0 <= ae ->
  let '(a, e) := pow_loop i x1 xe a1 ae in unit_interval a /\ 0 <= e.
Proof.
  revert x1 xe a1 ae. induction i as [i IH|i IH|]; intros x1 xe a1 ae Hx Hxe Ha Hae; cbn [pow_loop];
    (destruct ((xe <? _) || _); [split; [exact Ha|lia]|]); pose proof (fmul_unit _ _ Ha Hx); pose proof (fmul_unit _ _ Hx Hx) as H2.
  - destruct (flt _ _) eqn:Hlt; apply IH; (assumption || (by apply double_unit) || lia).
  - destruct (flt _ _) eqn:Hlt; apply IH; (assumption || (by apply double_unit) || lia).
  - destruct (flt _ _); (split; [assumption|lia]).
Qed.

Lemma Pow_non_negative x y : representable x -> value f1 < value x -> 0 <= y -> non_negative (Pow x y).
Proof.
  intros Hx Hv Hy. destruct f1_value as [R1 V1]. pose proof scale_pos. unfold Pow.
  destruct ((y =? 0) || feq x f1); [left; split; [done|lia]|]. destruct (y =? 1); [left; split; [done|lia]|].
  destruct (positive_sign x Hx ltac:(lia)) as [[s ->]|(m&e&->&Hc)]; [cbn [value] in Hv; lia|].
  destruct (2 ^ 63 <=? y); [by right|]. pose proof (canonical_bounds _ _ Hc) as (He&Hl&Hn).
  assert (Z.log2 (Zpos m) = 52 /\ - 52 <= e) as [Hl52 He'].
  { cbn [value] in Hv. rewrite V1 in Hv. pose proof (Z.log2_le_mono _ _ (Z.lt_le_incl _ _ Hv)) as Hlog.
    rewrite Z.log2_pow2, log2_scaled in Hlog by (unfold scale; lia). lia. }
  cbn [SFfrexp].
  rewrite (proj2 (Z.leb_le 53 (Zpos (digits2_pos m)))) by (rewrite digits2_log2; lia).
  pose proof (pow_loop_unit (Z.to_pos y) (S754_finite false m (- 53)) (e + 53) f1 0) as Hloop.
  destruct (pow_loop _ _ _ _ _) as [a ae]. destruct Hloop as [[Ra Va] Hae]; [|lia|split; [done|lia]|lia|apply ldexp_non_negative; [done|lia|lia]].
  split; [split_and!; [done|rewrite Hl52; done|lia]|]. cbn [value]. split; [apply scaled_nonneg; lia|].
  rewrite V1. pose proof (Z.log2_spec (Zpos m) ltac:(lia)) as [_ Hu]. rewrite Hl52 in Hu. unfold scaled.
  replace (2 ^ scale) with (2 ^ 53 * 2 ^ (- 53 + scale)) by (rewrite <-Z.pow_add_r by (unfold scale; lia); f_equal; lia).
  apply Z.mul_le_mono_nonneg_r; [apply Z.pow_nonneg; lia|]. change (Z.succ 52) with 53 in Hu. lia.
Qed.

Section delays.
Context `{GM : !GoMath} (p : Policy) (Hp : policy_ok p).

Lemma nominal_between attempt : representable (nominal p attempt) /\ 0 <= value (nominal p attempt) <= MaxDelay p * 2 ^ scale.
Proof.
  destruct Hp as [Hb Hm Hmult _]. pose proof scale_pos as Hs. destruct f1_value as [R1 V1], f2_value as [R2 V2].
  destruct (of_int_value (BaseDelay p)) as [Rb Vb]; [lia|]. destruct (of_int_value (MaxDelay p)) as [Rm Vm]; [lia|].
  unfold nominal. set (a := if attempt <? 1 then 1 else attempt). assert (0 <= a - 1) as Ha by (unfold a; destruct (Z.ltb_spec attempt 1); lia).
  set (mult := if fle (Multiplier p) f1 then f2 else Multiplier p).
  assert (representable mult /\ value f1 < value mult) as [Rmu Vmu].
  { unfold mult. destruct (fle (Multiplier p) f1) eqn:E; [split; [done|lia]|]. split; [done|by apply fle_value]. }
  pose proof (fmul_non_negative (of_int (BaseDelay p)) (Pow mult (a - 1)) Rb ltac:(rewrite Vb; nia) (Pow_non_negative _ _ Rmu Vmu Ha)) as Hd.
  set (d := fmul _ _) in *. rewrite (proj2 (Z.ltb_lt 0 (MaxDelay p))) by lia. cbn [andb].
  destruct (flt (of_int (MaxDelay p)) d) eqn:E; [split; [exact Rm|rewrite Vm; nia]|].
  destruct Hd as [[Rd Vd]|Ed].
  - split; [exact Rd|]. split; [lia|]. rewrite <-Vm. apply Z.nlt_ge. intros Hlt. apply flt_value in Hlt; [|done..]. congruence.
  - exfalso. rewrite Ed in E. destruct (positive_sign (of_int (MaxDelay p)) Rm ltac:(nia)) as [[s Es]|(m&e&Es&_)]; rewrite Es in E; [|done].
    by destruct s.
Qed.

(** A delay between two bounds, from bounds of the jitter factor. *)
Lemma delay_between attempt r lo hi dlo dhi (a b : Z) :
  unit_draw r -> let frac := if flt f1 (Jitter p) then f1 else Jitter p in
  flt f0 (Jitter p) = true ->
  representable lo -> representable hi -> 0 <= value lo <= value f1 - value frac -> value f1 + value frac <= value hi ->
  representable dlo -> representable dhi ->
  a * 2 ^ scale <= value dlo -> value dhi < (b + 1) * 2 ^ scale -> 0 <= a -> b < 2 ^ 63 ->
  value dlo * 2 ^ scale <= value (nominal p attempt) * value lo -> value (nominal p attempt) * value hi <= value dhi * 2 ^ scale ->
  a <= Delay p attempt r <= b.
Proof.
  intros Hr frac Hj Rlo Rhi Hlo Hhi Rdl Rdh Ha Hb Ha0 Hb63 Hl Hh. pose proof scale_pos as Hs. destruct f1_value as [R1 V1].
  destruct (nominal_between attempt) as [Rd Vd]. assert (representable frac /\ 0 <= value frac <= value f1) as [Rf Vf].
  { unfold frac. destruct (flt f1 (Jitter p)) eqn:E; [split; [done|lia]|]. pose proof (ok_jitter p Hp) as RJ. split; [done|].
    apply flt_value in Hj; [|done..]. change (value f0) with 0 in Hj. split; [lia|]. apply Z.nlt_ge. intros Hlt.
    apply flt_value in Hlt; [|done..]. congruence. }
  destruct (jitter_between frac r lo hi) as [Rg Vg]; [done..|lia|lia|]. unfold Delay. rewrite Hj. fold frac.
  destruct (fmul_between (nominal p attempt) (jitter frac r) dlo dhi) as [Rx Vx]; [done..|nia|].
  set (x := fmul _ _) in *. assert (flt x f0 = false) as ->.
  { apply not_true_is_false. intros Hlt. apply flt_value in Hlt; [|done..]. change (value f0) with 0 in Hlt. nia. }
  unfold to_int64. rewrite ftrunc_value by (assumption || nia).
  assert (a <= value x / 2 ^ scale < b + 1) as Hq by (split; [apply Z.div_le_lower_bound; lia|apply Z.div_lt_upper_bound; lia]).
  rewrite decide_True by lia. lia.
Qed.

(** Any delay is between nothing and twice the cap. *)
Lemma Delay_bounds attempt r : unit_draw r -> 0 <= Delay p attempt r <= 2 * MaxDelay p.
Proof.
  intros Hr. pose proof scale_pos as Hs. destruct f1_value as [R1 V1], f2_value as [R2 V2].
  destruct (nominal_between attempt) as [Rd Vd]. pose proof (ok_max p Hp) as Hmax.
  destruct (flt f0 (Jitter p)) eqn:Hj.
  - destruct (of_int_value (2 * MaxDelay p)) as [Rm Vm]; [lia|].
    assert (value (if flt f1 (Jitter p) then f1 else Jitter p) <= value f1) as Hf.
    { destruct (flt f1 (Jitter p)) eqn:E; [lia|]. apply Z.nlt_ge. intros Hlt. apply flt_value in Hlt; [|done|apply Hp]. congruence. }
    apply (delay_between attempt r f0 f2 f0 (of_int (2 * MaxDelay p))); try assumption; try exact I; change (value f0) with 0; rewrite ?V2, ?Vm; nia.
  - unfold Delay. rewrite Hj. assert (flt (nominal p attempt) f0 = false) as ->.
    { apply not_true_is_false. intros Hlt. apply flt_value in Hlt; [|done..]. change (value f0) with 0 in Hlt. lia. }
    unfold to_int64. rewrite ftrunc_value by (assumption || lia).
    assert (0 <= value (nominal p attempt) / 2 ^ scale <= MaxDelay p) as Hq
      by (split; [apply Z.div_pos; lia|apply Z.div_le_upper_bound; lia]).
    rewrite decide_True by lia. lia.
Qed.
End delays.

(** ** The schedules of the two policies *)

Definition canonical_b (m e : Z) : bool := (0 <? m) && (e =? fexp64 (Z.log2 m + 1 + e)) && (e <=? 971).
Definition representable_b (x : float64) : bool :=
  match x with S754_zero _ => true | S754_finite _ m e => canonical_b (Zpos m) e | _ => false end.
Lemma representable_b_ok x : representable_b x = true -> representable x.
Proof.
  destruct x as [|?| |? m e]; simpl; try done. unfold canonical_b, canonical. rewrite !andb_true_iff, Z.ltb_lt, Z.eqb_eq, Z.leb_le. naive_solver.
Qed.

(** The neighbours of a positive value. *)
Definition below (x : float64) : float64 := match x with S754_finite s m e => S754_finite s (Pos.pred m) e | _ => x end.
Definition above (x : float64) : float64 := match x with S754_finite s m e => S754_finite s (Pos.succ m) e | _ => x end.

(** The side conditions of [delay_between] for the neighbours of the rounded
    bounds. *)
Definition schedule_check (p : Policy) (attempt a b : Z) : bool :=
  let frac := if flt f1 (Jitter p) then f1 else Jitter p in
  let lo := below (fadd f1 (fopp frac)) in let hi := above (fadd f1 frac) in
  let d := nominal p attempt in
  let dlo := below (fmul d lo) in let dhi := above (fmul d hi) in
  let s := 2 ^ scale in
  flt f0 (Jitter p) &&
  representable_b lo && representable_b hi && representable_b dlo && representable_b dhi &&
  (0 <=? value lo) && (value lo <=? value f1 - value frac) && (value f1 + value frac <=? value hi) &&
  (a * s <=? value dlo) && (value dhi <? (b + 1) * s) && (0 <=? a) && (b <? 2 ^ 63) &&
  (value dlo * s <=? value d * value lo) && (value d * value hi <=? value dhi * s).

Lemma schedule_ok `{GM : !GoMath} p attempt a b r : policy_ok p -> schedule_check p attempt a b = true -> unit_draw r ->
  a <= Delay p attempt r <= b.
Proof.
  intros Hp Hc Hr. unfold schedule_check in Hc. rewrite !andb_true_iff, ?Z.leb_le, ?Z.ltb_lt in Hc.
  destruct Hc as [[[[[[[[[[[[[Hj R1] R2] R3] R4] H1] H2] H3] H4] H5] H6] H7] H8] H9].
  apply (delay_between p Hp attempt r _ _ _ _ a b Hr Hj (representable_b_ok _ R1) (representable_b_ok _ R2)
    (conj H1 H2) H3 (representable_b_ok _ R3) (representable_b_ok _ R4) H4 H5 H6 H7 H8 H9).
Qed.

Lemma DefaultPolicy_ok : policy_ok DefaultPolicy.
Proof. split; [done|done|by apply representable_b_ok..]. Qed.
Lemma StartupPolicy_ok : policy_ok StartupPolicy.
Proof. split; [done|done|by apply representable_b_ok..]. Qed.

(** The waits are within a fifth of 100 ms and 200 ms, up to a nanosecond. *)
Lemma default_schedule `{GM : !GoMath} attempt r : 1 <= attempt <= 2 -> unit_draw r ->
  80000000 * attempt - 1 <= Delay DefaultPolicy attempt r <= 120000000 * attempt + 1.
Proof.
  intros Ha Hr. assert (attempt = 1 \/ attempt = 2) as [-> | ->] by lia;
    (apply schedule_ok; [apply DefaultPolicy_ok|vm_compute; reflexivity|done]).
Qed.

(** The waits grow by half up to 3 s. *)
Definition startup_nominal (attempt : Z) : Z := Z.min 3000000000 (250000000 * 3 ^ (attempt - 1) / 2 ^ (attempt - 1)).
Lemma startup_schedule `{GM : !GoMath} attempt r : 1 <= attempt <= 29 -> unit_draw r ->
  8 * startup_nominal attempt / 10 - 1 <= Delay StartupPolicy attempt r <= 12 * startup_nominal attempt / 10 + 2.
Proof.
  intros Ha Hr. apply schedule_ok; [apply StartupPolicy_ok| |done].
  assert (forallb (fun i => schedule_check StartupPolicy i (8 * startup_nominal i / 10 - 1) (12 * startup_nominal i / 10 + 2)) (seqZ 1 29) = true)
    as Hall by (vm_compute; reflexivity).
  rewrite forallb_forall in Hall. apply Hall, list_elem_of_In, elem_of_seqZ. lia.
Qed.

(** ** What a run of Do did *)

Section runs.
Context `{GM : !GoMath} {E T : Type} (ctx : context E) (p : Policy) (fn : Z -> T -> option (error E) * T).

(** How a run ends after the last of [n] calls. *)
Definition ending (n : Z) (result : option (option (error E))) (err : option (error E)) : Prop :=
  match result with
  | None => cx_done ctx 1 = true /\ err = Some (cx_Err ctx)
  | Some None => err = None
  | Some (Some e) =>
      if IsPermanent e then err = Unwrap e
      else n = attempts_of p /\ err = Some (GivingUp n e) \/
        n < attempts_of p /\ (cx_interrupted ctx n = true \/ cx_done ctx (n + 1) = true) /\ err = Some (RetryAborted n (cx_Err ctx) e)
  end.
Definition retryable (c : Z * option (error E)) : Prop := exists e, c.2 = Some e /\ IsPermanent e = false.

Lemma do_loop_run left attempt last s : 1 <= attempt -> attempts_of p = attempt + Z.of_nat left ->
  let r := do_loop ctx p fn left attempt last s in
  let n := length (rn_calls r) in
  (rn_calls r).*1 = seqZ attempt (Z.of_nat n) /\ (n <= S left)%nat /\
  Forall retryable (removelast (rn_calls r)) /\
  (exists k, rn_timers r = (fun i => Delay p i (cx_draw ctx i)) <$> seqZ attempt (Z.of_nat k) /\ (k <= left)%nat /\ (k <= n <= S k)%nat) /\
  match list.last (rn_calls r) with
  | None => cx_done ctx attempt = true /\
      rn_err r = Some (match last with Some l => RetryAborted (attempt - 1) (cx_Err ctx) l | None => cx_Err ctx end)
  | Some c => ending (attempt + Z.of_nat n - 1) (Some c.2) (rn_err r)
  end.
Proof.
  revert attempt last s. induction left as [|left IH]; intros attempt last s Ha Hmax; cbn [do_loop];
    (destruct (cx_done ctx attempt) eqn:Hd; [split_and!; [done|simpl; lia|done|exists 0%nat; split_and!; simpl; (done || lia)|done]|]);
    destruct (fn attempt s) as [r s']; (destruct r as [e|]; [destruct (IsPermanent e) eqn:Hp|]).
  1, 2, 3, 4, 6: split_and!; [done|simpl; lia|by apply Forall_nil|exists 0%nat; split_and!; simpl; (done || lia)|].
  all: unfold ending; cbn [rn_calls list.last snd rn_err length]; rewrite ?Hp; try done.
  { left. split; [lia|do 2 f_equal; lia]. }
  set (d := Delay p attempt (cx_draw ctx attempt)).
  destruct (cx_interrupted ctx attempt) eqn:Hi.
  { split_and!; [done|simpl; lia|by apply Forall_nil|exists 1%nat; split_and!; simpl; (done || lia)|].
    unfold ending. simpl. rewrite Hp. right. replace (attempt + Z.of_nat 1 - 1) with attempt by lia. split_and!; [lia|by left|done]. }
  destruct (IH (attempt + 1) (Some e) s') as (Hc&Hn&Hf&(k&Ht&Hk)&He); [lia|lia|].
  set (r := do_loop ctx p fn left (attempt + 1) (Some e) s') in *. cbn [rn_calls rn_timers rn_err rn_state].
  change (length ((attempt, Some e) :: rn_calls r)) with (S (length (rn_calls r))). split_and!.
  - rewrite fmap_cons, Hc, Nat2Z.inj_succ, (seqZ_cons attempt) by lia. cbn [fst]. f_equal. f_equal; lia.
  - lia.
  - destruct (rn_calls r) eqn:Ec; [constructor|]. change (removelast _) with ((attempt, Some e) :: removelast (p0 :: l)).
    constructor; [by exists e|done].
  - exists (S k). split; [|lia]. rewrite Nat2Z.inj_succ, (seqZ_cons attempt), fmap_cons by lia. fold d. f_equal.
    rewrite Ht. f_equal. f_equal; lia.
  - destruct (rn_calls r) as [|c l] eqn:Ec.
    + unfold ending. simpl in He |- *. rewrite Hp. destruct He as [Hdone He]. right. replace (attempt + 1 - 1) with attempt in He by lia.
      replace (attempt + Z.of_nat 1 - 1) with attempt by lia. rewrite He.
      split_and!; [lia|by right|done].
    + change (list.last (_ :: c :: l)) with (list.last (c :: l)). destruct (list.last (c :: l)) eqn:El; [|by apply last_None in El].
      replace (attempt + Z.of_nat (S (length (c :: l))) - 1) with (attempt + 1 + Z.of_nat (length (c :: l)) - 1) by lia. done.
Qed.

(** The calls are numbered from 1, all but the last failed in a way worth
    retrying, and there is one timer between two calls. *)
Definition run_ok (r : run E T) : Prop :=
  let n := Z.of_nat (length (rn_calls r)) in
  (rn_calls r).*1 = seqZ 1 n /\ n <= attempts_of p /\
  Forall retryable (removelast (rn_calls r)) /\
  (exists k, rn_timers r = (fun i => Delay p i (cx_draw ctx i)) <$> seqZ 1 k /\ 0 <= k < attempts_of p /\ k <= n <= k + 1) /\
  ending n (snd <$> list.last (rn_calls r)) (rn_err r).
Lemma Do_run s : run_ok (Do ctx p fn s).
Proof.
  assert (1 <= attempts_of p) as Hp by (unfold attempts_of; destruct (Z.ltb_spec (MaxAttempts p) 1); lia).
  destruct (do_loop_run (Z.to_nat (attempts_of p) - 1) 1 None s) as (Hc&Hn&Hf&(k&Ht&Hk)&He); [lia|lia|].
  fold (Do ctx p fn s) in *. split_and!; [done|lia|done| |].
  - exists (Z.of_nat k). split_and!; [done|lia..].
  - destruct (list.last _); [|done]. cbn [fmap option_fmap option_map]. by replace (1 + Z.of_nat (length (rn_calls (Do ctx p fn s))) - 1)
      with (Z.of_nat (length (rn_calls (Do ctx p fn s)))) in He by lia.
Qed.
End runs.

Lemma sum_bounded (l : list Z) b : Forall (fun d => 0 <= d <= b) l -> 0 <= foldr Z.add 0 l <= Z.of_nat (length l) * b.
Proof. induction 1 as [|d l Hd _ IH]; simpl; [lia|]. nia. Qed.

(** C33: whatever the operation and the context do, Do calls the operation at
    most MaxAttempts times and at least once unless the context is done first,
    repeats it only after errors that are not permanent, and ends with success,
    with the unwrapped permanent error, with the last error after the last
    attempt, or with the context's error. Every timer it sets, for every draw of
    the jitter, runs between 0 and twice the cap, and together they run at most
    twice the cap for each retry. *)
Theorem retry_bounded `{GM : !GoMath} {E T : Type} (ctx : context E) (p : Policy) (fn : Z -> T -> option (error E) * T) (s : T) :
  policy_ok p -> (forall i, unit_draw (cx_draw ctx i)) ->
  let r := Do ctx p fn s in
  run_ok ctx p r /\ Forall (fun d => 0 <= d <= 2 * MaxDelay p) (rn_timers r) /\
  foldr Z.add 0 (rn_timers r) <= 2 * MaxDelay p * (attempts_of p - 1).
Proof.
  intros Hp Hd r. pose proof (Do_run ctx p fn s) as Hr. fold r in Hr. split; [done|].
  destruct Hr as (_&_&_&(k&Ht&Hk&_)&_).
  assert (Forall (fun d => 0 <= d <= 2 * MaxDelay p) (rn_timers r)) as Hf.
  { rewrite Ht. apply Forall_fmap, Forall_forall. intros i _. by apply Delay_bounds. }
  split; [done|]. pose proof (sum_bounded _ _ Hf) as [_ Hs]. pose proof (ok_max p Hp).
  rewrite Ht, length_fmap, length_seqZ in Hs. rewrite Ht. nia.
Qed.

(** An operation that fails twice and then succeeds, with the draws in the
    middle, the context live throughout. *)
Definition sample_ctx : context string := mkContext (fun _ => false) (fun _ => false) (Leaf "canceled") (fun _ => fhalf).
Definition third_time (attempt : Z) (n : Z) : option (error string) * Z :=
  (if attempt <? 3 then Some (Leaf "unavailable") else None, n + 1).
Lemma retry_bounded_witness :
  let r := Do (GM := sample_math) sample_ctx DefaultPolicy third_time 0 in
  (rn_err r = None /\ rn_state r = 3 /\ rn_timers r = [100000000; 200000000]) /\
  run_ok (GM := sample_math) sample_ctx DefaultPolicy r /\ Forall (fun d => 0 <= d <= 2 * MaxDelay DefaultPolicy) (rn_timers r) /\
  foldr Z.add 0 (rn_timers r) <= 2 * MaxDelay DefaultPolicy * (attempts_of DefaultPolicy - 1).
Proof.
  intros r. split; [vm_compute; done|]. apply (retry_bounded (GM := sample_math) sample_ctx DefaultPolicy third_time 0).
  - exact DefaultPolicy_ok.
  - intros i. split; [apply representable_b_ok; reflexivity|]. vm_compute. split; (done || by intros).
Defined.
