(* ===== verification/Rendezvous.v ===== *)
(** * Properties of rendezvous placement (src/internal/placement/rendezvous.go)

    The score of a (key, node) pair is a number, the ranking it induces is a
    total order, and so placements are deterministic and move minimally when a
    node leaves or joins. *)

From Stdlib Require Import Floats.SpecFloat.
From stdpp Require Import base numbers gmap strings sorting list.
From S2P Require Import Prelude Chunking GoFloat Placement.

(** ** Scores are numbers *)

Lemma fle_not x y : is_nan x = false -> is_nan y = false -> fle x y = false -> flt y x = true.
Proof.
  intros Hx Hy H. apply flt_key; [done..|]. pose proof (fcompare_key x y Hx Hy) as K.
  unfold fle, SFleb in H. by destruct (SFcompare x y) as [[]|].
Qed.

Lemma hashUnitInterval_open key id :
  flt f0 (hashUnitInterval key id) = true /\ flt (hashUnitInterval key id) f1 = true.
Proof.
  unfold hashUnitInterval. set (x := Z.shiftr _ 1).
  assert (is_nan (fdiv (of_int x) (of_int (2 ^ 63))) = false) as Hn.
  { pose proof (of_int_num x) as Hx. replace (of_int (2 ^ 63)) with (S754_finite false 4503599627370496 11) by (by vm_compute).
    destruct (of_int x); try done. apply fdiv_finite_num. }
  set (u := fdiv _ _) in *. clearbody u.
  destruct (fle u f0) eqn:E0; [by vm_compute|].
  apply fle_not in E0; [|done..]. destruct (fle f1 u) eqn:E1; [by vm_compute|].
  apply fle_not in E1; [|by vm_compute|done]. done.
Qed.

Section rendezvous.
Context `{GM : !GoMath, GS : !GoSort} (cfg : Config).

(** The configuration and the node's load give it a weight that is a number. *)
Definition numeric (n : NodeInfo) : Prop :=
  is_nan (MinWeight cfg) = false /\ is_nan (Rendezvous_weight cfg n) = false.
#[global] Instance numeric_dec n : Decision (numeric n) := ltac:(unfold numeric; apply _).

Lemma score_num key n : numeric n -> is_nan (Rendezvous_score cfg key n) = false.
Proof.
  intros [Hm Hw]. unfold Rendezvous_score.
  destruct (hashUnitInterval_open key (ID n)) as [H0 H1]. destruct (Log_unit _ H0 H1) as (m&e&->).
  set (w := if fle (Rendezvous_weight cfg n) f0 then _ else _).
  assert (flt f0 w = true) as Hpos.
  { subst w. destruct (fle (Rendezvous_weight cfg n) f0) eqn:E; [|by apply fle_not in E].
    destruct (fle (MinWeight cfg) f0) eqn:E'; [by vm_compute|by apply fle_not in E']. }
  clearbody w. destruct w as [|[]| |[] m' e']; try done. apply fdiv_finite_num.
Qed.
End rendezvous.

(** ** Byte order of node IDs *)

Lemma ltb_irrefl s : String.ltb s s = false.
Proof. unfold String.ltb. induction s as [|c s IH]; [done|]. simpl. unfold Ascii.compare. by rewrite N.compare_refl. Qed.

Lemma ltb_cons c s c' s' :
  String.ltb (String c s) (String c' s') = true <->
  (Ascii.N_of_ascii c < Ascii.N_of_ascii c')%N \/ c = c' /\ String.ltb s s' = true.
Proof.
  unfold String.ltb. simpl. unfold Ascii.compare.
  destruct (N.compare_spec (Ascii.N_of_ascii c) (Ascii.N_of_ascii c')) as [H|H|H].
  - apply (f_equal Ascii.ascii_of_N) in H. rewrite !Ascii.ascii_N_embedding in H. subst. naive_solver lia.
  - naive_solver.
  - split; [done|]. intros [|[-> _]]; lia.
Qed.

Lemma ltb_trans s t u : String.ltb s t = true -> String.ltb t u = true -> String.ltb s u = true.
Proof.
  revert t u. induction s as [|c s IH]; intros [|d t] [|e u]; try done.
  rewrite !ltb_cons. intros [?|[-> ?]] [?|[-> ?]]; eauto; left; lia.
Qed.

Lemma ltb_total s t : String.ltb s t = false -> String.ltb t s = false -> s = t.
Proof.
  unfold String.ltb. rewrite (String.compare_antisym t s).
  destruct (String.compare s t) eqn:E; [by intros; apply String.compare_eq_iff|done|done].
Qed.

(** ** The ranking is a total order *)

Lemma key_lt_trans x y z : key_lt x y -> key_lt y z -> key_lt x z.
Proof. unfold key_lt. lia. Qed.
Lemma key_trichotomy x y : key_lt x y \/ x = y \/ key_lt y x.
Proof.
  destruct x as [[a b] c], y as [[a' b'] c']. unfold key_lt. simpl.
  destruct (Z.lt_trichotomy a a') as [|[->|]], (Z.lt_trichotomy b b') as [|[->|]],
    (Z.lt_trichotomy c c') as [|[->|]]; auto; lia.
Qed.
Lemma key_lt_irrefl x : ~ key_lt x x.
Proof. unfold key_lt. lia. Qed.

Definition scored_num (a : scoredNode) : Prop := is_nan (s_score a) = false.

Lemma better_key a b :
  scored_num a -> scored_num b ->
  better a b = true <->
  key_lt (fkey (s_score b)) (fkey (s_score a)) \/
  fkey (s_score a) = fkey (s_score b) /\ String.ltb (ID (s_node a)) (ID (s_node b)) = true.
Proof.
  intros Ha Hb. unfold better. rewrite <-(flt_key _ _ Hb Ha), <-(feq_key _ _ Ha Hb).
  pose proof (fcompare_key _ _ Ha Hb) as K1. pose proof (fcompare_key _ _ Hb Ha) as K2.
  destruct (feq (s_score a) (s_score b)) eqn:E; simpl; [|naive_solver].
  apply (feq_key _ _ Ha Hb) in E.
  assert (flt (s_score b) (s_score a) = false) as ->; [|naive_solver].
  destruct (flt _ _) eqn:E'; [|done]. apply (flt_key _ _ Hb Ha) in E'. rewrite E in E'. by apply key_lt_irrefl in E'.
Qed.

Lemma better_not a b :
  scored_num a -> scored_num b ->
  better a b = false -> better b a = true \/ fkey (s_score a) = fkey (s_score b) /\ ID (s_node a) = ID (s_node b).
Proof.
  intros Ha Hb H.
  assert (~ (better a b = true)) as Hn by (by rewrite H). rewrite better_key in Hn by done. rewrite better_key by done.
  destruct (key_trichotomy (fkey (s_score a)) (fkey (s_score b))) as [|[E|]]; [tauto| |tauto].
  destruct (String.ltb (ID (s_node a)) (ID (s_node b))) eqn:L1; [tauto|].
  destruct (String.ltb (ID (s_node b)) (ID (s_node a))) eqn:L2; [left; right; by split|].
  right. split; [done|by apply ltb_total].
Qed.

Lemma better_trans a b c :
  scored_num a -> scored_num b -> scored_num c -> better a b = true -> better b c = true -> better a c = true.
Proof.
  intros Ha Hb Hc. rewrite !better_key by done.
  intros [H1|[E1 L1]] [H2|[E2 L2]].
  - left. by eapply key_lt_trans.
  - left. by rewrite <-E2.
  - left. by rewrite E1.
  - right. split; [congruence|by eapply ltb_trans].
Qed.

Lemma better_irrefl a : scored_num a -> better a a = false.
Proof.
  intros Ha. destruct (better a a) eqn:E; [|done]. rewrite (better_key a a Ha Ha) in E. destruct E as [E|[_ E]].
  - by apply key_lt_irrefl in E.
  - by rewrite ltb_irrefl in E.
Qed.

Lemma better_strict_weak l : Forall scored_num l -> strict_weak better l.
Proof.
  rewrite Forall_forall. intros Hl. split.
  - intros a Ha. by apply better_irrefl, Hl.
  - intros a b c Ha Hb Hc. apply better_trans; by apply Hl.
  - intros a b c Ha Hb Hc H1 H2. apply Hl in Ha, Hb, Hc.
    destruct (better a c) eqn:E; [|done].
    destruct (better_not a b Ha Hb H1) as [H1'|[E1 I1]].
    + rewrite <-H2. symmetry. by apply (better_trans b a c).
    + rewrite <-H2. rewrite (better_key a c Ha Hc), E1, I1 in E. symmetry. by apply better_key.
Qed.

(** ** Deterministic placement and minimal movement *)

Section movement.
Context `{GM : !GoMath, GS : !GoSort} (cfg : Config) (req : Request).

Definition score_node (n : NodeInfo) : scoredNode := mkScored n (Rendezvous_score cfg (Key req) n).

Lemma NoDup_fmap_inj {A B} (f : A -> B) l x y : NoDup (f <$> l) -> x ∈ l -> y ∈ l -> f x = f y -> x = y.
Proof.
  intros Hnd Hx Hy E. apply list_elem_of_lookup in Hx as [i Hi], Hy as [j Hj].
  assert (i = j) as ->; [|congruence].
  eapply (NoDup_lookup (f <$> l)); [done|by rewrite list_lookup_fmap, Hi|by rewrite list_lookup_fmap, Hj, E].
Qed.

(** The ranking is the only order of the candidates in which no node comes
    before a better one. *)
Lemma Rank_in_order nodes :
  Forall (numeric cfg) (eligibleNodes nodes req cfg) ->
  in_order better (score_node <$> Rank cfg nodes req).
Proof.
  intros Hnum. set (scored := score_node <$> eligibleNodes nodes req cfg).
  assert (score_node <$> Rank cfg nodes req = sort_slice better scored) as ->.
  { unfold Rank. fold score_node. change (_ <$> eligibleNodes nodes req cfg) with scored.
    rewrite <-list_fmap_compose. rewrite <-(list_fmap_id (sort_slice better scored)) at 2.
    apply list_fmap_ext. intros i a Ha. apply list_elem_of_lookup_2 in Ha.
    rewrite sort_slice_perm in Ha. apply list_elem_of_fmap in Ha as (n&->&_). done. }
  apply sort_slice_sorted, better_strict_weak, Forall_fmap.
  eapply Forall_impl; [exact Hnum|]. intros n Hn. by apply score_num.
Qed.

Lemma Rank_unique nodes l :
  NoDup (ID <$> nodes) -> Forall (numeric cfg) (eligibleNodes nodes req cfg) ->
  l ≡ₚ eligibleNodes nodes req cfg -> in_order better (score_node <$> l) ->
  Rank cfg nodes req = l.
Proof.
  intros Hnd Hnum Hp Hl.
  assert (score_node <$> Rank cfg nodes req = score_node <$> l) as E.
  { apply (in_order_unique better); [|by rewrite Rank_perm, Hp|by apply Rank_in_order|done].
    intros a b Ha Hb H1 H2. rewrite Rank_perm in Ha, Hb.
    apply list_elem_of_fmap in Ha as (n&->&Hn), Hb as (m&->&Hm).
    rewrite Forall_forall in Hnum.
    destruct (better_not (score_node n) (score_node m)) as [|[_ HID]]; [by apply score_num, Hnum..|done|congruence|].
    f_equal. simpl in HID. apply (eligible_ids nodes req cfg) in Hnd.
    by apply (NoDup_fmap_inj ID (eligibleNodes nodes req cfg)). }
  apply (f_equal (fmap s_node)) in E. by rewrite <-!list_fmap_compose, !list_fmap_id in E.
Qed.

(** The cluster without one node. *)
Definition without (x : string) (nodes : list NodeInfo) : list NodeInfo := filter (fun n => ID n <> x) nodes.

Lemma eligible_without x nodes : eligibleNodes (without x nodes) req cfg = without x (eligibleNodes nodes req cfg).
Proof. unfold eligibleNodes, without. rewrite !list_filter_filter. apply list_filter_iff. tauto. Qed.

Lemma in_order_fmap_filter {A B} (f : A -> B) less (P : A -> Prop) `{forall x, Decision (P x)} l :
  in_order less (f <$> l) -> in_order less (f <$> filter P l).
Proof.
  induction l as [|a l IH]; [done|]. rewrite filter_cons. intros Hs. apply StronglySorted_inv in Hs as [Hs Ha].
  case_decide; [|by apply IH]. constructor; [by apply IH|].
  rewrite Forall_forall in *. intros y (n&->&Hn)%list_elem_of_fmap. apply list_elem_of_filter in Hn as [_ Hn].
  by apply Ha, list_elem_of_fmap_2.
Qed.

Lemma Rank_without x nodes :
  NoDup (ID <$> nodes) -> Forall (numeric cfg) (eligibleNodes nodes req cfg) ->
  Rank cfg (without x nodes) req = without x (Rank cfg nodes req).
Proof.
  intros Hnd Hnum. apply Rank_unique.
  - eapply sublist_NoDup; [done|]. apply fmap_sublist, sublist_filter.
  - rewrite eligible_without. rewrite Forall_forall in *. intros n [_ Hn]%list_elem_of_filter. by apply Hnum.
  - rewrite eligible_without. unfold without. by rewrite Rank_perm.
  - by apply in_order_fmap_filter, Rank_in_order.
Qed.

Lemma Rank_permuted nodes nodes' :
  NoDup (ID <$> nodes) -> Forall (numeric cfg) (eligibleNodes nodes req cfg) -> nodes ≡ₚ nodes' ->
  Rank cfg nodes' req = Rank cfg nodes req.
Proof.
  intros Hnd Hnum Hp. assert (eligibleNodes nodes req cfg ≡ₚ eligibleNodes nodes' req cfg) as He
    by (unfold eligibleNodes; by rewrite Hp).
  apply Rank_unique; [by rewrite <-Hp|by rewrite <-He|by rewrite Rank_perm|by apply Rank_in_order].
Qed.

Lemma filter_all {A} (P : A -> Prop) `{forall x, Decision (P x)} (l : list A) : (forall x, x ∈ l -> P x) -> filter P l = l.
Proof.
  induction l as [|a l IH]; intros HP; [done|]. rewrite filter_cons_True by (apply HP; by left).
  by rewrite IH by (intros x Hx; apply HP; by right).
Qed.

(** Dropping one ranked node from a prefix of the ranking. *)
Lemma take_without x (l : list NodeInfo) k :
  NoDup (ID <$> l) ->
  take k (without x l) =
    if decide (x ∈ ID <$> take k l) then without x (take k l) ++ take 1 (drop k l) else take k l.
Proof.
  unfold without. revert k. induction l as [|a l IH]; intros k Hnd; [rewrite !filter_nil, !take_nil, drop_nil; case_decide; reflexivity|].
  destruct k as [|k]; [done|]. rewrite fmap_cons in Hnd. apply NoDup_cons in Hnd as [Ha Hnd].
  rewrite filter_cons. simpl. destruct (decide (ID a <> x)) as [Hx|Hx].
  - rewrite filter_cons_True by done. simpl. rewrite IH by done.
    destruct (decide (x ∈ ID <$> take k l)) as [Hin|Hin].
    + rewrite decide_True by (by right). done.
    + rewrite decide_False; [done|]. by intros [?|?]%elem_of_cons.
  - apply dec_stable in Hx as <-. rewrite decide_True by (by left).
    assert (forall l', l' ⊆ l -> filter (fun n => ID n <> ID a) l' = l') as Hall.
    { intros l' Hl. apply filter_all. intros n Hn E. apply Ha. rewrite <-E.
      by apply list_elem_of_fmap_2, Hl. }
    rewrite filter_cons_False by naive_solver. rewrite !Hall by (done || apply subseteq_take).
    rewrite take_take_drop. f_equal. lia.
Qed.

Lemma elem_of_take_fmap x k (l : list NodeInfo) : x ∈ ID <$> take k l -> x ∈ ID <$> l.
Proof. intros (n&->&Hn)%list_elem_of_fmap. apply list_elem_of_fmap_2. by eapply subseteq_take. Qed.

Lemma without_absent x (l : list NodeInfo) : x ∉ ID <$> l -> without x l = l.
Proof. intros Hx. apply filter_all. intros n Hn <-. by apply Hx, list_elem_of_fmap_2. Qed.

Lemma length_without x (l : list NodeInfo) :
  NoDup (ID <$> l) -> x ∈ ID <$> l -> S (length (without x l)) = length l.
Proof.
  unfold without. induction l as [|a l IH]; intros Hnd Hx; [by apply elem_of_nil in Hx|].
  rewrite fmap_cons in Hnd, Hx. apply NoDup_cons in Hnd as [Ha Hnd]. rewrite filter_cons.
  case_decide as Hax; simpl.
  - apply elem_of_cons in Hx as [->|Hx]; [done|]. by rewrite IH.
  - subst x. change (filter _ l) with (without (ID a) l). by rewrite without_absent.
Qed.
End movement.

(** C29: for distinct nodes with numeric weights, rendezvous placement depends
    only on the set of nodes, and moves minimally: when a node leaves, a chunk
    it did not hold keeps its placement, and a chunk it held keeps every other
    replica and gains one node, the next in the ranking, ranked last. *)
Theorem Rendezvous_minimal_movement `{!GoMath, !GoSort} cfg nodes req sel :
  NoDup (ID <$> nodes) -> Forall (numeric cfg) (eligibleNodes nodes req cfg) ->
  Rendezvous_SelectNodes cfg nodes req = Ok sel ->
  (forall nodes', nodes ≡ₚ nodes' -> Rendezvous_SelectNodes cfg nodes' req = Ok sel) /\
  (forall x, x ∉ ID <$> sel -> Rendezvous_SelectNodes cfg (without x nodes) req = Ok sel) /\
  (forall x sel', x ∈ ID <$> sel -> Rendezvous_SelectNodes cfg (without x nodes) req = Ok sel' ->
     exists n, (n ∉ sel) /\ sel' = without x sel ++ [n]) /\
  (forall x, x ∈ ID <$> sel -> Rendezvous_SelectNodes cfg (without x nodes) req = Err ErrInsufficientNodes <->
     Z.of_nat (length (eligibleNodes nodes req cfg)) = Replicas req).
Proof.
  intros Hnd Hnum Hsel.
  assert (valid_request req) as Hv.
  { unfold Rendezvous_SelectNodes in Hsel. destruct (String.eqb_spec (Key req) EmptyString);
      repeat case_decide; try done. split_and!; [lia|lia|done]. }
  rewrite Rendezvous_select in Hsel by done. case_decide as Hle; [|done]. injection Hsel as <-.
  assert (NoDup (ID <$> Rank cfg nodes req)) as Hnd' by (rewrite Rank_perm; by apply eligible_ids).
  split_and!.
  - intros nodes' Hp. rewrite Rendezvous_select, (Rank_permuted cfg req nodes) by done. by rewrite decide_True.
  - intros x Hx. rewrite Rendezvous_select, Rank_without, take_without by done.
    rewrite (decide_False _ _ Hx), decide_True; [done|].
    destruct (decide (x ∈ ID <$> Rank cfg nodes req)) as [Hin|]; [|by rewrite without_absent].
    pose proof (length_without x _ Hnd' Hin) as Hl.
    destruct (decide (Replicas req = Z.of_nat (length (Rank cfg nodes req)))) as [E|]; [|lia].
    by rewrite E, Nat2Z.id, firstn_all in Hx.
  - intros x sel' Hx Hs. rewrite Rendezvous_select, Rank_without, take_without in Hs by done.
    rewrite (decide_True _ _ Hx) in Hs. case_decide as Hle'; [|done]. injection Hs as <-.
    pose proof (length_without x _ Hnd' (elem_of_take_fmap _ _ _ Hx)) as Hl. destruct Hv as (HR&_).
    set (k := Z.to_nat (Replicas req)) in *.
    destruct (drop k (Rank cfg nodes req)) as [|n rest] eqn:Hd.
    { apply (f_equal length) in Hd. rewrite length_drop in Hd. simpl in Hd. lia. }
    exists n. split; [|done].
    rewrite <-(take_drop k (Rank cfg nodes req)), fmap_app in Hnd'. apply NoDup_app in Hnd' as (_&Hdisj&_).
    intros Hn. apply (Hdisj (ID n)); [by apply list_elem_of_fmap_2|]. rewrite Hd. by left.
  - intros x Hx. rewrite Rendezvous_select, Rank_without, take_without by done.
    apply elem_of_take_fmap in Hx. pose proof (length_without x _ Hnd' Hx) as Hl. rewrite Rank_length in Hl, Hle.
    case_decide; split; (done || lia).
Qed.

(** Three healthy nodes and one replica: the node that holds it leaves. *)
Definition sample_cluster3 : list NodeInfo :=
  [sample_node "n1" HealthHealthy; sample_node "n2" HealthHealthy; sample_node "n3" HealthHealthy].
Lemma Rendezvous_minimal_movement_witness :
  Rendezvous_SelectNodes (H := sample_math) (H0 := sort_by_insertion) DefaultConfig
    (without "n3" sample_cluster3) (mkRequest "chunk" 1 100 []) = Ok [sample_node "n1" HealthHealthy] /\
  exists n, (n ∉ [sample_node "n1" HealthHealthy]) /\
    [sample_node "n2" HealthHealthy] = without "n1" [sample_node "n1" HealthHealthy] ++ [n].
Proof.
  destruct (Rendezvous_minimal_movement (H := sample_math) (H0 := sort_by_insertion) DefaultConfig
    sample_cluster3 (mkRequest "chunk" 1 100 []) [sample_node "n1" HealthHealthy]) as (_&H2&H3&_).
  - apply (bool_decide_unpack _). by vm_compute.
  - apply (bool_decide_unpack _). by vm_compute.
  - by vm_compute.
  - split.
    + apply H2. apply (bool_decide_unpack _). by vm_compute.
    + apply (H3 "n1"); [by left|by vm_compute].
Defined.

(** ** The hash *)

(** The inputs of different (key, node) pairs differ. *)
Lemma string_bytes_inj s t : string_bytes s = string_bytes t -> s = t.
Proof.
  revert t. induction s as [|c s IH]; intros [|d t]; try done. unfold string_bytes. simpl. intros [= E E'].
  apply (inj Z.of_N), (f_equal Ascii.ascii_of_N) in E. rewrite !Ascii.ascii_N_embedding in E. subst.
  f_equal. by apply IH.
Qed.
Lemma string_bytes_length s : length (string_bytes s) = String.length s.
Proof. unfold string_bytes. rewrite length_fmap. induction s; simpl; auto. Qed.

Lemma byte_step v w k :
  (0 <= k)%Z -> Z.shiftr v (k + 8) = Z.shiftr w (k + 8) ->
  (Z.shiftr v k mod 256 = Z.shiftr w k mod 256)%Z -> Z.shiftr v k = Z.shiftr w k.
Proof.
  intros Hk. rewrite <-!Z.shiftr_shiftr by lia. generalize (Z.shiftr v k), (Z.shiftr w k). intros a b.
  rewrite !Z.shiftr_div_pow2 by lia. change (2 ^ 8)%Z with 256%Z. intros H1 H2.
  rewrite (Z.div_mod a 256), (Z.div_mod b 256) by lia. congruence.
Qed.

Lemma PutUint64_inj v w : (0 <= v < 2 ^ 64)%Z -> (0 <= w < 2 ^ 64)%Z -> PutUint64 v = PutUint64 w -> v = w.
Proof.
  intros Hv Hw H. unfold PutUint64 in H. cbn -[Z.shiftr Z.modulo Z.mul] in H. injection H as B7 B6 B5 B4 B3 B2 B1 B0.
  assert (forall x, (0 <= x < 2 ^ 64)%Z -> Z.shiftr x 64 = 0%Z) as Hz
    by (intros x Hx; rewrite Z.shiftr_div_pow2 by lia; apply Z.div_small; lia).
  rewrite <-(Z.shiftr_0_r v), <-(Z.shiftr_0_r w).
  do 8 (apply byte_step; [lia| |assumption]). rewrite !Hz by done. done.
Qed.

Lemma hash_input_inj k n k' n' :
  (Z.of_nat (String.length k) < 2 ^ 64)%Z -> (Z.of_nat (String.length k') < 2 ^ 64)%Z ->
  hash_input k n = hash_input k' n' -> k = k' /\ n = n'.
Proof.
  intros Hk Hk' H. unfold hash_input in H. apply app_inj_1 in H as [Hl H]; [|done].
  unfold u64 in Hl. rewrite !Z.mod_small in Hl by lia. apply PutUint64_inj in Hl; [|lia..].
  apply app_inj_1 in H as [H1 H2]; [|rewrite !string_bytes_length; lia].
  split; by apply string_bytes_inj.
Qed.

(** [x ^= x >> 33] on 64 bits undoes itself, and the multipliers are odd. *)
Definition xorshift (x : Z) : Z := Z.lxor x (Z.shiftr x 33).
Definition unmix64 (x : Z) : Z :=
  let x := xorshift x in
  let x := u64 (x * 0x9cb4b2f8129337db) in
  let x := xorshift x in
  let x := u64 (x * 0x4f74430c22a54005) in
  xorshift x.

Lemma u64_range x : (0 <= u64 x < 2 ^ 64)%Z.
Proof. apply Z.mod_pos_bound. lia. Qed.

Lemma xorshift_range x : (0 <= x < 2 ^ 64)%Z -> (0 <= xorshift x < 2 ^ 64)%Z.
Proof.
  intros Hx. unfold xorshift.
  assert (0 <= Z.shiftr x 33)%Z as Hs by (apply Z.shiftr_nonneg; lia).
  assert (0 <= Z.lxor x (Z.shiftr x 33))%Z as H0 by (apply Z.lxor_nonneg; lia).
  split; [done|]. apply Z.bounded_iff_bits_nonneg; [lia|done|]. intros l Hl.
  rewrite Z.lxor_spec, Z.shiftr_spec by lia.
  assert (forall i, (64 <= i)%Z -> Z.testbit x i = false) as Hb by (apply Z.bounded_iff_bits_nonneg; lia).
  rewrite !Hb by lia. done.
Qed.

Lemma xorshift_involutive x : (0 <= x < 2 ^ 64)%Z -> xorshift (xorshift x) = x.
Proof.
  intros Hx. unfold xorshift. rewrite Z.shiftr_lxor, Z.shiftr_shiftr by lia.
  assert (Z.shiftr x (33 + 33) = 0%Z) as -> by (rewrite Z.shiftr_div_pow2 by lia; apply Z.div_small; lia).
  rewrite Z.lxor_0_r, Z.lxor_assoc, Z.lxor_nilpotent. apply Z.lxor_0_r.
Qed.

Lemma u64_mul_inverse x a b :
  (0 <= x < 2 ^ 64)%Z -> (a * b mod 2 ^ 64 = 1)%Z -> u64 (u64 (x * a) * b) = x.
Proof.
  intros Hx Hab. unfold u64. rewrite Z.mul_mod_idemp_l, <-Z.mul_assoc by lia.
  rewrite <-Z.mul_mod_idemp_r, Hab, Z.mul_1_r by lia. by apply Z.mod_small.
Qed.

Lemma mix64_stages x :
  mix64 x = xorshift (u64 (xorshift (u64 (xorshift x * 0xff51afd7ed558ccd)) * 0xc4ceb9fe1a85ec53)).
Proof. done. Qed.

(** The rendezvous hash loses no information before its final mapping:
    the bytes hashed for two (key, node) pairs differ unless the pairs are
    equal, mix64 is a bijection of the 64-bit words, and the mapped value lies
    strictly between 0 and 1, where the score formula is defined. *)
Lemma hash_injective_and_open :
  (forall k n k' n', (Z.of_nat (String.length k) < 2 ^ 64)%Z -> (Z.of_nat (String.length k') < 2 ^ 64)%Z ->
     hash_input k n = hash_input k' n' -> k = k' /\ n = n') /\
  (forall x, (0 <= x < 2 ^ 64)%Z ->
     (0 <= mix64 x < 2 ^ 64)%Z /\ unmix64 (mix64 x) = x /\ mix64 (unmix64 x) = x) /\
  (forall key id, flt f0 (hashUnitInterval key id) = true /\ flt (hashUnitInterval key id) f1 = true).
Proof.
  split_and!; [apply hash_input_inj| |apply hashUnitInterval_open].
  intros x Hx. rewrite mix64_stages. split_and!.
  1-2: apply xorshift_range, u64_range.
  - unfold unmix64. rewrite xorshift_involutive by apply u64_range.
    rewrite (u64_mul_inverse _ 0xc4ceb9fe1a85ec53) by (apply xorshift_range, u64_range || done).
    rewrite xorshift_involutive by apply u64_range.
    rewrite (u64_mul_inverse _ 0xff51afd7ed558ccd) by (by apply xorshift_range || done).
    by apply xorshift_involutive.
  - rewrite mix64_stages. unfold unmix64. rewrite xorshift_involutive by apply u64_range.
    rewrite (u64_mul_inverse _ 0x4f74430c22a54005) by (apply xorshift_range, u64_range || done).
    rewrite xorshift_involutive by apply u64_range.
    rewrite (u64_mul_inverse _ 0x9cb4b2f8129337db) by (by apply xorshift_range || done).
    by apply xorshift_involutive.
Qed.
