(* ===== verification/Checksum.v ===== *)
(** * Checksums (src/internal/checksum/checksum.go)

    SHA-256 as crypto/sha256 computes it, its lowercase hexadecimal form, and
    the comparisons and the hashing reader and writer built on it. A hash.Hash
    is the bytes written to it so far. *)

From Stdlib Require Import Strings.Byte.
From stdpp Require Import base strings numbers list.
From S2P Require Import Prelude Sql Schema Chunking.

(** ** SHA-256 (FIPS 180-4) on 32-bit words *)

Module Sha256.
Local Open Scope N_scope.

Definition add32 (a b : N) : N := (a + b) mod 2 ^ 32.
Definition rotr (n x : N) : N := N.lor (N.shiftr x n) (N.shiftl x (32 - n) mod 2 ^ 32).
Definition not32 (x : N) : N := N.lxor x (2 ^ 32 - 1).
Definition ch (x y z : N) : N := N.lxor (N.land x y) (N.land (not32 x) z).
Definition maj (x y z : N) : N := N.lxor (N.lxor (N.land x y) (N.land x z)) (N.land y z).
Definition bsig0 (x : N) : N := N.lxor (N.lxor (rotr 2 x) (rotr 13 x)) (rotr 22 x).
Definition bsig1 (x : N) : N := N.lxor (N.lxor (rotr 6 x) (rotr 11 x)) (rotr 25 x).
Definition ssig0 (x : N) : N := N.lxor (N.lxor (rotr 7 x) (rotr 18 x)) (N.shiftr x 3).
Definition ssig1 (x : N) : N := N.lxor (N.lxor (rotr 17 x) (rotr 19 x)) (N.shiftr x 10).

(** The constants: the first 32 bits of the fractional parts of the cube roots
    of the first 64 primes, and of the square roots of the first eight. *)
Fixpoint root_bits (bits : nat) (k x acc : N) : N :=
  match bits with
  | O => acc
  | S bits' =>
      let next := acc + 2 ^ N.of_nat bits' in
      root_bits bits' k x (if next ^ k <=? x then next else acc)
  end.
Definition root_fraction (k p : N) : N := root_bits 40 k (p * 2 ^ (32 * k)) 0 mod 2 ^ 32.
Definition is_prime (n : nat) : bool := forallb (fun d => negb (n mod d =? 0)%nat) (seq 2 (n - 2)).
Definition primes : list N := Eval vm_compute in N.of_nat <$> List.filter is_prime (seq 2 310).
Definition K : list N := Eval vm_compute in root_fraction 3 <$> primes.
Definition H0 : list N := Eval vm_compute in root_fraction 2 <$> take 8 primes.

(** The eight working variables. *)
Record state := mkState { ra : N; rb : N; rc : N; rd : N; re : N; rf : N; rg : N; rh : N }.
Definition initial : state :=
  mkState (nth 0 H0 0) (nth 1 H0 0) (nth 2 H0 0) (nth 3 H0 0) (nth 4 H0 0) (nth 5 H0 0) (nth 6 H0 0) (nth 7 H0 0).

Definition round (s : state) (kw : N * N) : state :=
  let t1 := add32 (add32 (rh s) (bsig1 (re s))) (add32 (ch (re s) (rf s) (rg s)) (add32 kw.1 kw.2)) in
  let t2 := add32 (bsig0 (ra s)) (maj (ra s) (rb s) (rc s)) in
  mkState (add32 t1 t2) (ra s) (rb s) (rc s) (add32 (rd s) t1) (re s) (rf s) (rg s).

(** The message schedule, on the last 16 words, oldest first. *)
Fixpoint schedule (fuel : nat) (w : list N) : list N :=
  match fuel with
  | O => []
  | S fuel' =>
      match w with
      | w0 :: w' =>
          let next := add32 (add32 (ssig1 (nth 14 w 0)) (nth 9 w 0)) (add32 (ssig0 (nth 1 w 0)) w0) in
          w0 :: schedule fuel' (w' ++ [next])
      | [] => []
      end
  end.

Definition block (s : state) (w : list N) : state :=
  let r := foldl round s (zip K (schedule 64 w)) in
  mkState (add32 (ra s) (ra r)) (add32 (rb s) (rb r)) (add32 (rc s) (rc r)) (add32 (rd s) (rd r))
          (add32 (re s) (re r)) (add32 (rf s) (rf r)) (add32 (rg s) (rg r)) (add32 (rh s) (rh r)).

(** Padding to a multiple of 64 bytes: 0x80, zeros, the length in bits. *)
Definition be_bytes (k : nat) (n : N) : list N :=
  (fun i => N.shiftr n (8 * N.of_nat (k - 1 - i)%nat) mod 256) <$> seq 0 k.
Definition pad (msg : list N) : list N :=
  let len := length msg in
  let zeros := ((64 - (len + 9) mod 64) mod 64)%nat in
  msg ++ [0x80] ++ replicate zeros 0 ++ be_bytes 8 (8 * N.of_nat len mod 2 ^ 64).

Fixpoint words (l : list N) : list N :=
  match l with
  | a :: b :: c :: d :: l' => (a * 2 ^ 24 + b * 2 ^ 16 + c * 2 ^ 8 + d) :: words l'
  | _ => []
  end.

Fixpoint blocks (fuel : nat) (s : state) (w : list N) : state :=
  match fuel with
  | O => s
  | S fuel' => match w with [] => s | _ => blocks fuel' (block s (take 16 w)) (drop 16 w) end
  end.

Definition digest (msg : list N) : list N :=
  let w := words (pad msg) in
  let s := blocks (length w) initial w in
  concat (be_bytes 4 <$> [ra s; rb s; rc s; rd s; re s; rf s; rg s; rh s]).
End Sha256.

(** hex.EncodeToString *)
Definition hex_digit (n : N) : Ascii.ascii :=
  Ascii.ascii_of_N (if (n <? 10)%N then 48 + n else 87 + n)%N.
Fixpoint EncodeToString (l : list N) : string :=
  match l with
  | [] => EmptyString
  | b :: l' => String (hex_digit (b / 16)) (String (hex_digit (b mod 16)) (EncodeToString l'))
  end.

Definition Sum (b : bytes) : string := EncodeToString (Sha256.digest (Byte.to_N <$> b)).

(** FIPS 180-4's one-block example. *)
Example Sum_abc :
  Sum [x61; x62; x63]%byte = "ba7816bf8f01cfea414140de5dae2223b00361a396177a9cb410ff61f20015ad".
Proof. vm_compute. reflexivity. Qed.
(** The two-block example. *)
Example Sum_two_blocks :
  Sum (String.list_byte_of_string "abcdbcdecdefdefgefghfghighijhijkijkljklmklmnlmnomnopnopq") =
  "248d6a61d20638b8e5c026930c3e6039a33ce45964ff2167f6ecedd419db06c1".
Proof. vm_compute. reflexivity. Qed.

Inductive checksum_error := ErrMismatch.

(** A hash.Hash by what was written to it. *)
Definition hash := bytes.
Definition hash_New : hash := [].
Definition hash_Write (h : hash) (p : bytes) : hash := h ++ p.
Definition Hex (h : hash) : string := Sum h.

(** The pattern [^[0-9a-f]{64}$], the same test as the schema's check. *)
Definition Valid (s : string) : bool := sha256_hex s.

(** subtle.ConstantTimeCompare: 1 when all bytes agree. *)
Fixpoint ConstantTimeCompare (a b : string) : Z :=
  match a, b with
  | EmptyString, EmptyString => 1
  | String x a', String y b' => Z.land (if Ascii.eqb x y then 1 else 0) (ConstantTimeCompare a' b')
  | _, _ => 0
  end.
Definition Equal (a b : string) : bool :=
  if decide (String.length a <> String.length b) then false
  else (ConstantTimeCompare a b =? 1)%Z.
Definition Verify (subject expected actual : string) : result checksum_error unit :=
  if Equal expected actual then Ok tt else Err ErrMismatch.

(** checksum.Reader and checksum.Writer after one call of the wrapped reader or
    writer that moved [p] bytes. *)
Record Tee := mkTee {
  tee_h : hash;
  tee_n : Z
}.
Definition NewTee : Tee := mkTee hash_New 0.
Definition tee_bytes (t : Tee) (p : bytes) : Tee :=
  if decide (0 < length p)%nat then mkTee (hash_Write (tee_h t) p) (int64 (tee_n t + Z.of_nat (length p))) else t.
Definition tee_Sum (t : Tee) : string := Hex (tee_h t).

(** ** Facts *)

Lemma ConstantTimeCompare_spec a b : ConstantTimeCompare a b = if String.eqb a b then 1%Z else 0%Z.
Proof.
  revert b. induction a as [|x a IH]; intros [|y b]; [done..|]. simpl. rewrite IH.
  destruct (Ascii.eqb_spec x y); [|by rewrite Z.land_0_l]. by destruct (String.eqb a b).
Qed.

Lemma Equal_spec a b : Equal a b = true <-> a = b.
Proof.
  unfold Equal. rewrite ConstantTimeCompare_spec. split.
  - case_decide; [done|]. by destruct (String.eqb_spec a b).
  - intros ->. rewrite decide_False by (intros H; by apply H). by rewrite String.eqb_refl.
Qed.

Lemma Verify_ok subject a b : Verify subject a b = Ok tt <-> a = b.
Proof. unfold Verify. rewrite <-Equal_spec. by destruct (Equal a b). Qed.

Lemma hex_digit_lower n : (n < 16)%N -> is_lower_hex (hex_digit n) = true.
Proof.
  intros Hn. rewrite <-(N2Nat.id n).
  assert (forallb (fun n => is_lower_hex (hex_digit (N.of_nat n))) (seq 0 16) = true) as Hall by reflexivity.
  rewrite forallb_forall in Hall. apply Hall, in_seq. lia.
Qed.

Lemma EncodeToString_hex l :
  Forall (fun b => (b < 256)%N) l ->
  all_chars is_lower_hex (EncodeToString l) = true /\ String.length (EncodeToString l) = (2 * length l)%nat.
Proof.
  induction 1 as [|b l Hb _ [IH1 IH2]]; [done|]. simpl. rewrite IH1, IH2.
  rewrite !hex_digit_lower; [split; [done|lia]|apply N.mod_lt; lia|].
  apply N.Div0.div_lt_upper_bound. lia.
Qed.

Lemma be_bytes_range k n : Forall (fun b => (b < 256)%N) (Sha256.be_bytes k n) /\ length (Sha256.be_bytes k n) = k.
Proof.
  unfold Sha256.be_bytes. rewrite length_fmap, length_seq. split; [|done].
  apply Forall_fmap, Forall_forall. intros i _. simpl. apply N.mod_lt. lia.
Qed.

Lemma words_length ws : length (concat (Sha256.be_bytes 4 <$> ws)) = (4 * length ws)%nat.
Proof.
  induction ws as [|w ws IH]; [done|].
  rewrite fmap_cons, concat_cons, length_app, IH, (proj2 (be_bytes_range 4 w)). simpl. lia.
Qed.

(** What Sum returns is accepted by Valid and by the schema. *)
Lemma Sum_valid b : Valid (Sum b) = true.
Proof.
  unfold Valid, sha256_hex, Sum, Sha256.digest. set (s := Sha256.blocks _ _ _). clearbody s.
  destruct (EncodeToString_hex (concat (Sha256.be_bytes 4 <$> [Sha256.ra s; Sha256.rb s; Sha256.rc s; Sha256.rd s;
    Sha256.re s; Sha256.rf s; Sha256.rg s; Sha256.rh s]))) as [H1 H2].
  { apply Forall_concat, Forall_fmap, Forall_forall. intros w _. apply be_bytes_range. }
  by rewrite H1, H2, words_length.
Qed.

Lemma tee_spec t p :
  tee_h (tee_bytes t p) = tee_h t ++ p.
Proof. unfold tee_bytes, hash_Write. case_decide; [done|]. destruct p; [by rewrite app_nil_r|simpl in *; lia]. Qed.
