(* ===== verification/Migrate.v ===== *)
(** * Schema migrations (src/internal/metadata/migrate.go)

    loadMigrations over the embedded files and Migrate over a database: the
    table schema_migrations and the rest of the schema, on which the body of a
    migration is executed. What the SQL of a body does is an argument. The
    advisory lock makes the runs of several coordinators follow one another, so
    a history is a sequence of runs, each with the faults of its connection. *)

From Stdlib Require Import Strings.Byte Ascii.
From stdpp Require Import base numbers gmap strings list sorting.
From S2P Require Import Prelude Chunking Checksum GoStrings GoFloat.

Record migration := mkMigration {
  mg_version : Z;
  mg_name : string;
  mg_body : bytes;
  mg_checksum : string
}.

Inductive migration_error :=
  | ErrName | ErrVersion | ErrDuplicate | ErrLock | ErrCreate | ErrRead | ErrModified (version : Z) | ErrApply (version : Z).

Definition parseMigrationName (filename : string) : result migration_error (Z * string) :=
  let base := TrimSuffix filename ".sql" in
  match IndexByte base "_"%char with
  | None | Some O => Err ErrName
  | Some idx =>
      match ParseInt (String.substring 0 idx base) with
      | None => Err ErrVersion
      | Some v => Ok (v, String.substring (S idx) (String.length base - S idx) base)
      end
  end.

(** A file of the embedded directory. *)
Record entry := mkEntry {
  en_name : string;
  en_dir : bool;
  en_body : bytes
}.

(** The loop over the entries, with what it has appended so far. *)
Fixpoint read_entries (out : list migration) (es : list entry) : result migration_error (list migration) :=
  match es with
  | [] => Ok out
  | e :: es' =>
      if en_dir e || negb (HasSuffix (en_name e) ".sql") then read_entries out es'
      else
        match parseMigrationName (en_name e) with
        | Err err => Err err
        | Ok (version, name) => read_entries (out ++ [mkMigration version name (en_body e) (Sum (en_body e))]) es'
        end
  end.

Definition by_version (a b : migration) : bool := (mg_version a <? mg_version b)%Z.
Fixpoint has_duplicate (migs : list migration) : bool :=
  match migs with
  | a :: (b :: _) as rest => (mg_version b =? mg_version a)%Z || has_duplicate rest
  | _ => false
  end.

Definition loadMigrations `{GoSort} (es : list entry) : result migration_error (list migration) :=
  match read_entries [] es with
  | Err err => Err err
  | Ok out => let out := sort_slice by_version out in if has_duplicate out then Err ErrDuplicate else Ok out
  end.

Lemma filter_none {A} (P : A -> Prop) `{!forall x, Decision (P x)} (l : list A) : Forall (fun x => ~ P x) l -> filter P l = [].
Proof. induction 1 as [|x l Hx _ IH]; [done|]. by rewrite filter_cons, decide_False. Qed.
Lemma filter_keeps_all {A} (P : A -> Prop) `{!forall x, Decision (P x)} (l : list A) : Forall P l -> filter P l = l.
Proof. induction 1 as [|x l Hx _ IH]; [done|]. by rewrite filter_cons, decide_True, IH. Qed.

(** ** Migrate *)

Section migrate.
Context {Sch : Type} (exec : bytes -> Sch -> option Sch).

(** schema_migrations, [None] before it exists: name and checksum by version. *)
Record database := mkDatabase {
  db_migrations : option (gmap Z (string * string));
  db_schema : Sch
}.

(** What happens to a transaction: it runs, it is lost, or it is committed and
    the answer is lost. *)
Inductive tx_fate := TxDone | TxLost | TxUnknown.
Record run_faults := mkRunFaults {
  rf_lock : bool;
  rf_create : bool;
  rf_read : bool;
  rf_tx : Z -> tx_fate
}.

(** The transaction of one migration; the version is an int4 column. *)
Definition apply_tx (m : migration) (d : database) : option database :=
  match exec (mg_body m) (db_schema d) with
  | None => None
  | Some s =>
      let t := default ∅ (db_migrations d) in
      if decide (- 2 ^ 31 <= mg_version m < 2 ^ 31)%Z then
        match t !! mg_version m with
        | Some _ => None
        | None => Some (mkDatabase (Some (<[mg_version m := (mg_name m, mg_checksum m)]> t)) s)
        end
      else None
  end.

(** The loop over the migrations; [applied] is what was read at the start. *)
Fixpoint migrate_loop (f : run_faults) (applied : gmap Z string) (migs : list migration) (d : database) :
    result migration_error unit * database :=
  match migs with
  | [] => (Ok tt, d)
  | m :: migs' =>
      match applied !! mg_version m with
      | Some have =>
          if String.eqb have (mg_checksum m) then migrate_loop f applied migs' d else (Err (ErrModified (mg_version m)), d)
      | None =>
          match rf_tx f (mg_version m), apply_tx m d with
          | TxDone, Some d' => migrate_loop f applied migs' d'
          | TxUnknown, Some d' => (Err (ErrApply (mg_version m)), d')
          | _, _ => (Err (ErrApply (mg_version m)), d)
          end
      end
  end.

Definition Migrate (f : run_faults) (migs : list migration) (d : database) : result migration_error unit * database :=
  if rf_lock f then (Err ErrLock, d)
  else if rf_create f then (Err ErrCreate, d)
  else
    let d := mkDatabase (Some (default ∅ (db_migrations d))) (db_schema d) in
    if rf_read f then (Err ErrRead, d)
    else migrate_loop f (snd <$> default ∅ (db_migrations d)) migs d.

(** A history: every coordinator that starts runs Migrate. *)
Fixpoint migrate_runs (fs : list run_faults) (migs : list migration) (d : database) : database :=
  match fs with [] => d | f :: fs' => migrate_runs fs' migs (Migrate f migs d).2 end.

(** ** Every migration runs once *)

(** The migrations that are not recorded, and the schema after some of them. *)
Definition recorded (d : database) : gmap Z (string * string) := default ∅ (db_migrations d).
Definition pending (migs : list migration) (d : database) : list migration :=
  filter (fun m => recorded d !! mg_version m = None) migs.
Fixpoint run_bodies (migs : list migration) (s : Sch) : option Sch :=
  match migs with [] => Some s | m :: migs' => exec (mg_body m) s ≫= run_bodies migs' end.
Definition record_all (migs : list migration) (t : gmap Z (string * string)) : gmap Z (string * string) :=
  foldl (fun t m => <[mg_version m := (mg_name m, mg_checksum m)]> t) t migs.

(** [done] was applied in order on the way from [d] to [d']. *)
Record applied_from (d d' : database) (done : list migration) : Prop := {
  af_schema : run_bodies done (db_schema d) = Some (db_schema d');
  af_table : recorded d' = record_all done (recorded d)
}.

Lemma run_bodies_app a b s : run_bodies (a ++ b) s = run_bodies a s ≫= run_bodies b.
Proof. revert s. induction a as [|m a IH]; intros s; simpl; [done|]. destruct (exec (mg_body m) s); [apply IH|done]. Qed.
Lemma applied_from_refl d : applied_from d d [].
Proof. by split. Qed.
Lemma applied_from_trans d1 d2 d3 a b : applied_from d1 d2 a -> applied_from d2 d3 b -> applied_from d1 d3 (a ++ b).
Proof.
  intros [S1 T1] [S2 T2]. split; [by rewrite run_bodies_app, S1|]. unfold record_all in *. by rewrite foldl_app, T2, T1.
Qed.
Lemma apply_tx_from m d d' : apply_tx m d = Some d' -> applied_from d d' [m] /\ recorded d !! mg_version m = None.
Proof.
  unfold apply_tx. destruct (exec (mg_body m) (db_schema d)) as [s|] eqn:E; [|done]. case_decide; [|done].
  fold (recorded d). destruct (recorded d !! mg_version m) eqn:Et; [done|]. intros [= <-]. split; [|done]. split; [|done]. simpl. by rewrite E.
Qed.
Lemma record_all_other done t v : v ∉ mg_version <$> done -> record_all done t !! v = t !! v.
Proof.
  revert t. induction done as [|m done IH]; intros t Hv; [done|]. rewrite fmap_cons, not_elem_of_cons in Hv. destruct Hv as [H1 H2].
  unfold record_all in *. simpl. rewrite IH by done. by rewrite lookup_insert_ne.
Qed.
Lemma record_all_in done t v : v ∈ mg_version <$> done -> is_Some (record_all done t !! v).
Proof.
  revert t. induction done as [|m done IH]; intros t Hv; [by apply elem_of_nil in Hv|]. unfold record_all in *. simpl.
  destruct (decide (v ∈ mg_version <$> done)) as [Hin|Hnin]; [by apply IH|].
  rewrite fmap_cons, elem_of_cons in Hv. destruct Hv as [->|?]; [|done].
  pose proof (record_all_other done (<[mg_version m := (mg_name m, mg_checksum m)]> t) _ Hnin) as H. unfold record_all in H.
  rewrite H, lookup_insert_eq. by eexists.
Qed.

Definition versions_distinct (migs : list migration) : Prop := NoDup (mg_version <$> migs).

Lemma pending_split migs d d' done rest : versions_distinct migs -> pending migs d = done ++ rest -> applied_from d d' done ->
  pending migs d' = rest.
Proof.
  intros Hnd Hp [_ Ht]. unfold pending in *. rewrite Ht.
  transitivity (filter (fun m => record_all done (recorded d) !! mg_version m = None) (done ++ rest)).
  - rewrite <-Hp, list_filter_filter. apply list_filter_iff. intros m. split; [|tauto]. intros H. split; [done|].
    destruct (decide (mg_version m ∈ mg_version <$> done)) as [Hin|Hnin]; [|by rewrite record_all_other in H].
    destruct (record_all_in done (recorded d) _ Hin) as [x Hx]. by rewrite Hx in H.
  - assert (NoDup (mg_version <$> done ++ rest)) as Hnd'.
    { rewrite <-Hp. eapply sublist_NoDup; [exact Hnd|]. apply fmap_sublist, sublist_filter. }
    rewrite fmap_app, NoDup_app in Hnd'. destruct Hnd' as (_&Hdisj&_). rewrite filter_app.
    assert (filter (fun m => record_all done (recorded d) !! mg_version m = None) done = []) as ->.
    { apply filter_none. apply Forall_forall. intros m Hm H. destruct (record_all_in done (recorded d) (mg_version m)) as [x Hx]; [|congruence].
      by apply list_elem_of_fmap_2. }
    apply filter_keeps_all. apply Forall_forall. intros m Hm.
    assert (m ∈ pending migs d) as Hin by (unfold pending; rewrite Hp; apply elem_of_app; by right).
    apply list_elem_of_filter in Hin as [Hin _]. rewrite record_all_other; [done|]. intros Hv. apply (Hdisj _ Hv). by apply list_elem_of_fmap_2.
Qed.

Definition ordered (migs : list migration) : Prop := StronglySorted (fun a b => mg_version a < mg_version b)%Z migs.
Lemma ordered_distinct migs : ordered migs -> versions_distinct migs.
Proof.
  unfold versions_distinct. induction 1 as [|m migs _ IH Hm]; [constructor|]. rewrite fmap_cons. apply NoDup_cons. split; [|done].
  intros (m'&E&Hin)%list_elem_of_fmap. rewrite Forall_forall in Hm. specialize (Hm m' Hin). lia.
Qed.

(** A migration whose text is not the one that was applied. *)
Definition modified (d : database) (m : migration) : Prop :=
  exists name sum, recorded d !! mg_version m = Some (name, sum) /\ sum <> mg_checksum m.
Definition up_to_date (migs : list migration) (d : database) : Prop :=
  forall m, m ∈ migs -> snd <$> recorded d !! mg_version m = Some (mg_checksum m).

(** What one run achieves. *)
Record run_ok (migs : list migration) (d d' : database) (r : result migration_error unit) (done rest : list migration) : Prop := {
  ro_split : pending migs d = done ++ rest;
  ro_applied : applied_from d d' done;
  ro_success : r = Ok tt -> rest = [] /\ up_to_date migs d';
  ro_modified : forall m m', m ∈ migs -> modified d m -> m' ∈ done -> (mg_version m' < mg_version m)%Z
}.

Lemma pending_ext migs d d' : (forall m, m ∈ migs -> recorded d' !! mg_version m = recorded d !! mg_version m) ->
  pending migs d' = pending migs d.
Proof.
  unfold pending. induction migs as [|m migs IH]; intros H; [done|]. rewrite !filter_cons, IH by (intros; apply H; by right).
  rewrite (H m) by by left. done.
Qed.

Lemma migrate_loop_ok f applied migs d r d' : ordered migs ->
  (forall m, m ∈ migs -> applied !! mg_version m = snd <$> recorded d !! mg_version m) ->
  migrate_loop f applied migs d = (r, d') -> exists done rest, run_ok migs d d' r done rest.
Proof.
  intros Ho. revert d. induction Ho as [|m migs Ho IH Hm]; intros d Happ; cbn [migrate_loop].
  { intros [= <- <-]. exists [], []. split; [done|apply applied_from_refl| |by intros ? ? ?%elem_of_nil]. intros _. split; [done|]. by intros ? ?%elem_of_nil. }
  rewrite Forall_forall in Hm. pose proof (Happ m ltac:(by left)) as Hhd.
  assert (forall e, exists done rest, run_ok (m :: migs) d d (Err e) done rest) as Hstop.
  { intros e. exists [], (pending (m :: migs) d). split; [done|apply applied_from_refl|done|by intros ? ? _ _ ?%elem_of_nil]. }
  destruct (recorded d !! mg_version m) as [[name sum]|] eqn:Et; simpl in Hhd; rewrite Hhd.
  - destruct (String.eqb_spec sum (mg_checksum m)) as [->|Hne]; [|intros [= <- <-]; apply Hstop].
    intros E. destruct (IH d (fun m' Hin => Happ m' ltac:(by right)) E) as (done&rest&[R1 R2 R3 R4]).
    assert (pending (m :: migs) d = pending migs d) as Hp by (unfold pending; by rewrite filter_cons, decide_False by (by rewrite Et)).
    exists done, rest. split; [by rewrite Hp|done| |].
    + intros Hr. destruct (R3 Hr) as [-> Hup]. split; [done|]. intros m' [->|Hin]%elem_of_cons; [|by apply Hup].
      rewrite (af_table _ _ _ R2), record_all_other, Et; [done|]. intros (x&Ex&Hx)%list_elem_of_fmap.
      rewrite app_nil_r in R1. rewrite <-R1 in Hx. apply list_elem_of_filter in Hx as [_ Hx]. specialize (Hm x Hx). lia.
    + intros x y [->|Hin]%elem_of_cons Hmod Hy; [|by apply R4]. destruct Hmod as (n'&s'&Ex&Hx). congruence.
  - assert (pending (m :: migs) d = m :: pending migs d) as Hp by (unfold pending; by rewrite filter_cons, decide_True).
    assert (forall x, x ∈ m :: migs -> modified d x -> (mg_version m < mg_version x)%Z) as Hbefore.
    { intros x [->|Hin]%elem_of_cons Hmod; [|by apply Hm]. destruct Hmod as (n'&s'&Ex&_). congruence. }
    destruct (apply_tx m d) as [d1|] eqn:Ea; [|destruct (rf_tx f (mg_version m)); intros [= <- <-]; apply Hstop].
    destruct (apply_tx_from _ _ _ Ea) as [Haf _]. destruct (rf_tx f (mg_version m)); [|intros [= <- <-]; apply Hstop|].
    + assert (forall x, x ∈ migs -> recorded d1 !! mg_version x = recorded d !! mg_version x) as Hsame.
      { intros x Hx. rewrite (af_table _ _ _ Haf). unfold record_all. simpl. apply lookup_insert_ne. specialize (Hm x Hx). lia. }
      intros E. destruct (IH d1) as (done&rest&[R1 R2 R3 R4]); [|exact E|].
      { intros x Hx. rewrite Hsame by done. apply Happ. by right. }
      rewrite (pending_ext migs d d1) in R1 by done. exists (m :: done), rest.
      split; [by rewrite Hp, R1|by apply (applied_from_trans _ d1 _ [m])| |].
      * intros Hr. destruct (R3 Hr) as [-> Hup]. split; [done|]. intros x [->|Hin]%elem_of_cons; [|by apply Hup].
        rewrite (af_table _ _ _ R2), record_all_other; [rewrite (af_table _ _ _ Haf); unfold record_all; simpl; by rewrite lookup_insert_eq|].
        intros (y&Ey&Hy)%list_elem_of_fmap. rewrite app_nil_r in R1. rewrite <-R1 in Hy. apply list_elem_of_filter in Hy as [_ Hy].
        specialize (Hm y Hy). lia.
      * intros x y Hx Hmod [->|Hy]%elem_of_cons; [by apply Hbefore|].
        apply elem_of_cons in Hx as [->|Hx]; [specialize (Hbefore m ltac:(by left) Hmod); lia|]. apply R4; [done| |done].
        destruct Hmod as (n'&s'&Ex&Hne). exists n', s'. by rewrite Hsame.
    + intros [= <- <-]. exists [m], (pending migs d). split; [done|done|done|].
      intros x y Hx Hmod ->%list_elem_of_singleton. by apply Hbefore.
Qed.

Lemma Migrate_ok f migs d r d' : ordered migs -> Migrate f migs d = (r, d') -> exists done rest, run_ok migs d d' r done rest.
Proof.
  intros Ho. unfold Migrate.
  assert (forall e d1, recorded d1 = recorded d -> db_schema d1 = db_schema d -> exists done rest, run_ok migs d d1 (Err e) done rest) as Hstop.
  { intros e d1 H1 H2. exists [], (pending migs d). split; [done|split; simpl; congruence|done|by intros ? ? _ _ ?%elem_of_nil]. }
  destruct (rf_lock f); [intros [= <- <-]; by apply Hstop|]. destruct (rf_create f); [intros [= <- <-]; by apply Hstop|].
  destruct (rf_read f); [intros [= <- <-]; by apply Hstop|]. intros E.
  apply migrate_loop_ok in E as (l&rest&[R1 [S1 T1] R3 R4]); [|done|].
  - exists l, rest. by split.
  - intros m _. simpl. by rewrite lookup_fmap.
Qed.

Lemma modified_kept migs d d' done rest m : pending migs d = done ++ rest -> applied_from d d' done -> modified d m -> modified d' m.
Proof.
  intros Hp [_ Ht] (name&sum&Hr&Hne). exists name, sum. split; [|done]. rewrite Ht, record_all_other; [done|].
  intros (x&Ex&Hx)%list_elem_of_fmap.
  assert (x ∈ pending migs d) as Hin by (rewrite Hp; apply elem_of_app; by left).
  apply list_elem_of_filter in Hin as [Hin _]. congruence.
Qed.

Lemma run_ok_trans migs d1 d2 d3 r1 r2 l1 rest1 l2 rest2 : ordered migs ->
  run_ok migs d1 d2 r1 l1 rest1 -> run_ok migs d2 d3 r2 l2 rest2 -> run_ok migs d1 d3 r2 (l1 ++ l2) rest2.
Proof.
  intros Ho [P1 A1 _ M1] [P2 A2 S2 M2].
  rewrite (pending_split migs d1 d2 l1 rest1) in P2 by (done || by apply ordered_distinct).
  split; [by rewrite P1, P2, app_assoc|by eapply applied_from_trans|done|].
  intros m m' Hm Hmod [Hin|Hin]%elem_of_app; [by apply M1|]. apply (M2 m m' Hm); [|done].
  by eapply (modified_kept migs d1 d2 l1 rest1).
Qed.

Lemma migrate_runs_ok fs migs d : ordered migs ->
  exists done rest, run_ok migs d (migrate_runs fs migs d) (Err ErrLock) done rest.
Proof.
  intros Ho. revert d. induction fs as [|f fs IH]; intros d; simpl.
  { exists [], (pending migs d). split; [done|apply applied_from_refl|done|by intros ? ? _ _ ?%elem_of_nil]. }
  destruct (Migrate f migs d) as [r d1] eqn:E. destruct (Migrate_ok _ _ _ _ _ Ho E) as (l1&rest1&R1).
  destruct (IH d1) as (l2&rest2&R2). exists (l1 ++ l2), rest2. by eapply run_ok_trans.
Qed.
End migrate.

(** The migrations come in the order of their versions. *)
Lemma loadMigrations_ordered `{GoSort} es migs : loadMigrations es = Ok migs -> ordered migs.
Proof.
  unfold loadMigrations. destruct (read_entries [] es) as [out|]; [|done]. destruct (has_duplicate _) eqn:Hd; [done|]. intros [= <-].
  assert (in_order by_version (sort_slice by_version out)) as Hs.
  { apply sort_slice_sorted. split; unfold by_version; intros; lia. }
  revert Hd. unfold ordered, in_order in *. induction Hs as [|a l Hs IH Ha]; intros Hd; constructor.
  - apply IH. destruct l as [|b l]; [done|]. simpl in Hd. by apply orb_false_iff in Hd as [_ Hd].
  - destruct l as [|b l]; [done|]. simpl in Hd. apply orb_false_iff in Hd as [Hd1 Hd2]. specialize (IH Hd2).
    apply Forall_cons in Ha as [Hab Ha]. unfold by_version in Hab. assert (mg_version a < mg_version b)%Z as Hlt by lia.
    constructor; [done|]. apply StronglySorted_inv in IH as [_ Hb]. eapply Forall_impl; [exact Hb|]. simpl. lia.
Qed.

(** C34: every migration is applied exactly once. However often the coordinator
    is started on the shipped files, and wherever each of the starts fails (the
    lock, a read, a statement, a commit whose acknowledgement is lost), the
    migrations applied after all of them are a prefix of the pending ones in
    version order, each body run once on the schema the one before it left, and
    the record in schema_migrations is exactly theirs; a start that succeeds
    leaves nothing pending; and if a recorded file was modified, nothing from
    its version on is applied. *)
Theorem migrations_run_once `{GoSort} {Sch} (exec : bytes -> Sch -> option Sch) es migs fs f d :
  loadMigrations es = Ok migs ->
  let '(r, d') := Migrate exec f migs (migrate_runs exec fs migs d) in
  exists done rest, pending migs d = done ++ rest /\
    run_bodies exec done (db_schema d) = Some (db_schema d') /\ recorded d' = record_all done (recorded d) /\
    (r = Ok tt -> rest = [] /\ up_to_date migs d') /\
    (forall m m', m ∈ migs -> modified d m -> m' ∈ done -> (mg_version m' < mg_version m)%Z).
Proof.
  intros Hl. apply loadMigrations_ordered in Hl as Ho.
  destruct (migrate_runs_ok exec fs migs d Ho) as (l1&rest1&R1). destruct (Migrate exec f migs _) as [r d'] eqn:E.
  destruct (Migrate_ok _ _ _ _ _ _ Ho E) as (l2&rest2&R2).
  destruct (run_ok_trans _ _ _ _ _ _ _ _ _ _ _ Ho R1 R2) as [P [A T] Su M]. exists (l1 ++ l2), rest2. by split_and!.
Qed.

(** The three files of the repository, with stand-ins for their texts. The
    first start loses its connection after committing the first migration. *)
Definition shipped : list entry :=
  [mkEntry "0001_init.sql" false [x31]; mkEntry "0002_self_healing.sql" false [x32];
   mkEntry "0003_hot_path_indexes.sql" false [x33]; mkEntry "embed.go" false []].
Definition note (body : bytes) (s : list bytes) : option (list bytes) := Some (s ++ [body]).
Definition steady : run_faults := mkRunFaults false false false (fun _ => TxDone).
Definition flaky : run_faults := mkRunFaults false false false (fun v => if decide (v = 1)%Z then TxUnknown else TxDone).

#[local] Existing Instance sort_by_insertion.
Lemma migrations_run_once_witness :
  exists migs d', loadMigrations shipped = Ok migs /\
    Migrate note steady migs (migrate_runs note [flaky] migs (mkDatabase None [])) = (Ok tt, d') /\
    db_schema d' = [[x31]; [x32]; [x33]].
Proof.
  destruct (loadMigrations shipped) as [migs|] eqn:El; [|vm_compute in El; discriminate El].
  pose proof (migrations_run_once note shipped migs [flaky] steady (mkDatabase None []) El) as H.
  vm_compute in El. injection El as <-.
  destruct (Migrate note steady _ _) as [r d'] eqn:E. eexists. exists d'. split; [reflexivity|]. destruct H as (l&rest&Hp&Hs&_&Hok&_).
  assert (r = Ok tt) as Hr by (apply (f_equal fst) in E; revert E; vm_compute; by intros <-). subst r.
  destruct (Hok eq_refl) as [-> _]. rewrite app_nil_r in Hp. split; [exact E|]. revert Hp Hs. vm_compute (pending _ _). intros <-.
  vm_compute. by intros [= <-].
Defined.
