(* ===== verification/Download.v ===== *)
(** * The read path of the gateway

    ChunkReader (src/internal/gateway/chunkreader.go), which fetches one chunk
    and fails over between replicas, streamDownload (handler.go) and the
    response of GET on an object (objects.go). The storage nodes, the request
    context and the client's connection are parameters: what a node answers and
    when the context is cancelled may differ at every attempt, and the
    connection may break at every write. The buffer reused between chunks is
    not modelled: each chunk is written out before the next one is read. *)

From Stdlib Require Import Strings.Byte.
From stdpp Require Import base numbers strings list.
From S2P Require Import Prelude Chunking Checksum GoStrings RangeReq.

(** ** ChunkReader *)

(** A gRPC status code; the reader tests for one of them. *)
Definition FailedPrecondition : Z := 9.
Definition Unavailable : Z := 14.

Inductive fetch_error :=
  | FetchMismatch
  | FetchStatus (code : Z).

(** The cluster as the reader meets it at attempt [t]: dialling an address,
    the messages of a ReadChunk stream and how it ends ([None] is EOF), and
    whether the request's context is done after the attempt. *)
Record Cluster := mkCluster {
  Client : nat -> string -> option Z;
  ReadChunk : nat -> string -> string -> string -> result Z (list bytes * option Z);
  ctx_done : nat -> bool
}.

Fixpoint recv_loop (size : Z) (buf : bytes) (h : hash) (msgs : list bytes) (fin : option Z) :
    result fetch_error (bytes * hash) :=
  match msgs with
  | [] => match fin with None => Ok (buf, h) | Some code => Err (FetchStatus code) end
  | data :: msgs' =>
      if decide (size < Z.of_nat (length buf) + Z.of_nat (length data))%Z then Err FetchMismatch
      else recv_loop size (buf ++ data) (hash_Write h data) msgs' fin
  end.

Definition fetchFrom (cl : Cluster) (t : nat) (node : NodeInfo) (chunk : ChunkPlacement) : result fetch_error bytes :=
  match Client cl t (ni_GrpcAddress node) with
  | Some code => Err (FetchStatus code)
  | None =>
      match ReadChunk cl t (ni_GrpcAddress node) (cp_ChunkId chunk) (cp_ChecksumSha256 chunk) with
      | Err code => Err (FetchStatus code)
      | Ok (msgs, fin) =>
          match recv_loop (cp_SizeBytes chunk) [] hash_New msgs fin with
          | Err e => Err e
          | Ok (buf, h) =>
              if decide (Z.of_nat (length buf) <> cp_SizeBytes chunk) then Err FetchMismatch
              else match Verify (cp_ChunkId chunk) (cp_ChecksumSha256 chunk) (Hex h) with
                   | Err ErrMismatch => Err FetchMismatch
                   | Ok tt => Ok buf
                   end
          end
      end
  end.

Definition is_corrupt (e : fetch_error) : bool :=
  match e with
  | FetchMismatch => true
  | FetchStatus code => (code =? FailedPrecondition)%Z
  end.

Inductive read_failure := ErrNoReplica | ErrContext.

(** A corruption report: chunk and node. Sent when a reporter is wired in; a
    failing report is only logged. *)
Abbreviation report := (string * string)%type.
Definition reportCorruption (reporter : bool) (chunkID nodeID : string) : list report :=
  if reporter then [(chunkID, nodeID)] else [].

(** The loop over the replicas; [t] counts attempts. *)
Fixpoint fetch_loop (cl : Cluster) (reporter : bool) (t : nat) (chunk : ChunkPlacement) (nodes : list NodeInfo) :
    result read_failure bytes * list report * nat :=
  match nodes with
  | [] => (Err ErrNoReplica, [], t)
  | node :: nodes' =>
      match fetchFrom cl t node chunk with
      | Ok data => (Ok data, [], S t)
      | Err e =>
          if ctx_done cl t then (Err ErrContext, [], S t)
          else
            let reports := if is_corrupt e then reportCorruption reporter (cp_ChunkId chunk) (ni_NodeId node) else [] in
            let '(r, reports', t') := fetch_loop cl reporter (S t) chunk nodes' in
            (r, reports ++ reports', t')
      end
  end.

Definition Fetch (cl : Cluster) (reporter : bool) (t : nat) (chunk : ChunkPlacement) :
    result read_failure bytes * list report * nat :=
  if decide (length (cp_Nodes chunk) = 0)%nat then (Err ErrNoReplica, [], t)
  else fetch_loop cl reporter t chunk (cp_Nodes chunk).

(** ** streamDownload *)

Inductive download_error :=
  | DownloadFetch (e : read_failure)
  | DownloadClient.

(** The k-th write to the client: [None] takes everything, [Some n] takes at
    most [n] bytes and fails. *)
Definition client := nat -> option nat.

(** [data[from:to]]; [None] outside of the bytes read. *)
Definition slice (data : bytes) (from to : Z) : option bytes :=
  if decide (0 <= from <= to /\ to <= Z.of_nat (length data))%Z
  then Some (drop (Z.to_nat from) (take (Z.to_nat to) data)) else None.

(** The outcome ([None] is a panic), the bytes the client received, the
    reports sent. *)
Fixpoint streamDownload (cl : Cluster) (reporter : bool) (w : client) (t k : nat) (spans : list chunkSpan) :
    option (result download_error unit) * bytes * list report :=
  match spans with
  | [] => (Some (Ok tt), [], [])
  | span :: spans' =>
      let '(r, reports, t) := Fetch cl reporter t (cs_chunk span) in
      match r with
      | Err e => (Some (Err (DownloadFetch e)), [], reports)
      | Ok data =>
          let window :=
            if decide (0 < cs_from span \/ cs_to span < Z.of_nat (length data))%Z
            then slice data (cs_from span) (cs_to span) else Some data in
          match window with
          | None => (None, [], reports)
          | Some data =>
              match w k with
              | Some n => (Some (Err DownloadClient), take n data, reports)
              | None =>
                  let '(r, out, reports') := streamDownload cl reporter w t (S k) spans' in
                  (r, data ++ out, reports ++ reports')
              end
          end
      end
  end.

(** ** GET on an object *)

(** The fields of GetObjectResponse the handler's decisions use. *)
Record ObjectInfo := mkObjectInfo {
  oi_SizeBytes : Z;
  oi_ChunkSize : Z
}.
Record GetObjectResponse := mkGetObjectResponse {
  go_Object : ObjectInfo;
  go_Chunks : list ChunkPlacement
}.

Inductive body_outcome := Complete | Aborted (e : download_error) | Panicked.

(** What goes out on the wire: the status, the two headers the range decides,
    the body and how it ended. An error status has the error document as its
    body, none of the object's bytes. *)
Record Response := mkResponse {
  rs_Status : Z;
  rs_ContentLength : option Z;
  rs_ContentRange : option string;
  rs_Body : bytes;
  rs_Outcome : body_outcome;
  rs_Reports : list report
}.

Definition send (cl : Cluster) (reporter : bool) (w : client) (status length : Z) (range : option string)
    (spans : list chunkSpan) : Response :=
  let '(r, body, reports) := streamDownload cl reporter w 0 0 spans in
  mkResponse status (Some length) range body
    match r with
    | Some (Ok tt) => Complete
    | Some (Err e) => Aborted e
    | None => Panicked
    end reports.

(** GetObject once the coordinator has answered. *)
Definition GetObject_serve (cl : Cluster) (reporter : bool) (w : client) (obj : GetObjectResponse) (raw : string) : Response :=
  let size := oi_SizeBytes (go_Object obj) in
  let whole := send cl reporter w 200 size None (allChunks (go_Chunks obj)) in
  if String.eqb raw EmptyString then whole
  else
    let summed := objectSizeFromChunks (go_Chunks obj) in
    match parseRange raw size with
    | Ok br =>
        if decide (summed <> size) then whole
        else send cl reporter w 206 (br_length br) (Some (contentRange br size)) (selectChunks (go_Chunks obj) br)
    | Err errUnsatisfiableRange => mkResponse 416 None (Some ("bytes */" +:+ FormatInt size)) [] Complete []
    | Err errIgnorableRange => whole
    end.

(** ** Fetching is exact *)

(** A stream that delivers a chunk: it ends cleanly and its bytes have the
    recorded length and digest. *)
Definition good_stream (chunk : ChunkPlacement) (msgs : list bytes) (fin : option Z) : Prop :=
  fin = None /\ Z.of_nat (length (concat msgs)) = cp_SizeBytes chunk /\
  Sum (concat msgs) = cp_ChecksumSha256 chunk.
Definition verified (chunk : ChunkPlacement) (data : bytes) : Prop :=
  Z.of_nat (length data) = cp_SizeBytes chunk /\ Sum data = cp_ChecksumSha256 chunk.

(** What a node answers at an attempt, before any check. *)
Definition answer (cl : Cluster) (t : nat) (node : NodeInfo) (chunk : ChunkPlacement) : result Z (list bytes * option Z) :=
  match Client cl t (ni_GrpcAddress node) with
  | Some code => Err code
  | None => ReadChunk cl t (ni_GrpcAddress node) (cp_ChunkId chunk) (cp_ChecksumSha256 chunk)
  end.

Lemma recv_loop_ok size buf h msgs fin out :
  recv_loop size buf h msgs fin = Ok out <->
  fin = None /\ out = (buf ++ concat msgs, h ++ concat msgs) /\
  (msgs = [] \/ Z.of_nat (length (buf ++ concat msgs)) <= size)%Z.
Proof.
  revert buf h. induction msgs as [|m msgs IH]; intros buf h; simpl.
  { rewrite !app_nil_r. destruct fin; naive_solver. }
  rewrite !length_app. case_decide.
  - split; [done|]. intros (_&_&[|]); [done|lia].
  - rewrite IH. unfold hash_Write. rewrite <-!app_assoc, !length_app. destruct msgs as [|m' msgs]; simpl.
    + rewrite !app_nil_r. naive_solver lia.
    + naive_solver.
Qed.

Lemma fetchFrom_ok cl t node chunk data :
  fetchFrom cl t node chunk = Ok data <->
  exists msgs fin, answer cl t node chunk = Ok (msgs, fin) /\ good_stream chunk msgs fin /\ data = concat msgs.
Proof.
  unfold fetchFrom, answer. destruct (Client cl t (ni_GrpcAddress node)); [naive_solver|].
  destruct (ReadChunk cl t _ _ _) as [[msgs fin]|]; [|naive_solver]. unfold good_stream.
  destruct (recv_loop _ _ _ _ _) as [[buf h]|e] eqn:E.
  - apply recv_loop_ok in E as (->&[= -> ->]&Hsz). simpl. unfold hash_New, Hex. simpl.
    pose proof (Verify_ok (cp_ChunkId chunk) (cp_ChecksumSha256 chunk) (Sum (concat msgs))) as V.
    case_decide; [naive_solver|]. destruct (Verify _ _ _) as [[]|[]]; naive_solver.
  - split; [done|]. intros (?&?&[= <- <-]&(->&Hlen&Hsum)&->).
    assert (recv_loop (cp_SizeBytes chunk) [] hash_New msgs None = Ok (concat msgs, concat msgs)) as E'
      by (apply recv_loop_ok; split_and!; [done|done|right; simpl; lia]).
    congruence.
Qed.

Lemma fetchFrom_verified cl t node chunk data : fetchFrom cl t node chunk = Ok data -> verified chunk data.
Proof. intros (msgs&fin&_&(_&Hl&Hs)&->)%fetchFrom_ok. by split. Qed.

(** A node's answer is bad in a way that condemns the copy: wrong bytes, or the
    node itself reporting a failed precondition. *)
Definition condemned (cl : Cluster) (t : nat) (node : NodeInfo) (chunk : ChunkPlacement) : bool :=
  match fetchFrom cl t node chunk with Ok _ => false | Err e => is_corrupt e end.

(** The reports due for the nodes tried from attempt [t] on. *)
Fixpoint due_reports (cl : Cluster) (reporter : bool) (t : nat) (chunk : ChunkPlacement) (nodes : list NodeInfo) : list report :=
  match nodes with
  | [] => []
  | node :: nodes' =>
      (if condemned cl t node chunk then reportCorruption reporter (cp_ChunkId chunk) (ni_NodeId node) else [])
      ++ due_reports cl reporter (S t) chunk nodes'
  end.

Lemma fetch_loop_safe cl reporter t chunk nodes r reports t' :
  fetch_loop cl reporter t chunk nodes = (r, reports, t') ->
  reports `prefix_of` due_reports cl reporter t chunk nodes /\
  match r with
  | Ok data => exists i node, nodes !! i = Some node /\ fetchFrom cl (t + i) node chunk = Ok data
  | Err ErrNoReplica => forall i node, nodes !! i = Some node -> exists e, fetchFrom cl (t + i) node chunk = Err e
  | Err ErrContext => exists i, (i < length nodes)%nat /\ ctx_done cl (t + i) = true
  end.
Proof.
  revert t r reports t'. induction nodes as [|node nodes IH]; intros t r reports t'; simpl.
  { intros [= <- <- <-]. split; [done|by intros i ?]. }
  unfold condemned. destruct (fetchFrom cl t node chunk) as [data|e] eqn:Ef.
  { intros [= <- <- <-]. split; [apply prefix_nil|]. exists 0%nat, node. by rewrite Nat.add_0_r. }
  destruct (ctx_done cl t) eqn:Ec.
  { intros [= <- <- <-]. split; [apply prefix_nil|]. exists 0%nat. rewrite Nat.add_0_r. split; [lia|done]. }
  destruct (fetch_loop cl reporter (S t) chunk nodes) as [[r' reports'] t''] eqn:El. intros [= <- <- <-].
  apply IH in El as [Hp Hr]. split.
  { by apply prefix_app. }
  destruct r' as [data|[]].
  - destruct Hr as (i&n&Hi&Hn). exists (S i), n. by rewrite Nat.add_succ_r.
  - intros [|i] n Hn; simpl in Hn; [injection Hn as <-; rewrite Nat.add_0_r; eauto|].
    rewrite Nat.add_succ_r. by apply Hr.
  - destruct Hr as (i&Hi&Hd). exists (S i). rewrite Nat.add_succ_r. split; [lia|done].
Qed.

(** While the request lives, the first node that delivers decides. *)
Lemma fetch_loop_first cl reporter t chunk nodes i node data :
  (forall t, ctx_done cl t = false) -> nodes !! i = Some node -> fetchFrom cl (t + i) node chunk = Ok data ->
  (forall j n, (j < i)%nat -> nodes !! j = Some n -> exists e, fetchFrom cl (t + j) n chunk = Err e) ->
  fetch_loop cl reporter t chunk nodes = (Ok data, due_reports cl reporter t chunk (take i nodes), t + S i)%nat.
Proof.
  intros Hctx. revert t i. induction nodes as [|n nodes IH]; intros t i Hi Hok Hbad; [done|].
  destruct i as [|i]; simpl in *.
  { injection Hi as ->. rewrite Nat.add_0_r in Hok. rewrite Hok. by rewrite Nat.add_1_r. }
  destruct (Hbad 0%nat n) as [e He]; [lia|done|]. rewrite Nat.add_0_r in He. unfold condemned. rewrite He, Hctx.
  rewrite (IH (S t) i Hi).
  - f_equal. lia.
  - by rewrite (Nat.add_succ_comm t i).
  - intros j m Hj Hm. rewrite (Nat.add_succ_comm t j). by apply Hbad; [lia|].
Qed.

Lemma fetch_loop_all_bad cl reporter t chunk nodes :
  (forall t, ctx_done cl t = false) ->
  (forall j n, nodes !! j = Some n -> exists e, fetchFrom cl (t + j) n chunk = Err e) ->
  fetch_loop cl reporter t chunk nodes = (Err ErrNoReplica, due_reports cl reporter t chunk nodes, t + length nodes)%nat.
Proof.
  intros Hctx. revert t. induction nodes as [|n nodes IH]; intros t Hbad; simpl; [by rewrite Nat.add_0_r|].
  destruct (Hbad 0%nat n) as [e He]; [done|]. rewrite Nat.add_0_r in He. unfold condemned. rewrite He, Hctx.
  rewrite (IH (S t)).
  - f_equal. lia.
  - intros j m Hm. rewrite (Nat.add_succ_comm t j). by apply Hbad.
Qed.

Lemma Fetch_loop cl reporter t chunk : Fetch cl reporter t chunk = fetch_loop cl reporter t chunk (cp_Nodes chunk).
Proof. unfold Fetch. by destruct (cp_Nodes chunk). Qed.

Lemma Fetch_verified cl reporter t chunk data reports t' :
  Fetch cl reporter t chunk = (Ok data, reports, t') -> verified chunk data.
Proof.
  rewrite Fetch_loop. intros (_&i&node&_&Hf)%fetch_loop_safe. by eapply fetchFrom_verified.
Qed.

(** C27: fetching a chunk never returns wrong bytes and fails over completely.
    Whatever the nodes answer, the bytes returned have the recorded length and
    SHA-256 and were delivered by one of the chunk's nodes. While the request
    is not cancelled, the first node that delivers such bytes decides, and the
    fetch fails exactly when no node delivers; the copies reported as corrupt
    are exactly those of the nodes tried before whose bytes did not verify or
    who reported a failed check themselves, in order. Cancellation only ever
    ends the fetch early, after a prefix of these reports. *)
Theorem Fetch_exact cl reporter t chunk :
  let '(r, reports, t') := Fetch cl reporter t chunk in
  (forall data, r = Ok data -> verified chunk data /\
     exists i node msgs, cp_Nodes chunk !! i = Some node /\
       answer cl (t + i) node chunk = Ok (msgs, None) /\ data = concat msgs) /\
  reports `prefix_of` due_reports cl reporter t chunk (cp_Nodes chunk) /\
  (r = Err ErrContext -> exists i, ctx_done cl i = true) /\
  ((forall t, ctx_done cl t = false) ->
     (forall i node data, cp_Nodes chunk !! i = Some node -> fetchFrom cl (t + i) node chunk = Ok data ->
        (forall j n, (j < i)%nat -> cp_Nodes chunk !! j = Some n -> exists e, fetchFrom cl (t + j) n chunk = Err e) ->
        r = Ok data /\ reports = due_reports cl reporter t chunk (take i (cp_Nodes chunk)) /\ t' = (t + S i)%nat) /\
     ((forall i node, cp_Nodes chunk !! i = Some node -> exists e, fetchFrom cl (t + i) node chunk = Err e) <->
        r = Err ErrNoReplica)).
Proof.
  rewrite Fetch_loop. destruct (fetch_loop cl reporter t chunk (cp_Nodes chunk)) as [[r reports] t'] eqn:E.
  destruct (fetch_loop_safe _ _ _ _ _ _ _ _ E) as [Hp Hr]. split_and!.
  - intros data ->. destruct Hr as (i&node&Hi&Hf). split; [by eapply fetchFrom_verified|].
    apply fetchFrom_ok in Hf as (msgs&fin&Ha&(->&_)&->). by exists i, node, msgs.
  - done.
  - intros ->. destruct Hr as (i&_&Hd). eauto.
  - intros Hctx. split.
    + intros i node data Hi Hf Hbad.
      rewrite (fetch_loop_first cl reporter t chunk _ i node data Hctx Hi Hf Hbad) in E. by injection E as <- <- <-.
    + split; [|by intros ->]. intros Hbad. rewrite (fetch_loop_all_bad _ _ _ _ _ Hctx Hbad) in E. by injection E.
Qed.

(** ** The body is exact *)

(** The recorded length and digest of a chunk are those of its content, and no
    node ever delivers other bytes that have them: no SHA-256 collision occurs
    among what the nodes send. *)
Definition authentic (cl : Cluster) (content : ChunkPlacement -> bytes) (chunk : ChunkPlacement) : Prop :=
  verified chunk (content chunk) /\
  forall t node msgs, node ∈ cp_Nodes chunk -> answer cl t node chunk = Ok (msgs, None) ->
    verified chunk (concat msgs) -> concat msgs = content chunk.

Lemma Fetch_authentic cl content reporter t chunk data reports t' :
  authentic cl content chunk -> Fetch cl reporter t chunk = (Ok data, reports, t') -> data = content chunk.
Proof.
  intros [_ Hu] Hf. pose proof (Fetch_verified _ _ _ _ _ _ _ Hf) as Hv.
  rewrite Fetch_loop in Hf. apply fetch_loop_safe in Hf as (_&i&node&Hi&Hf).
  apply fetchFrom_ok in Hf as (msgs&fin&Ha&(->&_)&->).
  eapply Hu; [by eapply list_elem_of_lookup_2|done|done].
Qed.

Section body.
Context (cl : Cluster) (content : ChunkPlacement -> bytes).

Lemma window_exact span :
  verified (cs_chunk span) (content (cs_chunk span)) -> span_ok span ->
  (if decide (0 < cs_from span \/ cs_to span < Z.of_nat (length (content (cs_chunk span))))%Z
   then slice (content (cs_chunk span)) (cs_from span) (cs_to span)
   else Some (content (cs_chunk span))) = Some (span_bytes content span).
Proof.
  intros [Hlen _] [Hft Hto]. unfold slice, span_bytes. case_decide.
  - rewrite decide_True by lia. done.
  - replace (cs_from span) with 0%Z by lia. rewrite drop_0, take_ge by lia. done.
Qed.

Lemma streamDownload_exact reporter w t k spans :
  Forall (fun s => authentic cl content (cs_chunk s) /\ span_ok s) spans ->
  let '(r, body, _) := streamDownload cl reporter w t k spans in
  r <> None /\ body `prefix_of` concat (span_bytes content <$> spans) /\
  (r = Some (Ok tt) -> body = concat (span_bytes content <$> spans)).
Proof.
  intros Hs. revert t k. induction Hs as [|span spans [Hau Hok] _ IH]; intros t k; simpl; [done|].
  destruct (Fetch cl reporter t (cs_chunk span)) as [[[data|e] reports] t'] eqn:Ef; simpl.
  2:{ split_and!; [done|apply prefix_nil|done]. }
  apply (Fetch_authentic _ content) in Ef as ->; [|done]. rewrite (window_exact span (proj1 Hau) Hok).
  destruct (w k) as [n|]; simpl.
  { split_and!; [done| |done]. apply prefix_app_r. exists (drop n (span_bytes content span)). by rewrite take_drop. }
  specialize (IH t' (S k)). destruct (streamDownload cl reporter w t' (S k) spans) as [[r out] reports'].
  destruct IH as (H1&H2&H3). split_and!; [done|by apply prefix_app|]. intros Hr. by rewrite H3.
Qed.

(** Without cancellation, broken connections and failing fetches it completes. *)
Lemma streamDownload_completes reporter w t k spans :
  Forall (fun s => authentic cl content (cs_chunk s) /\ span_ok s) spans ->
  (forall k, w k = None) ->
  (forall t s, s ∈ spans -> exists data, (Fetch cl reporter t (cs_chunk s)).1.1 = Ok data) ->
  (streamDownload cl reporter w t k spans).1.1 = Some (Ok tt).
Proof.
  intros Hs Hw. revert t k. induction Hs as [|span spans [Hau Hok] _ IH]; intros t k Hf; simpl; [done|].
  destruct (Hf t span) as [data Hd]; [by left|].
  destruct (Fetch cl reporter t (cs_chunk span)) as [[r reports] t'] eqn:Ef. simpl in Hd. subst r.
  apply (Fetch_authentic _ content) in Ef as ->; [|done]. rewrite (window_exact span (proj1 Hau) Hok), Hw.
  specialize (IH t' (S k)). destruct (streamDownload cl reporter w t' (S k) spans) as [[r' out] reports'].
  simpl in *. apply IH. intros t'' s Hs. apply Hf. by right.
Qed.
End body.

(** The part of the object a request asks for: the bytes of the range where the
    handler serves one, else the whole object. *)
Definition requested (content : ChunkPlacement -> bytes) (obj : GetObjectResponse) (raw : string) : bytes :=
  match parseRange raw (oi_SizeBytes (go_Object obj)) with
  | Ok br => take (Z.to_nat (br_length br)) (drop (Z.to_nat (br_start br)) (object_bytes content (go_Chunks obj)))
  | Err errUnsatisfiableRange => []
  | Err errIgnorableRange => object_bytes content (go_Chunks obj)
  end.

Lemma send_exact content cl reporter w status len range spans :
  Forall (fun s => authentic cl content (cs_chunk s) /\ span_ok s) spans ->
  let resp := send cl reporter w status len range spans in
  rs_Outcome resp <> Panicked /\ rs_Body resp `prefix_of` concat (span_bytes content <$> spans) /\
  (rs_Outcome resp = Complete -> rs_Body resp = concat (span_bytes content <$> spans)) /\
  rs_Status resp = status /\ rs_ContentLength resp = Some len /\ rs_ContentRange resp = range.
Proof.
  intros Hs. unfold send. pose proof (streamDownload_exact cl content reporter w 0 0 spans Hs) as H.
  destruct (streamDownload cl reporter w 0 0 spans) as [[r body] reports]. destruct H as (H1&H2&H3).
  destruct r as [[[]|e]|]; simpl; naive_solver.
Qed.

Lemma spans_served cl content chunks spans :
  Forall (authentic cl content) chunks -> Forall span_ok spans -> (cs_chunk <$> spans) `sublist_of` chunks ->
  Forall (fun s => authentic cl content (cs_chunk s) /\ span_ok s) spans.
Proof.
  intros Ha Hs Hsub. apply Forall_forall. intros s Hin. pose proof (proj1 (Forall_forall _ _) Ha) as Ha'. pose proof (proj1 (Forall_forall _ _) Hs) as Hs'. split; [|by apply Hs'].
  apply Ha'. eapply elem_of_submseteq; [by apply list_elem_of_fmap_2|by apply sublist_submseteq].
Qed.

Lemma authentic_sized cl content chunks : Forall (authentic cl content) chunks -> sized content chunks.
Proof. intros Ha. eapply Forall_impl; [exact Ha|]. intros c [[Hl _] _]. by rewrite Hl. Qed.

Lemma allChunks_spans cl content chunks :
  Forall (authentic cl content) chunks ->
  Forall (fun s => authentic cl content (cs_chunk s) /\ span_ok s) (allChunks chunks).
Proof.
  intros Ha. apply (spans_served cl content chunks); [done| |].
  - apply Forall_fmap. eapply Forall_impl; [exact Ha|]. intros c [[Hl _] _]. unfold span_ok. simpl. lia.
  - unfold allChunks. rewrite <-list_fmap_compose. simpl. by rewrite list_fmap_id.
Qed.

Lemma GetObject_serve_exact content cl reporter w obj raw :
  Forall (authentic cl content) (go_Chunks obj) ->
  (Z.of_nat (length (object_bytes content (go_Chunks obj))) < 2 ^ 63)%Z ->
  let size := oi_SizeBytes (go_Object obj) in
  let whole := object_bytes content (go_Chunks obj) in
  let resp := GetObject_serve cl reporter w obj raw in
  rs_Outcome resp <> Panicked /\
  (size = Z.of_nat (length whole) ->
     rs_Body resp `prefix_of` requested content obj raw /\
     (rs_Outcome resp = Complete -> rs_Body resp = requested content obj raw) /\
     rs_Status resp = match parseRange raw size with Ok _ => 206%Z | Err errUnsatisfiableRange => 416%Z
                      | Err errIgnorableRange => 200%Z end /\
     (rs_Status resp <> 416%Z -> rs_ContentLength resp = Some (Z.of_nat (length (requested content obj raw))))) /\
  (size <> Z.of_nat (length whole) -> rs_Status resp <> 206%Z /\ rs_Body resp `prefix_of` whole).
Proof.
  intros Ha Hlen size whole resp. pose proof (authentic_sized cl content _ Ha) as Hsz.
  pose proof (objectSize_total content (go_Chunks obj) 0 Hsz ltac:(lia)) as Hsum.
  change (objectSizeFromChunks (go_Chunks obj) = Z.of_nat (length whole)) in Hsum.
  destruct (send_exact content cl reporter w 200 size None _ (allChunks_spans cl content _ Ha)) as (W1&W2&W3&W4&W5&_).
  rewrite (allChunks_bytes content _ Hsz) in W2, W3. fold whole in W2, W3.
  unfold resp, GetObject_serve, requested. fold size whole.
  destruct (String.eqb_spec raw EmptyString) as [->|_].
  { simpl. split_and!; [done| |intros _; split; [by rewrite W4|done]].
    intros Hs. split_and!; [done|done|done|]. intros _. rewrite W5. by rewrite Hs. }
  destruct (parseRange raw size) as [br|[]] eqn:Ep.
  - rewrite Hsum. case_decide as Hd.
    + split_and!; [done|done|]. intros _. split; [by rewrite W4|done].
    + fold whole in Hlen. destruct (parseRange_in_bounds raw size br) as [B1 B2]; [lia|done|].
      destruct (selectChunks_bytes content (go_Chunks obj) br Hsz Hlen B1) as (S1&S2&S3&S4&_); [lia|].
      destruct (send_exact content cl reporter w 206 (br_length br) (Some (contentRange br size)) _
        (spans_served cl content _ _ Ha S3 S4)) as (R1&R2&R3&R4&R5&_).
      rewrite S1 in R2, R3, S2. split_and!; [done| |done]. intros _.
      split_and!; [done|done|done|]. intros _. rewrite R5. f_equal.
      fold whole in S2. rewrite S2. rewrite Z2Nat.id; [done|].
      unfold br_length. rewrite !int64_small by (rewrite ?int64_small by lia; lia). lia.
  - simpl. split_and!; [done| |intros _; split; [done|apply prefix_nil]].
    intros _. split_and!; [done|done|done|done].
  - split_and!; [done| |intros _; split; [by rewrite W4|done]].
    intros Hs. split_and!; [done|done|done|]. intros _. by rewrite W5, Hs.
Qed.

(** While every fetch succeeds and the client reads on, the response completes. *)
Lemma send_completes content cl reporter w status len range spans :
  Forall (fun s => authentic cl content (cs_chunk s) /\ span_ok s) spans -> (forall k, w k = None) ->
  (forall t s, s ∈ spans -> exists data, (Fetch cl reporter t (cs_chunk s)).1.1 = Ok data) ->
  rs_Outcome (send cl reporter w status len range spans) = Complete.
Proof.
  intros Hs Hw Hf. unfold send. pose proof (streamDownload_completes cl content reporter w 0 0 spans Hs Hw Hf) as H.
  destruct (streamDownload cl reporter w 0 0 spans) as [[r body] reports]. simpl in H. by subst r.
Qed.

Lemma GetObject_serve_completes content cl reporter w obj raw :
  Forall (authentic cl content) (go_Chunks obj) ->
  (Z.of_nat (length (object_bytes content (go_Chunks obj))) < 2 ^ 63)%Z -> (forall k, w k = None) ->
  (forall t c, c ∈ go_Chunks obj -> exists data, (Fetch cl reporter t c).1.1 = Ok data) ->
  rs_Outcome (GetObject_serve cl reporter w obj raw) = Complete.
Proof.
  intros Ha Hlen Hw Hf. pose proof (authentic_sized cl content _ Ha) as Hsz.
  pose proof (objectSize_total content (go_Chunks obj) 0 Hsz ltac:(lia)) as Hsum.
  change (objectSizeFromChunks (go_Chunks obj) = Z.of_nat (length (object_bytes content (go_Chunks obj)))) in Hsum.
  assert (forall status len range, rs_Outcome (send cl reporter w status len range (allChunks (go_Chunks obj))) = Complete) as Hall.
  { intros status len range. eapply (send_completes content); [by apply allChunks_spans|done|].
    intros t s (c&->&Hc)%list_elem_of_fmap. by apply Hf. }
  unfold GetObject_serve. destruct (String.eqb raw EmptyString); [apply Hall|].
  destruct (parseRange raw _) as [br|[]] eqn:Ep; [|done|apply Hall]. case_decide as Hd; [apply Hall|].
  destruct (parseRange_in_bounds raw (oi_SizeBytes (go_Object obj)) br) as [B1 B2]; [lia|done|].
  destruct (selectChunks_bytes content (go_Chunks obj) br Hsz Hlen B1) as (_&_&S3&S4&_); [lia|].
  eapply (send_completes content); [by apply (spans_served cl content (go_Chunks obj))|done|].
  intros t s Hs. apply Hf. eapply elem_of_submseteq; [by apply list_elem_of_fmap_2|by apply sublist_submseteq].
Qed.

(** C7: the client only ever receives bytes of the object, and exactly those
    it asked for. Take an object whose chunks have the recorded lengths and
    digests, any Range header, and any behaviour of the storage nodes (short of
    producing a SHA-256 collision), the connection and the request. The handler does not panic. If the recorded
    size agrees with the chunks, the body is a prefix of the requested bytes and
    all of them when the response completes; the status is 206, 200 or 416 as
    the header is satisfiable, ignorable or unsatisfiable, and Content-Length is
    the number of requested bytes. If the size disagrees no range is served:
    the body is a prefix of the whole object. *)
Theorem GetObject_serves_requested_bytes content cl reporter w obj raw :
  Forall (authentic cl content) (go_Chunks obj) ->
  (Z.of_nat (length (object_bytes content (go_Chunks obj))) < 2 ^ 63)%Z ->
  let size := oi_SizeBytes (go_Object obj) in
  let whole := object_bytes content (go_Chunks obj) in
  let resp := GetObject_serve cl reporter w obj raw in
  rs_Outcome resp <> Panicked /\
  (size = Z.of_nat (length whole) ->
     rs_Body resp `prefix_of` requested content obj raw /\
     (rs_Outcome resp = Complete -> rs_Body resp = requested content obj raw) /\
     rs_Status resp = match parseRange raw size with Ok _ => 206%Z | Err errUnsatisfiableRange => 416%Z
                      | Err errIgnorableRange => 200%Z end /\
     (rs_Status resp <> 416%Z -> rs_ContentLength resp = Some (Z.of_nat (length (requested content obj raw))))) /\
  (size <> Z.of_nat (length whole) -> rs_Status resp <> 206%Z /\ rs_Body resp `prefix_of` whole).
Proof. apply GetObject_serve_exact. Qed.

(** ** A cluster of two nodes *)

(** An object of two chunks, A and B. The node at [a:1] serves A with a flipped
    byte and B correctly, the node at [b:1] serves both. *)
Definition content_A : bytes := [x41; x41; x41]%byte.
Definition content_B : bytes := [x42; x42]%byte.
Definition two_nodes : list NodeInfo := [mkNodeInfo "a" "a:1"; mkNodeInfo "b" "b:1"].
Definition chunk_A : ChunkPlacement := mkPlacement "A" 0 3 (Sum content_A) two_nodes.
Definition chunk_B : ChunkPlacement := mkPlacement "B" 1 2 (Sum content_B) two_nodes.
Definition sample_object : GetObjectResponse := mkGetObjectResponse (mkObjectInfo 5 3) [chunk_A; chunk_B].
Definition object_content (c : ChunkPlacement) : bytes := if String.eqb (cp_ChunkId c) "A" then content_A else content_B.
Definition flipped_A : bytes := [x41; x40; x41]%byte.
Definition sample_net : Cluster := mkCluster (fun _ _ => None)
  (fun _ addr id _ =>
     Ok (if String.eqb id "A" then if String.eqb addr "a:1" then ([flipped_A], None) else ([content_A; []], None)
         else ([content_B], None)))
  (fun _ => false).

Lemma flipped_differs : Sum flipped_A <> Sum content_A.
Proof. vm_compute. discriminate. Qed.

Lemma sample_authentic : Forall (authentic sample_net object_content) [chunk_A; chunk_B].
Proof.
  repeat constructor.
  - intros t node msgs [->|[->|[]%elem_of_nil]%elem_of_cons]%elem_of_cons [= <-]; [|done].
    intros [_ Hs]. exfalso. by apply flipped_differs.
  - by intros t node msgs [->|[->|[]%elem_of_nil]%elem_of_cons]%elem_of_cons [= <-].
Qed.

Lemma Fetch_exact_witness :
  (Fetch sample_net true 0 chunk_A).1.1 = Ok content_A /\ (Fetch sample_net true 0 chunk_A).1.2 = [("A", "a")].
Proof.
  pose proof (Fetch_exact sample_net true 0 chunk_A) as H.
  destruct (Fetch sample_net true 0 chunk_A) as [[r reports] t'].
  destruct H as (_&_&_&H). destruct (H (fun _ => eq_refl)) as [H1 _]. simpl.
  destruct (H1 1%nat (mkNodeInfo "b" "b:1") content_A) as (->&->&_).
  - reflexivity.
  - vm_compute. reflexivity.
  - intros [|j] n Hj Hn; [|lia]. injection Hn as <-. exists FetchMismatch. vm_compute. reflexivity.
  - split; [reflexivity|vm_compute; reflexivity].
Defined.

Lemma GetObject_serves_requested_bytes_witness :
  rs_Body (GetObject_serve sample_net true (fun _ => None) sample_object "bytes=2-3") = [x41; x42]%byte.
Proof.
  destruct (GetObject_serves_requested_bytes object_content sample_net true (fun _ => None) sample_object "bytes=2-3")
    as (_&H&_).
  - exact sample_authentic.
  - vm_compute. reflexivity.
  - destruct H as (_&H&_); [vm_compute; reflexivity|].
    rewrite H; vm_compute; reflexivity.
Defined.
