(* ===== verification/ChunkStore.v ===== *)
(** * The chunk store of a storage node (src/internal/storage/chunkstore.go)

    A node's disk is the files of its data directory, by their path below it,
    and those of its temporary directory, by name. Every system call may fail,
    as an argument of each operation says. [Write] also returns the disks a
    process killed on the way would leave behind. Directories, permissions and
    the page cache are not modelled: the effect of fsync on a power loss is
    outside of the model, only its failure is inside. *)

From Stdlib Require Import Ascii Strings.Byte.
From stdpp Require Import base numbers gmap strings list.
From S2P Require Import Prelude Sql Schema Chunking Checksum GoStrings.

(** ** Paths *)

Definition path := list string.

Definition is_hex (c : Ascii.ascii) : bool :=
  let n := byte_of c in ((48 <=? n) && (n <=? 57) || (97 <=? n) && (n <=? 102))%N.

(** The loop of ValidateChunkID from index [i]. *)
Fixpoint valid_from (i : nat) (id : string) : bool :=
  match id with
  | EmptyString => true
  | String c id' =>
      (if decide (i = 8 \/ i = 13 \/ i = 18 \/ i = 23)%nat then Ascii.eqb c "-"%char else is_hex c) && valid_from (S i) id'
  end.
Definition ValidateChunkID (id : string) : bool :=
  if decide (String.length id <> 36)%nat then false else valid_from 0 id.

(** strings.ReplaceAll(s, dash, empty) *)
Fixpoint remove_dashes (s : string) : string :=
  match s with
  | EmptyString => EmptyString
  | String c s' => if Ascii.eqb c "-"%char then remove_dashes s' else String c (remove_dashes s')
  end.

Definition chunkSuffix : string := ".chunk".

(** The path below the data directory; the components are joined by
    filepath.Join, which leaves names without separators and dots alone. *)
Definition RelativePath (chunkID : string) : option path :=
  if ValidateChunkID chunkID then
    let flat := remove_dashes chunkID in
    Some [String.substring 0 2 flat; String.substring 2 2 flat; chunkID +:+ chunkSuffix]
  else None.

(** ** The disk and the store *)

Record file := mkFile {
  f_data : bytes;
  f_modified : Z
}.
Record disk := mkDisk {
  d_data : gmap path file;
  d_tmp : gmap string file
}.

Record ChunkStore := mkStore {
  cs_fsync : bool;
  cs_capacity : Z;
  cs_usedBytes : Z;
  cs_chunkCount : Z;
  cs_activeRequests : Z;
  cs_tempSeq : Z
}.

(** A running node. *)
Record node := mkNode {
  n_store : ChunkStore;
  n_disk : disk
}.

Inductive syscall :=
  | SysStat | SysOpen | SysRead | SysMkdir | SysCreate | SysCopy | SysSync | SysClose | SysRename | SysSyncDir | SysRemove
  | SysReadDir.

(** Which calls fail during an operation; a failing copy first writes
    [short] bytes. *)
Record faults := mkFaults {
  fails : syscall -> bool;
  short : nat
}.
Definition no_faults : faults := mkFaults (fun _ => false) 0.

Inductive chunk_error :=
  | ErrNotFound
  | ErrInvalidChunkID
  | ErrInvalidChecksum
  | ErrIO (call : syscall)
  | ErrSource (e : read_fault)
  | ErrSize
  | ErrChecksum.

Definition addUsage (cs : ChunkStore) (bytes chunks : Z) : ChunkStore :=
  let used := int64 (cs_usedBytes cs + bytes) in
  let used := if decide (used < 0)%Z then 0%Z else used in
  let count := int64 (cs_chunkCount cs + chunks) in
  let count := if decide (count < 0)%Z then 0%Z else count in
  mkStore (cs_fsync cs) (cs_capacity cs) used count (cs_activeRequests cs) (cs_tempSeq cs).

Definition int32 (z : Z) : Z := ((z + 2 ^ 31) mod 2 ^ 32 - 2 ^ 31)%Z.
Definition addActive (cs : ChunkStore) (n : Z) : ChunkStore :=
  mkStore (cs_fsync cs) (cs_capacity cs) (cs_usedBytes cs) (cs_chunkCount cs)
    (int32 (cs_activeRequests cs + n)) (cs_tempSeq cs).
Definition BeginRequest (cs : ChunkStore) : ChunkStore := addActive cs 1.
Definition EndRequest (cs : ChunkStore) : ChunkStore := addActive cs (-1).

Definition nextTemp (cs : ChunkStore) : ChunkStore :=
  mkStore (cs_fsync cs) (cs_capacity cs) (cs_usedBytes cs) (cs_chunkCount cs) (cs_activeRequests cs)
    ((cs_tempSeq cs + 1) mod 2 ^ 64)%Z.

Definition file_size (f : file) : Z := Z.of_nat (length (f_data f)).

(** verifyFile: the digest and the size of the file at a path. *)
Definition verifyFile (io : faults) (d : disk) (p : path) : result chunk_error (string * Z) :=
  match d_data d !! p with
  | None => Err (ErrIO SysOpen)
  | Some f =>
      if fails io SysOpen then Err (ErrIO SysOpen)
      else if fails io SysRead then Err (ErrIO SysRead)
      else Ok (Hex (hash_Write hash_New (f_data f)), file_size f)
  end.

(** ** Write *)

Record WriteResult := mkWriteResult {
  BytesWritten : Z;
  wr_Checksum : string;
  AlreadyExisted : bool
}.

Definition put_tmp (d : disk) (name : string) (f : file) : disk := mkDisk (d_data d) (<[name := f]> (d_tmp d)).
Definition remove_tmp (d : disk) (name : string) : disk := mkDisk (d_data d) (delete name (d_tmp d)).
Definition rename (d : disk) (name : string) (p : path) : disk :=
  match d_tmp d !! name with
  | Some f => mkDisk (<[p := f]> (d_data d)) (delete name (d_tmp d))
  | None => d
  end.

(** An existing copy that makes the write a no-op. *)
Definition existing_copy (io : faults) (d : disk) (final : path) (expectedChecksum : string) : option WriteResult :=
  match d_data d !! final with
  | Some _ =>
      if fails io SysStat then None
      else match verifyFile io d final with
           | Ok (sum, size) =>
               if String.eqb expectedChecksum EmptyString || Equal sum expectedChecksum
               then Some (mkWriteResult size sum true) else None
           | Err _ => None
           end
  | None => None
  end.

(** The deferred cleanup of a write that was not published. *)
Definition cleanup (io : faults) (d : disk) (name : string) : disk :=
  if fails io SysRemove then d else remove_tmp d name.
Definition abandon (io : faults) (cs : ChunkStore) (name : string) (trace : list disk) (e : chunk_error) (d : disk) :
    result chunk_error WriteResult * node * list disk :=
  (Err e, mkNode cs (cleanup io d name), trace ++ [cleanup io d name]).

(** The temporary file as the copy fills it. *)
Definition partials (now : Z) (d : disk) (name : string) (data : bytes) : list disk :=
  (fun k => put_tmp d name (mkFile (take k data) now)) <$> seq 0 (S (length data)).

#[global] Arguments partials : simpl never.

(** Write from the point where the temporary file exists. *)
Definition write_temp (io : faults) (now : Z) (cs : ChunkStore) (d : disk) (final : path) (name chunkID : string)
    (src : Reader) (expectedSize : Z) (expectedChecksum : string) :
    result chunk_error WriteResult * node * list disk :=
  let data := rd_data src in
  let trace := partials now d name data in
  let leave := abandon io cs name trace in
  if fails io SysCopy then leave (ErrIO SysCopy) (put_tmp d name (mkFile (take (short io) data) now))
  else
    let d1 := put_tmp d name (mkFile data now) in
    match rd_fail src with
    | Some e => leave (ErrSource e) d1
    | None =>
        let hw := tee_bytes NewTee data in
        let written := tee_n hw in
        if decide (0 <= expectedSize /\ written <> expectedSize)%Z then leave ErrSize d1
        else if cs_fsync cs && fails io SysSync then leave (ErrIO SysSync) d1
        else if fails io SysClose then leave (ErrIO SysClose) d1
        else
          let sum := tee_Sum hw in
          if negb (String.eqb expectedChecksum EmptyString) &&
             match Verify chunkID expectedChecksum sum with Ok _ => false | Err _ => true end
          then leave ErrChecksum d1
          else if fails io SysRename then leave (ErrIO SysRename) d1
          else
            let d2 := rename d1 name final in
            if cs_fsync cs && fails io SysSyncDir
            then (Err (ErrIO SysSyncDir), mkNode cs d2, trace ++ [d2])
            else (Ok (mkWriteResult written sum false), mkNode (addUsage cs written 1) d2, trace ++ [d2])
    end.

Definition tempName (cs : ChunkStore) (chunkID : string) : string :=
  chunkID +:+ "." +:+ FormatInt (cs_tempSeq cs) +:+ ".tmp".

(** The result, the node afterwards, and the disks on the way. *)
Definition Write (io : faults) (now : Z) (n : node) (chunkID : string) (src : Reader) (expectedSize : Z)
    (expectedChecksum : string) : result chunk_error WriteResult * node * list disk :=
  match RelativePath chunkID with
  | None => (Err ErrInvalidChunkID, n, [])
  | Some final =>
      if negb (String.eqb expectedChecksum EmptyString) && negb (Valid expectedChecksum)
      then (Err ErrInvalidChecksum, n, [])
      else
        match existing_copy io (n_disk n) final expectedChecksum with
        | Some res => (Ok res, n, [])
        | None =>
            if fails io SysMkdir then (Err (ErrIO SysMkdir), n, [])
            else
              let cs := nextTemp (n_store n) in
              let name := tempName cs chunkID in
              if fails io SysCreate || bool_decide (is_Some (d_tmp (n_disk n) !! name))
              then (Err (ErrIO SysCreate), mkNode cs (n_disk n), [])
              else write_temp io now cs (n_disk n) final name chunkID src expectedSize expectedChecksum
        end
  end.

(** ** Open, Delete, Check *)

Definition Open (io : faults) (n : node) (chunkID : string) : result chunk_error (bytes * Z) :=
  match RelativePath chunkID with
  | None => Err ErrInvalidChunkID
  | Some p =>
      match d_data (n_disk n) !! p with
      | None => Err ErrNotFound
      | Some f =>
          if fails io SysOpen then Err (ErrIO SysOpen)
          else if fails io SysStat then Err (ErrIO SysStat)
          else Ok (f_data f, file_size f)
      end
  end.

Definition Delete (io : faults) (n : node) (chunkID : string) : result chunk_error bool * node :=
  match RelativePath chunkID with
  | None => (Err ErrInvalidChunkID, n)
  | Some p =>
      match d_data (n_disk n) !! p with
      | None => (Ok false, n)
      | Some f =>
          if fails io SysStat then (Err (ErrIO SysStat), n)
          else if fails io SysRemove then (Err (ErrIO SysRemove), n)
          else (Ok true, mkNode (addUsage (n_store n) (- file_size f) (-1))
                           (mkDisk (delete p (d_data (n_disk n))) (d_tmp (n_disk n))))
      end
  end.

Record CheckResult := mkCheckResult {
  Exists : bool;
  cr_SizeBytes : Z;
  cr_Checksum : string;
  cr_Valid : bool
}.
Definition ChunkStore_Check (io : faults) (n : node) (chunkID : string) (verify : bool) : result chunk_error CheckResult :=
  match RelativePath chunkID with
  | None => Err ErrInvalidChunkID
  | Some p =>
      match d_data (n_disk n) !! p with
      | None => Ok (mkCheckResult false 0 EmptyString false)
      | Some f =>
          if fails io SysStat then Err (ErrIO SysStat)
          else if negb verify then Ok (mkCheckResult true (file_size f) EmptyString false)
          else match verifyFile io (n_disk n) p with
               | Err e => Err e
               | Ok (sum, size) => Ok (mkCheckResult true size sum true)
               end
      end
  end.

(** Stats, given the space the file system reports. *)
Definition Stats (cs : ChunkStore) (diskUsage : result chunk_error (Z * Z)) :
    result chunk_error (Z * Z * Z * Z * Z) :=
  let used := cs_usedBytes cs in
  let chunks := cs_chunkCount cs in
  if decide (0 < cs_capacity cs)%Z then
    let total := cs_capacity cs in
    let available := int64 (total - used) in
    let available := if decide (available < 0)%Z then 0%Z else available in
    let available :=
      match diskUsage with
      | Ok (_, fsAvail) => if decide (fsAvail < available)%Z then fsAvail else available
      | Err _ => available
      end in
    Ok (total, used, available, chunks, cs_activeRequests cs)
  else
    match diskUsage with
    | Err e => Err e
    | Ok (fsTotal, fsAvail) => Ok (fsTotal, used, fsAvail, chunks, cs_activeRequests cs)
    end.

(** ** Start-up and inventory *)

(** filepath.WalkDir visits every file once, in an order of its own. *)
Class FileWalk := {
  walk : disk -> list (path * file);
  walk_perm : forall d, walk d ≡ₚ map_to_list (d_data d)
}.
Definition base_name (p : path) : string := default EmptyString (last p).

Section startup.
Context `{FW : !FileWalk}.

(** scan: the usage counters from the files that look like chunks. *)
Definition scan (io : faults) (n : node) : result chunk_error node :=
  if fails io SysReadDir then Err (ErrIO SysReadDir)
  else
    let chunks := filter (fun pf : path * file => HasSuffix (base_name pf.1) chunkSuffix = true) (walk (n_disk n)) in
    if fails io SysStat && negb (length chunks =? 0)%nat then Err (ErrIO SysStat)
    else
      let '(bytes, count) :=
        foldl (fun '(b, c) (pf : path * file) => (int64 (b + file_size pf.2), int64 (c + 1))) (0%Z, 0%Z) chunks in
      let cs := n_store n in
      Ok (mkNode (mkStore (cs_fsync cs) (cs_capacity cs) bytes count (cs_activeRequests cs) (cs_tempSeq cs)) (n_disk n)).

Definition clearTempDir (io : faults) (n : node) : result chunk_error node :=
  if fails io SysReadDir then Err (ErrIO SysReadDir)
  else if fails io SysRemove && negb (bool_decide (d_tmp (n_disk n) = ∅)) then Err (ErrIO SysRemove)
  else Ok (mkNode (n_store n) (mkDisk (d_data (n_disk n)) ∅)).

(** NewChunkStore on a disk as an earlier process left it. *)
Definition NewChunkStore (io : faults) (fsync : bool) (capacity : Z) (d : disk) : result chunk_error node :=
  if fails io SysMkdir then Err (ErrIO SysMkdir)
  else
    match clearTempDir io (mkNode (mkStore fsync capacity 0 0 0 0) d) with
    | Err e => Err e
    | Ok n => scan io n
    end.

Record InventoryEntry := mkEntry {
  ie_ChunkID : string;
  ie_Size : Z;
  ie_Modified : Z
}.

(** The entry of one visited file, if it is a chunk. [gone] are files deleted
    between the directory read and the stat. *)
Definition inventory_entry (gone : path -> bool) (pf : path * file) : option InventoryEntry :=
  if negb (HasSuffix (base_name pf.1) chunkSuffix) then None
  else
    let id := TrimSuffix (base_name pf.1) chunkSuffix in
    if negb (ValidateChunkID id) then None
    else if gone pf.1 then None
    else Some (mkEntry id (file_size pf.2) (f_modified pf.2)).

(** The callback keeps a state and may stop the walk with an error. *)
Context {S E : Type} (fn : S -> list InventoryEntry -> result E S).

Fixpoint walk_batches (batchSize : nat) (gone : path -> bool) (batch : list InventoryEntry) (s : S)
    (files : list (path * file)) : result E (S * list InventoryEntry) :=
  match files with
  | [] => Ok (s, batch)
  | pf :: files' =>
      match inventory_entry gone pf with
      | None => walk_batches batchSize gone batch s files'
      | Some e =>
          let batch := batch ++ [e] in
          if decide (batchSize <= length batch)%nat then
            match fn s batch with
            | Err e => Err e
            | Ok s => walk_batches batchSize gone [] s files'
            end
          else walk_batches batchSize gone batch s files'
      end
  end.

Definition WalkInventory (d : disk) (gone : path -> bool) (batchSize : Z) (s : S) : result E S :=
  let batchSize := if decide (batchSize <= 0)%Z then 1000%Z else batchSize in
  match walk_batches (Z.to_nat batchSize) gone [] s (walk d) with
  | Err e => Err e
  | Ok (s, batch) => if decide (0 < length batch)%nat then fn s batch else Ok s
  end.
End startup.

(** ** The path guard *)

Definition hex_or_dash (c : Ascii.ascii) : bool := is_hex c || Ascii.eqb c "-"%char.

Lemma valid_from_chars i id : valid_from i id = true -> all_chars hex_or_dash id = true.
Proof.
  revert i. induction id as [|c id IH]; intros i; simpl; [done|]. intros [Hc Hid]%andb_true_iff.
  rewrite (IH (S i) Hid), andb_true_r. unfold hex_or_dash. case_decide; rewrite Hc; [by rewrite orb_true_r|done].
Qed.

Lemma RelativePath_spec id p :
  RelativePath id = Some p <->
  ValidateChunkID id = true /\
  p = [String.substring 0 2 (remove_dashes id); String.substring 2 2 (remove_dashes id); id +:+ chunkSuffix].
Proof. unfold RelativePath. destruct (ValidateChunkID id); naive_solver. Qed.

Lemma string_app_inj_suffix a b t : a +:+ t = b +:+ t -> a = b.
Proof.
  intros H. assert (String.length a = String.length b) as Hl.
  { apply (f_equal String.length) in H. rewrite !string_length_app in H. lia. }
  revert b Hl H. induction a as [|c a IH]; intros [|d b]; simpl; try done.
  rewrite !string_app_cons. intros Hl [= -> H]. f_equal. apply IH; [lia|done].
Qed.

Lemma RelativePath_inj id id' p : RelativePath id = Some p -> RelativePath id' = Some p -> id = id'.
Proof.
  rewrite !RelativePath_spec. intros [_ ->] [_ [= _ _ H]]. by apply string_app_inj_suffix in H.
Qed.

Lemma is_hex_not_dash c : is_hex c = true -> Ascii.eqb c "-"%char = false.
Proof. intros H. destruct (Ascii.eqb_spec c "-"%char) as [->|]; [by vm_compute in H|done]. Qed.

(** The directories of a chunk are its first four characters. *)
Lemma RelativePath_dirs id p :
  RelativePath id = Some p ->
  exists c0 c1 c2 c3 rest,
    id = String c0 (String c1 (String c2 (String c3 rest))) /\ Forall (fun c => is_hex c = true) [c0; c1; c2; c3] /\
    p = [String c0 (String c1 EmptyString); String c2 (String c3 EmptyString); id +:+ chunkSuffix].
Proof.
  rewrite RelativePath_spec. intros [Hv ->]. unfold ValidateChunkID in Hv. case_decide as Hl; [done|].
  destruct id as [|c0 [|c1 [|c2 [|c3 rest]]]]; try done.
  cbn [valid_from] in Hv. do 4 rewrite decide_False in Hv by lia. rewrite !andb_true_iff in Hv.
  destruct Hv as (H0&H1&H2&H3&_). exists c0, c1, c2, c3, rest. split_and!; [done|repeat constructor; done|].
  cbn [remove_dashes]. by rewrite !is_hex_not_dash by done; destruct (remove_dashes rest).
Qed.

(** A name that stays in its directory: no separator, and not a dot name. *)
Definition safe_name (s : string) : Prop :=
  all_chars (fun c => negb (Ascii.eqb c "/"%char)) s = true /\ s <> EmptyString /\ s <> "." /\ s <> "..".

Lemma all_chars_impl (p q : Ascii.ascii -> bool) s :
  (forall c, p c = true -> q c = true) -> all_chars p s = true -> all_chars q s = true.
Proof. intros H. induction s as [|c s IH]; simpl; [done|]. rewrite !andb_true_iff. naive_solver. Qed.
Lemma all_chars_app p a b : all_chars p (a +:+ b) = all_chars p a && all_chars p b.
Proof. induction a as [|c a IH]; [done|]. rewrite string_app_cons. simpl. rewrite IH. by rewrite andb_assoc. Qed.

Lemma hex_not_slash c : hex_or_dash c = true -> negb (Ascii.eqb c "/"%char) = true.
Proof. intros H. destruct (Ascii.eqb_spec c "/"%char) as [->|]; [by vm_compute in H|done]. Qed.
Lemma hex_not_dot c : is_hex c = true -> c <> "."%char.
Proof. intros H ->. by vm_compute in H. Qed.

(** A chunk ID from the network cannot name a file outside of the store.
    An ID that is not a lowercase UUID has no path. Every other ID has the path
    of two two-digit directories, its first four digits, and the file named
    after it; no component contains a separator or is a dot name, so that the
    path stays below the data directory; and different IDs have different
    paths. *)
Theorem RelativePath_confined id :
  match RelativePath id with
  | None => ValidateChunkID id = false
  | Some p =>
      ValidateChunkID id = true /\ Forall safe_name p /\ length p = 3%nat /\
      (exists a b, p = [a; b; id +:+ chunkSuffix] /\ String.prefix (a +:+ b) id = true /\
         String.length a = 2%nat /\ String.length b = 2%nat) /\
      forall id', RelativePath id' = Some p -> id' = id
  end.
Proof.
  destruct (RelativePath id) as [p|] eqn:Hp; [|unfold RelativePath in Hp; by destruct (ValidateChunkID id)].
  pose proof (proj1 (RelativePath_spec id p) Hp) as [Hv _].
  destruct (RelativePath_dirs id p Hp) as (c0&c1&c2&c3&rest&Hid&Hhex&->).
  rewrite Forall_forall in Hhex.
  assert (forall c, c ∈ [c0; c1; c2; c3] -> hex_or_dash c = true /\ c <> "."%char) as Hc.
  { intros c Hin. split; [unfold hex_or_dash; by rewrite Hhex|by apply hex_not_dot, Hhex]. }
  split_and!; [done| |done| |].
  - assert (forall a b, a ∈ [c0; c1; c2; c3] -> b ∈ [c0; c1; c2; c3] -> safe_name (String a (String b EmptyString))) as Hd.
    { intros a b Ha Hb. apply Hc in Ha as [Ha Ha'], Hb as [Hb Hb']. unfold safe_name. simpl.
      rewrite !hex_not_slash by done. split_and!; [done|done|congruence|congruence]. }
    repeat constructor; [apply Hd..| | | |]; try (repeat first [by left|right]); [|by rewrite Hid|by rewrite Hid|].
    + rewrite all_chars_app. rewrite (all_chars_impl hex_or_dash); [done|apply hex_not_slash|].
      unfold ValidateChunkID in Hv. case_decide; [done|]. by eapply valid_from_chars.
    + rewrite Hid. by intros [= ->].
  - exists (String c0 (String c1 EmptyString)), (String c2 (String c3 EmptyString)).
    split_and!; [done| |done|done]. rewrite Hid.
    apply String.prefix_correct. by destruct rest.
  - intros id' Hp'. by eapply RelativePath_inj.
Qed.

(** ** Write is exact *)

(** What a write must establish before its bytes become visible. *)
Definition accepted (src : Reader) (expectedSize : Z) (expectedChecksum : string) : Prop :=
  rd_fail src = None /\ (0 <= expectedSize -> Z.of_nat (length (rd_data src)) = expectedSize)%Z /\
  (expectedChecksum <> EmptyString -> Sum (rd_data src) = expectedChecksum).

(** The data directory with the chunk published. *)
Definition published (d : disk) (p : path) (src : Reader) (now : Z) : gmap path file :=
  <[p := mkFile (rd_data src) now]> (d_data d).

(** A disk seen during a write: the data directory as before, or with the
    accepted chunk published. *)
Definition crash_safe (d : disk) (p : path) (src : Reader) (size : Z) (sum : string) (now : Z) (d' : disk) : Prop :=
  d_data d' = d_data d \/ d_data d' = published d p src now /\ accepted src size sum.

Record write_ok (io : faults) (now : Z) (n : node) (p : path) (src : Reader) (size : Z) (sum : string)
    (r : result chunk_error WriteResult) (n' : node) (trace : list disk) : Prop := {
  wo_trace : Forall (crash_safe (n_disk n) p src size sum now) (n_disk n' :: trace);
  wo_temp : fails io SysRemove = false -> d_tmp (n_disk n') = d_tmp (n_disk n);
  wo_result :
    match r with
    | Ok res =>
        (exists f, d_data (n_disk n') !! p = Some f /\ BytesWritten res = file_size f /\
           wr_Checksum res = Sum (f_data f)) /\
        (sum <> EmptyString -> wr_Checksum res = sum) /\
        (if AlreadyExisted res then n' = n
         else d_data (n_disk n') = published (n_disk n) p src now /\ accepted src size sum)
    | Err (ErrIO SysSyncDir) => d_data (n_disk n') = published (n_disk n) p src now /\ accepted src size sum
    | Err _ => d_data (n_disk n') = d_data (n_disk n)
    end
}.

Lemma tee_new data :
  (Z.of_nat (length data) < 2 ^ 63)%Z ->
  tee_n (tee_bytes NewTee data) = Z.of_nat (length data) /\ tee_Sum (tee_bytes NewTee data) = Sum data.
Proof.
  intros Hl. unfold tee_Sum, Hex. rewrite tee_spec. simpl. unfold tee_bytes, NewTee. simpl.
  case_decide; simpl; [by rewrite int64_small by lia|]. split; [lia|done].
Qed.

Lemma rename_put d name data now p :
  d_tmp d !! name = None ->
  rename (put_tmp d name (mkFile data now)) name p = mkDisk (<[p := mkFile data now]> (d_data d)) (d_tmp d).
Proof. intros Hn. unfold rename, put_tmp. simpl. rewrite lookup_insert_eq. by rewrite delete_insert_id. Qed.

Lemma remove_put d name f : d_tmp d !! name = None -> remove_tmp (put_tmp d name f) name = d.
Proof. intros Hn. unfold remove_tmp, put_tmp. simpl. rewrite delete_insert_id by done. by destruct d. Qed.

Section writing.
Context (io : faults) (now : Z) (cs : ChunkStore) (n0 : node) (p : path) (name id : string).
Context (src : Reader) (size : Z) (sum : string).
Hypothesis Hname : d_tmp (n_disk n0) !! name = None.

Lemma partials_safe : Forall (crash_safe (n_disk n0) p src size sum now) (partials now (n_disk n0) name (rd_data src)).
Proof. apply Forall_fmap, Forall_forall. intros k _. by left. Qed.

Lemma abandon_ok e data :
  e <> ErrIO SysSyncDir ->
  let '(r, n', trace) := abandon io cs name (partials now (n_disk n0) name (rd_data src)) e
                           (put_tmp (n_disk n0) name (mkFile data now)) in
  write_ok io now n0 p src size sum r n' trace.
Proof.
  intros He. unfold abandon, cleanup. split.
  - apply Forall_cons_2; [left; by destruct (fails io SysRemove)|].
    apply Forall_app. split; [apply partials_safe|]. constructor; [left; by destruct (fails io SysRemove)|constructor].
  - intros ->. cbn [n_disk]. by rewrite remove_put.
  - simpl. destruct e as [| | |[]| | |]; try done; by destruct (fails io SysRemove).
Qed.

Lemma write_temp_ok :
  (Z.of_nat (length (rd_data src)) < 2 ^ 63)%Z ->
  let '(r, n', trace) := write_temp io now cs (n_disk n0) p name id src size sum in
  write_ok io now n0 p src size sum r n' trace.
Proof using Hname.
  intros Hlen. unfold write_temp. destruct (tee_new _ Hlen) as [-> ->].
  destruct (fails io SysCopy); [by apply abandon_ok|].
  destruct (rd_fail src) as [e|] eqn:Hsrc; [by apply abandon_ok|].
  case_decide as Hsize; [by apply abandon_ok|].
  destruct (cs_fsync cs && fails io SysSync); [by apply abandon_ok|].
  destruct (fails io SysClose); [by apply abandon_ok|].
  destruct (negb (String.eqb sum EmptyString) && _) eqn:Hsum; [by apply abandon_ok|].
  destruct (fails io SysRename); [by apply abandon_ok|].
  assert (accepted src size sum) as Hacc.
  { split_and!; [done|intros; lia|]. intros Hne. apply String.eqb_neq in Hne. rewrite Hne in Hsum. simpl in Hsum.
    destruct (Verify id sum (Sum (rd_data src))) as [[]|] eqn:V; [|done]. by apply Verify_ok in V. }
  rewrite rename_put by done.
  assert (Forall (crash_safe (n_disk n0) p src size sum now)
    (mkDisk (published (n_disk n0) p src now) (d_tmp (n_disk n0)) ::
     partials now (n_disk n0) name (rd_data src) ++ [mkDisk (published (n_disk n0) p src now) (d_tmp (n_disk n0))])) as Htr.
  { apply Forall_cons_2; [by right|]. apply Forall_app. split; [apply partials_safe|]. constructor; [by right|constructor]. }
  destruct (cs_fsync cs && fails io SysSyncDir); (split; [done|done|]); [by split|].
  simpl. split_and!.
  - exists (mkFile (rd_data src) now). by rewrite lookup_insert_eq.
  - apply Hacc.
  - done.
  - done.
Qed.
End writing.

Lemma write_nothing io now n p src size sum e store :
  e <> ErrIO SysSyncDir ->
  write_ok io now n p src size sum (Err e) (mkNode store (n_disk n)) [].
Proof.
  intros He. split; [repeat constructor|done|]. simpl. destruct e as [| | |[]| | |]; done.
Qed.

Lemma existing_copy_ok io d p sum res :
  existing_copy io d p sum = Some res ->
  AlreadyExisted res = true /\ (sum <> EmptyString -> wr_Checksum res = sum) /\
  exists f, d_data d !! p = Some f /\ BytesWritten res = file_size f /\ wr_Checksum res = Sum (f_data f).
Proof.
  unfold existing_copy, verifyFile. destruct (d_data d !! p) as [f|] eqn:Hf; [|done].
  destruct (fails io SysStat), (fails io SysOpen), (fails io SysRead); try done.
  destruct (String.eqb sum EmptyString || _) eqn:Hb; [|done]. intros [= <-]. simpl. split_and!; [done| |by exists f].
  intros Hne. apply orb_true_iff in Hb as [Hb|Hb]; [by apply String.eqb_eq in Hb|by apply Equal_spec in Hb].
Qed.

Lemma Write_ok io now n id src size sum p :
  (Z.of_nat (length (rd_data src)) < 2 ^ 63)%Z -> RelativePath id = Some p ->
  let '(r, n', trace) := Write io now n id src size sum in write_ok io now n p src size sum r n' trace.
Proof.
  intros Hlen Hp. unfold Write. rewrite Hp. destruct n as [cs d]; simpl.
  destruct (negb _ && _); [by apply (write_nothing io now (mkNode cs d))|].
  destruct (existing_copy io d p sum) as [res|] eqn:He.
  { apply existing_copy_ok in He as (Ha&Hs&Hf). split; [repeat constructor|done|]. simpl. by rewrite Ha. }
  destruct (fails io SysMkdir); [by apply (write_nothing io now (mkNode cs d))|].
  destruct (fails io SysCreate || _) eqn:Hc; [by apply (write_nothing io now (mkNode cs d))|].
  apply orb_false_iff in Hc as [_ Hn]. apply bool_decide_eq_false, eq_None_not_Some in Hn.
  by apply (write_temp_ok io now (nextTemp cs) (mkNode cs d)).
Qed.

(** Without failing calls an acceptable write goes through. *)
Lemma Write_succeeds now n id src size sum p :
  (Z.of_nat (length (rd_data src)) < 2 ^ 63)%Z -> RelativePath id = Some p ->
  sum = EmptyString \/ Valid sum = true -> accepted src size sum ->
  d_tmp (n_disk n) !! tempName (nextTemp (n_store n)) id = None ->
  exists res n' trace, Write no_faults now n id src size sum = (Ok res, n', trace).
Proof.
  intros Hlen Hp Hv (Hs&Hsize&Hsum) Hn. unfold Write. rewrite Hp.
  assert (negb (String.eqb sum EmptyString) && negb (Valid sum) = false) as ->
    by (destruct Hv as [->| ->]; [done|by rewrite andb_false_r]).
  destruct (existing_copy no_faults (n_disk n) p sum); [by eauto|]. simpl.
  rewrite bool_decide_false by (by rewrite Hn; intros []). simpl.
  unfold write_temp. destruct (tee_new _ Hlen) as [-> ->]. simpl. rewrite Hs, decide_False by lia. rewrite andb_false_r.
  assert (negb (String.eqb sum EmptyString) &&
    match Verify id sum (Sum (rd_data src)) with Ok _ => false | Err _ => true end = false) as ->.
  { destruct (String.eqb_spec sum EmptyString) as [|Hne]; [done|]. simpl.
    by rewrite (proj2 (Verify_ok id sum (Sum (rd_data src)))) by (symmetry; auto). }
  eauto.
Qed.

(** C11: a chunk appears on disk whole and verified or not at all. For every
    stream of bytes and every combination of failing system calls, a Write
    changes no other chunk's file. If it reports success the file holds the
    reported number of bytes with the reported digest, which is the expected
    one, and they are the bytes received unless a verified copy was already
    there. If it reports an error the data directory is as before, except
    when only the final directory sync failed. A process killed at any point
    leaves the data directory as before or with the complete verified chunk.
    No temporary file stays behind unless its removal failed. Without failing
    calls a complete stream of the declared size and digest is stored. *)
Theorem Write_crash_safe io now n id src size sum :
  (Z.of_nat (length (rd_data src)) < 2 ^ 63)%Z ->
  let '(r, n', trace) := Write io now n id src size sum in
  match RelativePath id with
  | None => r = Err ErrInvalidChunkID /\ n' = n /\ trace = []
  | Some p =>
      write_ok io now n p src size sum r n' trace /\
      (forall q, q <> p -> d_data (n_disk n') !! q = d_data (n_disk n) !! q) /\
      (io = no_faults -> sum = EmptyString \/ Valid sum = true -> accepted src size sum ->
       d_tmp (n_disk n) !! tempName (nextTemp (n_store n)) id = None -> exists res, r = Ok res)
  end.
Proof.
  intros Hlen. destruct (Write io now n id src size sum) as [[r n'] trace] eqn:E.
  destruct (RelativePath id) as [p|] eqn:Hp; [|unfold Write in E; rewrite Hp in E; naive_solver].
  pose proof (Write_ok io now n id src size sum p Hlen Hp) as Hw. rewrite E in Hw. split_and!; [done| |].
  - intros q Hq. pose proof (wo_trace _ _ _ _ _ _ _ _ _ _ Hw) as Ht. apply Forall_cons_1 in Ht as [[->|[-> _]] _]; [done|].
    by apply lookup_insert_ne.
  - intros -> Hv Ha Hn. destruct (Write_succeeds now n id src size sum p Hlen Hp Hv Ha Hn) as (res&?&?&E').
    rewrite E in E'. naive_solver.
Qed.

Definition sample_id : string := "8f1c9d3a-0b1c-4d2e-8f3a-000000000001".
Definition empty_node : node := mkNode (mkStore true 0 0 0 0 0) (mkDisk ∅ ∅).
Lemma Write_crash_safe_witness :
  exists res, (Write no_faults 0 empty_node sample_id (mkReader [x41] None) 1 (Sum [x41])).1.1 = Ok res.
Proof.
  pose proof (Write_crash_safe no_faults 0 empty_node sample_id (mkReader [x41] None) 1 (Sum [x41])) as H.
  destruct (Write no_faults 0 empty_node sample_id (mkReader [x41] None) 1 (Sum [x41])) as [[r n'] trace].
  destruct (H eq_refl) as (_&_&H'). apply H'; [reflexivity|right; apply Sum_valid|split_and!; done|reflexivity].
Defined.

(** ** Usage accounting *)

(** The bytes and the number of files the data directory really holds. *)
Definition disk_bytes (m : gmap path file) : Z := map_fold (fun _ f acc => file_size f + acc)%Z 0%Z m.
Definition disk_chunks (m : gmap path file) : Z := Z.of_nat (size m).
Definition usage_ok (n : node) : Prop :=
  cs_usedBytes (n_store n) = disk_bytes (d_data (n_disk n)) /\
  cs_chunkCount (n_store n) = disk_chunks (d_data (n_disk n)).

Lemma disk_bytes_insert m p f :
  disk_bytes (<[p := f]> m) = (file_size f + disk_bytes (delete p m))%Z.
Proof.
  unfold disk_bytes. rewrite <-insert_delete_eq. rewrite map_fold_insert_L; [done| |by apply lookup_delete_eq].
  intros; lia.
Qed.
Lemma disk_bytes_lookup m p f : m !! p = Some f -> disk_bytes m = (file_size f + disk_bytes (delete p m))%Z.
Proof. intros Hp. rewrite <-(insert_id m p f Hp) at 1. apply disk_bytes_insert. Qed.
Lemma disk_bytes_nonneg m : (0 <= disk_bytes m)%Z.
Proof.
  induction m as [|p f m Hp IH] using map_ind; [unfold disk_bytes; by rewrite map_fold_empty|].
  rewrite disk_bytes_insert, delete_id by done. unfold file_size. lia.
Qed.

(** What an overwrite of an existing file adds twice. *)
Definition overwritten (m : gmap path file) (p : path) : Z * Z :=
  match m !! p with Some f => (file_size f, 1%Z) | None => (0%Z, 0%Z) end.

Lemma addUsage_small cs b c :
  (0 <= cs_usedBytes cs + b < 2 ^ 63)%Z -> (0 <= cs_chunkCount cs + c < 2 ^ 63)%Z ->
  cs_usedBytes (addUsage cs b c) = (cs_usedBytes cs + b)%Z /\ cs_chunkCount (addUsage cs b c) = (cs_chunkCount cs + c)%Z.
Proof. intros Hb Hc. unfold addUsage. simpl. rewrite !int64_small by lia. by rewrite !decide_False by lia. Qed.

Lemma disk_chunks_insert m p f :
  (disk_chunks (<[p := f]> m) + (overwritten m p).2 = disk_chunks m + 1)%Z.
Proof.
  unfold disk_chunks, overwritten. destruct (m !! p) eqn:E; simpl.
  - rewrite map_size_insert_Some by eauto. lia.
  - rewrite map_size_insert_None by done. lia.
Qed.
Lemma disk_chunks_delete m p f : m !! p = Some f -> disk_chunks (delete p m) = (disk_chunks m - 1)%Z.
Proof.
  intros Hp. unfold disk_chunks. rewrite map_size_delete_Some by eauto.
  assert (size m <> 0)%nat by (intros Hz; apply map_size_empty_inv in Hz; by rewrite Hz in Hp). lia.
Qed.
Lemma disk_bytes_overwrite m p f :
  (disk_bytes (<[p := f]> m) + (overwritten m p).1 = disk_bytes m + file_size f)%Z.
Proof.
  rewrite disk_bytes_insert. unfold overwritten. destruct (m !! p) as [g|] eqn:E; simpl.
  - rewrite (disk_bytes_lookup m p g E). lia.
  - rewrite delete_id by done. lia.
Qed.

(** The counters after a write: moved by the bytes received and one chunk when
    it stored something, else as before. *)
Definition counters (n : node) : Z * Z := (cs_usedBytes (n_store n), cs_chunkCount (n_store n)).
Definition moved (n : node) (b c : Z) : Z * Z :=
  (cs_usedBytes (addUsage (n_store n) b c), cs_chunkCount (addUsage (n_store n) b c)).

Lemma Write_counters io now n id src size sum r n' trace :
  (Z.of_nat (length (rd_data src)) < 2 ^ 63)%Z ->
  Write io now n id src size sum = (r, n', trace) ->
  counters n' = match r with
                | Ok res => if AlreadyExisted res then counters n else moved n (Z.of_nat (length (rd_data src))) 1
                | Err _ => counters n
                end.
Proof.
  intros Hlen. unfold Write, write_temp, abandon. destruct (tee_new _ Hlen) as [-> ->].
  destruct (RelativePath id) as [p|]; [|by intros [= <- <- <-]].
  destruct (negb _ && _); [by intros [= <- <- <-]|].
  destruct (existing_copy io (n_disk n) p sum) as [res|] eqn:He.
  { apply existing_copy_ok in He as (Ha&_). intros [= <- <- <-]. by rewrite Ha. }
  repeat (case_match; try (intros [= <- <- <-]; reflexivity)).
Qed.

(** The usage counters are exact except for overwrites. On a node whose
    counters agree with its disk, a write that stores nothing and a deletion
    keep them exact. A write that stores a chunk leaves them too high by
    exactly the file it replaced, in bytes and in chunks; they stay exact when
    there was none. *)
Theorem usage_counts_overwrites_twice io now n id src size sum p :
  RelativePath id = Some p -> usage_ok n ->
  (disk_bytes (d_data (n_disk n)) + Z.of_nat (length (rd_data src)) < 2 ^ 63)%Z ->
  (disk_chunks (d_data (n_disk n)) + 1 < 2 ^ 63)%Z ->
  let '(r, n', _) := Write io now n id src size sum in
  (forall res, r = Ok res -> AlreadyExisted res = false ->
     cs_usedBytes (n_store n') =
       (disk_bytes (d_data (n_disk n')) + (overwritten (d_data (n_disk n)) p).1)%Z /\
     cs_chunkCount (n_store n') =
       (disk_chunks (d_data (n_disk n')) + (overwritten (d_data (n_disk n)) p).2)%Z) /\
  (forall res, r = Ok res -> AlreadyExisted res = true -> usage_ok n') /\
  (forall e, r = Err e -> e <> ErrIO SysSyncDir -> usage_ok n') /\
  usage_ok (Delete io n id).2.
Proof.
  intros Hp [Hu Hc] Hb Hk. pose proof (disk_bytes_nonneg (d_data (n_disk n))) as Hnn.
  assert (Z.of_nat (length (rd_data src)) < 2 ^ 63)%Z as Hlen by lia.
  pose proof (Write_ok io now n id src size sum p Hlen Hp) as Hw.
  destruct (Write io now n id src size sum) as [[r n'] trace] eqn:E.
  pose proof (Write_counters _ _ _ _ _ _ _ _ _ _ Hlen E) as Hcnt. destruct Hw as [_ _ Hres].
  split; [|split; [|split]].
  - intros res -> Hex. rewrite Hex in *. destruct Hres as (_&_&Hd&_). apply pair_equal_spec in Hcnt as [-> ->].
    destruct (addUsage_small (n_store n) (Z.of_nat (length (rd_data src))) 1) as [-> ->];
      [lia|unfold disk_chunks in *; lia|].
    rewrite Hd, Hu, Hc. unfold published. split.
    + rewrite disk_bytes_overwrite. unfold file_size. simpl. lia.
    + by rewrite disk_chunks_insert.
  - intros res -> Hex. rewrite Hex in *. by destruct Hres as (_&_&->).
  - intros e -> He. unfold usage_ok. apply pair_equal_spec in Hcnt as [-> ->].
    assert (d_data (n_disk n') = d_data (n_disk n)) as -> by (by destruct e as [| | |[]| | |]). by split.
  - unfold Delete. rewrite Hp. destruct (d_data (n_disk n) !! p) as [f|] eqn:Hf; [|by split].
    destruct (fails io SysStat); [by split|]. destruct (fails io SysRemove); [by split|]. cbn [snd].
    pose proof (disk_bytes_lookup _ _ _ Hf) as Hbf. pose proof (disk_bytes_nonneg (delete p (d_data (n_disk n)))) as Hnn'.
    pose proof (disk_chunks_delete _ _ _ Hf) as Hck.
    assert (0 <= disk_chunks (delete p (d_data (n_disk n))))%Z by (unfold disk_chunks; lia).
    unfold usage_ok. cbn [n_store n_disk d_data].
    destruct (addUsage_small (n_store n) (- file_size f) (-1)) as [-> ->]; unfold file_size in *; lia.
Qed.

(** A rotten copy of one byte is replaced: one chunk on disk, two counted. *)
Definition rotten_node : node :=
  mkNode (mkStore false 0 1 1 0 0) (mkDisk {[ ["8f"; "1c"; sample_id +:+ chunkSuffix] := mkFile [x00] 0 ]} ∅).
Lemma usage_counts_overwrites_twice_witness :
  cs_chunkCount (n_store (Write no_faults 0 rotten_node sample_id (mkReader [x41] None) 1 (Sum [x41])).1.2) = 2%Z.
Proof.
  pose proof (usage_counts_overwrites_twice no_faults 0 rotten_node sample_id (mkReader [x41] None) 1 (Sum [x41])
    ["8f"; "1c"; sample_id +:+ chunkSuffix]) as H.
  set (w := Write no_faults 0 rotten_node sample_id (mkReader [x41] None) 1 (Sum [x41])) in *.
  assert (w.1.1 = Ok (mkWriteResult 1 (Sum [x41]) false)) as Hr by (vm_compute; reflexivity).
  assert (disk_chunks (d_data (n_disk w.1.2)) = 1%Z) as Hc by (vm_compute; reflexivity).
  clearbody w. destruct w as [[r n'] trace]. cbn [fst snd] in *.
  destruct H as (H&_); [reflexivity|split; reflexivity|vm_compute; reflexivity|vm_compute; reflexivity|].
  destruct (H _ Hr eq_refl) as [_ ->]. rewrite Hc. vm_compute. reflexivity.
Defined.
