(* ===== verification/StorageService.v ===== *)
(** * The storage node's service (src/internal/storage/service.go)

    The gRPC handlers over the chunk store. A stream is the messages it
    delivers and the status it ends with. What the context, the peers and the
    transport do at each step are arguments. Metrics and logs are left out. *)

From Stdlib Require Import Strings.Byte.
From stdpp Require Import base numbers gmap strings list.
From S2P Require Import Prelude Chunking Checksum GoStrings ChunkStore.

(** gRPC status codes *)
Definition Canceled : Z := 1.
Definition InvalidArgument : Z := 3.
Definition NotFound : Z := 5.
Definition FailedPrecondition : Z := 9.
Definition Internal : Z := 13.
Definition Unavailable : Z := 14.

Definition streamFrameSize : nat := Pos.to_nat 262144.
(** io.Copy's buffer *)
Definition copyBuffer : nat := Pos.to_nat 32768.
Lemma streamFrameSize_pos : (0 < streamFrameSize)%nat.
Proof. apply Pos2Nat.is_pos. Qed.
Lemma copyBuffer_pos : (0 < copyBuffer)%nat.
Proof. apply Pos2Nat.is_pos. Qed.
#[global] Opaque streamFrameSize copyBuffer.

(** ** Streams as readers *)

Record ChunkHeader := mkHeader {
  h_ChunkId : string;
  h_SizeBytes : Z;
  h_ChecksumSha256 : string
}.
Inductive StoreChunkRequest :=
  | StoreHeader (h : ChunkHeader)
  | StoreData (data : bytes).

(** A stream to receive from: its messages, then EOF or an error. *)
Record stream (M : Type) := mkStream {
  st_msgs : list M;
  st_end : option string
}.
Arguments mkStream {M} _ _.
Arguments st_msgs {M} _.
Arguments st_end {M} _.

(** streamReader and readChunkReader: [payload] is the data of a message, or
    an error for one that must not occur. *)
Record streamReader (M : Type) := mkStreamReader {
  sr_stream : stream M;
  sr_buf : bytes;
  sr_done : bool
}.
Arguments mkStreamReader {M} _ _ _.
Arguments sr_stream {M} _.
Arguments sr_buf {M} _.
Arguments sr_done {M} _.

Inductive io_error := IoEOF | IoErr (e : string).

Section reader.
Context {M : Type} (payload : M -> result string bytes).

(** The loop that refills an empty buffer. *)
Fixpoint refill (msgs : list M) (fin : option string) : result io_error bytes * streamReader M :=
  match msgs with
  | [] =>
      match fin with
      | None => (Err IoEOF, mkStreamReader (mkStream [] fin) [] true)
      | Some e => (Err (IoErr e), mkStreamReader (mkStream [] fin) [] false)
      end
  | m :: msgs' =>
      match payload m with
      | Err e => (Err (IoErr e), mkStreamReader (mkStream msgs' fin) [] false)
      | Ok [] => refill msgs' fin
      | Ok data => (Ok data, mkStreamReader (mkStream msgs' fin) data false)
      end
  end.

(** Read into a buffer of [k] bytes. *)
Definition Read (k : nat) (r : streamReader M) : result io_error bytes * streamReader M :=
  let '(ready, r) :=
    match sr_buf r with
    | [] => if sr_done r then (Err IoEOF, r) else refill (st_msgs (sr_stream r)) (st_end (sr_stream r))
    | buf => (Ok buf, r)
    end in
  match ready with
  | Err e => (Err e, r)
  | Ok buf => (Ok (take k buf), mkStreamReader (sr_stream r) (drop k buf) (sr_done r))
  end.

(** io.Copy's loop with its buffer of [k] bytes: everything read, and the
    error that ended it. *)
Fixpoint copy_loop (fuel : nat) (k : nat) (r : streamReader M) : option Reader :=
  match fuel with
  | O => None
  | S fuel' =>
      match Read k r with
      | (Err IoEOF, _) => Some (mkReader [] None)
      | (Err (IoErr e), _) => Some (mkReader [] (Some (Fault e)))
      | (Ok data, r') =>
          match copy_loop fuel' k r' with
          | Some rest => Some (mkReader (data ++ rd_data rest) (rd_fail rest))
          | None => None
          end
      end
  end.

(** What a stream carries: the bytes up to its end or its first error. *)
Fixpoint carried (msgs : list M) (fin : option string) : Reader :=
  match msgs with
  | [] => mkReader [] (Fault <$> fin)
  | m :: msgs' =>
      match payload m with
      | Err e => mkReader [] (Some (Fault e))
      | Ok data => let rest := carried msgs' fin in mkReader (data ++ rd_data rest) (rd_fail rest)
      end
  end.

Lemma refill_carried msgs fin :
  match refill msgs fin with
  | (Ok data, r) =>
      data <> [] /\ sr_buf r = data /\ sr_done r = false /\
      (length (st_msgs (sr_stream r)) < length msgs)%nat /\
      let rest := carried (st_msgs (sr_stream r)) (st_end (sr_stream r)) in
      carried msgs fin = mkReader (data ++ rd_data rest) (rd_fail rest)
  | (Err IoEOF, _) => carried msgs fin = mkReader [] None
  | (Err (IoErr e), _) => carried msgs fin = mkReader [] (Some (Fault e))
  end.
Proof.
  induction msgs as [|m msgs IH]; simpl; [by destruct fin|].
  destruct (payload m) as [[|b data]|e]; simpl; [|split_and!; (done || lia)|done].
  destruct (refill msgs fin) as [[data|[|e]] r]; [|by rewrite IH..].
  destruct IH as (H1&H2&H3&H4&H5). split_and!; [done|done|done|lia|]. by rewrite H5.
Qed.

(** The reader's remaining work, and the copy it yields. *)
Lemma copy_loop_carried fuel k r :
  (0 < k)%nat -> sr_done r = false ->
  let ahead := carried (st_msgs (sr_stream r)) (st_end (sr_stream r)) in
  (length (sr_buf r) + length (rd_data ahead) < fuel)%nat ->
  copy_loop fuel k r = Some (mkReader (sr_buf r ++ rd_data ahead) (rd_fail ahead)).
Proof.
  intros Hk. revert r. induction fuel as [|fuel IH]; intros r Hd; simpl; [lia|]. intros Hf. unfold Read.
  destruct (sr_buf r) as [|b buf] eqn:Hb; simpl.
  - rewrite Hd. pose proof (refill_carried (st_msgs (sr_stream r)) (st_end (sr_stream r))) as Hr.
    destruct (refill _ _) as [[data|[|e]] r'] eqn:Er; [|by rewrite Hr..].
    destruct Hr as (Hne&Hbuf&Hd'&_&Hc). rewrite Hc in Hf |- *. simpl in Hf |- *. rewrite length_app in Hf.
    rewrite IH; simpl; [|done|].
    + by rewrite app_assoc, take_drop.
    + rewrite length_drop. destruct data; [done|simpl in *; lia].
  - rewrite IH; simpl; [|done|].
    + destruct k as [|k]; [lia|]. simpl. by rewrite app_assoc, take_drop.
    + destruct k as [|k]; [lia|]. simpl in *. rewrite length_drop. lia.
Qed.
End reader.

(** The source a handler gives to Write; the fuel is one more than the bytes. *)
Definition stream_source {M} (payload : M -> result string bytes) (st : stream M) : Reader :=
  let fuel := S (length (rd_data (carried payload (st_msgs st) (st_end st)))) in
  default (mkReader [] (Some (Fault "io.Copy"))) (copy_loop payload fuel copyBuffer (mkStreamReader st [] false)).
#[global] Arguments stream_source : simpl never.

Lemma stream_source_carried {M} (payload : M -> result string bytes) st :
  stream_source payload st = carried payload (st_msgs st) (st_end st).
Proof.
  unfold stream_source. rewrite copy_loop_carried; simpl; [by destruct (carried _ _ _)|apply copyBuffer_pos|done|lia].
Qed.

Definition store_payload (m : StoreChunkRequest) : result string bytes :=
  match m with
  | StoreHeader _ => Err "unexpected second header in StoreChunk stream"
  | StoreData data => Ok data
  end.

(** ** StoreChunk *)

Record StoreChunkResponse := mkStoreResponse {
  sc_ChunkId : string;
  sc_BytesWritten : Z;
  sc_ChecksumSha256 : string;
  sc_AlreadyExisted : bool
}.

Definition on_store (f : ChunkStore -> ChunkStore) (n : node) : node := mkNode (f (n_store n)) (n_disk n).

(** The status of a failed Write. *)
Definition write_status (e : chunk_error) : Z :=
  match e with ErrChecksum => FailedPrecondition | _ => Internal end.

Definition StoreChunk (io : faults) (now : Z) (n : node) (st : stream StoreChunkRequest) :
    result Z StoreChunkResponse * node :=
  let n := on_store BeginRequest n in
  let finish (r : result Z StoreChunkResponse) n := (r, on_store EndRequest n) in
  match st_msgs st with
  | [] => finish (Err (match st_end st with None => InvalidArgument | Some _ => Internal end)) n
  | StoreData _ :: _ => finish (Err InvalidArgument) n
  | StoreHeader h :: rest =>
      if negb (ValidateChunkID (h_ChunkId h)) then finish (Err InvalidArgument) n
      else if negb (String.eqb (h_ChecksumSha256 h) EmptyString) && negb (Valid (h_ChecksumSha256 h))
      then finish (Err InvalidArgument) n
      else
        let src := stream_source store_payload (mkStream rest (st_end st)) in
        match Write io now n (h_ChunkId h) src (h_SizeBytes h) (h_ChecksumSha256 h) with
        | (Err e, n, _) => finish (Err (write_status e)) n
        | (Ok res, n, _) =>
            finish (Ok (mkStoreResponse (h_ChunkId h) (BytesWritten res) (wr_Checksum res) (AlreadyExisted res))) n
        end
  end.

(** ** ReadChunk *)

(** What the transport does at each frame: whether the context is done before
    it, and whether sending it fails. *)
Record transport := mkTransport {
  tr_done : nat -> bool;
  tr_broken : nat -> bool
}.
Definition reliable : transport := mkTransport (fun _ => false) (fun _ => false).

(** The loop over an open file: the frames sent, and the hash and the byte
    count at the end of the file, or a status. *)
Fixpoint read_loop (fuel : nat) (io : faults) (tr : transport) (i : nat) (data : bytes) (h : hash) (sent : Z) :
    list bytes * result Z (hash * Z) :=
  match fuel with
  | O => ([], Err Internal)
  | S fuel' =>
      if tr_done tr i then ([], Err Canceled)
      else if fails io SysRead && (i =? short io)%nat then ([], Err Internal)
      else
        match take streamFrameSize data with
        | [] => ([], Ok (h, sent))
        | frame =>
            if tr_broken tr i then ([], Err Unavailable)
            else
              let '(frames, r) :=
                read_loop fuel' io tr (S i) (drop streamFrameSize data) (hash_Write h frame)
                  (int64 (sent + Z.of_nat (length frame))) in
              (frame :: frames, r)
        end
  end.

(** The frames of the response stream and its final status, [None] being OK. *)
Definition ReadChunk (io : faults) (tr : transport) (n : node) (chunkID expected : string) :
    list bytes * option Z * node :=
  let n := on_store BeginRequest n in
  let finish (frames : list bytes) (status : option Z) := (frames, status, on_store EndRequest n) in
  if negb (ValidateChunkID chunkID) then finish [] (Some InvalidArgument)
  else
    match Open io n chunkID with
    | Err ErrNotFound => finish [] (Some NotFound)
    | Err _ => finish [] (Some Internal)
    | Ok (data, size) =>
        let '(frames, r) := read_loop (S (length data)) io tr 0 data hash_New 0 in
        match r with
        | Err code => finish frames (Some code)
        | Ok (h, sent) =>
            let actual := Hex h in
            if negb (String.eqb expected EmptyString) &&
               match Verify chunkID expected actual with Ok _ => false | Err _ => true end
            then finish frames (Some FailedPrecondition)
            else if decide (sent <> size) then finish frames (Some Internal)
            else finish frames None
        end
    end.

(** ** The other handlers *)

Definition DeleteChunk (io : faults) (n : node) (chunkID : string) : result Z bool * node :=
  if negb (ValidateChunkID chunkID) then (Err InvalidArgument, n)
  else match Delete io n chunkID with
       | (Err _, n) => (Err Internal, n)
       | (Ok existed, n) => (Ok existed, n)
       end.

(** ReplicateChunk; [pull] is what dialling the source and opening its
    ReadChunk stream gives. *)
Definition ReplicateChunk (io : faults) (now : Z) (n : node) (chunkID sourceAddress : string) (sizeBytes : Z)
    (checksum : string) (pull : option (stream bytes)) : result Z (Z * bool) * node :=
  if negb (ValidateChunkID chunkID) then (Err InvalidArgument, n)
  else if String.eqb sourceAddress EmptyString then (Err InvalidArgument, n)
  else
    let n := on_store BeginRequest n in
    match pull with
    | None => (Err Unavailable, on_store EndRequest n)
    | Some st =>
        match Write io now n chunkID (stream_source Ok st) sizeBytes checksum with
        | (Err e, n, _) => (Err (write_status e), on_store EndRequest n)
        | (Ok res, n, _) => (Ok (BytesWritten res, AlreadyExisted res), on_store EndRequest n)
        end
    end.

Definition CheckChunk (io : faults) (n : node) (chunkID : string) (verify : bool) : result Z CheckResult :=
  if negb (ValidateChunkID chunkID) then Err InvalidArgument
  else match ChunkStore_Check io n chunkID verify with
       | Err _ => Err Internal
       | Ok res => Ok res
       end.

(** ListChunks: the batches sent. [stop i] ends the stream at batch [i] with
    a status. *)
Definition ListChunks `{FW : !FileWalk} (n : node) (gone : path -> bool) (batchSize : Z) (stop : nat -> option Z) :
    result Z (list (list InventoryEntry)) * node :=
  let n := on_store BeginRequest n in
  let batchSize := if decide (batchSize <= 0 \/ 10000 < batchSize)%Z then 1000%Z else batchSize in
  (WalkInventory (fun sent batch =>
     match stop (length sent) with Some code => Err code | None => Ok (sent ++ [batch]) end)
     (n_disk n) gone batchSize [],
   on_store EndRequest n).

(** ** Reading back *)

(** Whatever happens to the transport and the disk, the frames are a prefix of
    the file, and the loop reaches its end only after all of it. *)
Lemma read_loop_spec fuel io tr i data h sent :
  (length data < fuel)%nat -> (0 <= sent)%Z -> (sent + Z.of_nat (length data) < 2 ^ 63)%Z ->
  let '(frames, r) := read_loop fuel io tr i data h sent in
  concat frames `prefix_of` data /\
  Forall (fun f => 0 < length f <= streamFrameSize)%nat frames /\
  (forall h' sent', r = Ok (h', sent') ->
     concat frames = data /\ h' = h ++ data /\ sent' = (sent + Z.of_nat (length data))%Z).
Proof.
  revert i data h sent. induction fuel as [|fuel IH]; intros i data h sent Hf Hs Hl; cbn [read_loop]; [lia|].
  assert (forall code : Z, ([] : bytes) `prefix_of` data /\
    Forall (fun f : bytes => 0 < length f <= streamFrameSize)%nat [] /\
    (forall h' sent', @Err Z (hash * Z) code = Ok (h', sent') ->
       [] = data /\ h' = h ++ data /\ sent' = (sent + Z.of_nat (length data))%Z)) as Hstop.
  { intros code. split_and!; [apply prefix_nil|constructor|done]. }
  destruct (tr_done tr i); [apply Hstop|]. destruct (fails io SysRead && _); [apply Hstop|].
  pose proof streamFrameSize_pos as Hpos.
  destruct (take streamFrameSize data) as [|b frame] eqn:Ht.
  { assert (data = []) as -> by (destruct data; [done|]; destruct streamFrameSize; [lia|done]).
    split_and!; [done|constructor|]. intros h' sent' [= <- <-]. rewrite app_nil_r. simpl. split_and!; (done || lia). }
  destruct (tr_broken tr i); [apply Hstop|].
  assert (length (b :: frame) <= streamFrameSize /\ length (b :: frame) <= length data)%nat as [Hfl Hfd]
    by (rewrite <-Ht, length_take; lia).
  assert (length data = length (b :: frame) + length (drop streamFrameSize data))%nat as Hsplit
    by (rewrite <-Ht, <-length_app, take_drop; done).
  set (frame' := b :: frame) in *. assert (0 < length frame')%nat by (simpl; lia). clearbody frame'.
  specialize (IH (S i) (drop streamFrameSize data) (hash_Write h frame') (int64 (sent + Z.of_nat (length frame')))).
  rewrite int64_small in IH |- * by lia.
  destruct (read_loop fuel io tr (S i) _ _ _) as [frames r]. destruct IH as (IH1&IH2&IH3); [lia|lia|lia|].
  rewrite <-(take_drop streamFrameSize data) at 1. rewrite Ht. split_and!.
  - by apply prefix_app.
  - constructor; [lia|done].
  - intros h' sent' Hr. destruct (IH3 h' sent' Hr) as (E1&E2&E3). simpl. rewrite E1, E2, E3. split_and!.
    + by rewrite <-Ht, take_drop.
    + unfold hash_Write. by rewrite <-app_assoc, <-Ht, take_drop.
    + lia.
Qed.

Lemma read_loop_reliable fuel io i data h sent :
  (length data < fuel)%nat -> fails io SysRead = false ->
  exists h' sent', (read_loop fuel io reliable i data h sent).2 = Ok (h', sent').
Proof.
  intros Hf Hio. revert i data h sent Hf. induction fuel as [|fuel IH]; intros i data h sent Hf; cbn [read_loop]; [lia|].
  rewrite Hio. simpl. pose proof streamFrameSize_pos as Hpos.
  destruct (take streamFrameSize data) as [|b frame] eqn:Ht; [by eauto|].
  destruct (IH (S i) (drop streamFrameSize data) (hash_Write h (b :: frame))
    (int64 (sent + Z.of_nat (length (b :: frame))))) as (h'&sent'&Hr).
  { assert (length data <> 0)%nat by (destruct data; [by rewrite take_nil in Ht|done]). rewrite length_drop. lia. }
  destruct (read_loop fuel io reliable (S i) _ _ _) as [frames r]. simpl in *. eauto.
Qed.

(** A stream that ends well has sent the file. *)
Lemma read_loop_sends fuel io tr i data h sent frames x :
  (length data < fuel)%nat -> read_loop fuel io tr i data h sent = (frames, Ok x) -> concat frames = data.
Proof.
  revert i data h sent frames. induction fuel as [|fuel IH]; intros i data h sent frames Hf; cbn [read_loop]; [lia|].
  destruct (tr_done tr i); [intros [=]|]. destruct (fails io SysRead && _); [intros [=]|].
  pose proof streamFrameSize_pos as Hpos.
  destruct (take streamFrameSize data) as [|b frame] eqn:Ht.
  { intros [= <- _]. apply take_nil_inv in Ht as [Ht|Ht]; [lia|done]. }
  destruct (tr_broken tr i); [intros [=]|].
  assert (length (drop streamFrameSize data) < length data)%nat.
  { assert (0 < length (take streamFrameSize data))%nat as H by (rewrite Ht; simpl; lia). rewrite length_take in H. rewrite length_drop. lia. }
  destruct (read_loop fuel io tr (S i) _ _ _) as [frames' r] eqn:E. intros [= <- ->].
  apply IH in E; [|lia]. simpl. rewrite E. rewrite <-(take_drop streamFrameSize data) at 2. by rewrite Ht.
Qed.
#[global] Arguments read_loop : simpl never.

(** All files are smaller than 2^63 bytes. *)
Definition small_files (n : node) : Prop :=
  map_Forall (fun _ f => Z.of_nat (length (f_data f)) < 2 ^ 63)%Z (d_data (n_disk n)).

(** A stream that ends well carried the whole file with the expected digest;
    any stream is a prefix of the file, in frames of at most 256 KiB. *)
Lemma ReadChunk_spec io tr n id expected p f out status n' :
  RelativePath id = Some p -> d_data (n_disk n) !! p = Some f -> (Z.of_nat (length (f_data f)) < 2 ^ 63)%Z ->
  ReadChunk io tr n id expected = (out, status, n') ->
  concat out `prefix_of` f_data f /\ Forall (fun f => 0 < length f <= streamFrameSize)%nat out /\
  (status = None -> concat out = f_data f /\ (expected <> EmptyString -> Sum (f_data f) = expected)).
Proof.
  intros Hp Hf Hlen. unfold ReadChunk, Open. simpl. rewrite Hp, Hf.
  rewrite (proj1 (proj1 (RelativePath_spec id p) Hp)). simpl.
  destruct (fails io SysOpen); [intros [= <- <- <-]; split_and!; [apply prefix_nil|constructor|done]|].
  destruct (fails io SysStat); [intros [= <- <- <-]; split_and!; [apply prefix_nil|constructor|done]|].
  pose proof (read_loop_spec (S (length (f_data f))) io tr 0 (f_data f) hash_New 0) as Hr.
  destruct (read_loop _ io tr 0 (f_data f) hash_New 0) as [frames r]. destruct Hr as (R1&R2&R3); [lia..|].
  destruct r as [[h sent]|code]; [|by intros [= <- <- <-]]. destruct (R3 h sent eq_refl) as (E1&->&->). simpl.
  destruct (negb _ && _) eqn:Hv; [by intros [= <- <- <-]|]. case_decide; intros [= <- <- <-]; [done|].
  split_and!; [done|done|]. intros _. split; [done|]. intros Hne. apply String.eqb_neq in Hne. rewrite Hne in Hv. simpl in Hv.
  destruct (Verify id expected (Hex (f_data f))) as [[]|] eqn:V; [|done]. by apply Verify_ok in V.
Qed.

Lemma ReadChunk_sends io tr n id expected out n' :
  ReadChunk io tr n id expected = (out, None, n') ->
  exists p f, RelativePath id = Some p /\ d_data (n_disk n) !! p = Some f /\ concat out = f_data f.
Proof.
  unfold ReadChunk, Open. simpl. destruct (ValidateChunkID id); [|done]. simpl.
  destruct (RelativePath id) as [p|]; [|done]. destruct (d_data (n_disk n) !! p) as [f|] eqn:Hf; [|by destruct (fails io SysOpen)].
  destruct (fails io SysOpen); [done|]. destruct (fails io SysStat); [done|].
  destruct (read_loop _ io tr 0 (f_data f) hash_New 0) as [frames [[h sent]|code]] eqn:E; [|done].
  apply read_loop_sends in E; [|lia]. destruct (_ && _); [done|]. case_decide; [done|]. intros [= <- _]. eauto.
Qed.

Lemma ReadChunk_succeeds n id expected p f :
  RelativePath id = Some p -> d_data (n_disk n) !! p = Some f -> (Z.of_nat (length (f_data f)) < 2 ^ 63)%Z ->
  expected = EmptyString \/ Sum (f_data f) = expected ->
  (ReadChunk no_faults reliable n id expected).1.2 = None.
Proof.
  intros Hp Hf Hlen He. unfold ReadChunk, Open. simpl. rewrite Hp, Hf.
  rewrite (proj1 (proj1 (RelativePath_spec id p) Hp)). simpl.
  destruct (read_loop_reliable (S (length (f_data f))) no_faults 0 (f_data f) hash_New 0) as (h&sent&Hr); [lia|done|].
  pose proof (read_loop_spec (S (length (f_data f))) no_faults reliable 0 (f_data f) hash_New 0) as Hs.
  destruct (read_loop _ no_faults reliable 0 (f_data f) hash_New 0) as [frames r]. simpl in Hr. subst r.
  destruct Hs as (_&_&R3); [lia..|]. destruct (R3 h sent eq_refl) as (_&->&->). simpl.
  assert (negb (String.eqb expected EmptyString) &&
    match Verify id expected (Hex (f_data f)) with Ok _ => false | Err _ => true end = false) as ->.
  { destruct He as [->|He]; [done|]. by rewrite (proj2 (Verify_ok id expected (Hex (f_data f)))), andb_false_r. }
  by rewrite decide_False by (unfold file_size; lia).
Qed.

Lemma carried_data frames : carried store_payload (StoreData <$> frames) None = mkReader (concat frames) None.
Proof. induction frames as [|f frames IH]; [done|]. rewrite fmap_cons. cbn [carried store_payload]. by rewrite IH. Qed.
Lemma carried_frames frames : carried Ok frames None = mkReader (concat frames) None.
Proof. induction frames as [|f frames IH]; [done|]. simpl. by rewrite IH. Qed.

(** What an accepted write leaves behind: a file with the expected digest, the
    received bytes unless a copy was there. *)
Lemma Write_stores io now n id data sum size res n' trace :
  (Z.of_nat (length data) < 2 ^ 63)%Z -> sum <> EmptyString -> small_files n ->
  Write io now n id (mkReader data None) size sum = (Ok res, n', trace) ->
  exists p f, RelativePath id = Some p /\ d_data (n_disk n') !! p = Some f /\ Sum (f_data f) = sum /\
    (Z.of_nat (length (f_data f)) < 2 ^ 63)%Z /\ (AlreadyExisted res = false -> f_data f = data) /\
    BytesWritten res = file_size f /\ wr_Checksum res = sum /\ small_files n'.
Proof.
  intros Hlen Hne Hsm Hw. destruct (RelativePath id) as [p|] eqn:Hp; [|unfold Write in Hw; by rewrite Hp in Hw].
  pose proof (Write_ok io now n id (mkReader data None) size sum p Hlen Hp) as Ho. rewrite Hw in Ho.
  destruct Ho as [_ _ ((f&Hf&Hb&Hc)&Hs&Hex)]. exists p, f. rewrite (Hs Hne) in Hc.
  destruct (AlreadyExisted res).
  - subst n'. split_and!; try done; [by apply (Hsm p)|by apply Hs].
  - destruct Hex as [Hd _]. rewrite Hd in Hf. unfold published in Hf. rewrite lookup_insert_eq in Hf. injection Hf as <-.
    split_and!; try done; [by rewrite Hd; apply lookup_insert_eq|by apply Hs|].
    unfold small_files. rewrite Hd. by apply map_Forall_insert_2.
Qed.

Lemma on_store_disk f n : n_disk (on_store f n) = n_disk n.
Proof. done. Qed.

Lemma StoreChunk_stores io now n h frames resp n' :
  (Z.of_nat (length (concat frames)) < 2 ^ 63)%Z -> h_ChecksumSha256 h = Sum (concat frames) -> small_files n ->
  StoreChunk io now n (mkStream (StoreHeader h :: (StoreData <$> frames)) None) = (Ok resp, n') ->
  exists p f, RelativePath (h_ChunkId h) = Some p /\ d_data (n_disk n') !! p = Some f /\
    Sum (f_data f) = Sum (concat frames) /\ (Z.of_nat (length (f_data f)) < 2 ^ 63)%Z /\
    (sc_AlreadyExisted resp = false -> f_data f = concat frames) /\
    sc_BytesWritten resp = file_size f /\ sc_ChecksumSha256 resp = Sum (concat frames) /\ small_files n'.
Proof.
  intros Hlen Hsum Hsm. unfold StoreChunk. cbn [st_msgs st_end]. rewrite stream_source_carried. cbn [st_msgs st_end]. rewrite carried_data, Hsum.
  destruct (negb (ValidateChunkID _)); [done|]. destruct (negb _ && _); [done|].
  destruct (Write _ _ _ _ _ _ _) as [[[res|e] n1] trace] eqn:Hw; [|done]. intros [= <- <-]. simpl.
  apply Write_stores in Hw as (p&f&Hp&Hf&Hs&Hl&He&Hb&Hc&Hsm'); [|done| |done].
  - exists p, f. by split_and!.
  - intros E. pose proof (Sum_valid (concat frames)) as Hv. by rewrite E in Hv.
Qed.

(** What a node acknowledges it can read back. If StoreChunk acknowledges a
    stream of data frames under the digest of their bytes, whatever system calls
    failed before, the node holds a file with that digest: the bytes sent,
    unless a copy with the same digest was there. Every later ReadChunk of it
    sends a prefix of the file in frames of at most 256 KiB and ends with
    status OK only after all of it; on a working node it does end with OK. And
    no file with another digest is ever read with status OK. *)
Theorem store_read_roundtrip io now n h frames resp n' :
  (Z.of_nat (length (concat frames)) < 2 ^ 63)%Z -> h_ChecksumSha256 h = Sum (concat frames) -> small_files n ->
  StoreChunk io now n (mkStream (StoreHeader h :: (StoreData <$> frames)) None) = (Ok resp, n') ->
  exists stored,
    Sum stored = Sum (concat frames) /\ (sc_AlreadyExisted resp = false -> stored = concat frames) /\
    sc_BytesWritten resp = Z.of_nat (length stored) /\ sc_ChecksumSha256 resp = Sum (concat frames) /\
    (forall io' tr, let '(out, status, _) := ReadChunk io' tr n' (h_ChunkId h) (Sum (concat frames)) in
       concat out `prefix_of` stored /\ Forall (fun f => 0 < length f <= streamFrameSize)%nat out /\
       (status = None -> concat out = stored)) /\
    (ReadChunk no_faults reliable n' (h_ChunkId h) (Sum (concat frames))).1.2 = None /\
    (forall io' tr expected, expected <> EmptyString -> expected <> Sum stored ->
       (ReadChunk io' tr n' (h_ChunkId h) expected).1.2 <> None).
Proof.
  intros Hlen Hsum Hsm Hs.
  destruct (StoreChunk_stores _ _ _ _ _ _ _ Hlen Hsum Hsm Hs) as (p&f&Hp&Hf&Hd&Hl&Hex&Hb&Hc&_).
  exists (f_data f). split_and!; [done|done|done|done| | |].
  - intros io' tr. destruct (ReadChunk io' tr n' _ _) as [[out status] n2] eqn:Hr.
    destruct (ReadChunk_spec _ _ _ _ _ _ _ _ _ _ Hp Hf Hl Hr) as (H1&H2&H3). split_and!; [done|done|]. intros Hn. by apply H3.
  - eapply ReadChunk_succeeds; eauto.
  - intros io' tr expected Hne Hdiff Hn. destruct (ReadChunk io' tr n' _ _) as [[out status] n2] eqn:Hr.
    destruct (ReadChunk_spec _ _ _ _ _ _ _ _ _ _ Hp Hf Hl Hr) as (_&_&H3). simpl in Hn.
    destruct (H3 Hn) as [_ He]. by rewrite (He Hne) in Hdiff.
Qed.

Lemma store_read_roundtrip_witness :
  exists stored n', Sum stored = Sum [x41; x42] /\
    (ReadChunk no_faults reliable n' sample_id (Sum [x41; x42])).1.2 = None.
Proof.
  set (w := StoreChunk no_faults 0 empty_node
    (mkStream (StoreHeader (mkHeader sample_id 2 (Sum [x41; x42])) :: (StoreData <$> [[x41]; [x42]])) None)).
  assert (w.1 = Ok (mkStoreResponse sample_id 2 (Sum [x41; x42]) false)) as Hr by (vm_compute; reflexivity).
  pose proof (store_read_roundtrip no_faults 0 empty_node (mkHeader sample_id 2 (Sum [x41; x42])) [[x41]; [x42]]
    (mkStoreResponse sample_id 2 (Sum [x41; x42]) false) w.2) as H.
  destruct H as (stored&H1&_&_&_&_&H2&_).
  - vm_compute. reflexivity.
  - reflexivity.
  - apply map_Forall_empty.
  - rewrite <-Hr. apply surjective_pairing.
  - exists stored, w.2. split; [exact H1|exact H2].
Defined.
