(* ===== verification/ChunkWriter.v ===== *)
(** * Writing a chunk to its replicas (src/internal/gateway/chunkwriter.go)

    The gateway's fan-out of one chunk to storage nodes that run the chunk
    store. The cluster is the nodes by their addresses. What the network does
    to one call, and which system calls fail on the node, is a [link]; the
    goroutines finish in any order. *)

From Stdlib Require Import Strings.Byte.
From stdpp Require Import base numbers gmap strings list.
From S2P Require Import Prelude Chunking Checksum GoStrings RangeReq ChunkStore StorageService.

Definition frameSize : nat := Pos.to_nat 262144.
Lemma frameSize_pos : (0 < frameSize)%nat.
Proof. apply Pos2Nat.is_pos. Qed.
#[global] Opaque frameSize.

(** One call to a node: whether dialling works, how many messages arrive before
    the connection breaks (all of them without [None]), whether the response is
    lost, and the node's faults and clock. *)
Record link := mkLink {
  ln_up : bool;
  ln_arrived : option nat;
  ln_ack_lost : bool;
  ln_io : faults;
  ln_now : Z
}.
Definition good_link : link := mkLink true None false no_faults 0.

Abbreviation cluster := (gmap string node).

(** The data frames of the send loop; a frame is not empty, so the length of
    the data is fuel enough. *)
Fixpoint frames_from (fuel : nat) (data : bytes) : list bytes :=
  match fuel with
  | O => []
  | S fuel' =>
      match data with
      | [] => []
      | _ => take frameSize data :: frames_from fuel' (drop frameSize data)
      end
  end.
Definition frames_of (data : bytes) : list bytes := frames_from (length data) data.
Definition chunk_messages (chunkID : string) (data : bytes) (sha256Hex : string) : list StoreChunkRequest :=
  StoreHeader (mkHeader chunkID (Z.of_nat (length data)) sha256Hex) :: (StoreData <$> frames_of data).

Inductive write_error :=
  | WriteUnreachable
  | WriteSend
  | WriteStatus (code : Z)
  | WriteShort
  | WriteDigest.

Definition writeOne (nodes : cluster) (ln : link) (target : NodeInfo) (chunkID : string) (data : bytes)
    (sha256Hex : string) : result write_error unit * cluster :=
  let addr := ni_GrpcAddress target in
  match nodes !! addr with
  | None => (Err WriteUnreachable, nodes)
  | Some n =>
      if negb (ln_up ln) then (Err WriteUnreachable, nodes)
      else
        let msgs := chunk_messages chunkID data sha256Hex in
        match ln_arrived ln with
        | Some k =>
            let '(_, n') := StoreChunk (ln_io ln) (ln_now ln) n (mkStream (take k msgs) (Some "transport is closing")) in
            (Err WriteSend, <[addr := n']> nodes)
        | None =>
            let '(r, n') := StoreChunk (ln_io ln) (ln_now ln) n (mkStream msgs None) in
            let nodes := <[addr := n']> nodes in
            if ln_ack_lost ln then (Err (WriteStatus Unavailable), nodes)
            else
              match r with
              | Err code => (Err (WriteStatus code), nodes)
              | Ok resp =>
                  if decide (sc_BytesWritten resp <> Z.of_nat (length data)) then (Err WriteShort, nodes)
                  else if negb (String.eqb (sc_ChecksumSha256 resp) sha256Hex) then (Err WriteDigest, nodes)
                  else (Ok tt, nodes)
              end
        end
  end.

(** The gateway's WriteResult. *)
Record FanoutResult := mkFanout {
  Succeeded : list string;
  Failed : list string
}.

(** The goroutines in the order they finish. *)
Fixpoint write_all (nodes : cluster) (links : string -> link) (chunkID : string) (data : bytes) (sha256Hex : string)
    (targets : list NodeInfo) (res : FanoutResult) : FanoutResult * cluster :=
  match targets with
  | [] => (res, nodes)
  | t :: targets' =>
      let '(r, nodes) := writeOne nodes (links (ni_GrpcAddress t)) t chunkID data sha256Hex in
      let res := match r with
                 | Ok _ => mkFanout (Succeeded res ++ [ni_NodeId t]) (Failed res)
                 | Err _ => mkFanout (Succeeded res) (Failed res ++ [ni_NodeId t])
                 end in
      write_all nodes links chunkID data sha256Hex targets' res
  end.

Inductive durability_error := ErrDurability.

(** Write; [order] is the order in which the goroutines finish. The result is
    returned with the error, too. *)
Definition ChunkWriter_Write (nodes : cluster) (links : string -> link) (order : list NodeInfo -> list NodeInfo)
    (chunkID : string) (data : bytes) (sha256Hex : string) (targets : list NodeInfo) (minReplicas : Z) :
    FanoutResult * option durability_error * cluster :=
  if decide (length targets = 0)%nat then (mkFanout [] [], Some ErrDurability, nodes)
  else
    let '(res, nodes) := write_all nodes links chunkID data sha256Hex (order targets) (mkFanout [] []) in
    if decide (Z.of_nat (length (Succeeded res)) < minReplicas)%Z then (res, Some ErrDurability, nodes)
    else (res, None, nodes).

(** ** Acknowledged copies are stored *)

Lemma frames_from_concat fuel data : (length data <= fuel)%nat -> concat (frames_from fuel data) = data.
Proof.
  pose proof frameSize_pos as Hpos. revert data. induction fuel as [|fuel IH]; intros data Hf; simpl.
  { destruct data; [done|simpl in Hf; lia]. }
  destruct data as [|b data]; [done|]. cbn [concat]. rewrite IH; [by rewrite take_drop|].
  rewrite length_drop. simpl in *. lia.
Qed.
Lemma frames_of_concat data : concat (frames_of data) = data.
Proof. by apply frames_from_concat. Qed.

Lemma frames_of_size data : Forall (fun f => 0 < length f <= frameSize)%nat (frames_of data).
Proof.
  pose proof frameSize_pos as Hpos. unfold frames_of. generalize (length data) at 1. intros fuel. revert data.
  induction fuel as [|fuel IH]; intros data; simpl; [constructor|]. destruct data as [|b data]; [constructor|].
  constructor; [|apply IH]. rewrite length_take. simpl. lia.
Qed.

(** A node holds a chunk with the given digest and length. *)
Definition holds (n : node) (chunkID : string) (size : Z) (sum : string) : Prop :=
  exists p f, RelativePath chunkID = Some p /\ d_data (n_disk n) !! p = Some f /\
    Sum (f_data f) = sum /\ file_size f = size.

(** A node that took part in writes of one chunk: every file is as before,
    except that the chunk's own may now be a complete copy. *)
Definition stores (chunkID : string) (size : Z) (sum : string) (n n' : node) : Prop :=
  forall q, d_data (n_disk n') !! q = d_data (n_disk n) !! q \/
    RelativePath chunkID = Some q /\ holds n' chunkID size sum.

#[export] Instance stores_preorder chunkID size sum : PreOrder (stores chunkID size sum).
Proof.
  split; [intros n q; by left|]. intros n1 n2 n3 H12 H23 q.
  destruct (H23 q) as [E3|?]; [|by right]. rewrite E3.
  destruct (H12 q) as [E2|[Hq (p&f&Hp&Hf&?&?)]]; [by left|right]. split; [done|].
  rewrite Hp in Hq. injection Hq as ->. exists q, f. by rewrite E3.
Qed.

Lemma stores_holds id size sum n n' : stores id size sum n n' -> holds n id size sum -> holds n' id size sum.
Proof.
  intros Hs (p&f&Hp&Hf&?&?). destruct (Hs p) as [E|[_ ?]]; [|done]. exists p, f. by rewrite E.
Qed.

Lemma stores_same_disk id size sum n n' : n_disk n' = n_disk n -> stores id size sum n n'.
Proof. intros E q. left. by rewrite E. Qed.

Lemma Write_stores_copy io now n id src size sum :
  (Z.of_nat (length (rd_data src)) < 2 ^ 63)%Z -> sum <> EmptyString -> (0 <= size)%Z ->
  let '(r, n', _) := Write io now n id src size sum in
  stores id size sum n n' /\
  (forall res, r = Ok res ->
     wr_Checksum res = sum /\ (BytesWritten res = size -> holds n' id size sum)).
Proof.
  intros Hlen Hne Hsize. destruct (Write io now n id src size sum) as [[r n'] trace] eqn:E.
  destruct (RelativePath id) as [p|] eqn:Hp.
  2: { unfold Write in E. rewrite Hp in E. injection E as <- <- <-. split; [reflexivity|done]. }
  pose proof (Write_ok io now n id src size sum p Hlen Hp) as Hw. rewrite E in Hw.
  destruct Hw as [Ht _ Hr]. split.
  - apply Forall_cons_1 in Ht as [[Hd|[Hd (_&Hs&Hc)]] _]; intros q; rewrite Hd; [by left|].
    unfold published. destruct (decide (q = p)) as [->|]; [|left; by rewrite lookup_insert_ne].
    right. split; [done|]. exists p, (mkFile (rd_data src) now). rewrite Hd. unfold published. rewrite lookup_insert_eq.
    split_and!; [done|done|by apply Hc|by apply Hs].
  - intros res ->. destruct Hr as ((f&Hf&Hb&Hc)&Hs&_). split; [by apply Hs|]. intros <-. exists p, f.
    split_and!; [done|done|by rewrite <-Hc, Hs|done].
Qed.

Lemma carried_prefix k frames fin :
  exists data, rd_data (carried store_payload (take k (StoreData <$> frames)) fin) = data /\
    (length data <= length (concat frames))%nat.
Proof.
  eexists; split; [done|]. revert k. induction frames as [|f frames IH]; intros [|k]; try (simpl; lia).
  rewrite fmap_cons. cbn [take carried store_payload rd_data concat]. rewrite !length_app. specialize (IH k). lia.
Qed.

(** StoreChunk on the messages that arrived. *)
Lemma StoreChunk_stores_copy io now n id data sum k fin :
  (Z.of_nat (length data) < 2 ^ 63)%Z -> sum <> EmptyString ->
  let '(r, n') := StoreChunk io now n (mkStream (take k (chunk_messages id data sum)) fin) in
  stores id (Z.of_nat (length data)) sum n n' /\
  (forall resp, r = Ok resp ->
     sc_BytesWritten resp = Z.of_nat (length data) -> holds n' id (Z.of_nat (length data)) sum).
Proof.
  intros Hlen Hne. unfold StoreChunk, chunk_messages. cbn [st_msgs st_end].
  destruct k as [|k]; cbn [take]; [split; [by apply stores_same_disk|done]|]. cbn [h_ChunkId h_ChecksumSha256 h_SizeBytes].
  destruct (negb (ValidateChunkID id)); [split; [by apply stores_same_disk|done]|].
  destruct (negb _ && _); [split; [by apply stores_same_disk|done]|].
  rewrite stream_source_carried. cbn [st_msgs st_end].
  destruct (carried_prefix k (frames_of data) fin) as (got&Hgot&Hl). rewrite frames_of_concat in Hl.
  pose proof (Write_stores_copy io now (on_store BeginRequest n) id
    (carried store_payload (take k (StoreData <$> frames_of data)) fin) (Z.of_nat (length data)) sum) as Hw.
  destruct (Write _ _ _ _ _ _ _) as [[r n'] trace]. rewrite Hgot in Hw. destruct Hw as [Hs Hr]; [lia|done|lia|].
  assert (stores id (Z.of_nat (length data)) sum n (on_store EndRequest n')) as Hs'.
  { intros q. destruct (Hs q) as [H|H]; [by left|by right]. }
  destruct r as [res|e]; (split; [done|]); [|done]. intros resp [= <-]. simpl. intros Hb. by apply (Hr res).
Qed.

(** Without a cut all messages arrive. *)
Lemma StoreChunk_all_messages io now n id data sum :
  StoreChunk io now n (mkStream (chunk_messages id data sum) None) =
  StoreChunk io now n (mkStream (take (length (chunk_messages id data sum)) (chunk_messages id data sum)) None).
Proof. by rewrite firstn_all. Qed.

(** A node on which nothing stands in the way of storing the chunk: no
    temporary file of the name to be used, no file of another length under the
    same digest. *)
Definition ready (n : node) (chunkID : string) (data : bytes) : Prop :=
  d_tmp (n_disk n) !! tempName (nextTemp (n_store n)) chunkID = None /\
  forall p f, RelativePath chunkID = Some p -> d_data (n_disk n) !! p = Some f -> Sum (f_data f) = Sum data ->
    length (f_data f) = length data.

Lemma StoreChunk_ready now n id data :
  ValidateChunkID id = true -> (Z.of_nat (length data) < 2 ^ 63)%Z -> ready n id data ->
  exists resp n', StoreChunk no_faults now n (mkStream (chunk_messages id data (Sum data)) None) = (Ok resp, n') /\
    sc_BytesWritten resp = Z.of_nat (length data) /\ sc_ChecksumSha256 resp = Sum data.
Proof.
  intros Hid Hlen [Htmp Hother]. assert (Sum data <> EmptyString) as Hne.
  { intros E. pose proof (Sum_valid data) as Hv. by rewrite E in Hv. }
  assert (exists p, RelativePath id = Some p) as [p Hp] by (unfold RelativePath; rewrite Hid; eauto).
  destruct (Write_succeeds now (on_store BeginRequest n) id (mkReader data None) (Z.of_nat (length data)) (Sum data) p)
    as (res&n'&trace&Hw); [done|done|right; apply Sum_valid|by split_and!|done|].
  unfold StoreChunk, chunk_messages. cbn [st_msgs st_end h_ChunkId h_ChecksumSha256 h_SizeBytes]. rewrite Hid, Sum_valid.
  rewrite andb_false_r. cbn [negb]. rewrite stream_source_carried. cbn [st_msgs st_end].
  rewrite carried_data, frames_of_concat, Hw. eexists _, _. split; [done|]. simpl.
  pose proof (Write_ok no_faults now (on_store BeginRequest n) id (mkReader data None) (Z.of_nat (length data)) (Sum data) p
    Hlen Hp) as Hok. rewrite Hw in Hok. destruct (wo_result _ _ _ _ _ _ _ _ _ _ Hok) as ((f&Hf&Hb&Hc)&Hs&Hex).
  specialize (Hs Hne). split; [|done]. rewrite Hb. unfold file_size. f_equal.
  destruct (AlreadyExisted res).
  - subst n'. apply (Hother p); [done|done|congruence].
  - destruct Hex as [Hd _]. rewrite Hd in Hf. unfold published in Hf. rewrite lookup_insert_eq in Hf. by injection Hf as <-.
Qed.

(** ** One replica *)

(** The cluster while one chunk is written. *)
Definition cluster_stores (chunkID : string) (size : Z) (sum : string) (nodes nodes' : cluster) : Prop :=
  forall addr, option_Forall2 (stores chunkID size sum) (nodes !! addr) (nodes' !! addr).

#[export] Instance cluster_stores_preorder chunkID size sum : PreOrder (cluster_stores chunkID size sum).
Proof.
  split; [intros nodes addr; reflexivity|]. intros n1 n2 n3 H12 H23 addr.
  specialize (H12 addr). specialize (H23 addr).
  destruct H12 as [x y Hxy|]; [|done]. inversion H23; subst; constructor. by etrans.
Qed.

Lemma cluster_stores_insert id size sum nodes addr n n' :
  nodes !! addr = Some n -> stores id size sum n n' -> cluster_stores id size sum nodes (<[addr := n']> nodes).
Proof.
  intros Hn Hs a. destruct (decide (a = addr)) as [->|Ha].
  - rewrite lookup_insert_eq, Hn. by constructor.
  - rewrite lookup_insert_ne by done. reflexivity.
Qed.

(** The node at an address holds the chunk. *)
Definition holds_at (nodes : cluster) (addr chunkID : string) (size : Z) (sum : string) : Prop :=
  exists n, nodes !! addr = Some n /\ holds n chunkID size sum.

Lemma holds_at_mono nodes nodes' addr id size sum :
  cluster_stores id size sum nodes nodes' -> holds_at nodes addr id size sum -> holds_at nodes' addr id size sum.
Proof.
  intros Hc (n&Hn&Hh). specialize (Hc addr). rewrite Hn in Hc. inversion Hc as [? n' Hs Heq1 Heq2|]; subst.
  exists n'. split; [done|by eapply stores_holds].
Qed.

Lemma writeOne_spec nodes ln t id data sum :
  (Z.of_nat (length data) < 2 ^ 63)%Z -> sum <> EmptyString ->
  let '(r, nodes') := writeOne nodes ln t id data sum in
  cluster_stores id (Z.of_nat (length data)) sum nodes nodes' /\
  (forall addr, addr <> ni_GrpcAddress t -> nodes' !! addr = nodes !! addr) /\
  (r = Ok tt -> holds_at nodes' (ni_GrpcAddress t) id (Z.of_nat (length data)) sum).
Proof.
  intros Hlen Hne. unfold writeOne. destruct (nodes !! ni_GrpcAddress t) as [n|] eqn:Hn; [|split_and!; (done || reflexivity)].
  destruct (ln_up ln); simpl; [|split_and!; (done || reflexivity)].
  destruct (ln_arrived ln) as [k|].
  - pose proof (StoreChunk_stores_copy (ln_io ln) (ln_now ln) n id data sum k (Some "transport is closing") Hlen Hne) as Hs.
    destruct (StoreChunk _ _ _ _) as [r n']. destruct Hs as [Hs _].
    split_and!; [by eapply cluster_stores_insert|by intros; apply lookup_insert_ne|done].
  - rewrite StoreChunk_all_messages.
    pose proof (StoreChunk_stores_copy (ln_io ln) (ln_now ln) n id data sum (length (chunk_messages id data sum)) None
      Hlen Hne) as Hs.
    destruct (StoreChunk _ _ _ _) as [r n']. destruct Hs as [Hs Hh].
    assert (cluster_stores id (Z.of_nat (length data)) sum nodes (<[ni_GrpcAddress t := n']> nodes)) as Hc
      by (by eapply cluster_stores_insert).
    assert (forall addr, addr <> ni_GrpcAddress t -> <[ni_GrpcAddress t := n']> nodes !! addr = nodes !! addr) as Ho
      by (intros; by apply lookup_insert_ne).
    destruct (ln_ack_lost ln); [by split_and!|]. destruct r as [resp|]; [|by split_and!]. case_decide; [by split_and!|].
    destruct (negb _); split_and!; try done. intros _. exists n'. split; [apply lookup_insert_eq|].
    apply (Hh resp); [done|lia].
Qed.

(** A target that can be reached and can store the chunk. *)
Definition working (nodes : cluster) (ln : link) (t : NodeInfo) (chunkID : string) (data : bytes) : Prop :=
  ln_up ln = true /\ ln_arrived ln = None /\ ln_ack_lost ln = false /\ ln_io ln = no_faults /\
  exists n, nodes !! ni_GrpcAddress t = Some n /\ ready n chunkID data.

Lemma writeOne_working nodes ln t id data :
  ValidateChunkID id = true -> (Z.of_nat (length data) < 2 ^ 63)%Z -> working nodes ln t id data ->
  (writeOne nodes ln t id data (Sum data)).1 = Ok tt.
Proof.
  intros Hid Hlen (Hup&Harr&Hack&Hio&n&Hn&Hr). unfold writeOne. rewrite Hn, Hup, Harr, Hack, Hio. simpl.
  destruct (StoreChunk_ready (ln_now ln) n id data Hid Hlen Hr) as (resp&n'&->&Hb&Hc).
  rewrite decide_False by lia. by rewrite Hc, String.eqb_refl.
Qed.

(** ** The fan-out *)

Record fanout_ok (nodes : cluster) (links : string -> link) (id : string) (data : bytes) (sum : string)
    (targets : list NodeInfo) (ok bad : list string) (nodes' : cluster) : Prop := {
  fo_cluster : cluster_stores id (Z.of_nat (length data)) sum nodes nodes';
  fo_others : forall addr, addr ∉ (ni_GrpcAddress <$> targets) -> nodes' !! addr = nodes !! addr;
  fo_once : ok ++ bad ≡ₚ ni_NodeId <$> targets;
  fo_held : Forall (fun nodeID => exists t, t ∈ targets /\ ni_NodeId t = nodeID /\
              holds_at nodes' (ni_GrpcAddress t) id (Z.of_nat (length data)) sum) ok;
  fo_live : NoDup (ni_GrpcAddress <$> targets) -> ValidateChunkID id = true -> sum = Sum data ->
              forall t, t ∈ targets -> working nodes (links (ni_GrpcAddress t)) t id data -> ni_NodeId t ∈ ok
}.

Lemma fanout_ok_cons nodes links id data sum t targets ok bad nodes1 nodes2 :
  cluster_stores id (Z.of_nat (length data)) sum nodes nodes1 ->
  (forall addr, addr <> ni_GrpcAddress t -> nodes1 !! addr = nodes !! addr) ->
  fanout_ok nodes1 links id data sum targets ok bad nodes2 ->
  cluster_stores id (Z.of_nat (length data)) sum nodes nodes2 /\
  (forall addr, addr ∉ (ni_GrpcAddress <$> t :: targets) -> nodes2 !! addr = nodes !! addr) /\
  Forall (fun nodeID => exists t', t' ∈ t :: targets /\ ni_NodeId t' = nodeID /\
    holds_at nodes2 (ni_GrpcAddress t') id (Z.of_nat (length data)) sum) ok /\
  (NoDup (ni_GrpcAddress <$> t :: targets) -> ValidateChunkID id = true -> sum = Sum data ->
   forall t', t' ∈ targets -> working nodes (links (ni_GrpcAddress t')) t' id data -> ni_NodeId t' ∈ ok).
Proof.
  intros Hc Ho [Hc' Ho' _ Hh Hl]. split_and!.
  - by etrans.
  - intros addr. rewrite fmap_cons, not_elem_of_cons. intros [H1 H2]. by rewrite Ho', Ho.
  - eapply Forall_impl; [exact Hh|]. intros nodeID (t'&Ht'&?&?). exists t'. split_and!; [by right|done|done].
  - intros Hnd Hid Hsum t' Ht' (?&?&?&?&n&Hn&?). rewrite fmap_cons in Hnd. apply NoDup_cons in Hnd as [Hnin Hnd].
    apply Hl; [done..|]. split_and!; [done..|]. exists n. split; [|done]. rewrite Ho; [done|].
    intros E. apply Hnin. rewrite <-E. by apply list_elem_of_fmap_2.
Qed.

Lemma write_all_ok nodes links id data sum targets res :
  (Z.of_nat (length data) < 2 ^ 63)%Z -> sum <> EmptyString ->
  let '(res', nodes') := write_all nodes links id data sum targets res in
  exists ok bad, Succeeded res' = Succeeded res ++ ok /\ Failed res' = Failed res ++ bad /\
    fanout_ok nodes links id data sum targets ok bad nodes'.
Proof.
  intros Hlen Hne. revert nodes res. induction targets as [|t targets IH]; intros nodes res; cbn [write_all].
  { exists [], []. rewrite !app_nil_r. split_and!; [done|done|]. split; [reflexivity|done|done|constructor|].
    intros _ _ _ t Ht. by apply not_elem_of_nil in Ht. }
  pose proof (writeOne_spec nodes (links (ni_GrpcAddress t)) t id data sum Hlen Hne) as Hone.
  pose proof (writeOne_working nodes (links (ni_GrpcAddress t)) t id data) as Hwork.
  destruct (writeOne nodes _ t id data sum) as [r nodes1] eqn:E1. destruct Hone as (Hc&Ho&Hh).
  specialize (IH nodes1 match r with
    | Ok _ => mkFanout (Succeeded res ++ [ni_NodeId t]) (Failed res)
    | Err _ => mkFanout (Succeeded res) (Failed res ++ [ni_NodeId t]) end).
  destruct (write_all nodes1 links id data sum targets _) as [res' nodes2]. destruct IH as (ok&bad&Hs&Hf&Hok).
  destruct (fanout_ok_cons _ _ _ _ _ t _ _ _ _ _ Hc Ho Hok) as (Q1&Q2&Q3&Q4). pose proof (fo_once _ _ _ _ _ _ _ _ _ Hok) as Hp.
  destruct r as [[]|e]; simpl in Hs, Hf.
  - exists (ni_NodeId t :: ok), bad. rewrite <-app_assoc in Hs. split_and!; [done|done|]. split; [done|done| | |].
    + simpl. by rewrite Hp.
    + apply Forall_cons_2; [|done]. exists t. split_and!; [by left|done|].
      eapply holds_at_mono; [apply Hok|by apply Hh].
    + intros Hnd Hid Hsum t' [->|Ht']%elem_of_cons Hw; [by left|right; by apply Q4].
  - exists ok, (ni_NodeId t :: bad). rewrite <-app_assoc in Hf. split_and!; [done|done|]. split; [done|done| |done|].
    + by rewrite <-Permutation_middle, Hp.
    + intros Hnd Hid Hsum t' [->|Ht']%elem_of_cons Hw; [|by apply Q4]. subst sum.
      by rewrite E1 in Hwork; specialize (Hwork Hid Hlen Hw).
Qed.

Lemma ChunkWriter_Write_ok nodes links order id data targets minReplicas :
  (Z.of_nat (length data) < 2 ^ 63)%Z -> (forall l, order l ≡ₚ l) ->
  let '(res, err, nodes') := ChunkWriter_Write nodes links order id data (Sum data) targets minReplicas in
  fanout_ok nodes links id data (Sum data) targets (Succeeded res) (Failed res) nodes' /\
  (err = None <-> targets <> [] /\ (minReplicas <= Z.of_nat (length (Succeeded res)))%Z).
Proof.
  intros Hlen Horder. unfold ChunkWriter_Write. case_decide as Ht.
  { apply nil_length_inv in Ht as ->. split; [|naive_solver]. split; [reflexivity|done|done|constructor|].
    intros _ _ _ t Ht. by apply not_elem_of_nil in Ht. }
  assert (Sum data <> EmptyString) as Hne.
  { intros E. pose proof (Sum_valid data) as Hv. by rewrite E in Hv. }
  pose proof (write_all_ok nodes links id data (Sum data) (order targets) (mkFanout [] []) Hlen Hne) as Hw.
  destruct (write_all nodes links id data (Sum data) (order targets) _) as [res nodes']. destruct Hw as (ok&bad&Hs&Hf&Hok).
  simpl in Hs, Hf. subst ok bad. specialize (Horder targets).
  assert (fanout_ok nodes links id data (Sum data) targets (Succeeded res) (Failed res) nodes') as Hfan.
  { destruct Hok as [K1 K2 K3 K4 K5]. split; [done| | | |].
    - intros addr Ha. apply K2. by rewrite Horder.
    - by rewrite K3, Horder.
    - eapply Forall_impl; [exact K4|]. intros nodeID (t&Hin&?&?). exists t. split_and!; [by rewrite <-Horder|done|done].
    - intros Hnd Hid Hsum t Hin Hw. apply K5; [by rewrite Horder|done|done|by rewrite Horder|done]. }
  assert (targets <> []) by (by intros ->). case_decide; (split; [done|]).
  - split; [done|]. intros [_ ?]. lia.
  - split; [|done]. intros _. split; [done|lia].
Qed.

(** C8: the durability promise of a chunk write. For every failure of links and
    nodes and every order in which the goroutines finish, Write reports each
    target exactly once, as written or as failed. Every node it reports as
    written holds a complete file of the chunk's length and digest. It returns
    without error exactly when there are targets and at least [minReplicas] of
    them are reported as written. A node keeps all its other chunks, and its
    file of this chunk is the former one or complete; a node that is no
    target is untouched. A target that can be reached and is able to store the
    chunk is among the written ones. *)
Theorem ChunkWriter_Write_durable nodes links order id data targets minReplicas :
  (Z.of_nat (length data) < 2 ^ 63)%Z -> (forall l, order l ≡ₚ l) ->
  let '(res, err, nodes') := ChunkWriter_Write nodes links order id data (Sum data) targets minReplicas in
  fanout_ok nodes links id data (Sum data) targets (Succeeded res) (Failed res) nodes' /\
  (err = None <-> targets <> [] /\ (minReplicas <= Z.of_nat (length (Succeeded res)))%Z).
Proof. apply ChunkWriter_Write_ok. Qed.

Definition sample_targets : list NodeInfo := [mkNodeInfo "n1" "a1:9000"; mkNodeInfo "n2" "a2:9000"; mkNodeInfo "n3" "a3:9000"].
Definition sample_cluster : cluster := <["a1:9000" := empty_node]> (<["a2:9000" := empty_node]> ∅).
(** The second node's connection breaks after the header, the third node is down. *)
Definition sample_links (addr : string) : link :=
  if String.eqb addr "a2:9000" then mkLink true (Some 1%nat) false no_faults 0 else good_link.

Lemma ChunkWriter_Write_durable_witness :
  let w := ChunkWriter_Write sample_cluster sample_links reverse sample_id [x41; x42] (Sum [x41; x42]) sample_targets 1 in
  w.1 = (mkFanout ["n1"] ["n3"; "n2"], None) /\ holds_at w.2 "a1:9000" sample_id 2 (Sum [x41; x42]).
Proof.
  pose proof (ChunkWriter_Write_durable sample_cluster sample_links reverse sample_id [x41; x42] sample_targets 1) as H.
  set (w := ChunkWriter_Write _ _ _ _ _ _ _ _) in H |- *.
  assert (w.1 = (mkFanout ["n1"] ["n3"; "n2"], None)) as Hw by (vm_compute; reflexivity).
  clearbody w. destruct w as [[res err] nodes']. simpl in Hw |- *. injection Hw as -> ->.
  destruct H as [H _]; [reflexivity|intros l; apply reverse_Permutation|]. split; [reflexivity|].
  destruct (Forall_inv (fo_held _ _ _ _ _ _ _ _ _ H)) as (t&Ht&Hid&Hh). unfold sample_targets in Ht.
  apply elem_of_cons in Ht as [->|Ht]; [exact Hh|]. apply elem_of_cons in Ht as [->|Ht]; [discriminate Hid|].
  apply list_elem_of_singleton in Ht as ->. discriminate Hid.
Defined.
