(* ===== verification/Validate.v ===== *)
(** * Names of buckets and objects (src/internal/coordinator/validate.go)

    The validation every RPC of the coordinator applies, with what it uses of
    Go's unicode/utf8 and strings, and the cache keys built from validated names
    (src/internal/cache/cache.go). *)

From Stdlib Require Import Ascii.
From stdpp Require Import base numbers strings list.
From S2P Require Import Prelude Schema GoStrings.

(** ** UTF-8 *)

Definition between (lo hi b : N) : bool := ((lo <=? b) && (b <=? hi))%N.
Definition continuation (b : N) : bool := between 128 191 b.

(** utf8.DecodeRune: the rune at the front and its length, [None] where Go
    yields RuneError with length one. *)
Definition decode_rune (s : list N) : option (N * nat) :=
  match s with
  | [] => None
  | a :: s1 =>
      if (a <? 128)%N then Some (a, 1%nat)
      else if between 194 223 a then
        match s1 with
        | b :: _ => if continuation b then Some ((a - 192) * 64 + (b - 128), 2%nat)%N else None
        | [] => None
        end
      else if between 224 239 a then
        match s1 with
        | b :: c :: _ =>
            let lo := if (a =? 224)%N then 160%N else 128%N in
            let hi := if (a =? 237)%N then 159%N else 191%N in
            if between lo hi b && continuation c
            then Some ((a - 224) * 4096 + (b - 128) * 64 + (c - 128), 3%nat)%N else None
        | _ => None
        end
      else if between 240 244 a then
        match s1 with
        | b :: c :: d :: _ =>
            let lo := if (a =? 240)%N then 144%N else 128%N in
            let hi := if (a =? 244)%N then 143%N else 191%N in
            if between lo hi b && continuation c && continuation d
            then Some ((a - 240) * 262144 + (b - 128) * 4096 + (c - 128) * 64 + (d - 128), 4%nat)%N else None
        | _ => None
        end
      else None
  end.

Definition RuneError : N := 65533.

(** The runes of [for _, r := range s], with the invalid ones marked; a rune
    has at least one byte. *)
Fixpoint runes (fuel : nat) (s : list N) : list (N * bool) :=
  match fuel with
  | O => []
  | S fuel' =>
      match s with
      | [] => []
      | _ => match decode_rune s with
             | Some (r, n) => (r, true) :: runes fuel' (drop n s)
             | None => (RuneError, false) :: runes fuel' (drop 1 s)
             end
      end
  end.
Definition range_string (s : string) : list (N * bool) := runes (String.length s) (to_bytes s).
Definition ValidString (s : string) : bool := forallb (fun r : N * bool => r.2) (range_string s).

(** ** Strings *)

(** strings.Contains *)
Fixpoint Contains (s sub : string) : bool :=
  String.prefix sub s || match s with EmptyString => false | String _ s' => Contains s' sub end.

(** strings.Split at one byte; [cur] is the current segment, reversed. *)
Fixpoint split_at (sep : Ascii.ascii) (cur : list Ascii.ascii) (s : string) : list string :=
  match s with
  | EmptyString => [String.string_of_list_ascii (rev cur)]
  | String c s' =>
      if Ascii.eqb c sep then String.string_of_list_ascii (rev cur) :: split_at sep [] s'
      else split_at sep (c :: cur) s'
  end.
Definition Split (s : string) (sep : Ascii.ascii) : list string := split_at sep [] s.

(** ** The rules *)

Definition maxBucketLen : nat := 63.
Definition minBucketLen : nat := 3.
Definition maxKeyLen : nat := 1024.

Inductive name_error := ErrInvalidBucket | ErrInvalidKey.

Definition bucket_char (c : Ascii.ascii) : bool :=
  between 97 122 (byte_of c) || between 48 57 (byte_of c) || Ascii.eqb c "-"%char || Ascii.eqb c "."%char.
Definition edge_char (c : option Ascii.ascii) : bool :=
  match c with Some c => Ascii.eqb c "-"%char || Ascii.eqb c "."%char | None => false end.

Definition ValidateBucket (b : string) : option name_error :=
  if decide (String.length b < minBucketLen \/ maxBucketLen < String.length b)%nat then Some ErrInvalidBucket
  else if negb (all_chars bucket_char b) then Some ErrInvalidBucket
  else if edge_char (String.get 0 b) || edge_char (String.get (String.length b - 1) b) then Some ErrInvalidBucket
  else if Contains b ".." then Some ErrInvalidBucket
  else None.

Definition ValidateKey (k : string) : option name_error :=
  if String.eqb k EmptyString then Some ErrInvalidKey
  else if decide (maxKeyLen < String.length k)%nat then Some ErrInvalidKey
  else if negb (ValidString k) then Some ErrInvalidKey
  else if HasPrefix k "/" then Some ErrInvalidKey
  else if existsb (String.eqb "..") (Split k "/"%char) then Some ErrInvalidKey
  else if existsb (fun r : N * bool => (r.1 <? 32)%N || (r.1 =? 127)%N) (range_string k) then Some ErrInvalidKey
  else None.

(** ** Cache keys *)

Definition ObjectKey (bucket key : string) : string := "obj:" +:+ bucket +:+ ":" +:+ key.
Definition NodesKey : string := "nodes:healthy".

(** ** What the rules give *)

(** A valid rune covers one byte below 128, or only bytes from 128 on. *)
Lemma decode_rune_bytes s r n :
  decode_rune s = Some (r, n) ->
  (0 < n <= length s)%nat /\ forall b, b ∈ take n s -> (b < 128)%N -> r = b.
Proof.
  assert (forall lo hi b, between lo hi b = true -> (128 <= lo)%N -> (b < 128)%N -> False) as Hb.
  { unfold between. intros lo hi b [Hlo%N.leb_le _]%andb_true_iff. lia. }
  assert (forall (a : N) l x, (128 <= a)%N -> Forall (fun b => ~ (b < 128)%N) l -> x ∈ a :: l -> (x < 128)%N -> False) as Hl.
  { intros a l x Ha Hall [->|Hx]%elem_of_cons Hx'; [lia|]. by apply (proj1 (Forall_forall _ _) Hall x Hx). }
  unfold decode_rune. destruct s as [|a s1]; [done|].
  destruct (a <? 128)%N eqn:Ha.
  { intros [= <- <-]. simpl. split; [lia|]. intros b [->|[]%elem_of_nil]%elem_of_cons. done. }
  apply N.ltb_ge in Ha.
  destruct (between 194 223 a); [|destruct (between 224 239 a); [|destruct (between 240 244 a); [|done]]].
  - destruct s1 as [|b s2]; [done|]. destruct (continuation b) eqn:Cb; [|done]. intros [= <- <-]. simpl.
    split; [lia|]. intros x Hx Hlt. exfalso. eapply (Hl a [b] x); [done| |done|done].
    repeat constructor. intros ?. by eapply (Hb 128 191 b)%N.
  - destruct s1 as [|b [|c s3]]; [done..|]. destruct (between _ _ b && _) eqn:C; [|done]. intros [= <- <-].
    apply andb_true_iff in C as [Cb Cc]. simpl. split; [lia|]. intros x Hx Hlt. exfalso.
    eapply (Hl a [b; c] x); [done| |done|done]. repeat constructor; intros ?; [|by eapply (Hb 128 191 c)%N].
    eapply Hb; [exact Cb| |done]. destruct (a =? 224)%N; lia.
  - destruct s1 as [|b [|c [|d s4]]]; [done..|]. destruct (between _ _ b && _ && _) eqn:C; [|done]. intros [= <- <-].
    apply andb_true_iff in C as [[Cb Cc]%andb_true_iff Cd]. simpl. split; [lia|]. intros x Hx Hlt. exfalso.
    eapply (Hl a [b; c; d] x); [done| |done|done].
    repeat constructor; intros ?; [|by eapply (Hb 128 191 c)%N|by eapply (Hb 128 191 d)%N].
    eapply Hb; [exact Cb| |done]. destruct (a =? 240)%N; lia.
Qed.

(** In valid text a byte below 128 is a rune of its own. *)
Lemma runes_ascii fuel s b :
  (length s <= fuel)%nat -> forallb (fun r : N * bool => r.2) (runes fuel s) = true ->
  b ∈ s -> (b < 128)%N -> (b, true) ∈ runes fuel s.
Proof.
  revert s. induction fuel as [|fuel IH]; intros s Hf Hv Hb Hlt.
  { destruct s; [by apply elem_of_nil in Hb|simpl in Hf; lia]. }
  cbn [runes] in *. destruct s as [|a s]; [by apply elem_of_nil in Hb|].
  destruct (decode_rune (a :: s)) as [[r n]|] eqn:Hd; [|done].
  apply decode_rune_bytes in Hd as [Hn Hr]. cbn [forallb] in Hv. apply andb_true_iff in Hv as [_ Hv].
  rewrite <-(take_drop n (a :: s)) in Hb. apply elem_of_app in Hb as [Hb|Hb].
  - rewrite (Hr b Hb Hlt). by left.
  - right. apply IH; [rewrite length_drop; simpl in *; lia|done|done|done].
Qed.

(** The segments put together again. *)
Fixpoint join (sep : Ascii.ascii) (l : list string) : string :=
  match l with
  | [] => EmptyString
  | [s] => s
  | s :: l' => s +:+ String sep (join sep l')
  end.

Lemma split_at_not_nil sep cur s : split_at sep cur s <> [].
Proof. revert cur. induction s as [|c s IH]; intros cur; simpl; [done|]. by destruct (Ascii.eqb c sep). Qed.
Lemma join_cons sep s l : l <> [] -> join sep (s :: l) = s +:+ String sep (join sep l).
Proof. by destruct l. Qed.
Lemma string_of_list_app a b :
  String.string_of_list_ascii (a ++ b) = String.string_of_list_ascii a +:+ String.string_of_list_ascii b.
Proof. induction a as [|c a IH]; [done|]. simpl. rewrite string_app_cons. by rewrite IH. Qed.
Lemma all_chars_list p l : all_chars p (String.string_of_list_ascii l) = forallb p l.
Proof. induction l as [|c l IH]; [done|]. simpl. by rewrite IH. Qed.

Lemma split_at_join sep cur s : join sep (split_at sep cur s) = String.string_of_list_ascii (rev cur) +:+ s.
Proof.
  revert cur. induction s as [|c s IH]; intros cur; simpl; [by rewrite string_app_nil|].
  destruct (Ascii.eqb_spec c sep) as [->|Hc].
  - rewrite join_cons by apply split_at_not_nil. by rewrite IH.
  - rewrite IH. simpl. rewrite string_of_list_app. by rewrite string_app_assoc.
Qed.

Lemma split_at_segments sep cur s :
  forallb (fun c => negb (Ascii.eqb c sep)) cur = true ->
  Forall (fun seg => all_chars (fun c => negb (Ascii.eqb c sep)) seg = true) (split_at sep cur s).
Proof.
  assert (forall l, forallb (fun c => negb (Ascii.eqb c sep)) l = true ->
    all_chars (fun c => negb (Ascii.eqb c sep)) (String.string_of_list_ascii (rev l)) = true) as Hrev.
  { intros l Hl. rewrite all_chars_list. apply forallb_forall. intros x Hx. apply in_rev in Hx.
    by eapply forallb_forall in Hl. }
  revert cur. induction s as [|c s IH]; intros cur Hcur; cbn [split_at]; [repeat constructor; auto|].
  destruct (Ascii.eqb c sep) eqn:Hc; [constructor; auto|]. apply IH. simpl. by rewrite Hc.
Qed.

Lemma app_sep_inj sep a b x y :
  all_chars (fun c => negb (Ascii.eqb c sep)) a = true -> all_chars (fun c => negb (Ascii.eqb c sep)) b = true ->
  a +:+ String sep x = b +:+ String sep y -> a = b /\ x = y.
Proof.
  revert b. induction a as [|c a IH]; intros [|d b]; simpl; rewrite ?string_app_cons; intros Ha Hb.
  - by intros [= ->].
  - intros [= <- _]. by rewrite Ascii.eqb_refl in Hb.
  - intros [= -> _]. by rewrite Ascii.eqb_refl in Ha.
  - apply andb_true_iff in Ha as [_ Ha]. apply andb_true_iff in Hb as [_ Hb].
    intros [= -> H]. destruct (IH b Ha Hb H) as [-> ->]. done.
Qed.

(** The two names of an accepted request, byte by byte. *)
Record safe_bucket (b : string) : Prop := {
  sb_length : (3 <= String.length b <= 63)%nat;
  sb_chars : all_chars bucket_char b = true;
  sb_edges : edge_char (String.get 0 b) = false /\ edge_char (String.get (String.length b - 1) b) = false;
  sb_dots : Contains b ".." = false
}.
Record safe_key (k : string) : Prop := {
  sk_length : (1 <= String.length k <= 1024)%nat;
  sk_utf8 : ValidString k = true;
  sk_relative : HasPrefix k "/" = false;
  sk_printable : Forall (fun b => 32 <= b /\ b <> 127)%N (to_bytes k);
  sk_segments : exists segs, k = join "/"%char segs /\ (".." ∉ segs) /\
    Forall (fun seg => all_chars (fun c => negb (Ascii.eqb c "/"%char)) seg = true) segs
}.

Lemma ValidateBucket_safe b : ValidateBucket b = None <-> safe_bucket b.
Proof.
  unfold ValidateBucket, minBucketLen, maxBucketLen. split.
  - case_decide; [done|]. destruct (all_chars bucket_char b) eqn:Hc; [|done]. cbn [negb].
    destruct (edge_char _ || edge_char _) eqn:He; [done|]. apply orb_false_iff in He as [H1 H2].
    destruct (Contains b "..") eqn:Hd; [done|]. intros _. split; [lia|done|by split|done].
  - intros [Hl Hc [H1 H2] Hd]. rewrite decide_False by lia. by rewrite Hc, H1, H2, Hd.
Qed.

Lemma to_bytes_length s : length (to_bytes s) = String.length s.
Proof. unfold to_bytes. rewrite length_fmap. induction s; simpl; congruence. Qed.

Lemma ValidateKey_safe k : ValidateKey k = None -> safe_key k.
Proof.
  unfold ValidateKey, maxKeyLen. destruct (String.eqb_spec k EmptyString) as [|Hne]; [done|].
  case_decide as Hl; [done|]. destruct (ValidString k) eqn:Hu; [|done]. cbn [negb].
  destruct (HasPrefix k "/") eqn:Hp; [done|]. destruct (existsb _ (Split k _)) eqn:Hs; [done|].
  destruct (existsb _ (range_string k)) eqn:Hc; [done|]. intros _. split; [|done|done| |].
  - destruct k; [done|]. simpl in *. lia.
  - apply Forall_forall. intros b Hb. destruct (decide (b < 128)%N) as [Hlt|]; [|lia].
    apply not_true_iff_false in Hc. assert ((b <? 32)%N || (b =? 127)%N = false) as Hok.
    { apply not_true_iff_false. intros Hbad. apply Hc. apply existsb_exists. exists (b, true). split; [|done].
      apply list_elem_of_In. apply runes_ascii; [by rewrite to_bytes_length|done|done|done]. }
    apply orb_false_iff in Hok as [H1%N.ltb_ge H2%N.eqb_neq]. done.
  - exists (Split k "/"%char). split_and!.
    + unfold Split. by rewrite split_at_join.
    + intros Hin. apply not_true_iff_false in Hs. apply Hs, existsb_exists. exists "..".
      split; [by apply list_elem_of_In|done].
    + by apply split_at_segments.
Qed.

Lemma bucket_no_colon b : all_chars bucket_char b = true -> all_chars (fun c => negb (Ascii.eqb c ":"%char)) b = true.
Proof.
  induction b as [|c b IH]; simpl; [done|]. intros [Hc Hb]%andb_true_iff. rewrite (IH Hb), andb_true_r.
  destruct (Ascii.eqb_spec c ":"%char) as [->|]; [by vm_compute in Hc|done].
Qed.

Lemma ObjectKey_inj b k b' k' :
  safe_bucket b -> safe_bucket b' -> ObjectKey b k = ObjectKey b' k' -> b = b' /\ k = k'.
Proof.
  intros Hb Hb'. unfold ObjectKey. rewrite !string_app_cons. intros [= H]. revert H.
  apply app_sep_inj; apply bucket_no_colon; apply sb_chars; done.
Qed.
