(* ===== verification/Metrics.v ===== *)
(** * Metrics (src/internal/observability/metrics.go)

    The collectors every process registers, and the label values each function of
    the three services hands to them. The Prometheus client is a class: what its
    documentation says of registration, of bucket lists and of label values. It
    panics on a family it refuses and on label values that do not fit, and a
    panic in an RPC handler ends the process. *)

From Stdlib Require Import Ascii.
From stdpp Require Import base numbers gmap strings list.
From S2P Require Import Prelude Schema GoStrings GoFloat Validate.

(** ** The client *)

Inductive family_kind := Counter | Gauge | Histogram (buckets : list float64).

(** A family: its kind, its name and its variable labels; the constant label of
    every family is the service. *)
Record desc := mkDesc {
  d_kind : family_kind;
  d_name : string;
  d_labels : list string
}.

Definition in_range (lo hi : ascii) (c : ascii) : bool := (nat_of_ascii lo <=? nat_of_ascii c)%nat && (nat_of_ascii c <=? nat_of_ascii hi)%nat.
Definition name_start (c : ascii) : bool := in_range "a" "z" c || in_range "A" "Z" c || Ascii.eqb c "_".
Definition name_rest (c : ascii) : bool := name_start c || in_range "0" "9" c.
Definition valid_name (s : string) : bool :=
  match String.list_ascii_of_string s with c :: cs => name_start c && forallb name_rest cs | [] => false end.

Fixpoint increasing (l : list float64) : bool :=
  match l with
  | x :: (y :: _) as l' => flt x y && increasing l'
  | _ => true
  end.

(** What the documentation asks of a family: a name and label names in the
    Prometheus alphabet, none reserved, no label twice, the buckets in order. *)
Definition const_labels : list string := ["service"].
Definition kind_ok (d : desc) : bool :=
  match d_kind d with
  | Histogram bs => increasing bs && bool_decide ("le" ∉ const_labels ++ d_labels d)
  | _ => true
  end.
Definition desc_ok (d : desc) : bool :=
  valid_name (d_name d) && forallb (fun l => valid_name l && negb (HasPrefix l "__")) (const_labels ++ d_labels d)
  && bool_decide (NoDup (const_labels ++ d_labels d)) && kind_ok d.

Class Prometheus := {
  (** prometheus.ExponentialBuckets *)
  ExponentialBuckets : float64 -> float64 -> nat -> list float64;
  exponential_length : forall s f n, length (ExponentialBuckets s f n) = n;
  exponential_start : forall s f n, (0 < n)%nat -> ExponentialBuckets s f n !! 0%nat = Some s;
  exponential_next : forall s f n i x, (S i < n)%nat ->
    ExponentialBuckets s f n !! i = Some x -> ExponentialBuckets s f n !! S i = Some (fmul x f);
  (** Registry.Register, [true] for a nil error, in a registry that has the families *)
  Register : list desc -> desc -> bool;
  register_fresh : forall reg d, desc_ok d = true -> d_name d ∉ (d_name <$> reg) -> Register reg d = true;
  (** what a label value may be *)
  label_value_ok : string -> bool;
  label_value_utf8 : forall v, label_value_ok v = ValidString v
}.

Fixpoint exponential (s f : float64) (n : nat) : list float64 :=
  match n with O => [] | S n' => s :: exponential (fmul s f) f n' end.

(** A registry as strict as the documentation allows. *)
Definition strict_registry : Prometheus.
Proof.
  refine {| ExponentialBuckets := exponential;
            Register := fun reg d => desc_ok d && bool_decide (d_name d ∉ (d_name <$> reg));
            label_value_ok := ValidString |}.
  - intros s f n. revert s. induction n as [|n IH]; intros s; simpl; [done|]. by rewrite IH.
  - intros s f [|n] ?; [lia|done].
  - intros s f n i x. revert s i. induction n as [|n IH]; intros s i Hi; [lia|]. simpl. destruct i as [|i]; simpl.
    + intros [= ->]. destruct n; [lia|done].
    + intros E. apply (IH (fmul s f) i); [lia|done].
  - intros reg d -> H. simpl. by rewrite bool_decide_eq_true_2.
  - done.
Defined.

(** ** The families *)

Module Families.

Inductive family :=
  | HTTPRequestsTotal | HTTPRequestDuration | HTTPInFlight | UploadBytesTotal | DownloadBytesTotal
  | ChunksStoredTotal | ChunkWriteDuration | ChunkReadDuration | ChunkWriteFailures | ChecksumFailures
  | ReplicaWriteResults | ReplicaCount | UnderReplicatedChunks | ChunksTotal | ObjectsTotal | StorageUsedBytes
  | StorageCapacityBytes | NodeHealth | NodeActiveRequests | GRPCRequestsTotal | GRPCRequestDuration
  | PlacementFailures | GCDeletedChunks | GCErrors | RepairsTotal | RepairsFailedTotal | RepairDuration
  | RepairBytesTotal | RepairsInFlight | RepairJobs | UnavailableChunks | MetadataCacheHits | MetadataCacheMisses
  | MetadataCacheErrors | UnavailableChunkEvents | ReconcileTotal | ReconcileActions | ReconcileDuration
  | ReplicasTrimmed | DurabilityDrift.

Section families.
Context `{PM : !Prometheus}.

Definition latencyBuckets : list float64 := ExponentialBuckets (flit 1 1000) (of_int 3) 10.
Definition replicaBuckets : list float64 := of_int <$> [0; 1; 2; 3; 4; 5; 6; 8; 10]%Z.

Definition describe (f : family) : desc :=
  match f with
  | HTTPRequestsTotal => mkDesc Counter "flexstore_http_requests_total" ["method"; "route"; "status"]
  | HTTPRequestDuration => mkDesc (Histogram latencyBuckets) "flexstore_http_request_duration_seconds" ["method"; "route"; "status"]
  | HTTPInFlight => mkDesc Gauge "flexstore_http_requests_in_flight" []
  | UploadBytesTotal => mkDesc Counter "flexstore_upload_bytes_total" []
  | DownloadBytesTotal => mkDesc Counter "flexstore_download_bytes_total" []
  | ChunksStoredTotal => mkDesc Counter "flexstore_chunks_stored_total" ["node_id"; "result"]
  | ChunkWriteDuration => mkDesc (Histogram latencyBuckets) "flexstore_chunk_write_duration_seconds" ["result"]
  | ChunkReadDuration => mkDesc (Histogram latencyBuckets) "flexstore_chunk_read_duration_seconds" ["result"]
  | ChunkWriteFailures => mkDesc Counter "flexstore_chunk_write_failures_total" ["reason"]
  | ChecksumFailures => mkDesc Counter "flexstore_checksum_failures_total" ["stage"]
  | ReplicaWriteResults => mkDesc Counter "flexstore_replica_writes_total" ["node_id"; "result"]
  | ReplicaCount => mkDesc (Histogram replicaBuckets) "flexstore_replica_count" ["phase"]
  | UnderReplicatedChunks => mkDesc Gauge "flexstore_under_replicated_chunks" []
  | ChunksTotal => mkDesc Gauge "flexstore_chunks_total" []
  | ObjectsTotal => mkDesc Gauge "flexstore_objects_total" ["state"]
  | StorageUsedBytes => mkDesc Gauge "flexstore_storage_used_bytes" ["node_id"]
  | StorageCapacityBytes => mkDesc Gauge "flexstore_storage_capacity_bytes" ["node_id"]
  | NodeHealth => mkDesc Gauge "flexstore_node_health" ["node_id"]
  | NodeActiveRequests => mkDesc Gauge "flexstore_node_active_requests" ["node_id"]
  | GRPCRequestsTotal => mkDesc Counter "flexstore_grpc_requests_total" ["method"; "code"]
  | GRPCRequestDuration => mkDesc (Histogram latencyBuckets) "flexstore_grpc_request_duration_seconds" ["method"]
  | PlacementFailures => mkDesc Counter "flexstore_placement_failures_total" ["reason"]
  | GCDeletedChunks => mkDesc Counter "flexstore_gc_deleted_chunks_total" []
  | GCErrors => mkDesc Counter "flexstore_gc_errors_total" []
  | RepairsTotal => mkDesc Counter "flexstore_repairs_total" ["result"]
  | RepairsFailedTotal => mkDesc Counter "flexstore_repairs_failed_total" []
  | RepairDuration => mkDesc (Histogram latencyBuckets) "flexstore_repair_duration_seconds" ["result"]
  | RepairBytesTotal => mkDesc Counter "flexstore_repair_bytes_total" []
  | RepairsInFlight => mkDesc Gauge "flexstore_repairs_in_flight" []
  | RepairJobs => mkDesc Gauge "flexstore_repair_jobs" ["state"]
  | UnavailableChunks => mkDesc Gauge "flexstore_unavailable_chunks" []
  | MetadataCacheHits => mkDesc Counter "flexstore_metadata_cache_hits_total" ["cache"]
  | MetadataCacheMisses => mkDesc Counter "flexstore_metadata_cache_misses_total" ["cache"]
  | MetadataCacheErrors => mkDesc Counter "flexstore_metadata_cache_errors_total" ["cache"; "op"]
  | UnavailableChunkEvents => mkDesc Counter "flexstore_unavailable_chunk_events_total" []
  | ReconcileTotal => mkDesc Counter "flexstore_reconciliations_total" ["result"]
  | ReconcileActions => mkDesc Counter "flexstore_reconcile_actions_total" ["action"]
  | ReconcileDuration => mkDesc (Histogram latencyBuckets) "flexstore_reconcile_duration_seconds" []
  | ReplicasTrimmed => mkDesc Counter "flexstore_replicas_trimmed_total" []
  | DurabilityDrift => mkDesc Counter "flexstore_durability_counter_drift_total" []
  end.

(** reg.MustRegister, family by family: [None] is the panic. *)
Fixpoint MustRegister (reg : list desc) (ds : list desc) : option (list desc) :=
  match ds with
  | [] => Some reg
  | d :: ds' => if Register reg d then MustRegister (reg ++ [d]) ds' else None
  end.

(** The order of the registration; the collectors of the Go runtime and of the
    process come first. *)
Definition registered : list family :=
  [HTTPRequestsTotal; HTTPRequestDuration; HTTPInFlight; UploadBytesTotal; DownloadBytesTotal; ChunksStoredTotal;
   ChunkWriteDuration; ChunkReadDuration; ChunkWriteFailures; ChecksumFailures; ReplicaWriteResults; ReplicaCount;
   UnderReplicatedChunks; ChunksTotal; ObjectsTotal; StorageUsedBytes; StorageCapacityBytes; NodeHealth;
   NodeActiveRequests; GRPCRequestsTotal; GRPCRequestDuration; PlacementFailures; GCDeletedChunks; GCErrors;
   RepairsTotal; RepairsFailedTotal; RepairDuration; RepairBytesTotal; RepairsInFlight; RepairJobs;
   UnavailableChunks; UnavailableChunkEvents; MetadataCacheHits; MetadataCacheMisses; MetadataCacheErrors;
   ReconcileTotal; ReconcileActions; ReconcileDuration; DurabilityDrift; ReplicasTrimmed].
Definition NewMetrics (runtime : list desc) : option (list desc) := MustRegister [] (runtime ++ (describe <$> registered)).

(** WithLabelValues: [false] is the panic. *)
Definition WithLabelValues (f : family) (values : list string) : bool :=
  bool_decide (length values = length (d_labels (describe f))) && forallb label_value_ok values.
End families.

(** ** What the functions record *)

(** A call of WithLabelValues, or of a collector that has no labels, whose list is
    then empty. The branch a function takes is an argument. *)
Definition sample : Type := family * list string.

(** The coordinator's RPCs (service.go, durability_rpc.go). *)
Definition RegisterNode_samples (id : string) : list sample := [(NodeHealth, [id])].
Definition Heartbeat_samples (id : string) : list sample :=
  [(NodeHealth, [id]); (StorageUsedBytes, [id]); (StorageCapacityBytes, [id]); (NodeActiveRequests, [id])].
Definition AllocateChunk_samples (insufficient : bool) : list sample :=
  [(PlacementFailures, [if insufficient then "insufficient_nodes" else "invalid"])].
Definition CommitChunk_samples (committed : bool) : list sample :=
  [(ReplicaCount, [if committed then "committed" else "rejected"])].
Inductive cache_read := Hit | Missed | Broken.
Definition GetObject_samples (r : cache_read) (set_failed : bool) : list sample :=
  match r with
  | Hit => [(MetadataCacheHits, ["object"])]
  | Missed => (MetadataCacheMisses, ["object"]) :: if set_failed then [(MetadataCacheErrors, ["object"; "set"])] else []
  | Broken => (MetadataCacheErrors, ["object"; "get"]) :: if set_failed then [(MetadataCacheErrors, ["object"; "set"])] else []
  end.
Definition onTransition_samples (id : string) : list sample := [(NodeHealth, [id])].
Definition ReportCorruptReplica_samples : list sample := [(ChecksumFailures, ["reported"])].

(** The workers (workers.go, repair.go, reconcile.go). *)
Definition Rehydrate_samples (ids : list string) : list sample :=
  ids ≫= fun id => [(NodeHealth, [id]); (StorageCapacityBytes, [id]); (StorageUsedBytes, [id])].
Definition GCWorker_Run_samples : list sample := [(GCErrors, [])].
Definition processDeletions_samples (outcomes : list bool) : list sample :=
  (fun deleted : bool => (if deleted then GCDeletedChunks else GCErrors, [])) <$> outcomes.
Definition node_samples (id : string) : list sample :=
  [(NodeHealth, [id]); (StorageUsedBytes, [id]); (StorageCapacityBytes, [id]); (NodeActiveRequests, [id])].
(** The four queries of a refresh: the first and the third end it when they
    fail, [ids] is empty when the last does. *)
Definition refresh_samples (counted jobs stats : bool) (ids : list string) : list sample :=
  if counted then
    [(UnderReplicatedChunks, []); (UnavailableChunks, [])] ++
    (if jobs then (fun st => (RepairJobs, [st])) <$> ["PENDING"; "RUNNING"; "SUCCEEDED"; "FAILED"] else []) ++
    (if stats then
       (ChunksTotal, []) :: ((fun st => (ObjectsTotal, [st])) <$> ["UPLOADING"; "COMPLETE"; "DELETING"; "FAILED"]) ++ (ids ≫= node_samples)
     else [])
  else [].
Definition DurabilityAuditor_Run_samples : list sample := [(DurabilityDrift, [])].
Definition scanOnce_samples : list sample := [(ReplicasTrimmed, [])].
Definition claimAndRepair_samples (failed : bool) : list sample :=
  if failed then [(RepairDuration, ["failed"]); (RepairsTotal, ["failed"]); (RepairsFailedTotal, [])]
  else [(RepairDuration, ["succeeded"])].
Inductive repair_end := NoReadableReplica | CorruptSource | BadCopy | Repaired.
Definition executeRepair_samples (e : repair_end) : list sample :=
  match e with
  | NoReadableReplica => [(UnavailableChunkEvents, [])]
  | CorruptSource => [(ChecksumFailures, ["repair"])]
  | BadCopy => [(ChecksumFailures, ["repair-verify"])]
  | Repaired => [(RepairsTotal, ["succeeded"]); (RepairBytesTotal, []); (ReplicaCount, ["repaired"])]
  end.
(** The slot of a destination is counted when it is taken and when it is released. *)
Definition pickDestination_samples (found : bool) : list sample :=
  if found then [(RepairsInFlight, []); (RepairsInFlight, [])] else [(PlacementFailures, ["repair"])].
Definition reportPhantomSource_samples : list sample := [(ReconcileActions, ["phantom"])].
Definition runOne_samples (failed : bool) : list sample :=
  if failed then [(ReconcileTotal, ["failed"])] else [(ReconcileTotal, ["succeeded"]); (ReconcileDuration, [])].
Inductive settled := Orphan | Phantom | Verified | Corrupt.
Definition reconcileNode_samples (s : settled) : list sample :=
  match s with
  | Orphan => [(ReconcileActions, ["orphan"])]
  | Phantom => [(ReconcileActions, ["phantom"])]
  | Verified => [(ReconcileActions, ["verified"])]
  | Corrupt => [(ChecksumFailures, ["reconcile"]); (ReconcileActions, ["corrupt"])]
  end.

(** The gateway (middleware.go, handler.go, chunkwriter.go, chunkreader.go). *)
Definition Middleware_samples (method route status : string) : list sample :=
  [(HTTPRequestsTotal, [method; route; status]); (HTTPRequestDuration, [method; route; status])].
Definition in_flight_samples : list sample := [(HTTPInFlight, []); (HTTPInFlight, [])].
Definition streamUpload_samples : list sample := [(ReplicaCount, ["gateway"]); (UploadBytesTotal, [])].
Definition streamDownload_samples : list sample := [(DownloadBytesTotal, [])].
Definition ChunkWriter_Write_samples (results : list (string * bool)) (quorum : bool) : list sample :=
  ((fun r : string * bool => (ReplicaWriteResults, [r.1; if r.2 then "ok" else "error"])) <$> results) ++
  if quorum then [] else [(ChunkWriteFailures, ["durability"])].
Definition writeOne_samples : list sample := [(ChecksumFailures, ["write-ack"])].
Definition Fetch_samples (failures : list bool) (served : bool) : list sample :=
  (failures ≫= fun corrupt : bool =>
     if corrupt then [(ChecksumFailures, ["read"]); (ChunkReadDuration, ["corrupt"])] else [(ChunkReadDuration, ["error"])]) ++
  if served then [(ChunkReadDuration, ["ok"])] else [].

(** The storage node (storage/service.go) and the RPC interceptors (grpc.go). *)
Inductive store_end := StoreMismatch | StoreFailed | StoredNew | Deduplicated.
Definition StoreChunk_samples (node : string) (e : store_end) : list sample :=
  match e with
  | StoreMismatch => [(ChunkWriteDuration, ["error"]); (ChunksStoredTotal, [node; "error"]);
                      (ChecksumFailures, ["write"]); (ChunkWriteFailures, ["checksum"])]
  | StoreFailed => [(ChunkWriteDuration, ["error"]); (ChunksStoredTotal, [node; "error"]); (ChunkWriteFailures, ["io"])]
  | StoredNew => [(ChunkWriteDuration, ["ok"]); (ChunksStoredTotal, [node; "stored"])]
  | Deduplicated => [(ChunkWriteDuration, ["ok"]); (ChunksStoredTotal, [node; "deduplicated"])]
  end.
Inductive read_end := ReadFailed | ReadCorrupt | ReadOk.
Definition ReadChunk_samples (e : read_end) : list sample :=
  match e with
  | ReadFailed => [(ChunkReadDuration, ["error"])]
  | ReadCorrupt => [(ChecksumFailures, ["read"]); (ChunkReadDuration, ["corrupt"])]
  | ReadOk => [(ChunkReadDuration, ["ok"])]
  end.
Definition ReplicateChunk_samples (node : string) (stored : bool) : list sample :=
  if stored then [(ChunksStoredTotal, [node; "replicated"])] else [(ChecksumFailures, ["replicate"])].
Definition Stats_samples (node : string) : list sample :=
  [(StorageUsedBytes, [node]); (StorageCapacityBytes, [node]); (NodeActiveRequests, [node])].
Definition observeGRPC_samples (method code : string) : list sample :=
  [(GRPCRequestsTotal, [method; code]); (GRPCRequestDuration, [method])].

(** Everything the services record; the first argument has the label values that
    are not written in the code: node identifiers, and what a request brings. *)
Inductive records : list string -> list sample -> Prop :=
  | records_RegisterNode id : records [id] (RegisterNode_samples id)
  | records_Heartbeat id : records [id] (Heartbeat_samples id)
  | records_AllocateChunk b : records [] (AllocateChunk_samples b)
  | records_CommitChunk b : records [] (CommitChunk_samples b)
  | records_GetObject r b : records [] (GetObject_samples r b)
  | records_onTransition id : records [id] (onTransition_samples id)
  | records_ReportCorruptReplica : records [] ReportCorruptReplica_samples
  | records_Rehydrate ids : records ids (Rehydrate_samples ids)
  | records_GCWorker_Run : records [] GCWorker_Run_samples
  | records_processDeletions outcomes : records [] (processDeletions_samples outcomes)
  | records_refresh counted jobs stats ids : records ids (refresh_samples counted jobs stats ids)
  | records_DurabilityAuditor_Run : records [] DurabilityAuditor_Run_samples
  | records_scanOnce : records [] scanOnce_samples
  | records_claimAndRepair b : records [] (claimAndRepair_samples b)
  | records_executeRepair e : records [] (executeRepair_samples e)
  | records_pickDestination b : records [] (pickDestination_samples b)
  | records_reportPhantomSource : records [] reportPhantomSource_samples
  | records_runOne b : records [] (runOne_samples b)
  | records_reconcileNode s : records [] (reconcileNode_samples s)
  | records_Middleware m r s : records [m; r; s] (Middleware_samples m r s)
  | records_in_flight : records [] in_flight_samples
  | records_streamUpload : records [] streamUpload_samples
  | records_streamDownload : records [] streamDownload_samples
  | records_Write results b : records results.*1 (ChunkWriter_Write_samples results b)
  | records_writeOne : records [] writeOne_samples
  | records_Fetch fs b : records [] (Fetch_samples fs b)
  | records_StoreChunk node e : records [node] (StoreChunk_samples node e)
  | records_ReadChunk e : records [] (ReadChunk_samples e)
  | records_ReplicateChunk node b : records [node] (ReplicateChunk_samples node b)
  | records_Stats node : records [node] (Stats_samples node)
  | records_observeGRPC m c : records [m; c] (observeGRPC_samples m c).

(** ** Registration *)

Section registration.
Context `{PM : !Prometheus}.

Lemma exponential_eq s f n : ExponentialBuckets s f n = exponential s f n.
Proof.
  assert (forall i x, exponential s f n !! i = Some x -> ExponentialBuckets s f n !! i = Some x) as H.
  { induction i as [|i IH]; intros x Hx.
    - destruct n; [done|]. injection Hx as <-. apply exponential_start. lia.
    - assert (S i < n)%nat as Hi.
      { apply lookup_lt_Some in Hx. by rewrite <-(@exponential_length strict_registry s f n). }
      destruct (lookup_lt_is_Some_2 (exponential s f n) i) as [y Hy].
      { change (exponential s f n) with (@ExponentialBuckets strict_registry s f n). rewrite exponential_length. lia. }
      rewrite (exponential_next _ _ _ _ y Hi (IH y Hy)). f_equal.
      pose proof (@exponential_next strict_registry s f n i y Hi Hy) as E. simpl in E. congruence. }
  apply list_eq_same_length with n; [apply (@exponential_length strict_registry)|apply exponential_length|].
  intros i x y _ H1 H2. apply H in H2. congruence.
Qed.

Lemma increasing_replica : increasing replicaBuckets = true.
Proof. vm_compute. reflexivity. Qed.
Lemma increasing_latency : increasing latencyBuckets = true.
Proof. unfold latencyBuckets. rewrite exponential_eq. vm_compute. reflexivity. Qed.

Lemma describe_ok f : desc_ok (describe f) = true.
Proof.
  destruct f; unfold desc_ok; cbn [describe]; unfold kind_ok; cbn [d_kind d_name d_labels const_labels];
    rewrite ?increasing_latency, ?increasing_replica; vm_compute; reflexivity.
Qed.

Lemma registered_all f : f ∈ registered.
Proof. destruct f; unfold registered; repeat (first [apply list_elem_of_here|apply list_elem_of_further]). Qed.

(** The time series a family exposes. *)
Definition series (d : desc) : list string :=
  match d_kind d with
  | Histogram _ => [d_name d +:+ "_bucket"; d_name d +:+ "_sum"; d_name d +:+ "_count"]
  | _ => [d_name d]
  end.

Lemma MustRegister_ok reg ds :
  Forall (fun d => desc_ok d = true) ds -> NoDup (d_name <$> ds) -> (forall d, d ∈ ds -> d_name d ∉ (d_name <$> reg)) ->
  MustRegister reg ds = Some (reg ++ ds).
Proof.
  revert reg. induction ds as [|d ds IH]; intros reg Hok Hnd Hfresh; simpl; [by rewrite app_nil_r|].
  apply Forall_cons in Hok as [Hd Hok]. apply NoDup_cons in Hnd as [Hn Hnd].
  rewrite register_fresh by (try apply Hfresh; set_solver).
  rewrite IH, <-app_assoc; [done|done|done|]. intros d' Hin. rewrite fmap_app, not_elem_of_app. split; [set_solver|].
  intros E%list_elem_of_singleton. apply Hn. rewrite <-E. by apply list_elem_of_fmap_2.
Qed.
Lemma MustRegister_app reg ds ds' reg' : MustRegister reg ds = Some reg' -> MustRegister reg (ds ++ ds') = MustRegister reg' ds'.
Proof.
  revert reg. induction ds as [|d ds IH]; intros reg; simpl; [by intros [= ->]|]. destruct (Register reg d); [apply IH|done].
Qed.

(** ** Labels *)

(** The call fits the family: it does not panic. *)
Definition fits (s : sample) : Prop := WithLabelValues s.1 s.2 = true.

Lemma fits_intro f vs : length vs = length (d_labels (describe f)) -> Forall (fun v => ValidString v = true) vs -> fits (f, vs).
Proof.
  intros Hl Hv. unfold fits, WithLabelValues. cbn [fst snd]. rewrite bool_decide_eq_true_2 by done. simpl.
  apply forallb_forall. intros v Hin%list_elem_of_In. rewrite label_value_utf8. by rewrite Forall_forall in Hv; apply Hv.
Qed.
Lemma fits_bad f vs v : v ∈ vs -> ValidString v = false -> WithLabelValues f vs = false.
Proof.
  intros Hin Hv. unfold WithLabelValues. apply andb_false_iff. right. apply not_true_is_false. intros Hall.
  rewrite forallb_forall in Hall. specialize (Hall v (proj1 (list_elem_of_In _ _) Hin)). rewrite label_value_utf8 in Hall. congruence.
Qed.
End registration.

Ltac fit := repeat apply Forall_cons_2; try apply Forall_nil_2;
  try (apply fits_intro; [reflexivity|]; repeat apply Forall_cons_2; try apply Forall_nil_2); try done; try (vm_compute; reflexivity).

Lemma Forall_bind_intro {A B} (P : B -> Prop) (f : A -> list B) l : (forall a, a ∈ l -> Forall P (f a)) -> Forall P (l ≫= f).
Proof. intros H. apply Forall_bind, Forall_forall. apply H. Qed.

Lemma node_samples_fit `{PM : !Prometheus} (fs : list family) ids :
  Forall (fun f => length (d_labels (describe f)) = 1%nat) fs -> Forall (fun v => ValidString v = true) ids ->
  Forall fits (ids ≫= fun id => (fun f => (f, [id])) <$> fs).
Proof.
  intros Hf Hi. apply Forall_bind_intro. intros id Hid. apply Forall_fmap, Forall_forall. intros f Hin. cbn.
  rewrite Forall_forall in Hf; rewrite Forall_forall in Hi. apply fits_intro; [by rewrite Hf|]. constructor; [by apply Hi|constructor].
Qed.

Lemma results_fit `{PM : !Prometheus} (results : list (string * bool)) :
  Forall (fun v => ValidString v = true) results.*1 ->
  Forall fits ((fun r : string * bool => (ReplicaWriteResults, [r.1; if r.2 then "ok" else "error"])) <$> results).
Proof.
  intros Hn. apply Forall_fmap, Forall_forall. intros [id b] Hin. apply fits_intro; [done|].
  apply Forall_cons_2; [|destruct b; fit]. rewrite Forall_forall in Hn. apply Hn. by apply (list_elem_of_fmap_2 fst _ (id, b)).
Qed.

Lemma records_fit `{PM : !Prometheus} names ss :
  records names ss -> Forall (fun v => ValidString v = true) names -> Forall fits ss.
Proof.
  intros H Hn.
  destruct H as [| |[]|[]|[] []| | |ids| |outcomes|counted jobs stats ids| | |[]|[]|[]| |[]|[]| | | | |results [] | |fs []|node []|[]|node []| | ];
    try (cbn; rewrite ?Forall_cons in Hn; destruct_and? Hn; fit; fail).
  - by apply (node_samples_fit [NodeHealth; StorageCapacityBytes; StorageUsedBytes]); [repeat constructor|].
  - apply Forall_fmap, Forall_forall. intros [] _; by apply fits_intro.
  - destruct counted; [|constructor]. apply Forall_app; split; [fit|]. apply Forall_app; split; [destruct jobs; cbn; fit|].
    destruct stats; [|constructor]. cbn. do 5 (apply Forall_cons_2; [fit|]).
    by apply (node_samples_fit [NodeHealth; StorageUsedBytes; StorageCapacityBytes; NodeActiveRequests]); [repeat constructor|].
  - apply Forall_app; split; [by apply results_fit|constructor].
  - apply Forall_app; split; [by apply results_fit|fit].
  - apply Forall_app; split; [|fit]. apply Forall_bind_intro. intros [] _; fit.
  - apply Forall_app; split; [|fit]. apply Forall_bind_intro. intros [] _; fit.
Qed.

(** Every family is fed by some function. *)
Definition fed (f : family) : Prop := exists names ss vs, records names ss /\ (f, vs) ∈ ss.

Lemma fed_by {f} names ss (H : records names ss) i vs : ss !! i = Some (f, vs) -> fed f.
Proof. intros E. exists names, ss, vs. split; [done|]. by eapply list_elem_of_lookup_2. Qed.

Lemma records_every_family f : fed f.
Proof.
  destruct f.
  all: first
    [ by eapply (fed_by _ _ (records_Middleware "GET" "/" "2xx") 0%nat) | by eapply (fed_by _ _ (records_Middleware "GET" "/" "2xx") 1%nat)
    | by eapply (fed_by _ _ records_in_flight 0%nat)
    | by eapply (fed_by _ _ records_streamUpload 0%nat) | by eapply (fed_by _ _ records_streamUpload 1%nat)
    | by eapply (fed_by _ _ records_streamDownload 0%nat)
    | by eapply (fed_by _ _ (records_StoreChunk "n" StoreFailed) 0%nat) | by eapply (fed_by _ _ (records_StoreChunk "n" StoreFailed) 1%nat)
    | by eapply (fed_by _ _ (records_StoreChunk "n" StoreFailed) 2%nat)
    | by eapply (fed_by _ _ (records_ReadChunk ReadOk) 0%nat) | by eapply (fed_by _ _ records_writeOne 0%nat)
    | by eapply (fed_by _ _ (records_Write [("n", true)] true) 0%nat)
    | by eapply (fed_by _ _ (records_refresh true true true []) 0%nat) | by eapply (fed_by _ _ (records_refresh true true true []) 1%nat)
    | by eapply (fed_by _ _ (records_refresh true true true []) 2%nat) | by eapply (fed_by _ _ (records_refresh true true true []) 6%nat)
    | by eapply (fed_by _ _ (records_refresh true true true []) 7%nat)
    | by eapply (fed_by _ _ (records_Heartbeat "n") 0%nat) | by eapply (fed_by _ _ (records_Heartbeat "n") 1%nat)
    | by eapply (fed_by _ _ (records_Heartbeat "n") 2%nat) | by eapply (fed_by _ _ (records_Heartbeat "n") 3%nat)
    | by eapply (fed_by _ _ (records_observeGRPC "m" "OK") 0%nat) | by eapply (fed_by _ _ (records_observeGRPC "m" "OK") 1%nat)
    | by eapply (fed_by _ _ (records_pickDestination false) 0%nat) | by eapply (fed_by _ _ (records_pickDestination true) 0%nat)
    | by eapply (fed_by _ _ records_GCWorker_Run 0%nat) | by eapply (fed_by _ _ (records_processDeletions [true]) 0%nat)
    | by eapply (fed_by _ _ (records_claimAndRepair true) 0%nat) | by eapply (fed_by _ _ (records_claimAndRepair true) 1%nat)
    | by eapply (fed_by _ _ (records_claimAndRepair true) 2%nat)
    | by eapply (fed_by _ _ (records_executeRepair Repaired) 1%nat) | by eapply (fed_by _ _ (records_executeRepair NoReadableReplica) 0%nat)
    | by eapply (fed_by _ _ (records_GetObject Hit false) 0%nat) | by eapply (fed_by _ _ (records_GetObject Missed false) 0%nat)
    | by eapply (fed_by _ _ (records_GetObject Broken false) 0%nat)
    | by eapply (fed_by _ _ (records_runOne false) 0%nat) | by eapply (fed_by _ _ (records_runOne false) 1%nat)
    | by eapply (fed_by _ _ (records_reconcileNode Orphan) 0%nat)
    | by eapply (fed_by _ _ records_scanOnce 0%nat) | by eapply (fed_by _ _ records_DurabilityAuditor_Run 0%nat) ].
Qed.

(** C37: the metrics are well typed. In a process whose runtime collectors the
    registry accepts, and whose names are not FlexStore's, every family is
    registered without a panic, no two of them expose a time series of the same
    name, every call on a collector that the tables above list of the three
    services has as many values as its family has labels and panics for no node
    identifier or request that is text, and every family, with labels or without,
    is fed by one of those calls. *)
Theorem metrics_well_typed `{PM : !Prometheus} (runtime : list desc) :
  MustRegister [] runtime = Some runtime -> Forall (fun d => HasPrefix (d_name d) "flexstore_" = false) runtime ->
  NewMetrics runtime = Some (runtime ++ (describe <$> registered)) /\
  (forall f, f ∈ registered) /\ NoDup ((describe <$> registered) ≫= series) /\
  (forall names ss f vs, records names ss -> Forall (fun v => ValidString v = true) names -> (f, vs) ∈ ss -> WithLabelValues f vs = true) /\
  (forall f, fed f).
Proof.
  intros Hr Hp. split_and!.
  - unfold NewMetrics. rewrite (MustRegister_app _ _ _ _ Hr). apply MustRegister_ok.
    + apply Forall_fmap, Forall_forall. intros f _. apply describe_ok.
    + apply (bool_decide_unpack _). vm_compute. exact I.
    + intros d Hd (d'&E&Hin)%list_elem_of_fmap. rewrite Forall_forall in Hp. specialize (Hp d' Hin).
      apply list_elem_of_fmap in Hd as (f&->&_). rewrite <-E in Hp. destruct f; discriminate Hp.
  - apply registered_all.
  - apply (bool_decide_unpack _). vm_compute. exact I.
  - intros names ss f vs H Hn Hin. pose proof (records_fit _ _ H Hn) as Hf. rewrite Forall_forall in Hf. exact (Hf _ Hin).
  - apply records_every_family.
Qed.

(** The collectors of the runtime, by the names their documentation gives. *)
Definition sample_runtime : list desc := [mkDesc Gauge "go_goroutines" []; mkDesc Counter "process_cpu_seconds_total" []].
Lemma metrics_well_typed_witness :
  NewMetrics (PM := strict_registry) sample_runtime = Some (sample_runtime ++ (describe (PM := strict_registry) <$> registered)) /\
  WithLabelValues (PM := strict_registry) ChunksStoredTotal ["storage-node-1"; "stored"] = true.
Proof.
  destruct (metrics_well_typed (PM := strict_registry) sample_runtime) as (H1&_&_&H4&_); [vm_compute; reflexivity|repeat constructor|].
  split; [exact H1|].
  apply (H4 ["storage-node-1"] (StoreChunk_samples "storage-node-1" StoredNew)); [constructor|repeat constructor|right; left].
Defined.
End Families.
