(* ===== verification/GoParse.v ===== *)
(** * What the configuration uses of Go's strings, strconv and time

    strings.ToUpper, strconv.ParseBool, strconv.ParseFloat with 64 bits and
    time.ParseDuration, on byte strings, following their implementations: an
    error is [None]. The Unicode case tables are an operation of a class. *)

From Stdlib Require Import Ascii Floats.SpecFloat.
From stdpp Require Import base numbers strings list.
From S2P Require Import Prelude GoStrings Validate GoFloat.

(** ** ToUpper *)

(** unicode.ToUpper on the runes beyond ASCII. *)
Class GoUnicode := { unicode_ToUpper : N -> N }.

Definition upper_byte (b : N) : N := if between 97 122 b then (b - 32)%N else b.

(** utf8.AppendRune *)
Definition encode_rune (r : N) : list N :=
  if (r <? 128)%N then [r]
  else if (r <? 2048)%N then [192 + r / 64; 128 + r mod 64]%N
  else if (1114111 <? r)%N || between 55296 57343 r then [239; 191; 189]%N
  else if (r <? 65536)%N then [224 + r / 4096; 128 + r / 64 mod 64; 128 + r mod 64]%N
  else [240 + r / 262144; 128 + r / 4096 mod 64; 128 + r / 64 mod 64; 128 + r mod 64]%N.

Definition upper_rune `{!GoUnicode} (r : N) : N := if (r <? 128)%N then upper_byte r else unicode_ToUpper r.
Definition is_ascii (s : string) : bool := forallb (fun b => b <? 128)%N (to_bytes s).

Definition ToUpper `{!GoUnicode} (s : string) : string :=
  if is_ascii s then of_bytes (upper_byte <$> to_bytes s)
  else of_bytes (concat ((fun r : N * bool => encode_rune (upper_rune r.1)) <$> range_string s)).

(** ** ParseBool *)

Definition ParseBool (s : string) : option bool :=
  if decide (s ∈ ["1"; "t"; "T"; "true"; "TRUE"; "True"]) then Some true
  else if decide (s ∈ ["0"; "f"; "F"; "false"; "FALSE"; "False"]) then Some false
  else None.

(** ** ParseFloat *)

Definition lower_byte (b : N) : N := N.lor b 32.
Definition is_digit (b : N) : bool := between 48 57 b.
Definition digit_of (hex : bool) (b : N) : option Z :=
  if is_digit b then Some (Z.of_N b - 48)%Z
  else if hex && between 97 102 (lower_byte b) then Some (Z.of_N (lower_byte b) - 87)%Z
  else None.

(** The digits before the exponent: their value, how many follow the dot,
    whether there was a digit and an underscore, and the rest. *)
Record mantissa := mkMantissa {
  mt_value : Z;
  mt_frac : Z;
  mt_digits : bool;
  mt_under : bool;
  mt_rest : list N
}.
Fixpoint read_mantissa (hex : bool) (l : list N) (m frac : Z) (dot digits under : bool) : mantissa :=
  match l with
  | [] => mkMantissa m frac digits under []
  | c :: l' =>
      if (c =? 95)%N then read_mantissa hex l' m frac dot digits true
      else if (c =? 46)%N then
        if dot then mkMantissa m frac digits under l else read_mantissa hex l' m frac true digits under
      else match digit_of hex c with
           | Some v => read_mantissa hex l' (m * (if hex then 16 else 10) + v)%Z (if dot then frac + 1 else frac)%Z dot true under
           | None => mkMantissa m frac digits under l
           end
  end.

(** The digits of the exponent; beyond 10000 they no longer count. *)
Fixpoint read_exponent (l : list N) (e : Z) (under : bool) : Z * bool * list N :=
  match l with
  | [] => (e, under, [])
  | c :: l' =>
      if (c =? 95)%N then read_exponent l' e true
      else if is_digit c then read_exponent l' (if decide (e < 10000)%Z then e * 10 + (Z.of_N c - 48) else e)%Z under
      else (e, under, l)
  end.

(** What may come before an underscore. *)
Inductive seen := SeenNothing | SeenDigit | SeenUnderscore | SeenOther.
Fixpoint underscores_ok (hex : bool) (l : list N) (s : seen) : bool :=
  match l with
  | [] => match s with SeenUnderscore => false | _ => true end
  | c :: l' =>
      if is_digit c || hex && between 97 102 (lower_byte c) then underscores_ok hex l' SeenDigit
      else if (c =? 95)%N then match s with SeenDigit => underscores_ok hex l' SeenUnderscore | _ => false end
      else match s with SeenUnderscore => false | _ => underscores_ok hex l' SeenOther end
  end.

Definition sign_of (l : list N) : bool * list N :=
  match l with
  | 43%N :: l' => (false, l')
  | 45%N :: l' => (true, l')
  | _ => (false, l)
  end.

Definition underscoreOK (l : list N) : bool :=
  match (sign_of l).2 with
  | 48%N :: c :: l' =>
      if (lower_byte c =? 120)%N then underscores_ok true l' SeenDigit
      else if (lower_byte c =? 98)%N || (lower_byte c =? 111)%N then underscores_ok false l' SeenDigit
      else underscores_ok false (48%N :: c :: l') SeenNothing
  | l' => underscores_ok false l' SeenNothing
  end.

(** The float64 nearest to [m * 10 ^ x]. *)
Definition round_decimal (neg : bool) (m x : Z) : float64 :=
  match m with
  | Zpos p =>
      if decide (0 <= x)%Z then binary_round 53 1024 neg (p * Z.to_pos (10 ^ x)) 0
      else fdiv (S754_finite neg p 0) (S754_finite false (Z.to_pos (10 ^ (- x))) 0)
  | _ => S754_zero neg
  end.
(** The float64 nearest to [m * 2 ^ x]. *)
Definition round_binary (neg : bool) (m x : Z) : float64 :=
  match m with Zpos p => binary_round 53 1024 neg p x | _ => S754_zero neg end.

(** The exponent that follows the digits: its value, whether it had an
    underscore, and the rest. *)
Definition exponent_part (hex : bool) (l : list N) : option (Z * bool * list N) :=
  match l with
  | c :: l' =>
      if (lower_byte c =? (if hex then 112 else 101))%N then
        let '(neg, l'') := sign_of l' in
        match l'' with
        | d :: _ => if is_digit d then
                      let '(e, under, rest) := read_exponent l'' 0 false in
                      Some ((if neg then - e else e)%Z, under, rest)
                    else None
        | [] => None
        end
      else if hex then None else Some (0%Z, false, l)
  | [] => if hex then None else Some (0%Z, false, [])
  end.

Definition read_float (l : list N) : option float64 :=
  let '(neg, l1) := sign_of l in
  let '(hex, l2) := match l1 with
                    | 48%N :: c :: d :: l' => if (lower_byte c =? 120)%N then (true, d :: l') else (false, l1)
                    | _ => (false, l1)
                    end in
  let m := read_mantissa hex l2 0 0 false false false in
  if negb (mt_digits m) then None
  else match exponent_part hex (mt_rest m) with
       | Some (e, under, []) =>
           if (mt_under m || under) && negb (underscoreOK l) then None
           else Some (if hex then round_binary neg (mt_value m) (e - 4 * mt_frac m)
                      else round_decimal neg (mt_value m) (e - mt_frac m))
       | _ => None
       end.

Definition ascii_lower (b : N) : N := if between 65 90 b then (b + 32)%N else b.

(** A value beyond the range of float64 is an error, an infinity that is
    spelled out is not. *)
Definition ParseFloat (s : string) : option float64 :=
  let l := to_bytes s in
  let '(neg, l') := sign_of l in
  let word := of_bytes (ascii_lower <$> l') in
  if decide (word = "inf" \/ word = "infinity") then Some (S754_infinity neg)
  else if decide (of_bytes (ascii_lower <$> l) = "nan") then Some S754_nan
  else match read_float l with
       | Some (S754_infinity _) => None
       | r => r
       end.

(** ** ParseDuration *)

Definition nanosecond : Z := 1.
Definition microsecond : Z := 1000.
Definition second : Z := 1000000000.
Definition minute : Z := 60 * second.
Definition hours : Z := 60 * minute.

Definition uint64 (n : Z) : Z := (n mod 2 ^ 64)%Z.

(** The micro sign and the Greek letter mu, each followed by "s". *)
Definition micro_sign : string := of_bytes [194; 181; 115]%N.
Definition greek_mu : string := of_bytes [206; 188; 115]%N.
Definition unitMap (u : string) : option Z :=
  if decide (u = "ns") then Some nanosecond
  else if decide (u = "us" \/ u = micro_sign \/ u = greek_mu) then Some microsecond
  else if decide (u = "ms") then Some millisecond
  else if decide (u = "s") then Some second
  else if decide (u = "m") then Some minute
  else if decide (u = "h") then Some hours
  else None.

(** [None] is an overflow. *)
Fixpoint leadingInt (x : Z) (l : list N) : option (Z * list N) :=
  match l with
  | c :: l' =>
      if is_digit c then
        if decide (2 ^ 63 / 10 < x)%Z then None
        else let x := (x * 10 + (Z.of_N c - 48))%Z in
             if decide (2 ^ 63 < x)%Z then None else leadingInt x l'
      else Some (x, l)
  | [] => Some (x, [])
  end.

(** The digits after the dot, their number as a power of ten, and the rest;
    digits that no longer fit are skipped. *)
Fixpoint leadingFraction (x : Z) (scale : float64) (overflow : bool) (l : list N) : Z * float64 * list N :=
  match l with
  | c :: l' =>
      if is_digit c then
        if overflow then leadingFraction x scale true l'
        else if decide ((2 ^ 63 - 1) / 10 < x)%Z then leadingFraction x scale true l'
        else let y := (x * 10 + (Z.of_N c - 48))%Z in
             if decide (2 ^ 63 < y)%Z then leadingFraction x scale true l'
             else leadingFraction y (fmul scale (of_int 10)) false l'
      else (x, scale, l)
  | [] => (x, scale, [])
  end.

Definition in_number (c : N) : bool := (c =? 46)%N || is_digit c.
Fixpoint unit_name (l : list N) : list N * list N :=
  match l with
  | c :: l' => if in_number c then ([], l) else let '(u, rest) := unit_name l' in (c :: u, rest)
  | [] => ([], [])
  end.

(** One number and its unit: the nanoseconds and the rest. *)
Definition duration_part (l : list N) : option (Z * list N) :=
  match leadingInt 0 l with
  | None => None
  | Some (v, l1) =>
      let pre := bool_decide (length l1 <> length l) in
      let '(f, scale, l2, post) :=
        match l1 with
        | 46%N :: l' => let '(f, scale, r) := leadingFraction 0 f1 false l' in
                        (f, scale, r, bool_decide (length r <> length l'))
        | _ => (0%Z, f1, l1, false)
        end in
      if negb pre && negb post then None
      else
        let '(u, l3) := unit_name l2 in
        match unitMap (of_bytes u) with
        | None => None
        | Some unit =>
            if decide (2 ^ 63 / unit < v)%Z then None
            else
              let v := (v * unit)%Z in
              if decide (0 < f)%Z then
                let v := uint64 (v + default 0 (ftrunc (fmul (of_int f) (fdiv (of_int unit) scale))))%Z in
                if decide (2 ^ 63 < v)%Z then None else Some (v, l3)
              else Some (v, l3)
        end
  end.

(** The sum of the parts; each takes at least one byte. *)
Fixpoint duration_parts (fuel : nat) (d : Z) (l : list N) : option Z :=
  match l with
  | [] => Some d
  | c :: _ =>
      match fuel with
      | O => None
      | S fuel' =>
          if negb (in_number c) then None
          else match duration_part l with
               | None => None
               | Some (v, l') =>
                   let d := uint64 (d + v) in
                   if decide (2 ^ 63 < d)%Z then None else duration_parts fuel' d l'
               end
      end
  end.

Definition ParseDuration (s : string) : option Z :=
  let '(neg, l) := sign_of (to_bytes s) in
  if decide (l = [48%N]) then Some 0%Z
  else if decide (l = []) then None
  else match duration_parts (length l) 0 l with
       | None => None
       | Some d => if neg then Some (int64 (- int64 d)) else if decide (2 ^ 63 - 1 < d)%Z then None else Some d
       end.

(** ** Numbers as fmt prints them *)

Lemma is_digit_spec b : is_digit b = true <-> (48 <= b <= 57)%N.
Proof. unfold is_digit, between. rewrite andb_true_iff, !N.leb_le. done. Qed.
Lemma digit_not_special b : (48 <= b <= 57)%N -> (b =? 95)%N = false /\ (b =? 46)%N = false.
Proof. intros Hb. split; apply N.eqb_neq; lia. Qed.

Lemma digit_value_spec c v : digit_value c = Some v -> (48 <= byte_of c <= 57)%N /\ v = (Z.of_N (byte_of c) - 48)%Z.
Proof. unfold digit_value. case_decide; [|done]. intros [= <-]. split; [lia|done]. Qed.
Lemma digits_value_cons acc c s v : digits_value acc (String c s) = Some v ->
  is_digit (byte_of c) = true /\ (48 <= byte_of c <= 57)%N /\
  digits_value (acc * 10 + (Z.of_N (byte_of c) - 48)) s = Some v.
Proof.
  simpl. destruct (digit_value c) as [d|] eqn:Hd; [|done]. apply digit_value_spec in Hd as [Hc ->]. intros H.
  split; [by apply is_digit_spec|]. by split; [lia|].
Qed.
Lemma digits_value_ge acc s v : (0 <= acc)%Z -> digits_value acc s = Some v -> (acc <= v)%Z.
Proof.
  revert acc. induction s as [|c s IH]; intros acc Ha H; [simpl in H; simplify_eq; lia|].
  apply digits_value_cons in H as (_&Hc&H). apply IH in H; lia.
Qed.

Lemma FormatInt_value n : (0 <= n < 2 ^ 63)%Z -> exists c s, FormatInt n = String c s /\
  (48 <= byte_of c <= 57)%N /\ digits_value 0 (String c s) = Some n.
Proof.
  intros Hn. unfold FormatInt. rewrite decide_False by lia.
  destruct (format_digits_spec 19 n EmptyString) as (c&s&->&[d Hd]&Hv); [lia|].
  rewrite string_app_nil. exists c, s. split; [done|]. split; [by apply digit_value_spec in Hd as [? _]|].
  by rewrite Hv.
Qed.

Lemma to_bytes_cons c s : to_bytes (String c s) = byte_of c :: to_bytes s.
Proof. done. Qed.

Lemma read_mantissa_digits s m v d u : digits_value m s = Some v ->
  read_mantissa false (to_bytes s) m 0 false d u =
  mkMantissa v 0 (d || match s with EmptyString => false | _ => true end) u [].
Proof.
  revert m d. induction s as [|c s IH]; intros m d H.
  { simpl in *. simplify_eq. by rewrite orb_false_r. }
  apply digits_value_cons in H as (Hd&Hc&H). rewrite to_bytes_cons. cbn [read_mantissa].
  destruct (digit_not_special _ Hc) as [-> ->]. unfold digit_of. rewrite Hd.
  rewrite IH by done. rewrite orb_true_r. done.
Qed.

Lemma sign_of_digit b l : (48 <= b <= 57)%N -> sign_of (b :: l) = (false, b :: l).
Proof.
  intros Hb. unfold sign_of. destruct b as [|p]; [lia|].
  repeat (destruct p as [p|p|]; try done; try lia).
Qed.

Lemma not_hex b l : (48 <= b <= 57)%N -> Forall (fun b => (48 <= b <= 57)%N) l ->
  match b :: l with
  | 48%N :: c :: d :: l' => if (lower_byte c =? 120)%N then (true, d :: l') else (false, b :: l)
  | _ => (false, b :: l)
  end = (false, b :: l).
Proof.
  intros Hb Hl. destruct l as [|c [|d l]]; [by repeat case_match..|].
  apply Forall_cons_1 in Hl as [Hc _].
  assert ((lower_byte c =? 120)%N = false) as ->; [|by repeat case_match].
  apply N.eqb_neq. unfold lower_byte. intros H.
  assert (exists k, (k < 10)%nat /\ c = (48 + N.of_nat k)%N) as (k&Hk&->) by (exists (N.to_nat (c - 48)); lia).
  do 10 (destruct k as [|k]; [done|]). lia.
Qed.

Lemma digits_bytes s acc v : digits_value acc s = Some v -> Forall (fun b => (48 <= b <= 57)%N) (to_bytes s).
Proof.
  revert acc. induction s as [|c s IH]; intros acc H; [constructor|].
  apply digits_value_cons in H as (_&Hc&H). constructor; [done|]. by eapply IH.
Qed.

(** A word that starts with a letter is not a number. *)
Lemma not_word w b l f : (48 <= b <= 57)%N -> (forall x, (48 <= x <= 57)%N -> (f x = x)) ->
  (exists c w', w = String c w' /\ ~ (48 <= byte_of c <= 57)%N) -> of_bytes (f <$> (b :: l)) <> w.
Proof.
  intros Hb Hf (c&w'&->&Hc). rewrite fmap_cons, Hf by done. cbn. intros [= <- _].
  apply Hc. unfold byte_of. rewrite Ascii.N_ascii_embedding by lia. done.
Qed.
Lemma ascii_lower_digit b : (48 <= b <= 57)%N -> ascii_lower b = b.
Proof.
  intros Hb. unfold ascii_lower, between.
  by rewrite (proj2 (N.leb_gt 65 b)) by lia.
Qed.

Lemma ParseFloat_FormatInt n : (0 <= n < 2 ^ 53)%Z -> ParseFloat (FormatInt n) = Some (of_int n).
Proof.
  intros Hn. destruct (FormatInt_value n) as (c&s&->&Hc&Hv); [lia|].
  pose proof (digits_bytes _ _ _ Hv) as Hb. unfold ParseFloat. rewrite to_bytes_cons in *.
  rewrite (sign_of_digit _ _ Hc).
  rewrite decide_False by (intros [H|H]; revert H; apply not_word; try done;
    [apply ascii_lower_digit|eexists _, _; split; [done|]; vm_compute; naive_solver
    |apply ascii_lower_digit|eexists _, _; split; [done|]; vm_compute; naive_solver]).
  rewrite decide_False by (apply not_word; try done;
    [apply ascii_lower_digit|eexists _, _; split; [done|]; vm_compute; naive_solver]).
  unfold read_float. rewrite (sign_of_digit _ _ Hc).
  apply Forall_cons_1 in Hb as [_ Hb]. rewrite (not_hex _ _ Hc Hb).
  rewrite <-to_bytes_cons, (read_mantissa_digits _ _ _ _ _ Hv). cbn [negb mt_digits orb mt_rest mt_under mt_value mt_frac exponent_part andb].
  unfold round_decimal. destruct n as [|p|p]; [done| |lia]. rewrite decide_True by lia.
  change (Z.to_pos (10 ^ (0 - 0))) with 1%positive. rewrite Pos.mul_1_r.
  destruct (of_int_exact (Zpos p)) as (q&e&Ho&_&_); [lia|].
  change (of_int (Zpos p)) with (binary_round 53 1024 false p 0) in *. by rewrite Ho.
Qed.

Lemma leadingInt_digits s x v b l : (0 <= x)%Z -> digits_value x s = Some v -> (v < 2 ^ 63)%Z ->
  is_digit b = false -> leadingInt x (to_bytes s ++ b :: l) = Some (v, b :: l).
Proof.
  revert x. induction s as [|c s IH]; intros x Hx H Hv Hb.
  { simpl in *. simplify_eq. by rewrite Hb. }
  apply digits_value_cons in H as (Hd&Hc&H). rewrite to_bytes_cons. cbn [app leadingInt]. rewrite Hd.
  assert (x * 10 + (Z.of_N (byte_of c) - 48) <= v)%Z by (eapply digits_value_ge; [|exact H]; lia).
  rewrite decide_False by (change (2 ^ 63 / 10)%Z with 922337203685477580%Z; lia). rewrite decide_False by lia.
  by apply IH; [lia| | |].
Qed.

Definition duration_units : list string := ["ns"; "us"; "ms"; "s"; "m"; "h"].

(** A printed number with a unit is that many units. *)
Lemma ParseDuration_FormatInt n u unit : u ∈ duration_units -> unitMap u = Some unit ->
  (0 <= n)%Z -> (n * unit < 2 ^ 63)%Z -> ParseDuration (FormatInt n +:+ u) = Some (n * unit)%Z.
Proof.
  intros Hu Hunit Hn Hlt.
  assert (1 <= unit)%Z as Hpos.
  { unfold duration_units in Hu. revert Hunit.
    repeat (apply elem_of_cons in Hu as [->|Hu]; [intros [= <-]; vm_compute; done|]). by apply elem_of_nil in Hu. }
  destruct (FormatInt_value n) as (c&s&->&Hc&Hv); [nia|].
  assert (exists b l, to_bytes u = b :: l /\ is_digit b = false /\ (b =? 46)%N = false /\ unit_name (b :: l) = (b :: l, []) /\
      of_bytes (b :: l) = u) as (b&l&Hb&Hnd&Hdot&Hname&Hof).
  { unfold duration_units in Hu.
    repeat (apply elem_of_cons in Hu as [->|Hu]; [eexists _, _; split_and!; reflexivity|]). by apply elem_of_nil in Hu. }
  unfold ParseDuration. rewrite to_bytes_app, Hb, to_bytes_cons. cbn [app].
  rewrite (sign_of_digit _ _ Hc).
  rewrite decide_False by (intros H; apply (f_equal length) in H; rewrite length_cons, length_app in H; simpl in H; lia).
  rewrite decide_False by done.
  rewrite app_comm_cons, <-to_bytes_cons. rewrite length_app. cbn [length].
  rewrite Nat.add_succ_r. set (fuel := (length (to_bytes (String c s)) + length l)%nat). cbn [duration_parts to_bytes].
  assert (duration_part (to_bytes (String c s) ++ b :: l) = Some ((n * unit)%Z, [])) as Hpart.
  { unfold duration_part. rewrite (leadingInt_digits _ _ n) by (done || nia).
    rewrite bool_decide_true by (rewrite length_app, to_bytes_cons; simpl; lia).
    assert (match b :: l with
            | 46%N :: l' => let '(f, scale, r) := leadingFraction 0 f1 false l' in (f, scale, r, bool_decide (length r <> length l'))
            | _ => (0%Z, f1, b :: l, false) end = (0%Z, f1, b :: l, false)) as ->.
    { apply N.eqb_neq in Hdot. destruct b as [|p]; [done|]. repeat (destruct p as [p|p|]; try done). }
    cbn [negb andb]. rewrite Hname, Hof, Hunit. rewrite decide_False.
    - by rewrite decide_False by lia.
    - intros Hover. assert (2 ^ 63 / unit * unit <= 2 ^ 63)%Z by (rewrite Z.mul_comm; apply Z.mul_div_le; lia).
      assert (2 ^ 63 < (2 ^ 63 / unit + 1) * unit)%Z.
      { pose proof (Z.mul_succ_div_gt (2 ^ 63) unit). lia. }
      nia. }
  rewrite to_bytes_cons in *. cbn [app] in *. cbn [duration_parts].
  assert (in_number (byte_of c) = true) as ->.
  { unfold in_number. rewrite (proj2 (is_digit_spec _) Hc). apply orb_true_r. }
  cbn [negb]. rewrite Hpart. unfold uint64. rewrite Z.add_0_l, Z.mod_small by nia.
  rewrite decide_False by lia. destruct fuel; (cbn [duration_parts]; by rewrite decide_False by lia).
Qed.
