(* ===== verification/Config.v ===== *)
(** * Configuration (src/internal/config/config.go)

    The three services read their settings from the environment; every setting
    has a default, a value that cannot be parsed is an error, and the services
    refuse to start when there is any error. The parsers of sizes and the
    loaders are executable; the errors are kept as values in the order in which
    the loader collects them. *)

From Stdlib Require Import Ascii.
From stdpp Require Import base numbers strings gmap list.
From S2P Require Import Prelude GoStrings Validate GoFloat GoParse Placement.

Definition Env := gmap string string.

Definition DefaultChunkSize : Z := 8 * 2 ^ 20.
Definition MinChunkSize : Z := 64 * 2 ^ 10.
Definition MaxChunkSize : Z := 256 * 2 ^ 20.

(** ** Errors *)

Inductive size_error :=
  | EmptySize
  | InvalidSize (s : string)
  | NegativeSize (s : string).

(** One constructor per message. *)
Inductive config_error :=
  | NotAnInteger (key v : string)
  | NotABoolean (key v : string)
  | NotADuration (key v : string)
  | NotASize (key : string) (e : size_error)
  | ChunkSizeOutOfRange (n : Z)
  | Required (key : string)
  | ReplicationFactorTooSmall (n : Z)
  | MinWriteReplicasOutOfRange (rf n : Z)
  | SuspectNotAboveHeartbeat (suspect heartbeat : Z)
  | DeadNotAboveSuspect (dead suspect : Z)
  | RepairWorkersTooFew (n : Z)
  | RepairMaxPerNodeTooSmall (n : Z)
  | RepairLeaseTooShort (lease timeout : Z)
  | ReconcileLeaseTooShort (lease timeout : Z)
  | UnknownPlacementStrategy (s : string).

(** The loaders collect errors on the way. *)
Definition Cfg (A : Type) : Type := list config_error -> A * list config_error.
Definition cfg_ret {A} (a : A) : Cfg A := fun errs => (a, errs).
Definition cfg_bind {A B} (m : Cfg A) (k : A -> Cfg B) : Cfg B := fun errs => let '(a, errs) := m errs in k a errs.
Definition report (e : config_error) : Cfg unit := fun errs => (tt, errs ++ [e]).
Notation "'cfg!' x := m 'in' k" := (cfg_bind m (fun x => k))
  (at level 10, x name, m at level 100, k at level 200, only parsing).
Notation "'chk!' m 'in' k" := (cfg_bind m (fun _ => k)) (at level 10, m at level 100, k at level 200, only parsing).

(** ** Sizes *)

Definition units : list (string * Z) :=
  [("KIB", 2 ^ 10); ("MIB", 2 ^ 20); ("GIB", 2 ^ 30); ("TIB", 2 ^ 40);
   ("KB", 1000); ("MB", 1000 * 1000); ("GB", 1000 * 1000 * 1000); ("TB", 1000 * 1000 * 1000 * 1000);
   ("K", 2 ^ 10); ("M", 2 ^ 20); ("G", 2 ^ 30); ("T", 2 ^ 40);
   ("B", 1)]%Z.

Section parsing.
Context `{GM : !GoMath, GU : !GoUnicode}.

(** [None] when no unit applies. *)
Fixpoint with_unit (s upper : string) (us : list (string * Z)) : option (result size_error Z) :=
  match us with
  | [] => None
  | (suffix, mult) :: us' =>
      if HasSuffix upper suffix then
        let numPart := TrimSpace (slice_to upper (String.length upper - String.length suffix)) in
        if String.eqb numPart EmptyString then with_unit s upper us'
        else Some match ParseFloat numPart with
                  | None => Err (InvalidSize s)
                  | Some n => if flt n f0 then Err (NegativeSize s) else Ok (to_int64 (fmul n (of_int mult)))
                  end
      else with_unit s upper us'
  end.

Definition ParseBytes (s : string) : result size_error Z :=
  let s := TrimSpace s in
  if String.eqb s EmptyString then Err EmptySize
  else
    let upper := ToUpper s in
    match with_unit s upper units with
    | Some r => r
    | None => match ParseInt upper with Some n => Ok n | None => Err (InvalidSize s) end
    end.

(** ** Settings *)

(** The trimmed value of a setting that is there and not blank. *)
Definition present (env : Env) (key : string) : option string :=
  match env !! key with
  | Some v => let v := TrimSpace v in if String.eqb v EmptyString then None else Some v
  | None => None
  end.
Definition raw (env : Env) (key : string) : string := default EmptyString (env !! key).

Definition envString (env : Env) (key def : string) : string := default def (present env key).

Definition envInt (env : Env) (key : string) (def : Z) : Cfg Z :=
  match present env key with
  | None => cfg_ret def
  | Some v => match ParseInt v with
              | Some n => cfg_ret n
              | None => chk! report (NotAnInteger key (raw env key)) in cfg_ret def
              end
  end.

Definition envBool (env : Env) (key : string) (def : bool) : Cfg bool :=
  match present env key with
  | None => cfg_ret def
  | Some v => match ParseBool v with
              | Some b => cfg_ret b
              | None => chk! report (NotABoolean key (raw env key)) in cfg_ret def
              end
  end.

Definition envDuration (env : Env) (key : string) (def : Z) : Cfg Z :=
  match present env key with
  | None => cfg_ret def
  | Some v => match ParseDuration v with
              | Some d => cfg_ret d
              | None => chk! report (NotADuration key (raw env key)) in cfg_ret def
              end
  end.

Definition envBytes (env : Env) (key : string) (def : Z) : Cfg Z :=
  match present env key with
  | None => cfg_ret def
  | Some v => match ParseBytes v with
              | Ok n => cfg_ret n
              | Err e => chk! report (NotASize key e) in cfg_ret def
              end
  end.

(** Reports the error when the condition holds. *)
Definition refuse_if (b : bool) (e : config_error) : Cfg unit := if b then report e else cfg_ret tt.

Definition validateChunkSize (n : Z) : Cfg unit :=
  refuse_if ((n <? MinChunkSize) || (MaxChunkSize <? n))%Z (ChunkSizeOutOfRange n).

Record Common := mkCommon {
  cm_ServiceName : string;
  cm_LogLevel : string;
  cm_LogFormat : string;
  cm_MetricsAddr : string;
  cm_ShutdownWait : Z
}.
Definition loadCommon (env : Env) (service defaultMetricsAddr : string) : Cfg Common :=
  let logLevel := envString env "FLEXSTORE_LOG_LEVEL" "info" in
  let logFormat := envString env "FLEXSTORE_LOG_FORMAT" "json" in
  let metricsAddr := envString env "FLEXSTORE_METRICS_ADDR" defaultMetricsAddr in
  cfg! shutdownWait := envDuration env "FLEXSTORE_SHUTDOWN_TIMEOUT" (20 * second) in
  cfg_ret (mkCommon service logLevel logFormat metricsAddr shutdownWait).

(** ** The gateway *)

Record GatewaySettings := mkGatewaySettings {
  gc_Common : Common;
  gc_HTTPAddr : string;
  gc_CoordinatorAddr : string;
  gc_ChunkSize : Z;
  gc_MaxObjectSize : Z;
  gc_ReadTimeout : Z;
  gc_WriteTimeout : Z;
  gc_IdleTimeout : Z;
  gc_ChunkWriteTimeout : Z;
  gc_ChunkReadTimeout : Z;
  gc_CoordinatorTimeout : Z
}.

Definition read_gateway (env : Env) : Cfg GatewaySettings :=
  cfg! common := loadCommon env "gateway" "0.0.0.0:9101" in
  let httpAddr := envString env "FLEXSTORE_HTTP_ADDR" "0.0.0.0:8080" in
  let coordinatorAddr := envString env "FLEXSTORE_COORDINATOR_ADDR" "coordinator:9090" in
  cfg! chunkSize := envBytes env "FLEXSTORE_CHUNK_SIZE" DefaultChunkSize in
  cfg! maxObjectSize := envBytes env "FLEXSTORE_MAX_OBJECT_SIZE" (5 * 2 ^ 40) in
  cfg! readTimeout := envDuration env "FLEXSTORE_HTTP_READ_TIMEOUT" 0 in
  cfg! writeTimeout := envDuration env "FLEXSTORE_HTTP_WRITE_TIMEOUT" 0 in
  cfg! idleTimeout := envDuration env "FLEXSTORE_HTTP_IDLE_TIMEOUT" (120 * second) in
  cfg! chunkWriteTimeout := envDuration env "FLEXSTORE_CHUNK_WRITE_TIMEOUT" (60 * second) in
  cfg! chunkReadTimeout := envDuration env "FLEXSTORE_CHUNK_READ_TIMEOUT" (60 * second) in
  cfg! coordinatorTimeout := envDuration env "FLEXSTORE_COORDINATOR_TIMEOUT" (10 * second) in
  cfg_ret (mkGatewaySettings common
    httpAddr coordinatorAddr chunkSize maxObjectSize readTimeout writeTimeout idleTimeout
    chunkWriteTimeout chunkReadTimeout coordinatorTimeout).

Definition LoadGateway (env : Env) : GatewaySettings * list config_error :=
  (cfg! c := read_gateway env in
   chk! validateChunkSize (gc_ChunkSize c) in
   cfg_ret c) [].

(** ** The coordinator *)

Record CoordinatorSettings := mkCoordinatorSettings {
  cc_Common : Common;
  cc_GRPCAddr : string;
  cc_PostgresDSN : string;
  cc_RedisAddr : string;
  cc_RedisDB : Z;
  cc_ReplicationFactor : Z;
  cc_MinWriteReplicas : Z;
  cc_ChunkSize : Z;
  cc_HeartbeatInterval : Z;
  cc_SuspectTimeout : Z;
  cc_DeadTimeout : Z;
  cc_HealthScanInterval : Z;
  cc_GCInterval : Z;
  cc_GCBatchSize : Z;
  cc_UploadStaleAfter : Z;
  cc_NodeCallTimeout : Z;
  cc_MigrateOnStart : bool;
  cc_NodeCacheTTL : Z;
  cc_ObjectCacheTTL : Z;
  cc_PlacementStrategy : string;
  cc_RepairEnabled : bool;
  cc_RepairWorkers : Z;
  cc_RepairMaxPerNode : Z;
  cc_RepairScanInterval : Z;
  cc_RepairScanBatch : Z;
  cc_RepairJobTimeout : Z;
  cc_RepairLease : Z;
  cc_RepairMaxAttempts : Z;
  cc_RepairBaseBackoff : Z;
  cc_RepairMaxBackoff : Z;
  cc_RepairHistoryTTL : Z;
  cc_ReconcileEnabled : bool;
  cc_ReconcileInterval : Z;
  cc_ReconcilePageSize : Z;
  cc_ReconcileTimeout : Z;
  cc_ReconcileLease : Z;
  cc_ReconcileVerify : bool;
  cc_DurabilityAuditInterval : Z
}.

Definition read_coordinator (env : Env) : Cfg CoordinatorSettings :=
  cfg! common := loadCommon env "coordinator" "0.0.0.0:9102" in
  let grpcAddr := envString env "FLEXSTORE_GRPC_ADDR" "0.0.0.0:9090" in
  let postgresDSN := envString env "FLEXSTORE_POSTGRES_DSN" EmptyString in
  let redisAddr := envString env "FLEXSTORE_REDIS_ADDR" EmptyString in
  cfg! redisDB := envInt env "FLEXSTORE_REDIS_DB" 0 in
  cfg! replicationFactor := envInt env "FLEXSTORE_REPLICATION_FACTOR" 3 in
  cfg! minWriteReplicas := envInt env "FLEXSTORE_MIN_WRITE_REPLICAS" 2 in
  cfg! chunkSize := envBytes env "FLEXSTORE_CHUNK_SIZE" DefaultChunkSize in
  cfg! heartbeatInterval := envDuration env "FLEXSTORE_HEARTBEAT_INTERVAL" (5 * second) in
  cfg! suspectTimeout := envDuration env "FLEXSTORE_SUSPECT_TIMEOUT" (15 * second) in
  cfg! deadTimeout := envDuration env "FLEXSTORE_DEAD_TIMEOUT" (60 * second) in
  cfg! healthScanInterval := envDuration env "FLEXSTORE_HEALTH_SCAN_INTERVAL" (3 * second) in
  cfg! gcInterval := envDuration env "FLEXSTORE_GC_INTERVAL" (20 * second) in
  cfg! gcBatchSize := envInt env "FLEXSTORE_GC_BATCH_SIZE" 200 in
  cfg! uploadStaleAfter := envDuration env "FLEXSTORE_UPLOAD_STALE_AFTER" (30 * minute) in
  cfg! nodeCallTimeout := envDuration env "FLEXSTORE_NODE_CALL_TIMEOUT" (15 * second) in
  cfg! migrateOnStart := envBool env "FLEXSTORE_MIGRATE_ON_START" true in
  cfg! nodeCacheTTL := envDuration env "FLEXSTORE_NODE_CACHE_TTL" (2 * second) in
  cfg! objectCacheTTL := envDuration env "FLEXSTORE_OBJECT_CACHE_TTL" (30 * second) in
  let placementStrategy := envString env "FLEXSTORE_PLACEMENT_STRATEGY" "weighted" in
  cfg! repairEnabled := envBool env "FLEXSTORE_REPAIR_ENABLED" true in
  cfg! repairWorkers := envInt env "FLEXSTORE_REPAIR_WORKERS" 4 in
  cfg! repairMaxPerNode := envInt env "FLEXSTORE_REPAIR_MAX_PER_NODE" 2 in
  cfg! repairScanInterval := envDuration env "FLEXSTORE_REPAIR_SCAN_INTERVAL" (5 * second) in
  cfg! repairScanBatch := envInt env "FLEXSTORE_REPAIR_SCAN_BATCH" 200 in
  cfg! repairJobTimeout := envDuration env "FLEXSTORE_REPAIR_JOB_TIMEOUT" (120 * second) in
  cfg! repairLease := envDuration env "FLEXSTORE_REPAIR_LEASE" (5 * minute) in
  cfg! repairMaxAttempts := envInt env "FLEXSTORE_REPAIR_MAX_ATTEMPTS" 6 in
  cfg! repairBaseBackoff := envDuration env "FLEXSTORE_REPAIR_BASE_BACKOFF" (2 * second) in
  cfg! repairMaxBackoff := envDuration env "FLEXSTORE_REPAIR_MAX_BACKOFF" (2 * minute) in
  cfg! repairHistoryTTL := envDuration env "FLEXSTORE_REPAIR_HISTORY_TTL" (6 * hours) in
  cfg! reconcileEnabled := envBool env "FLEXSTORE_RECONCILE_ENABLED" true in
  cfg! reconcileInterval := envDuration env "FLEXSTORE_RECONCILE_INTERVAL" (5 * second) in
  cfg! reconcilePageSize := envInt env "FLEXSTORE_RECONCILE_PAGE_SIZE" 500 in
  cfg! reconcileTimeout := envDuration env "FLEXSTORE_RECONCILE_TIMEOUT" (10 * minute) in
  cfg! reconcileLease := envDuration env "FLEXSTORE_RECONCILE_LEASE" (15 * minute) in
  cfg! reconcileVerify := envBool env "FLEXSTORE_RECONCILE_VERIFY_CHECKSUMS" true in
  cfg! durabilityAuditInterval := envDuration env "FLEXSTORE_DURABILITY_AUDIT_INTERVAL" (10 * minute) in
  cfg_ret (mkCoordinatorSettings common
    grpcAddr postgresDSN redisAddr redisDB replicationFactor minWriteReplicas chunkSize
    heartbeatInterval suspectTimeout deadTimeout healthScanInterval gcInterval gcBatchSize
    uploadStaleAfter nodeCallTimeout migrateOnStart nodeCacheTTL objectCacheTTL placementStrategy
    repairEnabled repairWorkers repairMaxPerNode repairScanInterval repairScanBatch repairJobTimeout
    repairLease repairMaxAttempts repairBaseBackoff repairMaxBackoff repairHistoryTTL
    reconcileEnabled reconcileInterval reconcilePageSize reconcileTimeout reconcileLease
    reconcileVerify durabilityAuditInterval).

Definition check_coordinator (c : CoordinatorSettings) : Cfg unit :=
  chk! refuse_if (String.eqb (cc_PostgresDSN c) EmptyString) (Required "FLEXSTORE_POSTGRES_DSN") in
  chk! refuse_if (cc_ReplicationFactor c <? 1)%Z (ReplicationFactorTooSmall (cc_ReplicationFactor c)) in
  chk! refuse_if ((cc_MinWriteReplicas c <? 1) || (cc_ReplicationFactor c <? cc_MinWriteReplicas c))%Z
         (MinWriteReplicasOutOfRange (cc_ReplicationFactor c) (cc_MinWriteReplicas c)) in
  chk! refuse_if (cc_SuspectTimeout c <=? cc_HeartbeatInterval c)%Z
         (SuspectNotAboveHeartbeat (cc_SuspectTimeout c) (cc_HeartbeatInterval c)) in
  chk! refuse_if (cc_DeadTimeout c <=? cc_SuspectTimeout c)%Z
         (DeadNotAboveSuspect (cc_DeadTimeout c) (cc_SuspectTimeout c)) in
  chk! validateChunkSize (cc_ChunkSize c) in
  chk! refuse_if (cc_RepairWorkers c <? 1)%Z (RepairWorkersTooFew (cc_RepairWorkers c)) in
  chk! refuse_if (cc_RepairMaxPerNode c <? 1)%Z (RepairMaxPerNodeTooSmall (cc_RepairMaxPerNode c)) in
  chk! refuse_if (cc_RepairLease c <=? cc_RepairJobTimeout c)%Z
         (RepairLeaseTooShort (cc_RepairLease c) (cc_RepairJobTimeout c)) in
  chk! refuse_if (cc_ReconcileLease c <=? cc_ReconcileTimeout c)%Z
         (ReconcileLeaseTooShort (cc_ReconcileLease c) (cc_ReconcileTimeout c)) in
  refuse_if (negb (String.eqb (cc_PlacementStrategy c) "weighted" || String.eqb (cc_PlacementStrategy c) "rendezvous"))
    (UnknownPlacementStrategy (cc_PlacementStrategy c)).

Definition LoadCoordinator (env : Env) : CoordinatorSettings * list config_error :=
  (cfg! c := read_coordinator env in
   chk! check_coordinator c in
   cfg_ret c) [].

(** ** The storage node *)

Record StorageNodeSettings := mkStorageNodeSettings {
  sc_Common : Common;
  sc_NodeID : string;
  sc_GRPCAddr : string;
  sc_AdvertiseAddr : string;
  sc_DataDir : string;
  sc_CoordinatorAddr : string;
  sc_CapacityBytes : Z;
  sc_HeartbeatInterval : Z;
  sc_RegisterTimeout : Z;
  sc_FsyncData : bool
}.

Definition read_storage_node (env : Env) : Cfg StorageNodeSettings :=
  cfg! common := loadCommon env "storage-node" "0.0.0.0:9103" in
  let nodeID := envString env "FLEXSTORE_NODE_ID" EmptyString in
  let grpcAddr := envString env "FLEXSTORE_GRPC_ADDR" "0.0.0.0:9100" in
  let advertiseAddr := envString env "FLEXSTORE_ADVERTISE_ADDR" EmptyString in
  let dataDir := envString env "FLEXSTORE_DATA_DIR" "/data" in
  let coordinatorAddr := envString env "FLEXSTORE_COORDINATOR_ADDR" "coordinator:9090" in
  cfg! capacityBytes := envBytes env "FLEXSTORE_NODE_CAPACITY_BYTES" 0 in
  cfg! heartbeatInterval := envDuration env "FLEXSTORE_HEARTBEAT_INTERVAL" (5 * second) in
  cfg! registerTimeout := envDuration env "FLEXSTORE_REGISTER_TIMEOUT" (10 * second) in
  cfg! fsyncData := envBool env "FLEXSTORE_FSYNC_DATA" true in
  cfg_ret (mkStorageNodeSettings common
    nodeID grpcAddr advertiseAddr dataDir coordinatorAddr capacityBytes heartbeatInterval
    registerTimeout fsyncData).

Definition check_storage_node (c : StorageNodeSettings) : Cfg unit :=
  chk! refuse_if (String.eqb (sc_NodeID c) EmptyString) (Required "FLEXSTORE_NODE_ID") in
  refuse_if (String.eqb (sc_AdvertiseAddr c) EmptyString) (Required "FLEXSTORE_ADVERTISE_ADDR").

Definition LoadStorageNode (env : Env) : StorageNodeSettings * list config_error :=
  (cfg! c := read_storage_node env in
   chk! check_storage_node c in
   cfg_ret c) [].

(** ** What the loaders accept *)

Inductive setting_kind := IntSetting | BoolSetting | DurationSetting | BytesSetting.
(** A setting is absent, blank or of the form its reader wants. *)
Definition well_formed (env : Env) (s : setting_kind * string) : Prop :=
  match present env s.2 with
  | None => True
  | Some v => match s.1 with
              | IntSetting => is_Some (ParseInt v)
              | BoolSetting => is_Some (ParseBool v)
              | DurationSetting => is_Some (ParseDuration v)
              | BytesSetting => exists n, ParseBytes v = Ok n
              end
  end.

Definition gateway_settings : list (setting_kind * string) :=
  [(DurationSetting, "FLEXSTORE_SHUTDOWN_TIMEOUT");
   (BytesSetting, "FLEXSTORE_CHUNK_SIZE");
   (BytesSetting, "FLEXSTORE_MAX_OBJECT_SIZE");
   (DurationSetting, "FLEXSTORE_HTTP_READ_TIMEOUT");
   (DurationSetting, "FLEXSTORE_HTTP_WRITE_TIMEOUT");
   (DurationSetting, "FLEXSTORE_HTTP_IDLE_TIMEOUT");
   (DurationSetting, "FLEXSTORE_CHUNK_WRITE_TIMEOUT");
   (DurationSetting, "FLEXSTORE_CHUNK_READ_TIMEOUT");
   (DurationSetting, "FLEXSTORE_COORDINATOR_TIMEOUT")].
Definition coordinator_settings : list (setting_kind * string) :=
  [(DurationSetting, "FLEXSTORE_SHUTDOWN_TIMEOUT");
   (IntSetting, "FLEXSTORE_REDIS_DB");
   (IntSetting, "FLEXSTORE_REPLICATION_FACTOR");
   (IntSetting, "FLEXSTORE_MIN_WRITE_REPLICAS");
   (BytesSetting, "FLEXSTORE_CHUNK_SIZE");
   (DurationSetting, "FLEXSTORE_HEARTBEAT_INTERVAL");
   (DurationSetting, "FLEXSTORE_SUSPECT_TIMEOUT");
   (DurationSetting, "FLEXSTORE_DEAD_TIMEOUT");
   (DurationSetting, "FLEXSTORE_HEALTH_SCAN_INTERVAL");
   (DurationSetting, "FLEXSTORE_GC_INTERVAL");
   (IntSetting, "FLEXSTORE_GC_BATCH_SIZE");
   (DurationSetting, "FLEXSTORE_UPLOAD_STALE_AFTER");
   (DurationSetting, "FLEXSTORE_NODE_CALL_TIMEOUT");
   (BoolSetting, "FLEXSTORE_MIGRATE_ON_START");
   (DurationSetting, "FLEXSTORE_NODE_CACHE_TTL");
   (DurationSetting, "FLEXSTORE_OBJECT_CACHE_TTL");
   (BoolSetting, "FLEXSTORE_REPAIR_ENABLED");
   (IntSetting, "FLEXSTORE_REPAIR_WORKERS");
   (IntSetting, "FLEXSTORE_REPAIR_MAX_PER_NODE");
   (DurationSetting, "FLEXSTORE_REPAIR_SCAN_INTERVAL");
   (IntSetting, "FLEXSTORE_REPAIR_SCAN_BATCH");
   (DurationSetting, "FLEXSTORE_REPAIR_JOB_TIMEOUT");
   (DurationSetting, "FLEXSTORE_REPAIR_LEASE");
   (IntSetting, "FLEXSTORE_REPAIR_MAX_ATTEMPTS");
   (DurationSetting, "FLEXSTORE_REPAIR_BASE_BACKOFF");
   (DurationSetting, "FLEXSTORE_REPAIR_MAX_BACKOFF");
   (DurationSetting, "FLEXSTORE_REPAIR_HISTORY_TTL");
   (BoolSetting, "FLEXSTORE_RECONCILE_ENABLED");
   (DurationSetting, "FLEXSTORE_RECONCILE_INTERVAL");
   (IntSetting, "FLEXSTORE_RECONCILE_PAGE_SIZE");
   (DurationSetting, "FLEXSTORE_RECONCILE_TIMEOUT");
   (DurationSetting, "FLEXSTORE_RECONCILE_LEASE");
   (BoolSetting, "FLEXSTORE_RECONCILE_VERIFY_CHECKSUMS");
   (DurationSetting, "FLEXSTORE_DURABILITY_AUDIT_INTERVAL")].
Definition storage_node_settings : list (setting_kind * string) :=
  [(DurationSetting, "FLEXSTORE_SHUTDOWN_TIMEOUT");
   (BytesSetting, "FLEXSTORE_NODE_CAPACITY_BYTES");
   (DurationSetting, "FLEXSTORE_HEARTBEAT_INTERVAL");
   (DurationSetting, "FLEXSTORE_REGISTER_TIMEOUT");
   (BoolSetting, "FLEXSTORE_FSYNC_DATA")].

(** The durability policy, the order of the health thresholds, the leases. *)
Definition coordinator_valid (c : CoordinatorSettings) : Prop :=
  cc_PostgresDSN c <> EmptyString /\
  (1 <= cc_MinWriteReplicas c <= cc_ReplicationFactor c)%Z /\
  (cc_HeartbeatInterval c < cc_SuspectTimeout c < cc_DeadTimeout c)%Z /\
  (MinChunkSize <= cc_ChunkSize c <= MaxChunkSize)%Z /\
  (1 <= cc_RepairWorkers c)%Z /\ (1 <= cc_RepairMaxPerNode c)%Z /\
  (cc_RepairJobTimeout c < cc_RepairLease c)%Z /\
  (cc_ReconcileTimeout c < cc_ReconcileLease c)%Z /\
  (cc_PlacementStrategy c = "weighted" \/ cc_PlacementStrategy c = "rendezvous").

(** A reader that reports an error exactly when the condition fails, and whose
    value does not depend on the errors so far. *)
Definition reports {A} (m : Cfg A) (P : Prop) : Prop :=
  forall errs, ((m errs).2 = [] <-> errs = [] /\ P) /\ (m errs).1 = (m []).1.

Lemma reports_ret {A} (a : A) : reports (cfg_ret a) True.
Proof. intros errs. split; [|done]. simpl. tauto. Qed.
Lemma reports_bind {A B} (m : Cfg A) (k : A -> Cfg B) P Q :
  reports m P -> (forall a, reports (k a) Q) -> reports (cfg_bind m k) (P /\ Q).
Proof.
  intros Hm Hk errs. unfold cfg_bind. destruct (Hm errs) as [H1 H2].
  destruct (m errs) as [a e] eqn:E. destruct (m []) as [a' e0] eqn:E0. simpl in *. subst a'.
  destruct (Hk a e) as [H3 H4], (Hk a e0) as [_ H5]. split; [|congruence]. rewrite H3, H1. tauto.
Qed.
Lemma reports_refuse_if b e : reports (refuse_if b e) (b = false).
Proof.
  intros errs. unfold refuse_if. destruct b; simpl; [|split; [tauto|done]].
  split; [|done]. split; [by destruct errs|by intros [_ ?]].
Qed.
Lemma reports_iff {A} (m : Cfg A) P Q : reports m P -> (P <-> Q) -> reports m Q.
Proof. intros Hm HPQ errs. destruct (Hm errs) as [H1 H2]. split; [|done]. rewrite H1, HPQ. done. Qed.

(** The readers of one setting have the same shape. *)
Definition env_value {A} (env : Env) (key : string) (def : A) (parse : string -> option A) (e : config_error) : Cfg A :=
  match present env key with
  | None => cfg_ret def
  | Some v => match parse v with Some a => cfg_ret a | None => chk! report e in cfg_ret def end
  end.
Lemma reports_env_value {A} env key (def : A) parse e :
  reports (env_value env key def parse e) (forall v, present env key = Some v -> is_Some (parse v)).
Proof.
  unfold env_value. destruct (present env key) as [v|]; [|apply (reports_iff _ True); [apply reports_ret|]; split; done].
  destruct (parse v) as [a|] eqn:Ep.
  - apply (reports_iff _ True); [apply reports_ret|]. split; [|done]. intros _ v' [= <-]. rewrite Ep. eauto.
  - intros errs. split; [|done]. simpl. split; [by destruct errs|]. intros [_ H].
    destruct (H v eq_refl) as [? H']. by rewrite Ep in H'.
Qed.

Ltac one_setting f :=
  eapply reports_iff; [apply (reports_env_value _ _ _ f)|];
  unfold well_formed; simpl; destruct (present _ _) as [v|]; [|done]; split;
    [intros H; apply (H v eq_refl)|by intros H v' [= <-]].

Lemma reports_envInt env key def : reports (envInt env key def) (well_formed env (IntSetting, key)).
Proof. one_setting ParseInt. Qed.
Lemma reports_envBool env key def : reports (envBool env key def) (well_formed env (BoolSetting, key)).
Proof. one_setting ParseBool. Qed.
Lemma reports_envDuration env key def : reports (envDuration env key def) (well_formed env (DurationSetting, key)).
Proof. one_setting ParseDuration. Qed.
Lemma reports_envBytes env key def : reports (envBytes env key def) (well_formed env (BytesSetting, key)).
Proof.
  unfold envBytes, well_formed. simpl. destruct (present env key) as [v|]; [|apply reports_ret].
  destruct (ParseBytes v) as [n|e] eqn:Ep.
  - apply (reports_iff _ True); [apply reports_ret|]. split; [eauto|done].
  - intros errs. split; [|done]. simpl. split; [by destruct errs|]. intros [_ [n ?]]. done.
Qed.
End parsing.

Create HintDb config.
#[export] Hint Resolve reports_ret reports_refuse_if reports_envInt reports_envBool reports_envDuration
  reports_envBytes : config.

(** The conditions of a sequence of readers, collected. *)
Ltac reports_steps :=
  repeat first [ eapply reports_bind; [solve [eauto with config]|intros ?]
               | progress cbv zeta ];
  eauto with config.

Section loaders.
Context `{GM : !GoMath, GU : !GoUnicode}.

(** [Forall] as the conjunction the readers leave. *)
Fixpoint every {A} (P : A -> Prop) (l : list A) : Prop :=
  match l with [] => True | x :: l' => P x /\ every P l' end.
Lemma every_Forall {A} (P : A -> Prop) l : every P l <-> Forall P l.
Proof. induction l as [|x l IH]; simpl; [by rewrite Forall_nil|]. by rewrite Forall_cons, IH. Qed.
Lemma reports_every {A} (m : Cfg A) env l :
  reports m (every (well_formed env) l) -> reports m (Forall (well_formed env) l).
Proof. intros H. eapply reports_iff; [exact H|apply every_Forall]. Qed.

Lemma reports_loadCommon env service addr :
  reports (loadCommon env service addr) (well_formed env (DurationSetting, "FLEXSTORE_SHUTDOWN_TIMEOUT")).
Proof. eapply reports_iff; [unfold loadCommon; reports_steps|]. tauto. Qed.
#[local] Hint Resolve reports_loadCommon : config.

Lemma reports_read_gateway env : reports (read_gateway env) (Forall (well_formed env) gateway_settings).
Proof. apply reports_every. unfold read_gateway. reports_steps. Qed.
Lemma reports_read_storage_node env : reports (read_storage_node env) (Forall (well_formed env) storage_node_settings).
Proof. apply reports_every. unfold read_storage_node. reports_steps. Qed.
Lemma reports_read_coordinator env : reports (read_coordinator env) (Forall (well_formed env) coordinator_settings).
Proof. apply reports_every. unfold read_coordinator. reports_steps. Qed.

Lemma reports_validateChunkSize n : reports (validateChunkSize n) (MinChunkSize <= n <= MaxChunkSize)%Z.
Proof.
  eapply reports_iff; [apply reports_refuse_if|].
  rewrite orb_false_iff, !Z.ltb_ge. lia.
Qed.
#[local] Hint Resolve reports_validateChunkSize : config.

Lemma reports_check_coordinator c : reports (check_coordinator c) (coordinator_valid c).
Proof.
  eapply reports_iff; [unfold check_coordinator; reports_steps|]. unfold coordinator_valid.
  rewrite !orb_false_iff, !negb_false_iff, !orb_true_iff, !Z.ltb_ge, !Z.leb_gt, !String.eqb_eq, String.eqb_neq.
  intuition lia.
Qed.

(** Reading, then checking what was read. *)
Lemma load_exact {A} (m : Cfg A) (check : A -> Cfg unit) P Q :
  reports m P -> (forall a, reports (check a) (Q a)) ->
  let '(a, errs) := (cfg! a := m in chk! check a in cfg_ret a) [] in errs = [] <-> P /\ Q a.
Proof.
  intros Hm Hc. unfold cfg_bind, cfg_ret. destruct (Hm []) as [H1 _]. destruct (m []) as [a e]. simpl in H1.
  destruct (Hc a e) as [H2 _]. destruct (check a e) as [[] e']. simpl in *. rewrite H2, H1. tauto.
Qed.

Lemma LoadGateway_exact env :
  let '(c, errs) := LoadGateway env in
  errs = [] <-> Forall (well_formed env) gateway_settings /\ (MinChunkSize <= gc_ChunkSize c <= MaxChunkSize)%Z.
Proof.
  apply (load_exact (read_gateway env) (fun c => validateChunkSize (gc_ChunkSize c)));
    [apply reports_read_gateway|intros c; apply reports_validateChunkSize].
Qed.

Lemma LoadStorageNode_exact env :
  let '(c, errs) := LoadStorageNode env in
  errs = [] <-> Forall (well_formed env) storage_node_settings /\
    sc_NodeID c <> EmptyString /\ sc_AdvertiseAddr c <> EmptyString.
Proof.
  apply (load_exact (read_storage_node env) check_storage_node); [apply reports_read_storage_node|]. intros c.
  eapply reports_iff; [unfold check_storage_node; reports_steps|]. by rewrite !String.eqb_neq.
Qed.

(** The value a setting has: what the environment says, or the default. *)
Definition from_env {A} (env : Env) (key : string) (parse : string -> option A) (def : A) : A :=
  match present env key with Some v => default def (parse v) | None => def end.

Lemma env_value_from {A} env key (def : A) parse e errs :
  (env_value env key def parse e errs).1 = from_env env key parse def.
Proof. unfold env_value, from_env. destruct (present env key) as [v|]; [|done]. by destruct (parse v). Qed.

Lemma bind_value {A B} (m : Cfg A) (k : A -> Cfg B) errs : (cfg_bind m k errs).1 = (k (m errs).1 (m errs).2).1.
Proof. unfold cfg_bind. by destruct (m errs). Qed.
Lemma value_of_bind {A B} (Q : B -> Prop) (m : Cfg A) (k : A -> Cfg B) errs :
  (forall errs', Q (k (m errs).1 errs').1) -> Q (cfg_bind m k errs).1.
Proof. intros H. rewrite bind_value. apply H. Qed.
Lemma envInt_value env key def errs : (envInt env key def errs).1 = from_env env key ParseInt def.
Proof. apply (env_value_from _ _ _ ParseInt). Qed.
Lemma envDuration_value env key def errs : (envDuration env key def errs).1 = from_env env key ParseDuration def.
Proof. apply (env_value_from _ _ _ ParseDuration). Qed.

(** The settings durability rests on have the values the environment gives. *)
Definition coordinator_values (env : Env) (c : CoordinatorSettings) : Prop :=
  cc_ReplicationFactor c = from_env env "FLEXSTORE_REPLICATION_FACTOR" ParseInt 3%Z /\
  cc_MinWriteReplicas c = from_env env "FLEXSTORE_MIN_WRITE_REPLICAS" ParseInt 2%Z /\
  cc_HeartbeatInterval c = from_env env "FLEXSTORE_HEARTBEAT_INTERVAL" ParseDuration (5 * second)%Z /\
  cc_SuspectTimeout c = from_env env "FLEXSTORE_SUSPECT_TIMEOUT" ParseDuration (15 * second)%Z /\
  cc_DeadTimeout c = from_env env "FLEXSTORE_DEAD_TIMEOUT" ParseDuration (60 * second)%Z /\
  cc_RepairJobTimeout c = from_env env "FLEXSTORE_REPAIR_JOB_TIMEOUT" ParseDuration (120 * second)%Z /\
  cc_RepairLease c = from_env env "FLEXSTORE_REPAIR_LEASE" ParseDuration (5 * minute)%Z /\
  cc_PlacementStrategy c = envString env "FLEXSTORE_PLACEMENT_STRATEGY" "weighted".

Lemma read_coordinator_values env : coordinator_values env (read_coordinator env []).1.
Proof.
  unfold read_coordinator. repeat (apply value_of_bind; intros ?; cbv zeta). unfold coordinator_values, cfg_ret. cbn [fst snd
    cc_ReplicationFactor cc_MinWriteReplicas cc_HeartbeatInterval cc_SuspectTimeout cc_DeadTimeout
    cc_RepairJobTimeout cc_RepairLease cc_PlacementStrategy].
  by rewrite !envInt_value, !envDuration_value.
Qed.

Lemma LoadCoordinator_value env : (LoadCoordinator env).1 = (read_coordinator env []).1.
Proof. unfold LoadCoordinator. by rewrite !bind_value. Qed.
End loaders.

(** ** Sizes as people write them *)

Section sizes.
Context `{GM : !GoMath, GU : !GoUnicode}.

Definition upper_text (s : string) : string := of_bytes (upper_byte <$> to_bytes s).

Lemma upper_digit b : (48 <= b <= 57)%N -> upper_byte b = b.
Proof. intros Hb. unfold upper_byte, between. by rewrite (proj2 (N.leb_gt 97 b)) by lia. Qed.
Lemma upper_digits s acc v : digits_value acc s = Some v -> upper_text s = s.
Proof.
  intros H. apply digits_bytes in H. unfold upper_text.
  rewrite (list_fmap_ext _ id (to_bytes s)).
  - rewrite list_fmap_id. apply of_to_bytes.
  - intros i b Hi. apply upper_digit. by eapply (Forall_lookup_1 _ _ _ _ H).
Qed.
Lemma upper_text_app a b : upper_text (a +:+ b) = upper_text a +:+ upper_text b.
Proof. unfold upper_text. by rewrite to_bytes_app, fmap_app, of_bytes_app. Qed.

Lemma ToUpper_ascii s : Forall (fun b => (b < 128)%N) (to_bytes s) -> ToUpper s = upper_text s.
Proof.
  intros H. unfold ToUpper, is_ascii.
  assert (forallb (fun b => (b <? 128)%N) (to_bytes s) = true) as ->; [|done].
  apply Is_true_true, forallb_True. eapply Forall_impl; [exact H|]. intros b Hb. by apply Is_true_true, N.ltb_lt.
Qed.

(** Every unit is found after a number, whatever units are tried before it. *)
Lemma with_unit_digits s d suffix mult :
  digits_only d -> d <> EmptyString -> (suffix, mult) ∈ units ->
  with_unit s (d +:+ suffix) units =
  Some match ParseFloat d with
       | None => Err (InvalidSize s)
       | Some n => if flt n f0 then Err (NegativeSize s) else Ok (to_int64 (fmul n (of_int mult)))
       end.
Proof.
  intros Hd Hne Hu.
  assert (forall c, c ∈ units.*1 -> no_digits c) as Hnd.
  { intros c Hc. apply (bool_decide_unpack _). unfold units in Hc. simpl in Hc.
    repeat (apply elem_of_cons in Hc as [->|Hc]; [vm_compute; exact I|]). by apply elem_of_nil in Hc. }
  assert (TrimSpace (slice_to (d +:+ suffix) (String.length (d +:+ suffix) - String.length suffix)) = d) as Hnum.
  { rewrite string_length_app, Nat.add_sub, slice_to_app. by apply TrimSpace_plain, digits_plain. }
  assert (String.eqb d EmptyString = false) as Hneb by by apply String.eqb_neq.
  assert (forall c us, c ∈ units.*1 -> HasSuffix suffix c = false -> forall m,
    with_unit s (d +:+ suffix) ((c, m) :: us) = with_unit s (d +:+ suffix) us) as Hskip.
  { intros c us Hc Hs m. cbn [with_unit]. rewrite HasSuffix_digits, Hs by auto. done. }
  assert (forall us, with_unit s (d +:+ suffix) ((suffix, mult) :: us) =
    Some match ParseFloat d with
         | None => Err (InvalidSize s)
         | Some n => if flt n f0 then Err (NegativeSize s) else Ok (to_int64 (fmul n (of_int mult)))
         end) as Htake.
  { intros us. cbn [with_unit]. by rewrite HasSuffix_app, Hnum, Hneb. }
  unfold units in Hu |- *.
  repeat (apply elem_of_cons in Hu as [[= -> ->]|Hu];
    [repeat (rewrite Hskip by (first [vm_compute; reflexivity|apply (bool_decide_unpack _); vm_compute; exact I])); apply Htake|]).
  by apply elem_of_nil in Hu.
Qed.

(** A whole number of units, in any case, is that many bytes. *)
Lemma ParseBytes_FormatInt n u suffix mult :
  (suffix, mult) ∈ units -> upper_text u = suffix -> printable_text u ->
  (0 <= n)%Z -> (n * mult < 2 ^ 53)%Z -> ParseBytes (FormatInt n +:+ u) = Ok (n * mult)%Z.
Proof.
  intros Hu Hup Hpr Hn Hlt.
  assert (0 < mult < 2 ^ 53)%Z as Hm.
  { unfold units in Hu. repeat (apply elem_of_cons in Hu as [[= -> ->]|Hu]; [vm_compute; by split|]).
    by apply elem_of_nil in Hu. }
  assert (0 <= n < 2 ^ 53)%Z as Hb by nia.
  pose proof (FormatInt_digits n Hn) as Hd.
  assert (printable_text (FormatInt n +:+ u)) as Hp by by apply printable_app; [apply plain_printable, digits_plain|].
  destruct (FormatInt_value n) as (c&s&Hf&Hc&Hv); [lia|].
  unfold ParseBytes. rewrite TrimSpace_printable by done.
  assert (String.eqb (FormatInt n +:+ u) EmptyString = false) as -> by by rewrite Hf.
  rewrite ToUpper_ascii by (unfold to_bytes; apply Forall_fmap; eapply Forall_impl; [exact Hp|]; simpl; lia).
  rewrite upper_text_app, Hup. rewrite Hf, (upper_digits _ _ _ Hv), <-Hf.
  rewrite (with_unit_digits _ _ suffix mult Hd) by (done || by rewrite Hf).
  rewrite ParseFloat_FormatInt by lia.
  assert (flt (of_int n) f0 = false) as ->.
  { destruct (decide (n = 0)%Z) as [->|]; [done|]. destruct (of_int_exact n) as (p&e&->&_&_); [lia|]. done. }
  f_equal. unfold to_int64. rewrite fmul_of_int by lia. rewrite decide_True; [done|nia].
Qed.
End sizes.

(** The coordinator's loader accepts exactly the environments whose settings
    parse and whose values are sound, and every field has the value its setting
    names or else its default. *)
Lemma LoadCoordinator_exact `{GM : !GoMath, GU : !GoUnicode} (env : Env) :
  let '(c, errs) := LoadCoordinator env in
  (errs = [] <-> Forall (well_formed env) coordinator_settings /\ coordinator_valid c) /\ coordinator_values env c.
Proof.
  pose proof (LoadCoordinator_value env) as Hv. pose proof (read_coordinator_values env) as Hvals.
  pose proof (load_exact (read_coordinator env) check_coordinator _ _ (reports_read_coordinator env)
    reports_check_coordinator) as Hex.
  fold (LoadCoordinator env) in Hex. destruct (LoadCoordinator env) as [c errs]. simpl in Hv. subst c. done.
Qed.
