(* ===== verification/Mux.v ===== *)
(** * What the gateway uses of Go's net/http ServeMux and net/url

    Paths as the client sends them, split at the slashes: path.Clean, percent
    decoding, and the choice of a pattern for a method and a path with its
    redirects and the methods it reports as allowed. The patterns are without
    a host, and each has one of the methods DELETE, GET, HEAD, POST and PUT. A
    path has the form "/s1/s2/.../sn". *)

From Stdlib Require Import Ascii.
From stdpp Require Import base numbers strings list.
From S2P Require Import Prelude Schema GoStrings Validate.

(** ** Percent decoding *)

Definition hex_value (c : Ascii.ascii) : option N :=
  let b := byte_of c in
  if between 48 57 b then Some (b - 48)%N
  else if between 65 70 b then Some (b - 55)%N
  else if between 97 102 b then Some (b - 87)%N
  else None.

(** url.PathUnescape; [None] is an escape that is not one. *)
Fixpoint PathUnescape (s : string) : option string :=
  match s with
  | EmptyString => Some EmptyString
  | String c s' =>
      if Ascii.eqb c "%"%char then
        match s' with
        | String h (String l s'') =>
            match hex_value h, hex_value l with
            | Some h, Some l => String (Ascii.ascii_of_N (h * 16 + l)) <$> PathUnescape s''
            | _, _ => None
            end
        | _ => None
        end
      else String c <$> PathUnescape s'
  end.
(** The mux keeps a text it cannot decode. *)
Definition pathUnescape (s : string) : string := default s (PathUnescape s).

(** ** Paths *)

(** The segments of a path; after a trailing slash the last one is empty. *)
Definition segments (path : string) : list string :=
  match path with
  | String c p => if Ascii.eqb c "/"%char then Split p "/"%char else Split path "/"%char
  | EmptyString => [EmptyString]
  end.
Definition rooted (path : string) : bool := match path with String c _ => Ascii.eqb c "/"%char | _ => false end.

(** path.Clean of a rooted path: empty segments and "." go, ".." takes the
    segment before it away. *)
Fixpoint clean_from (done : list string) (xs : list string) : list string :=
  match xs with
  | [] => rev done
  | x :: xs' =>
      if String.eqb x EmptyString || String.eqb x "." then clean_from done xs'
      else if String.eqb x ".." then clean_from (tail done) xs'
      else clean_from (x :: done) xs'
  end.
Definition ends_with_slash (xs : list string) : bool := String.eqb (List.last xs EmptyString) EmptyString.
(** cleanPath, which keeps the trailing slash *)
Definition cleanPath (xs : list string) : list string :=
  match clean_from [] xs with
  | [] => [EmptyString]
  | ys => if ends_with_slash xs then ys ++ [EmptyString] else ys
  end.

(** ** Patterns *)

Inductive segment :=
  | Lit (s : string)
  | Wild
  | Multi (named : bool).

Record pattern (E : Type) := mkPattern {
  pt_method : string;
  pt_segments : list segment;
  pt_handler : E
}.
Arguments mkPattern {E}.
Arguments pt_method {E}.
Arguments pt_segments {E}.
Arguments pt_handler {E}.

Section mux.
Context {E : Type}.

(** A node of the routing tree: what is left of each pattern below it. *)
Definition rest_node : Type := list (list segment * pattern E).

Definition leaf (n : rest_node) : option (pattern E) :=
  match filter (fun r => r.1 = []) n with r :: _ => Some r.2 | [] => None end.
Definition child_lit (s : string) (n : rest_node) : rest_node :=
  omap (fun r => match r.1 with Lit s' :: rest => if String.eqb s s' then Some (rest, r.2) else None | _ => None end) n.
Definition child_wild (n : rest_node) : rest_node :=
  omap (fun r => match r.1 with Wild :: rest => Some (rest, r.2) | _ => None end) n.
Definition child_multi (n : rest_node) : option (bool * pattern E) :=
  match omap (fun r => match r.1 with [Multi named] => Some (named, r.2) | _ => None end) n with
  | r :: _ => Some r
  | [] => None
  end.

(** matchPath: a literal first, then a wildcard, then the rest of the path. *)
Fixpoint matchPath (n : rest_node) (xs : list string) (matches : list string) : option (pattern E * list string) :=
  match xs with
  | [] => match leaf n with Some p => Some (p, matches) | None => None end
  | x :: xs' =>
      let seg := if String.eqb x EmptyString && bool_decide (xs' = []) then "/" else pathUnescape x in
      match matchPath (if String.eqb seg EmptyString then child_wild n else child_lit seg n) xs' matches with
      | Some r => Some r
      | None =>
          match (if String.eqb seg "/" then None else matchPath (child_wild n) xs' (matches ++ [seg])) with
          | Some r => Some r
          | None => match child_multi n with
                    | Some (named, p) =>
                        Some (p, if named then matches ++ [pathUnescape (join "/"%char (x :: xs'))] else matches)
                    | None => None
                    end
          end
      end
  end.

Definition method_node (ps : list (pattern E)) (method : string) : rest_node :=
  (fun p => (pt_segments p, p)) <$> filter (fun p => pt_method p = method) ps.

(** A GET pattern serves HEAD too. *)
Definition match_method (ps : list (pattern E)) (method : string) (xs : list string) : option (pattern E * list string) :=
  match matchPath (method_node ps method) xs [] with
  | Some r => Some r
  | None => if String.eqb method "HEAD" then matchPath (method_node ps "GET") xs [] else None
  end.

Definition last_multi (p : pattern E) : bool :=
  match List.last (pt_segments p) Wild with Multi _ => true | _ => false end.
(** A match in which a multi wildcard stands for the empty string, or there is none. *)
Definition exactMatch (m : option (pattern E * list string)) (xs : list string) : bool :=
  match m with
  | None => false
  | Some (p, _) =>
      if negb (last_multi p) then true
      else ends_with_slash xs && (length (pt_segments p) =? length xs)%nat
  end.

Inductive found :=
  | Matched (p : pattern E) (matches : list string)
  | Redirect (known : bool)
  | NotAllowed (methods : list string)
  | NoRoute.

Definition matchingMethods (ps : list (pattern E)) (xs : list string) : list string :=
  let hit := fun m => match matchPath (method_node ps m) xs [] with Some _ => true | None => false end in
  filter (fun m => hit m || (String.eqb m "HEAD" && hit "GET") = true) ["DELETE"; "GET"; "HEAD"; "POST"; "PUT"].

(** findHandler; a redirect is [known] if the mux names a pattern with it. *)
Definition findHandler (ps : list (pattern E)) (method path : string) : found :=
  let raw := segments path in
  if String.eqb method "CONNECT" then
    match match_method ps method raw with
    | Some (p, ms) => Matched p ms
    | None => match matchingMethods ps raw with [] => NoRoute | l => NotAllowed l end
    end
  else
    let xs := cleanPath raw in
    let m := match_method ps method xs in
    let m2 := match_method ps method (xs ++ [EmptyString]) in
    if negb (exactMatch m xs) && negb (ends_with_slash xs) && exactMatch m2 (xs ++ [EmptyString]) then Redirect true
    else if negb (rooted path && bool_decide (xs = raw)) then Redirect (match m with Some _ => true | None => false end)
    else match m with
         | Some (p, ms) => Matched p ms
         | None => match matchingMethods ps xs with [] => NoRoute | l => NotAllowed l end
         end.
End mux.
Arguments found : clear implicits.

(** ** Paths of clients *)

(** The segment a client writes for a text: the unreserved characters as they
    are, every other byte as a percent sign and two digits. *)
Definition unreserved (c : Ascii.ascii) : bool :=
  let b := byte_of c in
  between 48 57 b || between 65 90 b || between 97 122 b || Ascii.eqb c "-"%char || Ascii.eqb c "."%char ||
  Ascii.eqb c "_"%char || Ascii.eqb c "~"%char.
Definition hex_digit (n : N) : Ascii.ascii := Ascii.ascii_of_N (if (n <? 10)%N then n + 48 else n + 55)%N.
Fixpoint escape (s : string) : string :=
  match s with
  | EmptyString => EmptyString
  | String c s' =>
      if unreserved c then String c (escape s')
      else String "%"%char (String (hex_digit (byte_of c / 16)) (String (hex_digit (byte_of c mod 16)) (escape s')))
  end.
(** A text with slashes keeps them. *)
Definition escape_path (s : string) : string := join "/"%char (escape <$> Split s "/"%char).

Definition has_char (c : Ascii.ascii) (s : string) : bool := existsb (Ascii.eqb c) (String.list_ascii_of_string s).

(** What holds of each byte holds of all 256. *)
Lemma forall_ascii (P : Ascii.ascii -> bool) : forallb (fun n => P (Ascii.ascii_of_N (N.of_nat n))) (seq 0 256) = true ->
  forall c, P c = true.
Proof.
  intros H c. rewrite forallb_forall in H. pose proof (Ascii.N_ascii_bounded c) as Hb.
  specialize (H (N.to_nat (Ascii.N_of_ascii c))). rewrite N2Nat.id, Ascii.ascii_N_embedding in H.
  apply H, in_seq. lia.
Qed.

Definition hex_ok (n : N) : bool := match hex_value (hex_digit n) with Some m => (m =? n)%N | None => false end.
Lemma hex_round c :
  hex_value (hex_digit (byte_of c / 16)) = Some (byte_of c / 16)%N /\
  hex_value (hex_digit (byte_of c mod 16)) = Some (byte_of c mod 16)%N.
Proof.
  assert (hex_ok (byte_of c / 16) && hex_ok (byte_of c mod 16) = true) as [H1 H2]%andb_true_iff.
  { apply (forall_ascii (fun c => hex_ok (byte_of c / 16) && hex_ok (byte_of c mod 16))). vm_compute. reflexivity. }
  unfold hex_ok in *. destruct (hex_value (hex_digit (byte_of c / 16))); [|done].
  destruct (hex_value (hex_digit (byte_of c mod 16))); [|done]. split; f_equal; by apply N.eqb_eq.
Qed.

Lemma unescape_escape s t : PathUnescape (escape s +:+ t) = (fun t => s +:+ t) <$> PathUnescape t.
Proof.
  induction s as [|c s IH]; [change (PathUnescape t = (fun t => t) <$> PathUnescape t); by destruct (PathUnescape t)|].
  cbn [escape]. destruct (unreserved c) eqn:Hu.
  - rewrite string_app_cons. cbn [PathUnescape].
    destruct (Ascii.eqb_spec c "%"%char) as [->|_]; [by vm_compute in Hu|].
    rewrite IH. destruct (PathUnescape t) as [u|]; [simpl; by rewrite string_app_cons|done].
  - rewrite !string_app_cons. cbn [PathUnescape Ascii.eqb Bool.eqb]. destruct (hex_round c) as [-> ->]. rewrite IH.
    replace (byte_of c / 16 * 16 + byte_of c mod 16)%N with (byte_of c) by (pose proof (N.div_mod (byte_of c) 16); lia).
    unfold byte_of. rewrite Ascii.ascii_N_embedding.
    destruct (PathUnescape t) as [u|]; [simpl; by rewrite string_app_cons|done].
Qed.

(** No slash survives the escaping, and nothing becomes special by it. *)
Lemma escape_chars s : all_chars (fun c => negb (Ascii.eqb c "/"%char)) (escape s) = true.
Proof.
  induction s as [|c s IH]; [done|]. cbn [escape].
  assert ((if unreserved c then negb (Ascii.eqb c "/"%char)
           else negb (Ascii.eqb (hex_digit (byte_of c / 16)) "/"%char) && negb (Ascii.eqb (hex_digit (byte_of c mod 16)) "/"%char)) = true) as H.
  { apply (forall_ascii (fun c => if unreserved c then negb (Ascii.eqb c "/"%char)
      else negb (Ascii.eqb (hex_digit (byte_of c / 16)) "/"%char) && negb (Ascii.eqb (hex_digit (byte_of c mod 16)) "/"%char))).
    vm_compute. reflexivity. }
  destruct (unreserved c); cbn [all_chars]; rewrite IH.
  - by rewrite H.
  - apply andb_true_iff in H as [-> ->]. reflexivity.
Qed.

Lemma PathUnescape_escape s : PathUnescape (escape s) = Some s.
Proof. pose proof (unescape_escape s EmptyString) as H. rewrite !string_app_nil in H. rewrite H. simpl. by rewrite string_app_nil. Qed.
Lemma pathUnescape_escape s : pathUnescape (escape s) = s.
Proof. unfold pathUnescape. by rewrite PathUnescape_escape. Qed.
Lemma pathUnescape_slash s : pathUnescape (String "/"%char (escape s)) = String "/"%char s.
Proof. unfold pathUnescape. cbn [PathUnescape]. change (Ascii.eqb "/" "%") with false. cbn iota. by rewrite PathUnescape_escape. Qed.
Lemma escape_inj s t : escape s = escape t -> s = t.
Proof. intros H. by rewrite <-(pathUnescape_escape s), H, pathUnescape_escape. Qed.

Lemma PathUnescape_join l : PathUnescape (join "/"%char (escape <$> l)) = Some (join "/"%char l).
Proof.
  induction l as [|s [|s' l] IH]; [done| |].
  - simpl. apply PathUnescape_escape.
  - rewrite !fmap_cons, join_cons by done. rewrite unescape_escape. cbn [PathUnescape]. change (Ascii.eqb "/" "%") with false. cbn iota.
    rewrite fmap_cons in IH. rewrite IH. done.
Qed.

(** Splitting what was joined. *)
Lemma split_at_app sep cur a s : all_chars (fun c => negb (Ascii.eqb c sep)) a = true ->
  split_at sep cur (a +:+ s) = split_at sep (rev (String.list_ascii_of_string a) ++ cur) s.
Proof.
  revert cur. induction a as [|c a IH]; intros cur Ha; [done|]. cbn [all_chars] in Ha. apply andb_true_iff in Ha as [Hc Ha].
  rewrite string_app_cons. cbn [split_at]. apply negb_true_iff in Hc. rewrite Hc, IH by done. simpl. by rewrite <-app_assoc.
Qed.
Lemma Split_join sep l : l <> [] -> Forall (fun s => all_chars (fun c => negb (Ascii.eqb c sep)) s = true) l ->
  Split (join sep l) sep = l.
Proof.
  unfold Split. intros Hl H. induction H as [|s l Hs H IH]; [done|].
  assert (forall t, split_at sep [] (s +:+ t) = split_at sep (rev (String.list_ascii_of_string s)) t) as Hsp.
  { intros t. by rewrite split_at_app, app_nil_r. }
  destruct l as [|s' l].
  - simpl. rewrite <-(string_app_nil s) at 1. rewrite Hsp. simpl. by rewrite rev_involutive, String.string_of_list_ascii_of_string.
  - rewrite join_cons by done. rewrite Hsp. cbn [split_at]. rewrite Ascii.eqb_refl, rev_involutive, String.string_of_list_ascii_of_string.
    f_equal. by apply IH.
Qed.

(** ** Clean paths *)

Definition plain_segment (s : string) : Prop := s <> EmptyString /\ s <> "." /\ s <> "..".

Lemma clean_from_plain done xs : Forall plain_segment xs -> clean_from done xs = rev done ++ xs.
Proof.
  revert done. induction xs as [|x xs IH]; intros done H; cbn [clean_from]; [by rewrite app_nil_r|].
  apply Forall_cons in H as [(H1&H2&H3) H]. apply String.eqb_neq in H1, H2, H3. rewrite H1, H2, H3. cbn [orb].
  rewrite IH by done. simpl. by rewrite <-app_assoc.
Qed.

Lemma cleanPath_plain x xs : Forall plain_segment (x :: xs) -> cleanPath (x :: xs) = x :: xs.
Proof.
  intros H. unfold cleanPath. rewrite clean_from_plain by done. simpl rev. rewrite app_nil_l.
  assert (ends_with_slash (x :: xs) = false) as ->; [|done].
  unfold ends_with_slash. apply String.eqb_neq. rewrite Forall_forall in H. apply (H (List.last (x :: xs) EmptyString)).
  destruct (exists_last (l := x :: xs)) as (l&y&->); [done|]. rewrite last_last. apply elem_of_app. right. by left.
Qed.
Lemma clean_from_app done xs ys : clean_from done (xs ++ ys) = clean_from (rev (clean_from done xs)) ys.
Proof.
  revert done. induction xs as [|x xs IH]; intros done; [simpl; by rewrite rev_involutive|]. cbn [clean_from app].
  destruct (_ || _); [apply IH|]. destruct (String.eqb x ".."); apply IH.
Qed.
Lemma cleanPath_slash x xs : Forall plain_segment (x :: xs) -> cleanPath ((x :: xs) ++ [EmptyString]) = (x :: xs) ++ [EmptyString].
Proof.
  intros H. unfold cleanPath. rewrite clean_from_app, (clean_from_plain [] (x :: xs)) by done.
  change (rev [] ++ x :: xs) with (x :: xs). cbn [clean_from String.eqb orb]. rewrite rev_involutive.
  unfold ends_with_slash. rewrite last_last. reflexivity.
Qed.

(** A clean path has no segment that path.Clean takes away. *)
Lemma clean_from_segments done xs : Forall plain_segment done -> Forall plain_segment (clean_from done xs).
Proof.
  revert done. induction xs as [|x xs IH]; intros done H; cbn [clean_from]; [by apply Forall_rev|].
  destruct (String.eqb_spec x EmptyString) as [->|H1]; [by apply IH|].
  destruct (String.eqb_spec x ".") as [->|H2]; [by apply IH|]. cbn [orb].
  destruct (String.eqb_spec x "..") as [->|H3]; [apply IH; by destruct H|]. apply IH. by constructor.
Qed.
Lemma cleanPath_fixed xs : cleanPath xs = xs -> xs = [EmptyString] \/ Forall plain_segment xs \/
  exists ys, xs = ys ++ [EmptyString] /\ Forall plain_segment ys.
Proof.
  unfold cleanPath. pose proof (clean_from_segments [] xs ltac:(constructor)) as H.
  destruct (clean_from [] xs) as [|y ys]; [by left|]. destruct (ends_with_slash xs); intros E.
  - right. right. by exists (y :: ys).
  - right. left. by rewrite <-E.
Qed.

Lemma escape_plain s : plain_segment (escape s) <-> plain_segment s.
Proof.
  unfold plain_segment. change EmptyString with (escape EmptyString) at 1. change "."%string with (escape ".") at 1.
  change ".."%string with (escape "..") at 1. split; intros (H1&H2&H3); split_and!; intros E.
  all: first [by apply H1; f_equal|by apply H2; f_equal|by apply H3; f_equal|apply escape_inj in E; congruence].
Qed.
Lemma escape_all_plain xs : Forall plain_segment (escape <$> xs) <-> Forall plain_segment xs.
Proof. rewrite Forall_fmap, !Forall_forall. unfold compose. setoid_rewrite escape_plain. done. Qed.

(** ** Matching *)

Section matching.
Context {E : Type}.

Lemma no_child (b : bool) (s : string) (n : rest_node (E := E)) :
  child_wild n = [] -> child_lit s n = [] -> (if b then child_wild n else child_lit s n) = [].
Proof. by destruct b. Qed.

Lemma matchPath_nil xs ms : matchPath (E := E) [] xs ms = None.
Proof.
  revert ms. induction xs as [|x xs IH]; intros ms; [done|]. cbn [matchPath].
  rewrite no_child, IH by done. change (child_wild (E := E) []) with (@nil (list segment * pattern E)). rewrite IH.
  by destruct (String.eqb _ "/").
Qed.

(** The rest of the path goes to a multi wildcard that is alone. *)
Lemma matchPath_multi (n : rest_node (E := E)) p y ys ms :
  child_wild n = [] -> (forall s, child_lit s n = []) -> child_multi n = Some (true, p) ->
  matchPath n (y :: ys) ms = Some (p, ms ++ [pathUnescape (join "/"%char (y :: ys))]).
Proof.
  intros Hw Hl Hm. cbn [matchPath]. rewrite no_child, Hw, !matchPath_nil, Hm by done. by destruct (String.eqb _ "/").
Qed.

(** A step before the last segment. *)
Lemma matchPath_step (n : rest_node (E := E)) x y ys ms : pathUnescape x <> EmptyString ->
  matchPath n (x :: y :: ys) ms =
  match matchPath (child_lit (pathUnescape x) n) (y :: ys) ms with
  | Some r => Some r
  | None =>
      match (if String.eqb (pathUnescape x) "/" then None else matchPath (child_wild n) (y :: ys) (ms ++ [pathUnescape x])) with
      | Some r => Some r
      | None => match child_multi n with
                | Some (named, p) => Some (p, if named then ms ++ [pathUnescape (join "/"%char (x :: y :: ys))] else ms)
                | None => None
                end
      end
  end.
Proof.
  intros H1. apply String.eqb_neq in H1.
  change (matchPath n (x :: y :: ys) ms) with
    (let seg := if String.eqb x EmptyString && bool_decide (y :: ys = []) then "/" else pathUnescape x in
     match matchPath (if String.eqb seg EmptyString then child_wild n else child_lit seg n) (y :: ys) ms with
     | Some r => Some r
     | None =>
         match (if String.eqb seg "/" then None else matchPath (child_wild n) (y :: ys) (ms ++ [seg])) with
         | Some r => Some r
         | None => match child_multi n with
                   | Some (named, p) => Some (p, if named then ms ++ [pathUnescape (join "/"%char (x :: y :: ys))] else ms)
                   | None => None
                   end
         end
     end).
  assert (bool_decide (y :: ys = []) = false) as -> by by apply bool_decide_false.
  rewrite andb_false_r. cbn zeta iota. by rewrite H1.
Qed.

(** A segment without a literal goes to the single wildcard. *)
Lemma matchPath_wild (n : rest_node (E := E)) x y ys ms r :
  pathUnescape x <> EmptyString -> pathUnescape x <> "/" -> child_lit (pathUnescape x) n = [] ->
  matchPath (child_wild n) (y :: ys) (ms ++ [pathUnescape x]) = Some r ->
  matchPath n (x :: y :: ys) ms = Some r.
Proof.
  intros H1 H2 Hl Hr. rewrite matchPath_step, Hl, matchPath_nil by done. apply String.eqb_neq in H2. by rewrite H2, Hr.
Qed.
Lemma matchPath_lit (n : rest_node (E := E)) x y ys ms r :
  pathUnescape x <> EmptyString -> matchPath (child_lit (pathUnescape x) n) (y :: ys) ms = Some r ->
  matchPath n (x :: y :: ys) ms = Some r.
Proof.
  intros H1 Hr. rewrite matchPath_step by done. by rewrite Hr.
Qed.

Lemma match_method_direct (ps : list (pattern E)) method xs r :
  matchPath (method_node ps method) xs [] = Some r -> match_method ps method xs = Some r.
Proof. intros H. unfold match_method. by rewrite H. Qed.

(** A path that is clean and matched in full is handed to its pattern. *)
Lemma findHandler_matched (ps : list (pattern E)) method path p vars vars' :
  method <> "CONNECT" -> rooted path = true -> cleanPath (segments path) = segments path ->
  match_method ps method (segments path) = Some (p, vars) ->
  match_method ps method (segments path ++ [EmptyString]) = Some (p, vars') ->
  last_multi p = true -> length (pt_segments p) <> S (length (segments path)) ->
  findHandler ps method path = Matched p vars.
Proof.
  intros Hm Hr Hc Hp Hp' Hl Hn. unfold findHandler. apply String.eqb_neq in Hm. rewrite Hm, Hc, Hp, Hp', Hr.
  rewrite bool_decide_true by done. cbn [andb negb].
  assert (exactMatch (Some (p, vars')) (segments path ++ [EmptyString]) = false) as ->; [|by rewrite andb_false_r].
  unfold exactMatch. rewrite Hl. cbn [negb]. rewrite length_app. simpl length.
  rewrite (proj2 (Nat.eqb_neq _ _)) by lia. apply andb_false_r.
Qed.

(** Any other path is answered with a redirect. *)
Lemma findHandler_unclean (ps : list (pattern E)) method path :
  method <> "CONNECT" -> cleanPath (segments path) <> segments path -> exists known, findHandler ps method path = Redirect known.
Proof.
  intros Hm Hc. unfold findHandler. apply String.eqb_neq in Hm. rewrite Hm. destruct (_ && _ && _); [by eexists|].
  rewrite (bool_decide_false (cleanPath (segments path) = segments path)) by done. rewrite andb_false_r. by eexists.
Qed.
End matching.
