(* ===== verification/Uuid.v ===== *)
(** * Identifiers as text

    github.com/google/uuid is not part of the repository. What the coordinator
    relies on is the class [Uuid]: the text of an identifier is the canonical
    lowercase form, which the storage nodes accept as a chunk ID, and parsing it
    gives the identifier back. [canonical_uuid] is a value of the class. *)

From Stdlib Require Import Ascii.
From stdpp Require Import base numbers strings list.
From S2P Require Import Prelude GoStrings ChunkStore.

Class Uuid := {
  uuid_String : N -> string;
  uuid_Parse : string -> option N;
  uuid_roundtrip : forall id, (id < 2 ^ 128)%N -> uuid_Parse (uuid_String id) = Some id;
  uuid_canonical : forall id, ValidateChunkID (uuid_String id) = true
}.

Lemma uuid_inj `{!Uuid} a b : (a < 2 ^ 128)%N -> (b < 2 ^ 128)%N -> uuid_String a = uuid_String b -> a = b.
Proof. intros Ha Hb E. apply uuid_roundtrip in Ha, Hb. congruence. Qed.

(** ** The canonical form *)

Definition nibble_char (d : N) : Ascii.ascii := Ascii.ascii_of_N (if (d <? 10)%N then 48 + d else 87 + d)%N.
Definition nibble_value (c : Ascii.ascii) : N := let n := byte_of c in if (n <? 58)%N then (n - 48)%N else (n - 87)%N.

Fixpoint nibbles (k : nat) (id : N) : list N :=
  match k with
  | O => []
  | S k' => nibbles k' (id / 16)%N ++ [(id mod 16)%N]
  end.
Definition from_nibbles (l : list N) : N := foldl (fun acc d => 16 * acc + d)%N 0%N l.

Definition dashed (l : list Ascii.ascii) : list Ascii.ascii :=
  take 8 l ++ ["-"%char] ++ take 4 (drop 8 l) ++ ["-"%char] ++ take 4 (drop 12 l) ++ ["-"%char] ++
  take 4 (drop 16 l) ++ ["-"%char] ++ drop 20 l.
Definition canonical_String (id : N) : string :=
  String.string_of_list_ascii (dashed (nibble_char <$> nibbles 32 id)).
Definition canonical_Parse (s : string) : option N :=
  if ValidateChunkID s
  then Some (from_nibbles (nibble_value <$> filter (fun c => Ascii.eqb c "-"%char = false) (String.list_ascii_of_string s)))
  else None.

Lemma nibbles_bound k id : Forall (fun d => d < 16)%N (nibbles k id).
Proof.
  revert id. induction k as [|k IH]; intros id; simpl; [constructor|]. apply Forall_app_2; [done|].
  repeat constructor. by apply N.mod_lt.
Qed.
Lemma nibbles_length k id : length (nibbles k id) = k.
Proof. revert id. induction k as [|k IH]; intros id; simpl; [done|]. rewrite length_app, IH. simpl. lia. Qed.
Lemma nibbles_value k id : (id < 16 ^ N.of_nat k)%N -> from_nibbles (nibbles k id) = id.
Proof.
  unfold from_nibbles. revert id. induction k as [|k IH]; intros id Hid; [simpl in *; lia|].
  cbn [nibbles]. rewrite foldl_app, IH.
  - simpl. pose proof (N.div_mod id 16). lia.
  - apply N.Div0.div_lt_upper_bound. rewrite Nat2N.inj_succ, N.pow_succ_r' in Hid. lia.
Qed.

Lemma nibble_char_ok d :
  (d < 16)%N -> is_hex (nibble_char d) = true /\ nibble_value (nibble_char d) = d /\ Ascii.eqb (nibble_char d) "-"%char = false.
Proof.
  intros Hd. assert (In d (map N.of_nat (seq 0 16))) as Hin.
  { apply in_map_iff. exists (N.to_nat d). rewrite N2Nat.id. split; [done|]. apply in_seq. lia. }
  assert (forallb (fun d => is_hex (nibble_char d) && (nibble_value (nibble_char d) =? d)%N &&
    negb (Ascii.eqb (nibble_char d) "-"%char)) (map N.of_nat (seq 0 16)) = true) as Hall by (vm_compute; reflexivity).
  apply (proj1 (forallb_forall _ _) Hall) in Hin. apply andb_true_iff in Hin as [[H1 H2]%andb_true_iff H3].
  split_and!; [done|by apply N.eqb_eq|by apply negb_true_iff].
Qed.

(** The five groups of 32 digits. *)
Lemma dashed_groups l :
  length l = 32%nat ->
  exists a b c d e, l = a ++ b ++ c ++ d ++ e /\
    dashed l = a ++ "-"%char :: b ++ "-"%char :: c ++ "-"%char :: d ++ "-"%char :: e /\
    length a = 8%nat /\ length b = 4%nat /\ length c = 4%nat /\ length d = 4%nat /\ length e = 12%nat.
Proof.
  intros Hl. exists (take 8 l), (take 4 (drop 8 l)), (take 4 (drop 12 l)), (take 4 (drop 16 l)), (drop 20 l). split_and!.
  - rewrite <-(take_drop 8 l) at 1. f_equal. rewrite <-(take_drop 4 (drop 8 l)) at 1. rewrite drop_drop. f_equal.
    rewrite <-(take_drop 4 (drop (8 + 4) l)) at 1. rewrite drop_drop. f_equal.
    rewrite <-(take_drop 4 (drop (8 + 4 + 4) l)) at 1. by rewrite drop_drop.
  - done.
  - rewrite length_take. lia.
  - rewrite length_take, length_drop. lia.
  - rewrite length_take, length_drop. lia.
  - rewrite length_take, length_drop. lia.
  - rewrite length_drop. lia.
Qed.

Lemma valid_hex_run i l rest :
  Forall (fun c => is_hex c = true) l ->
  (forall j, i <= j < i + length l -> j <> 8 /\ j <> 13 /\ j <> 18 /\ j <> 23)%nat ->
  valid_from i (String.string_of_list_ascii (l ++ rest)) =
  valid_from (i + length l) (String.string_of_list_ascii rest).
Proof.
  intros Hl. revert i. induction Hl as [|c l Hc Hl IH]; intros i Hi; [simpl; by rewrite Nat.add_0_r|].
  cbn [app String.string_of_list_ascii valid_from]. simpl in Hi.
  rewrite decide_False by (specialize (Hi i); lia). rewrite Hc, IH; [|intros j ?; apply Hi; lia].
  simpl. by rewrite Nat.add_succ_r.
Qed.
Lemma valid_dash i rest :
  (i = 8 \/ i = 13 \/ i = 18 \/ i = 23)%nat ->
  valid_from i (String.string_of_list_ascii ("-"%char :: rest)) = valid_from (S i) (String.string_of_list_ascii rest).
Proof. intros Hi. cbn [String.string_of_list_ascii valid_from]. by rewrite decide_True. Qed.

Lemma string_of_list_length l : String.length (String.string_of_list_ascii l) = length l.
Proof. induction l; simpl; congruence. Qed.

Lemma dashed_valid l :
  length l = 32%nat -> Forall (fun c => is_hex c = true) l ->
  ValidateChunkID (String.string_of_list_ascii (dashed l)) = true.
Proof.
  intros Hl Hall. destruct (dashed_groups l Hl) as (a&b&c&d&e&E&->&La&Lb&Lc&Ld&Le). subst l.
  apply Forall_app in Hall as [Ha Hall]. apply Forall_app in Hall as [Hb Hall].
  apply Forall_app in Hall as [Hc Hall]. apply Forall_app in Hall as [Hd He].
  unfold ValidateChunkID. rewrite string_of_list_length.
  rewrite decide_False by (repeat (rewrite ?length_app; simpl); lia).
  repeat (rewrite valid_hex_run by (done || lia); rewrite valid_dash by lia).
  rewrite <-(app_nil_r e). by rewrite valid_hex_run by (done || lia).
Qed.

Lemma dashed_filter l :
  length l = 32%nat -> Forall (fun c => Ascii.eqb c "-"%char = false) l ->
  filter (fun c => Ascii.eqb c "-"%char = false) (dashed l) = l.
Proof.
  assert (forall l', Forall (fun c => Ascii.eqb c "-"%char = false) l' ->
    filter (fun c => Ascii.eqb c "-"%char = false) l' = l') as Hid.
  { intros l' Hl'. induction Hl' as [|c l' Hc _ IH]; [done|]. rewrite filter_cons_True by done. by rewrite IH. }
  assert (forall l', filter (fun c => Ascii.eqb c "-"%char = false) ("-"%char :: l') =
    filter (fun c => Ascii.eqb c "-"%char = false) l') as Hdash by (intros; by rewrite filter_cons_False).
  intros Hl Hall. destruct (dashed_groups l Hl) as (a&b&c&d&e&E&->&_). subst l.
  repeat (rewrite filter_app, Hdash). rewrite <-!filter_app. by rewrite Hid.
Qed.

Lemma canonical_roundtrip id : (id < 2 ^ 128)%N -> canonical_Parse (canonical_String id) = Some id.
Proof.
  intros Hid. unfold canonical_Parse, canonical_String.
  assert (length (nibble_char <$> nibbles 32 id) = 32%nat) as Hl by (by rewrite length_fmap, nibbles_length).
  assert (Forall (fun d => d < 16)%N (nibbles 32 id)) as Hb by apply nibbles_bound.
  rewrite dashed_valid; [|done|apply Forall_fmap; eapply Forall_impl; [exact Hb|]; intros d Hd; by apply nibble_char_ok].
  rewrite String.list_ascii_of_string_of_list_ascii, dashed_filter; [|done|
    apply Forall_fmap; eapply Forall_impl; [exact Hb|]; intros d Hd; by apply nibble_char_ok].
  f_equal. rewrite <-list_fmap_compose. rewrite (list_fmap_ext _ (fun d : N => d) (nibbles 32 id)).
  - rewrite list_fmap_id. by apply nibbles_value.
  - intros i d Hd. simpl. apply nibble_char_ok. eapply (proj1 (Forall_forall _ _) Hb). by eapply list_elem_of_lookup_2.
Qed.

Definition canonical_uuid : Uuid.
Proof.
  refine {| uuid_String := canonical_String; uuid_Parse := canonical_Parse; uuid_roundtrip := canonical_roundtrip |}.
  intros id. apply dashed_valid; [by rewrite length_fmap, nibbles_length|].
  apply Forall_fmap. eapply Forall_impl; [apply nibbles_bound|]. intros d Hd. by apply nibble_char_ok.
Defined.
