(* ===== verification/Cache.v ===== *)
(** * The metadata cache (src/internal/cache/cache.go, coordinator/cacheview.go)

    The cache interface with its two implementations: Noop and Redis. Redis
    holds values until they expire or are deleted; a call fails when the server
    cannot be reached. The JSON encoding is not modelled: a value is read back
    as it was written, and one of another shape cannot be decoded. The cached
    shape of an object's layout and its conversion to the response. *)

From stdpp Require Import base numbers gmap strings list.
From S2P Require Import Prelude Schema Health Placement GoStrings Validate.

(** ** Responses *)

(** The messages of the generated API, as far as the coordinator fills them. *)
Record NodeMsg := mkNodeMsg {
  nm_NodeId : string;
  nm_GrpcAddress : string;
  nm_Health : State
}.
Record PlacementMsg := mkPlacementMsg {
  pm_ChunkId : string;
  pm_ChunkIndex : Z;
  pm_SizeBytes : Z;
  pm_ChecksumSha256 : string;
  pm_Nodes : list NodeMsg
}.
Record ObjectMsg := mkObjectMsg {
  om_ObjectId : string;
  om_Bucket : string;
  om_Key : string;
  om_Version : Z;
  om_State : ObjectState;
  om_SizeBytes : Z;
  om_ChunkSize : Z;
  om_ChunkCount : Z;
  om_Etag : string;
  om_ContentType : string;
  om_CreatedAt : option Z;
  om_CompletedAt : option Z
}.
Record LayoutMsg := mkLayoutMsg {
  lm_Object : ObjectMsg;
  lm_Chunks : list PlacementMsg
}.

(** ** The cached layout *)

Record cachedTarget := mkCachedTarget {
  ct_NodeID : string;
  ct_Address : string
}.
Record cachedChunk := mkCachedChunk {
  cc_ID : string;
  cc_Index : Z;
  cc_Size : Z;
  cc_Checksum : string;
  cc_Nodes : list cachedTarget
}.
Record cachedObject := mkCachedObject {
  co_ObjectID : string;
  co_Bucket : string;
  co_Key : string;
  co_Version : Z;
  co_SizeBytes : Z;
  co_ChunkSize : Z;
  co_ChunkCount : Z;
  co_ETag : string;
  co_ContentType : string;
  co_CreatedAt : Z;
  co_CompletedAt : Z;
  co_Chunks : list cachedChunk
}.

(** Instants are microseconds, as the database stores them; UnixNano is an int64. *)
Definition UnixNano (t : Z) : Z := int64 (1000 * t).
Definition from_nanos (n : Z) : option Z := if decide (n <> 0)%Z then Some (n / 1000)%Z else None.

Definition newCachedObject (resp : LayoutMsg) : cachedObject :=
  let o := lm_Object resp in
  mkCachedObject (om_ObjectId o) (om_Bucket o) (om_Key o) (om_Version o) (om_SizeBytes o) (om_ChunkSize o)
    (om_ChunkCount o) (om_Etag o) (om_ContentType o)
    (match om_CreatedAt o with Some t => UnixNano t | None => 0 end)
    (match om_CompletedAt o with Some t => UnixNano t | None => 0 end)
    ((fun ch => mkCachedChunk (pm_ChunkId ch) (pm_ChunkIndex ch) (pm_SizeBytes ch) (pm_ChecksumSha256 ch)
        ((fun n => mkCachedTarget (nm_NodeId n) (nm_GrpcAddress n)) <$> pm_Nodes ch)) <$> lm_Chunks resp).

Definition toProto (c : cachedObject) : LayoutMsg :=
  mkLayoutMsg
    (mkObjectMsg (co_ObjectID c) (co_Bucket c) (co_Key c) (co_Version c) ObjectComplete (co_SizeBytes c)
       (co_ChunkSize c) (co_ChunkCount c) (co_ETag c) (co_ContentType c)
       (from_nanos (co_CreatedAt c)) (from_nanos (co_CompletedAt c)))
    ((fun ch => mkPlacementMsg (cc_ID ch) (cc_Index ch) (cc_Size ch) (cc_Checksum ch)
        ((fun n => mkNodeMsg (ct_NodeID n) (ct_Address n) StateUnknown) <$> cc_Nodes ch)) <$> co_Chunks c).

Record cachedUpload := mkCachedUpload {
  cu_Bucket : string;
  cu_Key : string;
  cu_ChunkSize : Z;
  cu_ContentType : string
}.

(** ** The cache *)

Inductive cached :=
  | CachedObject (o : cachedObject)
  | CachedNodes (ns : list Placement.NodeInfo)
  | CachedUpload (u : cachedUpload).

(** An entry and the instant it expires at. *)
Inductive Cache :=
  | Noop
  | Redis (prefix : string) (entries : gmap string (cached * option Z)).

Inductive cache_error := ErrMiss | ErrRedis.

Definition redis_key (prefix k : string) : string := prefix +:+ ":" +:+ k.

Definition live_entry (now : Z) (entries : gmap string (cached * option Z)) (k : string) : option cached :=
  match entries !! k with
  | Some (v, None) => Some v
  | Some (v, Some expires) => if decide (now < expires)%Z then Some v else None
  | None => None
  end.

(** [up] says whether the server answers this call. *)
Definition Cache_Get {A} (decode : cached -> option A) (up : bool) (now : Z) (c : Cache) (key : string) :
    result cache_error A * Cache :=
  match c with
  | Noop => (Err ErrMiss, c)
  | Redis prefix entries =>
      if negb up then (Err ErrRedis, c)
      else match live_entry now entries (redis_key prefix key) with
           | None => (Err ErrMiss, c)
           | Some v =>
               match decode v with
               | Some a => (Ok a, c)
               | None => (Err ErrMiss, Redis prefix (delete (redis_key prefix key) entries))
               end
           end
  end.

(** The instant an entry set now expires at. Without a positive time to live SET
    gets no expiry, but for -1 (KeepTTL), with which the entry keeps the one it
    has while it lives. *)
Definition set_expiry (now ttl : Z) (old : option (cached * option Z)) : option Z :=
  if decide (0 < ttl)%Z then Some (now + lifetime ttl)%Z
  else if decide (ttl = -1)%Z then
    match old with Some (_, Some expires) => if decide (now < expires)%Z then Some expires else None | _ => None end
  else None.
Definition Cache_Set (up : bool) (now : Z) (c : Cache) (key : string) (val : cached) (ttl : Z) : option cache_error * Cache :=
  match c with
  | Noop => (None, c)
  | Redis prefix entries =>
      if negb up then (Some ErrRedis, c)
      else
        let k := redis_key prefix key in
        (None, Redis prefix (<[k := (val, set_expiry now ttl (entries !! k))]> entries))
  end.

Definition Cache_Delete (up : bool) (c : Cache) (key : string) : option cache_error * Cache :=
  match c with
  | Noop => (None, c)
  | Redis prefix entries =>
      if negb up then (Some ErrRedis, c) else (None, Redis prefix (delete (redis_key prefix key) entries))
  end.

Definition as_object (v : cached) : option cachedObject := match v with CachedObject o => Some o | _ => None end.
Definition as_nodes (v : cached) : option (list Placement.NodeInfo) := match v with CachedNodes ns => Some ns | _ => None end.
Definition as_upload (v : cached) : option cachedUpload := match v with CachedUpload u => Some u | _ => None end.
Definition MultipartKey (uploadID : string) : string := "mpu:" +:+ uploadID.

(** What a reader can find under a key now. *)
Definition visible (now : Z) (c : Cache) (key : string) : option cached :=
  match c with Noop => None | Redis prefix entries => live_entry now entries (redis_key prefix key) end.

(** ** Facts *)

Lemma redis_key_inj prefix a b : redis_key prefix a = redis_key prefix b -> a = b.
Proof.
  unfold redis_key. induction prefix as [|c p IH]; [intros [= H]; exact H|]. rewrite !string_app_cons. intros [= H]. auto.
Qed.

Lemma visible_delete now c key key' :
  visible now (Cache_Delete true c key).2 key' = if decide (key' = key) then None else visible now c key'.
Proof.
  destruct c as [|prefix m]; simpl; [by case_decide|]. unfold live_entry. case_decide as E.
  - subst key'. by rewrite lookup_delete_eq.
  - rewrite lookup_delete_ne; [done|]. intros H%redis_key_inj. congruence.
Qed.
Lemma visible_delete_any up now c key key' v :
  visible now (Cache_Delete up c key).2 key' = Some v -> visible now c key' = Some v.
Proof. destruct up; [rewrite visible_delete; by case_decide|by destruct c]. Qed.
Lemma visible_set up now now' c key val ttl key' v :
  visible now' (Cache_Set up now c key val ttl).2 key' = Some v ->
  visible now' c key' = Some v \/ key' = key /\ v = val.
Proof.
  destruct c as [|prefix m]; simpl; [done|]. destruct up; simpl; [|by left]. unfold live_entry.
  destruct (decide (key' = key)) as [->|Hne].
  - rewrite lookup_insert_eq. destruct (set_expiry _ _ _); [case_decide|]; naive_solver.
  - rewrite lookup_insert_ne; [by left|]. intros H%redis_key_inj. congruence.
Qed.
Lemma Cache_Get_ok {A} (decode : cached -> option A) up now c key a c' :
  Cache_Get decode up now c key = (Ok a, c') -> c' = c /\ exists v, visible now c key = Some v /\ decode v = Some a.
Proof.
  destruct c as [|prefix m]; simpl; [done|]. destruct up; simpl; [|done].
  destruct (live_entry _ _ _) as [v|]; [|done]. destruct (decode v) eqn:Hd; [|done]. intros [= <- <-]. eauto.
Qed.
Lemma Cache_Get_visible {A} (decode : cached -> option A) up now now' c key key' v :
  visible now' (Cache_Get decode up now c key).2 key' = Some v -> visible now' c key' = Some v.
Proof.
  destruct c as [|prefix m]; simpl; [done|]. destruct up; simpl; [|done].
  destruct (live_entry now m (redis_key prefix key)) as [w|]; simpl; [|done]. destruct (decode w); simpl; [done|].
  unfold live_entry. destruct (decide (key' = key)) as [->|Hne]; [by rewrite lookup_delete_eq|].
  rewrite lookup_delete_ne; [done|]. intros H%redis_key_inj. congruence.
Qed.

(** The layout as the cache gives it back: all of it but the health of the nodes. *)
Definition without_health (p : PlacementMsg) : PlacementMsg :=
  mkPlacementMsg (pm_ChunkId p) (pm_ChunkIndex p) (pm_SizeBytes p) (pm_ChecksumSha256 p)
    ((fun n => mkNodeMsg (nm_NodeId n) (nm_GrpcAddress n) StateUnknown) <$> pm_Nodes p).

Definition storable (t : option Z) : Prop :=
  match t with Some t => (t <> 0 /\ - 2 ^ 63 <= 1000 * t < 2 ^ 63)%Z | None => True end.
Lemma nanos_roundtrip t : storable t -> from_nanos (match t with Some t => UnixNano t | None => 0 end) = t.
Proof.
  unfold storable, from_nanos, UnixNano. destruct t as [t|]; [|done]. intros [Hne Hr].
  unfold int64. rewrite wrap_signed_id by (simpl; lia). rewrite decide_True by lia. f_equal.
  rewrite Z.mul_comm. by apply Z.div_mul.
Qed.

Lemma toProto_newCachedObject resp :
  om_State (lm_Object resp) = ObjectComplete -> storable (om_CreatedAt (lm_Object resp)) ->
  storable (om_CompletedAt (lm_Object resp)) ->
  toProto (newCachedObject resp) = mkLayoutMsg (lm_Object resp) (without_health <$> lm_Chunks resp).
Proof.
  intros Hst H1 H2. destruct resp as [o chunks]. destruct o as [? ? ? ? st]. simpl in *. subst st.
  unfold toProto, newCachedObject. simpl. rewrite !nanos_roundtrip by done. f_equal. rewrite <-list_fmap_compose.
  apply list_fmap_ext. intros i p _. unfold without_health. simpl. f_equal. by rewrite <-list_fmap_compose.
Qed.
