(* ===== verification/Coordinator.v ===== *)
(** * The coordinator's RPCs

    Service (src/internal/coordinator/service.go, durability_rpc.go,
    multipart.go): each handler as a step of the service's state, which is the
    database, the cache, the health monitor, the placement strategy and the
    repair manager's slots. One reading of the coordinator's clock, one of the
    database's and one fresh identifier per call are in its [env], and whether
    Redis answers during the call. Metrics and logs are left out. *)

From stdpp Require Import base numbers gmap strings list sorting.
From S2P Require Import Prelude Checksum ChunkStore StorageService GoFloat Placement Health Validate Uuid Cache.
From S2P Require Import Sql Schema Statements Chunks Objects Nodes Repair Gc Reconcile Multipart.

(** More gRPC status codes *)
Definition DeadlineExceeded : Z := 4.
Definition ResourceExhausted : Z := 8.
Definition Aborted : Z := 10.

(** ** State *)

(** The fields of config.Coordinator the handlers read; durations in
    nanoseconds. *)
Record CoordinatorConfig := mkCoordinatorConfig {
  cfg_ChunkSize : Z;
  cfg_ReplicationFactor : Z;
  cfg_MinWriteReplicas : Z;
  cfg_HeartbeatInterval : Z;
  cfg_ObjectCacheTTL : Z;
  cfg_NodeCacheTTL : Z;
  cfg_UploadStaleAfter : Z
}.

Record RepairConfig := mkRepairConfig {
  rcf_Enabled : bool;
  rcf_Workers : Z;
  rcf_ScanInterval : Z;
  rcf_ScanBatch : Z;
  rcf_MaxPerNode : Z;
  rcf_JobTimeout : Z;
  rcf_LeaseDuration : Z;
  rcf_MaxAttempts : Z;
  rcf_BaseBackoff : Z;
  rcf_MaxBackoff : Z;
  rcf_ReplicationFactor : Z;
  rcf_HistoryRetention : Z
}.

(** [sv_repair] is the repair manager's configuration once it is wired in. *)
Record Service := mkService {
  sv_cfg : CoordinatorConfig;
  sv_db : db;
  sv_cache : Cache;
  sv_thresholds : Thresholds;
  sv_monitor : gmap string nodeState;
  sv_placer : Strategy;
  sv_repair : option RepairConfig;
  sv_inFlight : gmap string Z
}.
#[export] Instance eta_service : Eta Service := fun s =>
  mkService (sv_cfg s) (sv_db s) (sv_cache s) (sv_thresholds s) (sv_monitor s) (sv_placer s) (sv_repair s) (sv_inFlight s).

Record env := mkEnv {
  e_now : Z;
  e_dbnow : Z;
  e_fresh : N;
  e_redis : bool
}.

(** PostgreSQL keeps microseconds. *)
Definition micros (ns : Z) : Z := (ns / 1000)%Z.
Definition nanos (us : Z) : Z := (us * 1000)%Z.

(** ** Steps of the service *)

Definition Sv (A : Type) : Type := Service -> A * Service.
Definition sv_ret {A} (a : A) : Sv A := fun s => (a, s).
Definition sv_bind {A B} (m : Sv A) (k : A -> Sv B) : Sv B := fun s => let '(a, s) := m s in k a s.
Notation "'sv!' x := m 'in' k" := (sv_bind m (fun x => k))
  (at level 10, x pattern, m at level 100, k at level 200) : flex_scope.
Notation "'run!' m 'in' k" := (sv_bind m (fun _ => k)) (at level 10, m at level 100, k at level 200) : flex_scope.

(** A handler answers or fails with a status. *)
Abbreviation Rpc A := (Sv (result Z A)).
Definition answer {A} (a : A) : Rpc A := sv_ret (Ok a).
Definition refuse {A} (code : Z) : Rpc A := sv_ret (Err code).

Definition store {A} (op : Op db A) : Sv (result store_error A) := fun s =>
  let '(r, d) := op (sv_db s) in (r, s <| sv_db := d |>).
Definition load {A} (f : db -> A) : Sv A := fun s => (f (sv_db s), s).
Definition sv_gets {A} (f : Service -> A) : Sv A := fun s => (f s, s).
Definition cache_get {A} (decode : cached -> option A) (e : env) (key : string) : Sv (result cache_error A) := fun s =>
  let '(r, c) := Cache_Get decode (e_redis e) (e_now e) (sv_cache s) key in (r, s <| sv_cache := c |>).
Definition cache_set (e : env) (key : string) (v : cached) (ttl : Z) : Sv (option cache_error) := fun s =>
  let '(r, c) := Cache_Set (e_redis e) (e_now e) (sv_cache s) key v ttl in (r, s <| sv_cache := c |>).
Definition cache_delete (e : env) (key : string) : Sv (option cache_error) := fun s =>
  let '(r, c) := Cache_Delete (e_redis e) (sv_cache s) key in (r, s <| sv_cache := c |>).

(** ** Conversions *)

Definition toStatus (err : store_error) : Z :=
  match err with
  | ErrNotFound => NotFound
  | ErrConflict => FailedPrecondition
  | ErrDurabilityNotMet => ResourceExhausted
  | _ => Internal
  end.

(** health.State and the column it is stored in. *)
Definition stored_health (s : State) : NodeHealth :=
  match s with
  | StateHealthy => HEALTHY
  | StateSuspect => SUSPECT
  | StateDead => DEAD
  | StateUnknown => UNKNOWN
  end.
Definition parsed_health (h : NodeHealth) : State :=
  match h with HEALTHY => StateHealthy | SUSPECT => StateSuspect | DEAD => StateDead | UNKNOWN => StateUnknown end.
Definition toPlacementHealth (s : State) : Placement.Health :=
  match s with
  | StateHealthy => HealthHealthy
  | StateSuspect => HealthSuspect
  | StateDead => HealthDead
  | StateUnknown => HealthUnknown
  end.
Definition toStoreStats (s : option NodeStats) : NodeStats := default (mkNodeStats 0 0 0 0 0) s.

Definition validateBucketKey (bucket key : string) : option Z :=
  match ValidateBucket bucket with
  | Some _ => Some InvalidArgument
  | None => match ValidateKey key with Some _ => Some InvalidArgument | None => None end
  end.

Section coordinator.
Context `{PG : !Postgres, UU : !Uuid, GM : !GoMath, GS : !GoSort}.
Variable sha256 : string -> string.

Definition parseOwner (objectID partID : string) : result Z ChunkOwner :=
  match String.eqb objectID EmptyString, String.eqb partID EmptyString with
  | false, false => Err InvalidArgument
  | false, true => match uuid_Parse objectID with Some id => Ok (mkOwner (Some id) None) | None => Err InvalidArgument end
  | true, false => match uuid_Parse partID with Some id => Ok (mkOwner None (Some id)) | None => Err InvalidArgument end
  | true, true => Err InvalidArgument
  end.

Definition toProtoObject (o : Object) : ObjectMsg :=
  mkObjectMsg (uuid_String (o_ID o)) (o_Bucket o) (o_Key o) (o_Version o) (o_State o) (o_SizeBytes o) (o_ChunkSize o)
    (o_ChunkCount o) (o_ETag o) (o_ContentType o) (Some (o_CreatedAt o)) (o_CompletedAt o).

(** A NULL health reads as the empty string, which parses as UNKNOWN. *)
Definition replica_health (r : Replica) : State := match rp_node_health r with Some h => parsed_health h | None => StateUnknown end.
Definition toPlacementMsg (c : ChunkWithReplicas) : PlacementMsg :=
  mkPlacementMsg (uuid_String (cw_id c)) (cw_index c) (cw_size_bytes c) (cw_checksum c)
    ((fun r => mkNodeMsg (rp_node_id r) (rp_address r) (replica_health r)) <$> cw_replicas c).

(** ** Cache invalidation *)

Definition invalidateNodeCache (e : env) : Sv unit := run! cache_delete e NodesKey in sv_ret tt.
Definition invalidateObject (e : env) (bucket key : string) : Sv unit :=
  run! cache_delete e (ObjectKey bucket key) in sv_ret tt.
Definition invalidateUpload (e : env) (uploadID : string) : Sv unit :=
  run! cache_delete e (MultipartKey uploadID) in sv_ret tt.
Definition invalidateChunkOwnerCache (e : env) (chunkID : N) : Sv unit :=
  sv! owner := store (ObjectKeyForChunk chunkID) in
  match owner with
  | Err _ => sv_ret tt
  | Ok (bucket, key) => invalidateObject e bucket key
  end.

(** ** Nodes *)

(** OnNodeRecovered (repair.go) *)
Definition OnNodeRecovered (e : env) : Sv unit :=
  sv! repair := sv_gets sv_repair in
  match repair with
  | Some cfg => if rcf_Enabled cfg then run! store (RequeueFailedRepairs (e_dbnow e) (rcf_ScanBatch cfg)) in sv_ret tt
                else sv_ret tt
  | None => sv_ret tt
  end.

Definition onNodeRejoined (e : env) (nodeID : string) : Sv unit :=
  sv! stale := store (MarkReplicasStaleOnNode (e_dbnow e) nodeID) in
  match stale with
  | Err _ => sv_ret tt
  | Ok _ =>
      sv! queued := store (EnqueueReconcile (e_dbnow e) nodeID) in
      match queued with
      | Err _ => sv_ret tt
      | Ok _ => OnNodeRecovered e
      end
  end.

Definition onTransition (e : env) (t : Transition) : Sv unit :=
  run! store (SetNodeHealth (e_dbnow e) (tn_NodeID t) (stored_health (tn_To t))) in
  run! invalidateNodeCache e in
  match tn_To t with
  | StateHealthy =>
      if decide (tn_From t = StateDead \/ tn_From t = StateSuspect) then onNodeRejoined e (tn_NodeID t) else sv_ret tt
  | _ => sv_ret tt
  end.

Definition observe (e : env) (nodeID address : string) : Sv (option Transition) := fun s =>
  let '(t, m) := Observe (sv_thresholds s) (e_now e) (e_now e) (e_now e) nodeID address (e_now e) (sv_monitor s) in
  (t, s <| sv_monitor := m |>).

Definition heartbeat_ms : Sv Z := sv_gets (fun s => Z.quot (cfg_HeartbeatInterval (sv_cfg s)) 1000000).

Definition RegisterNode (e : env) (nodeID address : string) (stats : option NodeStats) : Rpc Z :=
  if String.eqb nodeID EmptyString || String.eqb address EmptyString then refuse InvalidArgument
  else
    sv! r := store (UpsertNode (e_dbnow e) nodeID address HEALTHY (toStoreStats stats) (micros (e_now e))) in
    match r with
    | Err _ => refuse Internal
    | Ok _ =>
        sv! prev := sv_gets (fun s => Monitor_State nodeID (sv_monitor s)) in
        run! observe e nodeID address in
        run! invalidateNodeCache e in
        run! (if decide (prev = StateDead \/ prev = StateSuspect \/ prev = StateUnknown)
             then onNodeRejoined e nodeID else sv_ret tt) in
        sv! interval := heartbeat_ms in
        answer interval
    end.

(** The interval, and whether the node must register again. *)
Definition Heartbeat (e : env) (nodeID address : string) (stats : option NodeStats) : Rpc (Z * bool) :=
  if String.eqb nodeID EmptyString then refuse InvalidArgument
  else
    sv! prev := sv_gets (fun s => Monitor_State nodeID (sv_monitor s)) in
    sv! r := store (RecordHeartbeat (e_dbnow e) nodeID address (toStoreStats stats) HEALTHY (micros (e_now e))) in
    sv! interval := heartbeat_ms in
    match r with
    | Err ErrNotFound => answer (interval, true)
    | Err _ => refuse Internal
    | Ok _ =>
        sv! t := observe e nodeID address in
        run! match t with Some t => onTransition e t | None => sv_ret tt end in
        run! (if decide (prev <> StateHealthy) then invalidateNodeCache e else sv_ret tt) in
        answer (interval, false)
    end.

Definition ListNodes_rpc (healthyOnly : bool) : Rpc (list Node) := sv! ns := load (ListNodes healthyOnly) in answer ns.

(** The placement view of a node. *)
Definition placement_node (n : Node) : Placement.NodeInfo :=
  Placement.mkNode (n_ID n) (n_Address n) (toPlacementHealth (parsed_health (n_Health n))) (n_TotalBytes n) (n_UsedBytes n)
    (n_AvailableBytes n) (n_ActiveRequests n) (n_ChunkCount n).

Definition healthyNodes (e : env) : Sv (list Placement.NodeInfo) :=
  sv! r := cache_get as_nodes e NodesKey in
  match r with
  | Ok ns => sv_ret ns
  | Err _ =>
      sv! nodes := load (ListNodes true) in
      let out := placement_node <$> nodes in
      sv! ttl := sv_gets (fun s => cfg_NodeCacheTTL (sv_cfg s)) in
      run! cache_set e NodesKey (CachedNodes out) ttl in
      sv_ret out
  end.

(** ** Uploads *)

Record BeginUploadReply := mkBeginUploadReply {
  bu_ObjectId : string;
  bu_ChunkSize : Z;
  bu_ReplicationFactor : Z;
  bu_MinWriteReplicas : Z
}.

Definition BeginUpload_rpc (e : env) (bucket key contentType : string) (chunkSize : Z) : Rpc BeginUploadReply :=
  match validateBucketKey bucket key with
  | Some code => refuse code
  | None =>
      sv! cfg := sv_gets sv_cfg in
      let chunkSize := if decide (chunkSize <= 0)%Z then cfg_ChunkSize cfg else chunkSize in
      let contentType := if String.eqb contentType EmptyString then "application/octet-stream" else contentType in
      sv! r := store (BeginUpload (e_fresh e) (e_dbnow e) bucket key contentType chunkSize) in
      match r with
      | Err err => refuse (toStatus err)
      | Ok obj =>
          answer (mkBeginUploadReply (uuid_String (o_ID obj)) (o_ChunkSize obj) (Prelude.int32 (cfg_ReplicationFactor cfg))
            (Prelude.int32 (cfg_MinWriteReplicas cfg)))
      end
  end.

Record AllocateChunkReply := mkAllocateChunkReply {
  ac_ChunkId : string;
  ac_Targets : list Placement.NodeInfo;
  ac_MinWriteReplicas : Z
}.

(** The placer's call; it does not panic. *)
Definition select_nodes (nodes : list Placement.NodeInfo) (req : Request) :
    Sv (result placement_error (list Placement.NodeInfo)) := fun s =>
  match SelectNodes (sv_placer s) nodes req with
  | Some (r, placer) => (r, s <| sv_placer := placer |>)
  | None => (Err ErrInvalidRequest, s)
  end.

Definition AllocateChunk_rpc (e : env) (objectID partID : string) (index sizeBytes : Z) : Rpc AllocateChunkReply :=
  match parseOwner objectID partID with
  | Err code => refuse code
  | Ok owner =>
      if decide (index < 0)%Z then refuse InvalidArgument
      else
        sv! nodes := healthyNodes e in
        sv! r := store (ReserveChunk (e_fresh e) (e_dbnow e) owner index sizeBytes) in
        match r with
        | Err err => refuse (toStatus err)
        | Ok chunkID =>
            sv! cfg := sv_gets sv_cfg in
            sv! r := select_nodes nodes (mkRequest (uuid_String chunkID) (cfg_ReplicationFactor cfg) sizeBytes []) in
            match r with
            | Err ErrInsufficientNodes => refuse ResourceExhausted
            | Err _ => refuse InvalidArgument
            | Ok targets =>
                sv! r := store (RecordChunkTargets (e_dbnow e) chunkID (Placement.ID <$> targets)) in
                match r with
                | Err err => refuse (toStatus err)
                | Ok _ => answer (mkAllocateChunkReply (uuid_String chunkID) targets (Prelude.int32 (cfg_MinWriteReplicas cfg)))
                end
            end
        end
  end.

Definition CommitChunk_rpc (e : env) (chunkID checksum : string) (sizeBytes : Z) (succeeded failed : list string) : Rpc Z :=
  match uuid_Parse chunkID with
  | None => refuse InvalidArgument
  | Some id =>
      if negb (Valid checksum) then refuse InvalidArgument
      else
        sv! cfg := sv_gets sv_cfg in
        sv! r := store (CommitChunk (e_dbnow e) id checksum sizeBytes succeeded failed (cfg_MinWriteReplicas cfg)) in
        match r with
        | Err err => refuse (toStatus err)
        | Ok available => answer (Prelude.int32 available)
        end
  end.

(** The identifier, the etag and the completion time. *)
Definition CompleteUpload_rpc (e : env) (objectID : string) (sizeBytes chunkCount : Z) (etag : string) :
    Rpc (string * string * option Z) :=
  match uuid_Parse objectID with
  | None => refuse InvalidArgument
  | Some id =>
      sv! r := store (CompleteUpload (e_dbnow e) id sizeBytes chunkCount etag) in
      match r with
      | Err ErrDurabilityNotMet => refuse FailedPrecondition
      | Err err => refuse (toStatus err)
      | Ok obj =>
          run! invalidateObject e (o_Bucket obj) (o_Key obj) in
          answer (uuid_String (o_ID obj), o_ETag obj, o_CompletedAt obj)
      end
  end.

Definition AbortUpload_rpc (e : env) (objectID reason : string) : Rpc unit :=
  match uuid_Parse objectID with
  | None => refuse InvalidArgument
  | Some id =>
      sv! r := store (AbortUpload (e_dbnow e) id reason) in
      match r with
      | Err err => refuse (toStatus err)
      | Ok _ => answer tt
      end
  end.

(** ** Reads and deletes *)

Definition GetObject_rpc (e : env) (bucket key : string) : Rpc LayoutMsg :=
  match validateBucketKey bucket key with
  | Some code => refuse code
  | None =>
      sv! r := cache_get as_object e (ObjectKey bucket key) in
      match r with
      | Ok c => answer (toProto c)
      | Err _ =>
          sv! r := store (GetObject bucket key) in
          match r with
          | Err err => refuse (toStatus err)
          | Ok (obj, chunks) =>
              let resp := mkLayoutMsg (toProtoObject obj) (toPlacementMsg <$> chunks) in
              sv! ttl := sv_gets (fun s => cfg_ObjectCacheTTL (sv_cfg s)) in
              run! cache_set e (ObjectKey bucket key) (CachedObject (newCachedObject resp)) ttl in
              answer resp
          end
      end
  end.

Definition HeadObject_rpc (bucket key : string) : Rpc ObjectMsg :=
  match validateBucketKey bucket key with
  | Some code => refuse code
  | None =>
      sv! r := store (HeadObject bucket key) in
      match r with
      | Err err => refuse (toStatus err)
      | Ok obj => answer (toProtoObject obj)
      end
  end.

(** The identifier of the deleted version, if there was one. *)
Definition DeleteObject_rpc (e : env) (bucket key : string) : Rpc (option string) :=
  match validateBucketKey bucket key with
  | Some code => refuse code
  | None =>
      sv! r := store (DeleteObject (e_dbnow e) bucket key) in
      match r with
      | Err err => refuse (toStatus err)
      | Ok id =>
          run! invalidateObject e bucket key in
          answer (uuid_String <$> id)
      end
  end.

Definition ListObjects_rpc (bucket prefix startAfter : string) (limit : Z) : Rpc (list ObjectMsg * bool) :=
  if String.eqb bucket EmptyString then refuse InvalidArgument
  else
    sv! r := store (ListObjects bucket prefix startAfter limit) in
    match r with
    | Err err => refuse (toStatus err)
    | Ok (objs, truncated) => answer (toProtoObject <$> objs, truncated)
    end.

(** The nodes, the replication factor, the object count and the durability counters. *)
Definition GetClusterStatus : Rpc (list Node * Z * Z * ClusterStats) :=
  sv! nodes := load (ListNodes false) in
  sv! rf := sv_gets (fun s => cfg_ReplicationFactor (sv_cfg s)) in
  sv! stats := load (ClusterStats_read rf) in
  let totalObjects := foldl (fun t st => int64 (t + cs_ObjectsByState stats st)) 0%Z
    [ObjectUploading; ObjectComplete; ObjectDeleting; ObjectFailed] in
  answer (nodes, Prelude.int32 rf, totalObjects, stats).

(** One replica of the layout view: node, address, the state shown ([None] is
    UNSPECIFIED) and the node's health. *)
Definition toProtoReplicaState (s : ReplicaState) : option ReplicaState :=
  match s with
  | ReplicaWriting => Some ReplicaWriting
  | ReplicaAvailable => Some ReplicaAvailable
  | ReplicaUnavailable => Some ReplicaUnavailable
  | ReplicaDeleting => Some ReplicaDeleting
  | _ => None
  end.
Definition replica_location (r : Replica) : string * string * option ReplicaState * State :=
  (rp_node_id r, rp_address r, toProtoReplicaState (rp_state r), replica_health r).

Definition GetObjectLayout (bucket key : string) :
    Rpc (ObjectMsg * list (string * Z * Z * string * list (string * string * option ReplicaState * State))) :=
  match validateBucketKey bucket key with
  | Some code => refuse code
  | None =>
      sv! r := store (HeadObject bucket key) in
      match r with
      | Err err => refuse (toStatus err)
      | Ok obj =>
          sv! chunks := load (ChunksForObject (o_ID obj) false) in
          answer (toProtoObject obj,
            (fun c => (uuid_String (cw_id c), cw_index c, cw_size_bytes c, cw_checksum c,
                       replica_location <$> cw_replicas c)) <$> chunks)
      end
  end.

(** ** Durability RPCs (durability_rpc.go) *)

(** The remaining AVAILABLE replicas, and whether a repair was scheduled. *)
Definition ReportCorruptReplica (e : env) (chunkID nodeID detail : string) : Rpc (Z * bool) :=
  match uuid_Parse chunkID with
  | None => refuse InvalidArgument
  | Some id =>
      if String.eqb nodeID EmptyString then refuse InvalidArgument
      else
        sv! r := store (MarkReplicaCorrupt (e_dbnow e) id nodeID detail) in
        match r with
        | Err err => refuse (toStatus err)
        | Ok remaining =>
            sv! repair := sv_gets sv_repair in
            sv! rf := sv_gets (fun s => cfg_ReplicationFactor (sv_cfg s)) in
            sv! scheduled :=
              (if match repair with Some cfg => rcf_Enabled cfg | None => false end && bool_decide (0 < remaining)%Z then
                 sv! n := store (EnqueueRepairs (e_dbnow e) rf 1) in
                 sv_ret match n with Ok n => bool_decide (0 < n)%Z | Err _ => false end
               else sv_ret false) in
            run! invalidateChunkOwnerCache e id in
            answer (Prelude.int32 remaining, scheduled)
        end
  end.

Record ReplicationStatus := mkReplicationStatus {
  rs_ReplicationFactor : Z;
  rs_TotalChunks : Z;
  rs_UnderReplicatedChunks : Z;
  rs_UnavailableChunks : Z;
  rs_JobsPending : Z;
  rs_JobsRunning : Z;
  rs_JobsFailed : Z;
  rs_JobsSucceededTotal : Z;
  rs_RecentJobs : list RepairJob;
  rs_RepairEnabled : bool
}.

Definition GetReplicationStatus (recentJobLimit : Z) : Rpc ReplicationStatus :=
  sv! rf := sv_gets (fun s => cfg_ReplicationFactor (sv_cfg s)) in
  sv! counts := load (DurabilityCounts rf) in
  sv! total := load CommittedChunkCount in
  sv! jobs := load RepairCounts in
  sv! recent := load (RecentRepairJobs recentJobLimit) in
  sv! repair := sv_gets sv_repair in
  answer (mkReplicationStatus (Prelude.int32 rf) total counts.1 counts.2 (jobs RepairPending) (jobs RepairRunning)
    (jobs RepairFailed) (jobs RepairSucceeded) recent
    match repair with Some cfg => rcf_Enabled cfg | None => false end).

Fixpoint enqueue_all (e : env) (ids : list string) (scheduled : list string) : Rpc (list string) :=
  match ids with
  | [] => answer scheduled
  | id :: ids' =>
      sv! r := store (EnqueueReconcile (e_dbnow e) id) in
      match r with
      | Err _ => refuse Internal
      | Ok queued => enqueue_all e ids' (if queued : bool then scheduled ++ [id] else scheduled)
      end
  end.

Definition TriggerReconcile (e : env) (nodeID : string) : Rpc (list string) :=
  if negb (String.eqb nodeID EmptyString) then
    sv! r := store (GetNode nodeID) in
    match r with
    | Err err => refuse (toStatus err)
    | Ok _ => enqueue_all e [nodeID] []
    end
  else
    sv! nodes := load (ListNodes true) in
    enqueue_all e (n_ID <$> nodes) [].

(** ** Multipart uploads (multipart.go) *)

Definition hour : Z := 3600000000000.
Definition cacheUpload (e : env) (u : MultipartUpload) : Sv unit :=
  run! cache_set e (MultipartKey (uuid_String (m_ID u)))
        (CachedUpload (mkCachedUpload (m_Bucket u) (m_Key u) (m_ChunkSize u) (m_ContentType u))) hour in
  sv_ret tt.

(** Only the fields that never change are read from the cache. *)
Definition loadUpload (e : env) (id : N) : Sv (result store_error cachedUpload) :=
  sv! r := cache_get as_upload e (MultipartKey (uuid_String id)) in
  match r with
  | Ok c => sv_ret (Ok c)
  | Err _ =>
      sv! r := store (GetMultipartUpload id) in
      match r with
      | Err err => sv_ret (Err err)
      | Ok u =>
          run! cacheUpload e u in
          sv_ret (Ok (mkCachedUpload (m_Bucket u) (m_Key u) (m_ChunkSize u) (m_ContentType u)))
      end
  end.

Definition CreateMultipartUpload_rpc (e : env) (bucket key contentType : string) (chunkSize : Z) : Rpc (string * Z) :=
  match validateBucketKey bucket key with
  | Some code => refuse code
  | None =>
      sv! cfg := sv_gets sv_cfg in
      let chunkSize := if decide (chunkSize <= 0)%Z then cfg_ChunkSize cfg else chunkSize in
      let contentType := if String.eqb contentType EmptyString then "application/octet-stream" else contentType in
      sv! r := store (CreateMultipartUpload (e_fresh e) (e_dbnow e) bucket key contentType chunkSize) in
      match r with
      | Err err => refuse (toStatus err)
      | Ok u =>
          run! cacheUpload e u in
          answer (uuid_String (m_ID u), m_ChunkSize u)
      end
  end.

Definition BeginPart_rpc (e : env) (uploadID : string) (partNumber : Z) : Rpc (string * Z) :=
  match uuid_Parse uploadID with
  | None => refuse InvalidArgument
  | Some id =>
      sv! r := loadUpload e id in
      match r with
      | Err err => refuse (toStatus err)
      | Ok u =>
          sv! r := store (BeginPart (e_fresh e) (e_dbnow e) id partNumber) in
          match r with
          | Err err => refuse (toStatus err)
          | Ok part => answer (uuid_String (p_ID part), cu_ChunkSize u)
          end
      end
  end.

Definition CompletePart_rpc (e : env) (partID : string) (sizeBytes chunkCount : Z) (etag : string) : Rpc string :=
  match uuid_Parse partID with
  | None => refuse InvalidArgument
  | Some id =>
      sv! r := store (CompletePart (e_dbnow e) id sizeBytes chunkCount etag) in
      match r with
      | Err ErrDurabilityNotMet => refuse FailedPrecondition
      | Err err => refuse (toStatus err)
      | Ok _ => answer etag
      end
  end.

(** [lock] is the outcome of taking the lock for the key: an error, or whether
    it was free. It is released before the handler returns. *)
Definition CompleteMultipartUpload_rpc (e : env) (lock : result cache_error bool) (uploadID : string)
    (parts : list CompletedPartRef) : Rpc (string * string * Z) :=
  match uuid_Parse uploadID with
  | None => refuse InvalidArgument
  | Some id =>
      sv! r := loadUpload e id in
      match r with
      | Err err => refuse (toStatus err)
      | Ok _ =>
          match lock with
          | Ok false => refuse Aborted
          | _ =>
              sv! r := store (CompleteMultipartUpload sha256 (e_fresh e) (e_dbnow e) id parts) in
              match r with
              | Err err => refuse (toStatus err)
              | Ok obj =>
                  run! invalidateObject e (o_Bucket obj) (o_Key obj) in
                  run! invalidateUpload e (uuid_String id) in
                  answer (uuid_String (o_ID obj), o_ETag obj, o_SizeBytes obj)
              end
          end
      end
  end.

Definition AbortMultipartUpload_rpc (e : env) (uploadID : string) : Rpc unit :=
  match uuid_Parse uploadID with
  | None => refuse InvalidArgument
  | Some id =>
      sv! r := store (AbortMultipartUpload (e_dbnow e) id) in
      match r with
      | Err err => refuse (toStatus err)
      | Ok _ =>
          run! invalidateUpload e (uuid_String id) in
          answer tt
      end
  end.
End coordinator.
