(* ===== verification/Workers.v ===== *)
(** * The coordinator's background workers

    The garbage collector and the health worker (src/internal/coordinator/
    workers.go), the repair manager (repair.go) and the reconciler
    (reconcile.go). They act on the whole system: the service and the storage
    nodes, by address. What happens to each call to a node is a [fate]; the
    endless loops around the cycles are in Startup.v. *)

From stdpp Require Import base numbers gmap strings list sorting.
From S2P Require Import Prelude Chunking Checksum ChunkStore StorageService ChunkWriter GoFloat GoStrings Placement Health Validate Uuid Cache.
From S2P Require Import Sql Schema Statements Chunks Objects Nodes Repair Gc Reconcile Multipart Coordinator.

#[export] Instance placement_error_eq_dec : EqDecision placement_error.
Proof. solve_decision. Defined.

Record World := mkWorld {
  w_svc : Service;
  w_nodes : cluster
}.

Definition Wd (A : Type) : Type := World -> A * World.
Definition wd_ret {A} (a : A) : Wd A := fun w => (a, w).
Definition wd_bind {A B} (m : Wd A) (k : A -> Wd B) : Wd B := fun w => let '(a, w) := m w in k a w.
Notation "'wd!' x := m 'in' k" := (wd_bind m (fun x => k))
  (at level 10, x pattern, m at level 100, k at level 200) : flex_scope.
Notation "'act!' m 'in' k" := (wd_bind m (fun _ => k)) (at level 10, m at level 100, k at level 200) : flex_scope.

Definition svc {A} (m : Sv A) : Wd A := fun w => let '(a, s) := m (w_svc w) in (a, mkWorld s (w_nodes w)).

(** What happens to a call: it does not reach the node, or it does, with the
    node's faults and clock, and the response may be lost. [ft_text] is the text
    of the error if the call fails. *)
Record fate := mkFate {
  ft_up : bool;
  ft_lost : bool;
  ft_io : faults;
  ft_now : Z;
  ft_text : string
}.
Definition good_fate : fate := mkFate true false no_faults 0 EmptyString.

(** A unary call to the node at an address. *)
Definition call_node {A} (addr : string) (ft : fate) (f : node -> result Z A * node) : Wd (result Z A) := fun w =>
  match w_nodes w !! addr with
  | None => (Err Unavailable, w)
  | Some n =>
      if negb (ft_up ft) then (Err Unavailable, w)
      else
        let '(r, n') := f n in
        let w' := mkWorld (w_svc w) (<[addr := n']> (w_nodes w)) in
        if ft_lost ft then (Err Unavailable, w') else (r, w')
  end.

Section workers.
Context `{PG : !Postgres, UU : !Uuid, GM : !GoMath, GS : !GoSort}.

(** ** Garbage collection *)

Definition deletionMaxAttempts : Z := 8.

Definition deleteOne (ft : fate) (job : PendingDeletion) : Wd (result Z unit) :=
  if String.eqb (pd_Address job) EmptyString then wd_ret (Ok tt)
  else
    wd! r := call_node (pd_Address job) ft (fun n => DeleteChunk (ft_io ft) n (uuid_String (pd_ChunkID job))) in
    wd_ret match r with
           | Ok _ => Ok tt
           | Err code => if (code =? NotFound)%Z then Ok tt else Err code
           end.

(** The loop over the claimed jobs. [stop] holds when the context is done before
    the next job, [fates] are the calls; [interval] is the worker's. *)
Fixpoint process_jobs (e : env) (interval : Z) (stop : Z -> bool) (fates : Z -> fate) (jobs : list PendingDeletion) :
    Wd (result store_error unit) :=
  match jobs with
  | [] => wd_ret (Ok tt)
  | job :: jobs' =>
      if stop (pd_ID job) then wd_ret (Ok tt)
      else
        wd! r := deleteOne (fates (pd_ID job)) job in
        match r with
        | Err _ =>
            let backoff := int64 (pd_Attempts job * interval) in
            wd! r := svc (store (FailDeletion (e_dbnow e) (pd_ID job) (ft_text (fates (pd_ID job))) (micros backoff) deletionMaxAttempts)) in
            match r with
            | Err err => wd_ret (Err err)
            | Ok _ => process_jobs e interval stop fates jobs'
            end
        | Ok _ =>
            wd! r := svc (store (FinishDeletion (pd_ID job) (pd_ChunkID job) (pd_NodeID job))) in
            match r with
            | Err err => wd_ret (Err err)
            | Ok _ => process_jobs e interval stop fates jobs'
            end
        end
  end.

Definition processDeletions (e : env) (interval batch : Z) (stop : Z -> bool) (fates : Z -> fate) : Wd (result store_error unit) :=
  wd! r := svc (store (ClaimDeletions (e_dbnow e) batch (micros (2 * interval)))) in
  match r with
  | Err err => wd_ret (Err err)
  | Ok jobs => process_jobs e interval stop fates jobs
  end.

Definition GC_cycle (e : env) (interval batch : Z) (stop : Z -> bool) (fates : Z -> fate) : Wd (result store_error unit) :=
  wd! cfg := svc (sv_gets sv_cfg) in
  let staleAfter := micros (cfg_UploadStaleAfter cfg) in
  wd! r := svc (store (ReapStaleUploads (e_dbnow e) staleAfter batch)) in
  match r with
  | Err err => wd_ret (Err err)
  | Ok _ =>
      wd! r := svc (store (ReapStaleMultipartUploads (e_dbnow e) staleAfter batch)) in
      match r with
      | Err err => wd_ret (Err err)
      | Ok _ =>
          wd! r := processDeletions e interval batch stop fates in
          match r with
          | Err err => wd_ret (Err err)
          | Ok _ =>
              wd! r := svc (store (PurgeReclaimedChunks batch)) in
              match r with
              | Err err => wd_ret (Err err)
              | Ok _ =>
                  wd! r := svc (store (PurgeCompletedMultipartUploads (e_dbnow e) (micros hour) batch)) in
                  wd_ret match r with Err err => Err err | Ok _ => Ok tt end
              end
          end
      end
  end.

(** ** Health *)

Fixpoint rehydrate_nodes (e : env) (nodes : list Node) : Sv (result store_error unit) :=
  match nodes with
  | [] => sv_ret (Ok tt)
  | n :: nodes' =>
      run! (fun s => (tt, s <| sv_monitor := Seed (sv_thresholds s) (e_now e) (n_ID n) (n_Address n)
                            (match n_LastHeartbeatAt n with Some t => nanos t | None => 0 end) (sv_monitor s) |>)) in
      sv! st := sv_gets (fun s => Monitor_State (n_ID n) (sv_monitor s)) in
      if decide (stored_health st <> n_Health n) then
        sv! r := store (SetNodeHealth (e_dbnow e) (n_ID n) (stored_health st)) in
        match r with
        | Err err => sv_ret (Err err)
        | Ok _ => rehydrate_nodes e nodes'
        end
      else rehydrate_nodes e nodes'
  end.
Definition Rehydrate (e : env) : Sv (result store_error unit) :=
  sv! nodes := load (ListNodes false) in rehydrate_nodes e nodes.

Fixpoint on_transitions (e : env) (ts : list Transition) : Sv unit :=
  match ts with
  | [] => sv_ret tt
  | t :: ts' => run! onTransition e t in on_transitions e ts'
  end.
(** One tick of HealthWorker.Run. *)
Definition health_sweep `{GR : !GoRange} (e : env) : Sv unit := fun s =>
  let '(ts, m) := Sweep (sv_thresholds s) (e_now e) (sv_monitor s) in
  on_transitions e ts (s <| sv_monitor := m |>).

(** ** Repair *)

(** Everything a repair meets on the network: the call that makes the
    destination pull, the destination's way to the source ([None] when it
    cannot be reached) and the source's faults, the check afterwards, the probe
    of a failed source, whether the coordinator is shutting down, and the text of
    the error if the repair fails. *)
Record repair_net := mkRepairNet {
  rn_pull : fate;
  rn_source : option (faults * transport);
  rn_check : fate;
  rn_probe : fate;
  rn_shutdown : bool;
  rn_text : string
}.

(** The stream the destination receives from the source. *)
Definition pull_stream (net : repair_net) (addr id checksum : string) : Wd (option (stream bytes)) := fun w =>
  match w_nodes w !! addr, rn_source net with
  | Some n, Some (io, tr) =>
      let '(frames, status, n') := ReadChunk io tr n id checksum in
      (Some (mkStream frames (match status with None => None | Some _ => Some "rpc error" end)),
       mkWorld (w_svc w) (<[addr := n']> (w_nodes w)))
  | _, _ => (None, w)
  end.

(** ReplicateChunk on the destination, which opens the stream if the request
    is valid and it gets that far. *)
Definition replicate_call (net : repair_net) (dest id sourceAddress checksum : string) (size : Z) : Wd (result Z (Z * bool)) := fun w =>
  match w_nodes w !! dest with
  | None => (Err Unavailable, w)
  | Some _ =>
      if negb (ft_up (rn_pull net)) then (Err Unavailable, w)
      else
        let '(pull, w) := pull_stream net sourceAddress id checksum w in
        call_node dest (rn_pull net)
          (fun n => ReplicateChunk (ft_io (rn_pull net)) (ft_now (rn_pull net)) n id sourceAddress size checksum pull) w
  end.

Definition check_call (ft : fate) (addr id : string) (verify : bool) : Wd (result Z CheckResult) :=
  call_node addr ft (fun n => (CheckChunk (ft_io ft) n id verify, n)).

Definition reportPhantomSource (e : env) (net : repair_net) (chunkID : N) (source : Replica) : Wd unit :=
  wd! r := check_call (rn_probe net) (rp_address source) (uuid_String chunkID) false in
  match r with
  | Err _ => wd_ret tt
  | Ok check =>
      if Exists check then wd_ret tt
      else
        wd! r := svc (store (DropReplica chunkID (rp_node_id source))) in
        match r with
        | Err _ => wd_ret tt
        | Ok _ => svc (invalidateChunkOwnerCache e chunkID)
        end
  end.

Definition saturated (cfg : RepairConfig) (inFlight : gmap string Z) : list string :=
  (map_to_list (filter (fun kn : string * Z => rcf_MaxPerNode cfg <= kn.2)%Z inFlight)).*1.

(** The chosen node; its slot is taken. *)
Definition pickDestination (e : env) (cfg : RepairConfig) (target : RepairTarget) : Sv (result placement_error Placement.NodeInfo) :=
  sv! nodes := healthyNodes e in
  sv! inFlight := sv_gets sv_inFlight in
  sv! r := select_nodes nodes
      (mkRequest (uuid_String (rt_ChunkID target)) 1 (rt_Size target) (rt_Occupied target ++ saturated cfg inFlight)) in
  match r with
  | Err err => sv_ret (Err err)
  | Ok [] => sv_ret (Err ErrInvalidRequest)
  | Ok (dest :: _) => fun s =>
      let k := Placement.ID dest in
      (Ok dest, s <| sv_inFlight := <[k := (default 0 (sv_inFlight s !! k) + 1)%Z]> (sv_inFlight s) |>)
  end.

Definition release_slot (k : string) : Sv unit := fun s =>
  let n := (default 0 (sv_inFlight s !! k) - 1)%Z in
  (tt, s <| sv_inFlight := if decide (n <= 0)%Z then delete k (sv_inFlight s) else <[k := n]> (sv_inFlight s) |>).

(** Why a repair failed. *)
Inductive repair_error :=
  | RepairStore (err : store_error)
  | RepairNoSource
  | RepairNoChecksum
  | RepairPlacement (err : placement_error)
  | RepairCall (code : Z)
  | RepairMissing
  | RepairMismatch.

Definition store_result {A} (r : result store_error A) : result repair_error unit :=
  match r with Ok _ => Ok tt | Err err => Err (RepairStore err) end.

(** executeRepair once the destination is reserved. *)
Definition copy_to (e : env) (net : repair_net) (target : RepairTarget) (source : Replica) (dest : Placement.NodeInfo) :
    Wd (result repair_error unit) :=
  let c := rt_ChunkID target in
  wd! r := svc (store (RecordRepairPlan (e_dbnow e) (rt_JobID target) (rp_node_id source) (Placement.ID dest))) in
  match r with
  | Err err => wd_ret (Err (RepairStore err))
  | Ok _ =>
      wd! r := replicate_call net (Placement.Address dest) (uuid_String c) (rp_address source) (rt_Checksum target) (rt_Size target) in
      match r with
      | Err code =>
          if (code =? FailedPrecondition)%Z then
            act! svc (store (MarkReplicaCorrupt (e_dbnow e) c (rp_node_id source) ("failed verification during repair: " +:+ ft_text (rn_pull net)))) in
            wd_ret (Err (RepairCall code))
          else
            act! reportPhantomSource e net c source in
            wd_ret (Err (RepairCall code))
      | Ok _ =>
          wd! r := check_call (rn_check net) (Placement.Address dest) (uuid_String c) true in
          match r with
          | Err code => wd_ret (Err (RepairCall code))
          | Ok check =>
              if negb (Exists check) then wd_ret (Err RepairMissing)
              else if negb (String.eqb (cr_Checksum check) (rt_Checksum target)) then wd_ret (Err RepairMismatch)
              else
                wd! r := svc (store (CompleteRepair (e_dbnow e) (rt_JobID target) c (Placement.ID dest))) in
                match r with
                | Err err => wd_ret (Err (RepairStore err))
                | Ok _ =>
                    act! svc (invalidateChunkOwnerCache e c) in
                    wd_ret (Ok tt)
                end
          end
      end
  end.

Definition executeRepair (e : env) (cfg : RepairConfig) (net : repair_net) (target : RepairTarget) :
    Wd (result repair_error unit) :=
  if decide (rt_DesiredReplicas target <= 0)%Z then
    wd! r := svc (store (FinishRepairAsNoop (e_dbnow e) (rt_JobID target) "already at full replication")) in
    wd_ret (store_result r)
  else
    match rt_Sources target with
    | [] => wd_ret (Err RepairNoSource)
    | source :: _ =>
        if String.eqb (rt_Checksum target) EmptyString then wd_ret (Err RepairNoChecksum)
        else
          wd! picked := svc (pickDestination e cfg target) in
          match picked with
          | Err err =>
              if decide (err = ErrInsufficientNodes /\ (0 < rt_TransientOccupancy target)%Z) then
                wd! r := svc (store (FinishRepairAsNoop (e_dbnow e) (rt_JobID target)
                   ("deferred: all " +:+ FormatInt (rt_TransientOccupancy target) +:+
                    " candidate nodes hold a non-available replica row"))) in
                wd_ret (store_result r)
              else wd_ret (Err (RepairPlacement err))
          | Ok dest =>
              wd! r := copy_to e net target source dest in
              act! svc (release_slot (Placement.ID dest)) in
              wd_ret r
          end
    end.

(** backoffFor's loop; the delay doubles and stops below the maximum. *)
Fixpoint backoff_loop (n : nat) (maxBackoff d : Z) : Z :=
  match n with
  | O => d
  | S n' => if decide (d < maxBackoff)%Z then backoff_loop n' maxBackoff (int64 (d * 2)) else d
  end.
Definition backoffFor (cfg : RepairConfig) (attempt : Z) : Z :=
  let d := backoff_loop (Z.to_nat (attempt - 1)) (rcf_MaxBackoff cfg) (rcf_BaseBackoff cfg) in
  if decide (rcf_MaxBackoff cfg < d)%Z then rcf_MaxBackoff cfg else d.

(** Whether work was done, and the error, which can come with either. *)
Definition claimAndRepair (e : env) (cfg : RepairConfig) (owner : string) (net : repair_net) : Wd (bool * option store_error) :=
  wd! r := svc (store (ClaimRepairJob (e_dbnow e) owner (micros (rcf_LeaseDuration cfg)) (rcf_ReplicationFactor cfg))) in
  match r with
  | Err ErrNoRepairWork => wd_ret (false, None)
  | Err ErrNotFound => wd_ret (true, None)
  | Err err => wd_ret (false, Some err)
  | Ok target =>
      wd! r := executeRepair e cfg net target in
      match r with
      | Ok _ => wd_ret (true, None)
      | Err _ =>
          if rn_shutdown net then wd_ret (true, None)
          else
            wd! r := svc (store (FailRepair (e_dbnow e) (rt_JobID target) (rn_text net)
                           (micros (backoffFor cfg (rt_Attempts target))) (rcf_MaxAttempts cfg))) in
            wd_ret match r with Err err => (true, Some err) | Ok _ => (true, None) end
      end
  end.

(** One tick of DurabilityAuditor.Run: the number of counters corrected. *)
Definition audit_once : Sv Z :=
  sv! r := store VerifyDurabilityCounters in
  sv_ret match r with Ok drift => drift | Err _ => 0%Z end.

Definition scanOnce (e : env) (cfg : RepairConfig) : Sv unit :=
  run! store (ReclaimExpiredRepairLeases (e_dbnow e)) in
  sv! r := store (EnqueueRepairs (e_dbnow e) (rcf_ReplicationFactor cfg) (rcf_ScanBatch cfg)) in
  match r with
  | Err _ => sv_ret tt
  | Ok _ =>
      run! store (TrimOverReplicatedChunks (e_dbnow e) (rcf_ReplicationFactor cfg) (rcf_ScanBatch cfg)) in
      run! store (PurgeFinishedRepairJobs (e_dbnow e) (micros (rcf_HistoryRetention cfg)) (rcf_ReplicationFactor cfg) 500) in
      sv_ret tt
  end.
End workers.
