(* ===== verification/Reconciler.v ===== *)
(** * The reconciler (src/internal/coordinator/reconcile.go)

    Comparing what a returning node holds with what the metadata says. Other
    processes keep working while the node streams its inventory: what they do
    in between is an argument. *)

From stdpp Require Import base numbers gmap strings list sorting.
From S2P Require Import Prelude Chunking Checksum ChunkStore StorageService ChunkWriter GoFloat GoStrings Placement Health Validate Uuid Cache.
From S2P Require Import Sql Schema Statements Chunks Objects Nodes Repair Gc Reconcile Multipart Coordinator Workers.

Record ReconcileConfig := mkReconcileConfig {
  xc_Enabled : bool;
  xc_Interval : Z;
  xc_PageSize : Z;
  xc_JobTimeout : Z;
  xc_LeaseDuration : Z;
  xc_VerifyChecksums : bool
}.

(** What the reconciler meets: the inventory call, files that vanish during it
    and where its stream breaks, the other processes, the order in which the
    inventory is visited, the check of each chunk, shutdown, and the text of the
    error if the job fails. *)
Record reconcile_net := mkReconcileNet {
  cn_list : fate;
  cn_gone : path -> bool;
  cn_stop : nat -> option Z;
  cn_meanwhile : World -> World;
  cn_order : gset N -> list N;
  cn_check : N -> fate;
  cn_shutdown : bool;
  cn_text : string
}.

Inductive reconcile_error :=
  | ReconcileNoAddress
  | ReconcileStore (err : store_error)
  | ReconcileCall (code : Z).

Definition add_orphan (r : ReconcileResult) : ReconcileResult :=
  mkReconcileResult (rr_ChunksSeen r) (rr_OrphansFound r + 1) (rr_PhantomsFound r) (rr_Verified r) (rr_CorruptFound r).
Definition add_phantom (r : ReconcileResult) : ReconcileResult :=
  mkReconcileResult (rr_ChunksSeen r) (rr_OrphansFound r) (rr_PhantomsFound r + 1) (rr_Verified r) (rr_CorruptFound r).
Definition add_verified (r : ReconcileResult) : ReconcileResult :=
  mkReconcileResult (rr_ChunksSeen r) (rr_OrphansFound r) (rr_PhantomsFound r) (rr_Verified r + 1) (rr_CorruptFound r).
Definition add_corrupt (r : ReconcileResult) : ReconcileResult :=
  mkReconcileResult (rr_ChunksSeen r) (rr_OrphansFound r) (rr_PhantomsFound r) (rr_Verified r) (rr_CorruptFound r + 1).

Section reconciler.
Context `{PG : !Postgres, UU : !Uuid, FW : !FileWalk}.

(** The identifiers in the inventory; names that do not parse are skipped. *)
Definition inventory_ids (batches : list (list InventoryEntry)) : list N :=
  omap (fun en => uuid_Parse (ie_ChunkID en)) (concat batches).

Definition verifyReplica (cfg : ReconcileConfig) (ft : fate) (addr : string) (rep : StaleReplicaOnNode) : Wd (result Z bool) :=
  wd! r := check_call ft addr (uuid_String (sr_ChunkID rep)) (xc_VerifyChecksums cfg) in
  wd_ret match r with
         | Err code => Err code
         | Ok resp =>
             Ok (Exists resp && bool_decide (cr_SizeBytes resp = sr_Size rep) &&
                 (if xc_VerifyChecksums cfg
                  then negb (String.eqb (sr_Checksum rep) EmptyString) && String.eqb (cr_Checksum resp) (sr_Checksum rep)
                  else true))
         end.

(** Phase 3: files the metadata knows nothing about. *)
Fixpoint queue_orphans (e : env) (known : gmap N ReplicaState) (nodeID : string) (ids : list N) (res : ReconcileResult) :
    Wd (result reconcile_error ReconcileResult) :=
  match ids with
  | [] => wd_ret (Ok res)
  | id :: ids' =>
      match known !! id with
      | Some _ => queue_orphans e known nodeID ids' res
      | None =>
          wd! r := svc (store (QueueOrphanDeletion (e_dbnow e) id nodeID)) in
          match r with
          | Err err => wd_ret (Err (ReconcileStore err))
          | Ok queued => queue_orphans e known nodeID ids' (if queued : bool then add_orphan res else res)
          end
      end
  end.

(** One STALE replica. *)
Definition settle_replica (e : env) (cfg : ReconcileConfig) (net : reconcile_net) (job : ReconcileJob) (onDisk : gset N)
    (rep : StaleReplicaOnNode) (res : ReconcileResult) : Wd (result reconcile_error ReconcileResult) :=
  let c := sr_ChunkID rep in
  if decide (c ∉ onDisk) then
    wd! r := svc (store (DropReplica c (rc_NodeID job))) in
    match r with
    | Err err => wd_ret (Err (ReconcileStore err))
    | Ok _ =>
        act! svc (invalidateChunkOwnerCache e c) in
        wd_ret (Ok (add_phantom res))
    end
  else
    wd! ok := verifyReplica cfg (cn_check net c) (rc_Address job) rep in
    match ok with
    | Err code => wd_ret (Err (ReconcileCall code))
    | Ok true =>
        wd! r := svc (store (PromoteVerifiedReplica (e_dbnow e) c (rc_NodeID job))) in
        match r with
        | Err err => wd_ret (Err (ReconcileStore err))
        | Ok true =>
            act! svc (invalidateChunkOwnerCache e c) in
            wd_ret (Ok (add_verified res))
        | Ok false => wd_ret (Ok res)
        end
    | Ok false =>
        wd! r := svc (store (MarkReplicaCorrupt (e_dbnow e) c (rc_NodeID job) "failed verification during reconciliation")) in
        match r with
        | Err err => wd_ret (Err (ReconcileStore err))
        | Ok _ =>
            act! svc (invalidateChunkOwnerCache e c) in
            wd_ret (Ok (add_corrupt res))
        end
    end.

Fixpoint settle_page (e : env) (cfg : ReconcileConfig) (net : reconcile_net) (job : ReconcileJob) (onDisk : gset N)
    (reps : list StaleReplicaOnNode) (res : ReconcileResult) : Wd (result reconcile_error ReconcileResult) :=
  match reps with
  | [] => wd_ret (Ok res)
  | rep :: reps' =>
      wd! r := settle_replica e cfg net job onDisk rep res in
      match r with
      | Err err => wd_ret (Err err)
      | Ok res => settle_page e cfg net job onDisk reps' res
      end
  end.

(** Phase 4, page by page; [None] when the fuel runs out. Every full page
    advances the cursor past at least one chunk. *)
Fixpoint settle_pages (fuel : nat) (e : env) (cfg : ReconcileConfig) (net : reconcile_net) (job : ReconcileJob)
    (onDisk : gset N) (after : N) (res : ReconcileResult) : Wd (option (result reconcile_error ReconcileResult)) :=
  match fuel with
  | O => wd_ret None
  | S fuel' =>
      wd! r := svc (store (StaleReplicasOnNode (rc_NodeID job) after (xc_PageSize cfg))) in
      match r with
      | Err err => wd_ret (Some (Err (ReconcileStore err)))
      | Ok [] => wd_ret (Some (Ok res))
      | Ok stale =>
          wd! r := settle_page e cfg net job onDisk stale res in
          match r with
          | Err err => wd_ret (Some (Err err))
          | Ok res =>
              if decide (Z.of_nat (length stale) < xc_PageSize cfg)%Z then wd_ret (Some (Ok res))
              else settle_pages fuel' e cfg net job onDisk (List.last (sr_ChunkID <$> stale) after) res
          end
      end
  end.

Definition list_call (net : reconcile_net) (addr : string) (pageSize : Z) : Wd (result Z (list (list InventoryEntry))) :=
  call_node addr (cn_list net) (fun n => ListChunks n (cn_gone net) (Prelude.int32 pageSize) (cn_stop net)).

Definition reconcileNode (e : env) (cfg : ReconcileConfig) (net : reconcile_net) (job : ReconcileJob) :
    Wd (option (result reconcile_error ReconcileResult)) :=
  if String.eqb (rc_Address job) EmptyString then wd_ret (Some (Err ReconcileNoAddress))
  else
    wd! known := svc (load (ChunkIDsKnownOnNode (rc_NodeID job))) in
    wd! r := list_call net (rc_Address job) (xc_PageSize cfg) in
    match r with
    | Err code => wd_ret (Some (Err (ReconcileCall code)))
    | Ok batches =>
        act! (fun w => (tt, cn_meanwhile net w)) in
        let ids := inventory_ids batches in
        let onDisk : gset N := list_to_set ids in
        let res := mkReconcileResult (Z.of_nat (length ids)) 0 0 0 0 in
        wd! r := queue_orphans e known (rc_NodeID job) (cn_order net onDisk) res in
        match r with
        | Err err => wd_ret (Some (Err err))
        | Ok res =>
            wd! fuel := svc (load (fun d => S (S (size (chunks d))))) in
            settle_pages fuel e cfg net job onDisk 0%N res
        end
    end.

(** Whether a job was found, and the error, which can come with either. *)
Definition runOne (e : env) (cfg : ReconcileConfig) (owner : string) (net : reconcile_net) : Wd (bool * option store_error) :=
  wd! r := svc (store (ClaimReconcileJob (e_dbnow e) owner (micros (xc_LeaseDuration cfg)))) in
  match r with
  | Err ErrNoReconcileWork => wd_ret (false, None)
  | Err err => wd_ret (false, Some err)
  | Ok job =>
      wd! r := reconcileNode e cfg net job in
      match r with
      | Some (Ok res) =>
          wd! r := svc (store (CompleteReconcile (e_dbnow e) (rc_ID job) res)) in
          match r with
          | Err err => wd_ret (true, Some err)
          | Ok _ =>
              act! svc (OnNodeRecovered e) in
              wd_ret (true, None)
          end
      | _ =>
          if cn_shutdown net then wd_ret (true, None)
          else
            wd! r := svc (store (FailReconcile (e_dbnow e) (rc_ID job) (cn_text net))) in
            wd_ret match r with Err err => (true, Some err) | Ok _ => (true, None) end
      end
  end.

Fixpoint enqueue_stale (e : env) (nodes : list string) : Sv unit :=
  match nodes with
  | [] => sv_ret tt
  | n :: nodes' => run! store (EnqueueReconcile (e_dbnow e) n) in enqueue_stale e nodes'
  end.
Definition sweepStaleNodes (e : env) : Sv unit :=
  sv! r := store (NodesWithStaleReplicas 32) in
  match r with
  | Err _ => sv_ret tt
  | Ok nodes => enqueue_stale e nodes
  end.
End reconciler.
