(* ===== verification/Refinement.v ===== *)
(** * The coordinator refines the metadata store

    Every handler and every worker cycle changes the database only through the
    store's methods: the database after a step is the one a trace of store
    calls leads to. So all invariants of the store hold in every run of the
    whole system. *)

From stdpp Require Import base numbers gmap strings list sorting.
From S2P Require Import Prelude Chunking Checksum ChunkStore StorageService ChunkWriter GoFloat GoStrings Placement Health Validate Uuid Cache.
From S2P Require Import Sql Schema Statements Chunks Frames Objects Nodes Repair Gc Reconcile Multipart Store.
From S2P Require Import ChunkInv CompleteInv QueueInv Coordinator Workers Reconciler.

Create HintDb refines discriminated.
#[export] Hint Constants Opaque : refines.

(** The calls that publish a version of an object or withdraw one; the others
    work in the background of what a reader can see. *)
Definition background_call (c : call) : Prop :=
  match c with
  | C_CompleteUpload _ _ _ _ _ | C_CompleteMultipartUpload _ _ _ _ | C_DeleteObject _ _ _ => False
  | _ => True
  end.

(** The calls a step may make: all of them unless said otherwise, and always the
    background ones. *)
Class Calls := {
  may : call -> Prop;
  may_background : forall c, background_call c -> may c
}.
#[export] Instance any_call : Calls := {| may := fun _ => True; may_background := fun _ _ => I |}.
Definition background_calls : Calls := {| may := background_call; may_background := fun _ H => H |}.

Section refines.
Context `{PG : !Postgres, CL : !Calls} (sha256 : string -> string).

(** The database of a step is reached by store calls. *)
Definition db_step (d d' : db) : Prop := exists c, may c /\ names_its_job d c /\ d' = exec sha256 c d.
Definition db_refines : relation db := rtc db_step.
Definition sv_refines {A} (m : Sv A) : Prop := forall s, db_refines (sv_db s) (sv_db (m s).2).
Definition wd_refines {A} (m : Wd A) : Prop := forall w, db_refines (sv_db (w_svc w)) (sv_db (w_svc (m w).2)).

Lemma db_refines_reachable d d' : db_refines d d' -> reachable_gc sha256 d -> reachable_gc sha256 d'.
Proof. induction 1 as [|d1 d2 d3 (c&_&Hc&->) _ IH]; [done|]. intros Hr. apply IH. by constructor. Qed.
Lemma db_refines_named i c n d d' : db_refines d d' -> job_named i c n d -> job_named i c n d'.
Proof. induction 1 as [|d1 d2 d3 (cl&_&Hc&->) _ IH]; [done|]. intros Hr. apply IH. by apply exec_job_named. Qed.
Lemma db_refines_schema d d' : db_refines d d' -> schema_ok d -> schema_ok d'.
Proof. induction 1 as [|d1 d2 d3 (cl&_&Hc&->) _ IH]; [done|]. intros Hr. apply IH. by apply exec_schema. Qed.

Lemma sv_refines_ret {A} (a : A) : sv_refines (sv_ret a).
Proof. intros s. reflexivity. Qed.
Lemma sv_refines_bind {A B} (m : Sv A) (k : A -> Sv B) :
  sv_refines m -> (forall a, sv_refines (k a)) -> sv_refines (sv_bind m k).
Proof.
  intros Hm Hk s. specialize (Hm s). unfold sv_bind. destruct (m s) as [a s']. simpl in Hm. etrans; [exact Hm|]. apply Hk.
Qed.
Lemma sv_refines_load {A} (f : db -> A) : sv_refines (load f).
Proof. intros s. reflexivity. Qed.
Lemma sv_refines_gets {A} (f : Service -> A) : sv_refines (sv_gets f).
Proof. intros s. reflexivity. Qed.
Lemma sv_refines_cache_get {A} (decode : cached -> option A) e key : sv_refines (cache_get decode e key).
Proof. intros s. unfold cache_get. destruct (Cache_Get _ _ _ _ _). reflexivity. Qed.
Lemma sv_refines_cache_set e key v ttl : sv_refines (cache_set e key v ttl).
Proof. intros s. unfold cache_set. destruct (Cache_Set _ _ _ _ _ _). reflexivity. Qed.
Lemma sv_refines_cache_delete e key : sv_refines (cache_delete e key).
Proof. intros s. unfold cache_delete. destruct (Cache_Delete _ _ _). reflexivity. Qed.
Lemma sv_refines_observe e id addr : sv_refines (observe e id addr).
Proof. intros s. unfold observe. destruct (Observe _ _ _ _ _ _ _ _). reflexivity. Qed.

(** A method that is one call of the machine, and one that only reads. *)
Lemma sv_refines_call {A} (op : Op db A) c :
  may c -> (forall d, names_its_job d c) -> (forall d, (op d).2 = exec sha256 c d) -> sv_refines (store op).
Proof.
  intros Hm Hc H s. apply rtc_once. exists c. split_and!; [done..|]. unfold store. specialize (H (sv_db s)).
  by destruct (op (sv_db s)) as [r d].
Qed.
Definition op_reads {A} (op : Op db A) : Prop := forall d, (op d).2 = d.
Lemma sv_refines_reads {A} (op : Op db A) : op_reads op -> sv_refines (store op).
Proof.
  intros H s. unfold store. specialize (H (sv_db s)). destruct (op (sv_db s)) as [r d]. simpl in *. subst. reflexivity.
Qed.
Lemma inTx_reads {A} (m : Tx db A) : (forall d a d', m d = Ok (a, d') -> d' = d) -> op_reads (inTx m).
Proof. intros H d. unfold inTx. destruct (m d) as [[a d']|] eqn:E; simpl; [by eapply H|done]. Qed.

Lemma wd_refines_ret {A} (a : A) : wd_refines (wd_ret a).
Proof. intros w. reflexivity. Qed.
Lemma wd_refines_bind {A B} (m : Wd A) (k : A -> Wd B) :
  wd_refines m -> (forall a, wd_refines (k a)) -> wd_refines (wd_bind m k).
Proof.
  intros Hm Hk w. specialize (Hm w). unfold wd_bind. destruct (m w) as [a w']. simpl in Hm. etrans; [exact Hm|]. apply Hk.
Qed.
Lemma wd_refines_svc {A} (m : Sv A) : sv_refines m -> wd_refines (svc m).
Proof. intros Hm w. unfold svc. specialize (Hm (w_svc w)). by destruct (m (w_svc w)). Qed.
Lemma wd_refines_call_node {A} addr ft (f : node -> result Z A * node) : wd_refines (call_node addr ft f).
Proof.
  intros w. unfold call_node. destruct (w_nodes w !! addr); [|reflexivity]. destruct (negb _); [reflexivity|].
  destruct (f _). by destruct (ft_lost ft).
Qed.
End refines.

#[export] Hint Resolve sv_refines_ret sv_refines_load sv_refines_gets sv_refines_cache_get sv_refines_cache_set
  sv_refines_cache_delete sv_refines_observe wd_refines_ret wd_refines_call_node : refines.

(** Split a step into its calls. *)
Ltac refine_call :=
  match goal with |- sv_refines ?h (store ?op) =>
    let c := lazymatch op with
    | UpsertNode ?now ?id ?a ?hh ?st ?t => constr:(C_UpsertNode now id a hh st t)
    | RecordHeartbeat ?now ?id ?a ?st ?hh ?t => constr:(C_RecordHeartbeat now id a st hh t)
    | SetNodeHealth ?now ?id ?hh => constr:(C_SetNodeHealth now id hh)
    | BeginUpload ?f ?now ?b ?k ?ct ?cs => constr:(C_BeginUpload f now b k ct cs)
    | CompleteUpload ?now ?o ?s ?n ?e => constr:(C_CompleteUpload now o s n e)
    | AbortUpload ?now ?o ?r => constr:(C_AbortUpload now o r)
    | DeleteObject ?now ?b ?k => constr:(C_DeleteObject now b k)
    | ReapStaleUploads ?now ?t ?l => constr:(C_ReapStaleUploads now t l)
    | ReserveChunk ?f ?now ?o ?i ?s => constr:(C_ReserveChunk f now o i s)
    | RecordChunkTargets ?now ?c ?ts => constr:(C_RecordChunkTargets now c ts)
    | CommitChunk ?now ?c ?hs ?s ?ok ?ko ?m => constr:(C_CommitChunk now c hs s ok ko m)
    | EnqueueRepairs ?now ?rf ?l => constr:(C_EnqueueRepairs now rf l)
    | TrimOverReplicatedChunks ?now ?rf ?l => constr:(C_TrimOverReplicatedChunks now rf l)
    | ReclaimExpiredRepairLeases ?now => constr:(C_ReclaimExpiredRepairLeases now)
    | ClaimRepairJob ?now ?o ?le ?rf => constr:(C_ClaimRepairJob now o le rf)
    | RecordRepairPlan ?now ?j ?s ?t => constr:(C_RecordRepairPlan now j s t)
    | CompleteRepair ?now ?j ?c ?n => constr:(C_CompleteRepair now j c n)
    | FinishRepairAsNoop ?now ?j ?r => constr:(C_FinishRepairAsNoop now j r)
    | FailRepair ?now ?j ?c ?b ?m => constr:(C_FailRepair now j c b m)
    | RequeueFailedRepairs ?now ?l => constr:(C_RequeueFailedRepairs now l)
    | MarkReplicaCorrupt ?now ?c ?n ?s => constr:(C_MarkReplicaCorrupt now c n s)
    | DropReplica ?c ?n => constr:(C_DropReplica c n)
    | PurgeFinishedRepairJobs ?now ?t ?rf ?l => constr:(C_PurgeFinishedRepairJobs now t rf l)
    | VerifyDurabilityCounters => constr:(C_VerifyDurabilityCounters)
    | ClaimDeletions ?now ?l ?le => constr:(C_ClaimDeletions now l le)
    | FailDeletion ?now ?i ?c ?b ?m => constr:(C_FailDeletion now i c b m)
    | PurgeReclaimedChunks ?l => constr:(C_PurgeReclaimedChunks l)
    | PurgeCompletedMultipartUploads ?now ?t ?l => constr:(C_PurgeCompletedMultipartUploads now t l)
    | MarkReplicasStaleOnNode ?now ?n => constr:(C_MarkReplicasStaleOnNode now n)
    | EnqueueReconcile ?now ?n => constr:(C_EnqueueReconcile now n)
    | ReclaimExpiredReconcileLeases ?now => constr:(C_ReclaimExpiredReconcileLeases now)
    | ClaimReconcileJob ?now ?o ?le => constr:(C_ClaimReconcileJob now o le)
    | CompleteReconcile ?now ?j ?r => constr:(C_CompleteReconcile now j r)
    | FailReconcile ?now ?j ?c => constr:(C_FailReconcile now j c)
    | PromoteVerifiedReplica ?now ?c ?n => constr:(C_PromoteVerifiedReplica now c n)
    | QueueOrphanDeletion ?now ?c ?n => constr:(C_QueueOrphanDeletion now c n)
    | CreateMultipartUpload ?f ?now ?b ?k ?ct ?cs => constr:(C_CreateMultipartUpload f now b k ct cs)
    | BeginPart ?f ?now ?u ?n => constr:(C_BeginPart f now u n)
    | CompletePart ?now ?p ?s ?n ?e => constr:(C_CompletePart now p s n e)
    | CompleteMultipartUpload _ ?f ?now ?u ?ex => constr:(C_CompleteMultipartUpload f now u ex)
    | AbortMultipartUpload ?now ?u => constr:(C_AbortMultipartUpload now u)
    | ReapStaleMultipartUploads ?now ?t ?l => constr:(C_ReapStaleMultipartUploads now t l)
    end in apply (sv_refines_call h op c);
      [first [apply may_background; exact I|match goal with H : forall c, may c |- _ => apply H end]|intros ?; exact I|intros ?; cbn [exec]; reflexivity]
  end.

Ltac refine_steps :=
  repeat first
  [ progress intros
  | progress cbv zeta
  | solve [eauto 2 with refines nocore]
  | refine_call
  | apply sv_refines_bind
  | apply wd_refines_bind
  | apply wd_refines_svc
  | match goal with
    | |- sv_refines _ (if ?c then _ else _) => destruct c
    | |- wd_refines _ (if ?c then _ else _) => destruct c
    | |- sv_refines _ match ?c with _ => _ end => destruct c
    | |- wd_refines _ match ?c with _ => _ end => destruct c
    end ].

(** ** Methods that only read *)

Section reads.
Context `{PG : !Postgres}.
Lemma HeadObject_reads b k : op_reads (HeadObject b k).
Proof. apply inTx_reads. intros d a d'. unfold tx_bind, gets, tx_ret, throw. destruct (find_row _ _) as [[]|]; intros ?; simplify_eq; done. Qed.
Lemma GetObject_reads b k : op_reads (GetObject b k).
Proof.
  intros d. unfold GetObject, op_bind. pose proof (HeadObject_reads b k d) as H.
  destruct (HeadObject b k d) as [[obj|e] d']; simpl in *; [|done]. subst. by case_bool_decide.
Qed.
Lemma ListObjects_reads b p s l : op_reads (ListObjects b p s l).
Proof. apply inTx_reads. intros d x d' Hrun. tx_inv Hrun. by apply tx_ret_ok in H1 as [_ ->]. Qed.
Lemma GetNode_reads id : op_reads (GetNode id).
Proof. apply inTx_reads. intros d a d'. unfold tx_bind, gets, tx_ret, throw. destruct (_ !! _); intros ?; simplify_eq; done. Qed.
Lemma ObjectKeyForChunk_reads c : op_reads (ObjectKeyForChunk c).
Proof. apply inTx_reads. intros d a d'. unfold tx_bind, gets, tx_ret, throw. destruct (_ ≫= _); intros ?; simplify_eq; done. Qed.
Lemma GetMultipartUpload_reads u : op_reads (GetMultipartUpload u).
Proof. apply inTx_reads. intros d a d'. unfold tx_bind, gets, tx_ret, throw. destruct (_ !! _); intros ?; simplify_eq; done. Qed.
Lemma StaleReplicasOnNode_reads n a l : op_reads (StaleReplicasOnNode n a l).
Proof. apply inTx_reads. intros d x d' Hrun. tx_inv Hrun. done. Qed.
Lemma NodesWithStaleReplicas_reads l : op_reads (NodesWithStaleReplicas l).
Proof. apply inTx_reads. intros d x d' Hrun. tx_inv Hrun. done. Qed.
End reads.

#[export] Hint Resolve HeadObject_reads GetObject_reads ListObjects_reads GetNode_reads ObjectKeyForChunk_reads
  GetMultipartUpload_reads StaleReplicasOnNode_reads NodesWithStaleReplicas_reads : refines.
#[export] Hint Extern 3 (sv_refines _ (store _)) => apply sv_refines_reads; solve [eauto 2 with refines nocore] : refines.

(** ** Handlers *)

Section handlers.
Context `{PG : !Postgres, UU : !Uuid, GM : !GoMath, GS : !GoSort, CL : !Calls} (sha256 : string -> string).

Lemma refines_invalidateNodeCache e : sv_refines sha256 (invalidateNodeCache e).
Proof. unfold invalidateNodeCache. refine_steps. Qed.
Lemma refines_invalidateObject e b k : sv_refines sha256 (invalidateObject e b k).
Proof. unfold invalidateObject. refine_steps. Qed.
Lemma refines_invalidateUpload e u : sv_refines sha256 (invalidateUpload e u).
Proof. unfold invalidateUpload. refine_steps. Qed.
#[local] Hint Resolve refines_invalidateNodeCache refines_invalidateObject refines_invalidateUpload : refines.
Lemma refines_invalidateChunkOwnerCache e c : sv_refines sha256 (invalidateChunkOwnerCache e c).
Proof. unfold invalidateChunkOwnerCache. refine_steps. Qed.
Lemma refines_OnNodeRecovered e : sv_refines sha256 (OnNodeRecovered e).
Proof. unfold OnNodeRecovered. refine_steps. Qed.
#[local] Hint Resolve refines_invalidateChunkOwnerCache refines_OnNodeRecovered : refines.
Lemma refines_onNodeRejoined e n : sv_refines sha256 (onNodeRejoined e n).
Proof. unfold onNodeRejoined. refine_steps. Qed.
#[local] Hint Resolve refines_onNodeRejoined : refines.
Lemma refines_onTransition e t : sv_refines sha256 (onTransition e t).
Proof. unfold onTransition. refine_steps. Qed.
#[local] Hint Resolve refines_onTransition : refines.
Lemma refines_healthyNodes e : sv_refines sha256 (healthyNodes e).
Proof. unfold healthyNodes. refine_steps. Qed.
Lemma refines_select_nodes ns req : sv_refines sha256 (select_nodes ns req).
Proof. intros s. unfold select_nodes. destruct (SelectNodes _ _ _) as [[]|]; reflexivity. Qed.
#[local] Hint Resolve refines_healthyNodes refines_select_nodes : refines.

Lemma refines_RegisterNode e id a st : sv_refines sha256 (RegisterNode e id a st).
Proof. unfold RegisterNode, refuse, answer, heartbeat_ms. refine_steps. Qed.
Lemma refines_Heartbeat e id a st : sv_refines sha256 (Heartbeat e id a st).
Proof. unfold Heartbeat, refuse, answer, heartbeat_ms. refine_steps. Qed.
Lemma refines_BeginUpload e b k ct cs : sv_refines sha256 (BeginUpload_rpc e b k ct cs).
Proof. unfold BeginUpload_rpc, refuse, answer. refine_steps. Qed.
Lemma refines_AllocateChunk e o p i s : sv_refines sha256 (AllocateChunk_rpc e o p i s).
Proof. unfold AllocateChunk_rpc, refuse, answer. refine_steps. Qed.
Lemma refines_CommitChunk e c h s ok ko : sv_refines sha256 (CommitChunk_rpc e c h s ok ko).
Proof. unfold CommitChunk_rpc, refuse, answer. refine_steps. Qed.
Lemma refines_AbortUpload e o r : sv_refines sha256 (AbortUpload_rpc e o r).
Proof. unfold AbortUpload_rpc, refuse, answer. refine_steps. Qed.
Lemma refines_GetObject e b k : sv_refines sha256 (GetObject_rpc e b k).
Proof. unfold GetObject_rpc, refuse, answer. refine_steps. Qed.
Lemma refines_HeadObject b k : sv_refines sha256 (HeadObject_rpc b k).
Proof. unfold HeadObject_rpc, refuse, answer. refine_steps. Qed.
Lemma refines_ListObjects b p s l : sv_refines sha256 (ListObjects_rpc b p s l).
Proof. unfold ListObjects_rpc, refuse, answer. refine_steps. Qed.
Lemma refines_ListNodes h : sv_refines sha256 (ListNodes_rpc h).
Proof. unfold ListNodes_rpc, refuse, answer. refine_steps. Qed.
Lemma refines_GetClusterStatus : sv_refines sha256 GetClusterStatus.
Proof. unfold GetClusterStatus, refuse, answer. refine_steps. Qed.
Lemma refines_GetReplicationStatus n : sv_refines sha256 (GetReplicationStatus n).
Proof. unfold GetReplicationStatus, refuse, answer. refine_steps. Qed.
Lemma refines_GetObjectLayout b k : sv_refines sha256 (GetObjectLayout b k).
Proof. unfold GetObjectLayout, refuse, answer. refine_steps. Qed.
Lemma refines_ReportCorruptReplica e c n d : sv_refines sha256 (ReportCorruptReplica e c n d).
Proof. unfold ReportCorruptReplica, refuse, answer. refine_steps. Qed.
Lemma refines_enqueue_all e ids acc : sv_refines sha256 (enqueue_all e ids acc).
Proof. revert acc. induction ids; intros acc; simpl; unfold refuse, answer; refine_steps. Qed.
#[local] Hint Resolve refines_enqueue_all : refines.
Lemma refines_TriggerReconcile e n : sv_refines sha256 (TriggerReconcile e n).
Proof. unfold TriggerReconcile, refuse, answer. refine_steps. Qed.
Lemma refines_cacheUpload e u : sv_refines sha256 (cacheUpload e u).
Proof. unfold cacheUpload. refine_steps. Qed.
#[local] Hint Resolve refines_cacheUpload : refines.
Lemma refines_loadUpload e u : sv_refines sha256 (loadUpload e u).
Proof. unfold loadUpload. refine_steps. Qed.
#[local] Hint Resolve refines_loadUpload : refines.
Lemma refines_CreateMultipartUpload e b k ct cs : sv_refines sha256 (CreateMultipartUpload_rpc e b k ct cs).
Proof. unfold CreateMultipartUpload_rpc, refuse, answer. refine_steps. Qed.
Lemma refines_BeginPart e u n : sv_refines sha256 (BeginPart_rpc e u n).
Proof. unfold BeginPart_rpc, refuse, answer. refine_steps. Qed.
Lemma refines_CompletePart e p s n t : sv_refines sha256 (CompletePart_rpc e p s n t).
Proof. unfold CompletePart_rpc, refuse, answer. refine_steps. Qed.
Lemma refines_AbortMultipartUpload e u : sv_refines sha256 (AbortMultipartUpload_rpc e u).
Proof. unfold AbortMultipartUpload_rpc, refuse, answer. refine_steps. Qed.
End handlers.

Section publishing_handlers.
Context `{PG : !Postgres, UU : !Uuid, CL : !Calls} (sha256 : string -> string) (Hall : forall c, may c).

#[local] Hint Resolve refines_invalidateObject refines_invalidateUpload : refines.
Lemma refines_CompleteUpload e o s n t : sv_refines sha256 (CompleteUpload_rpc e o s n t).
Proof. unfold CompleteUpload_rpc, refuse, answer. refine_steps. Qed.
Lemma refines_DeleteObject e b k : sv_refines sha256 (DeleteObject_rpc e b k).
Proof. unfold DeleteObject_rpc, refuse, answer. refine_steps. Qed.
Lemma refines_CompleteMultipartUpload e l u ps : sv_refines sha256 (CompleteMultipartUpload_rpc sha256 e l u ps).
Proof. unfold CompleteMultipartUpload_rpc, refuse, answer. refine_steps. Qed.
End publishing_handlers.

(** ** Workers *)

Section worker_refines.
Context `{PG : !Postgres, UU : !Uuid, GM : !GoMath, GS : !GoSort, GR : !GoRange, FW : !FileWalk, CL : !Calls} (sha256 : string -> string).

#[local] Hint Resolve refines_invalidateNodeCache refines_invalidateObject refines_invalidateChunkOwnerCache
  refines_OnNodeRecovered refines_onNodeRejoined refines_onTransition refines_healthyNodes refines_select_nodes : refines.

Lemma refines_deleteOne ft job : wd_refines sha256 (deleteOne ft job).
Proof. unfold deleteOne. refine_steps. Qed.
#[local] Hint Resolve refines_deleteOne : refines.

(** The jobs a worker holds. *)
Definition jobs_named (jobs : list PendingDeletion) (w : World) : Prop :=
  Forall (fun pd => job_named (pd_ID pd) (pd_ChunkID pd) (pd_NodeID pd) (sv_db (w_svc w))) jobs.
Lemma jobs_named_mono jobs w w' :
  db_refines sha256 (sv_db (w_svc w)) (sv_db (w_svc w')) -> jobs_named jobs w -> jobs_named jobs w'.
Proof. intros Hr Hj. eapply Forall_impl; [exact Hj|]. intros pd. simpl. by apply (db_refines_named sha256). Qed.

Lemma refines_finish pd w :
  job_named (pd_ID pd) (pd_ChunkID pd) (pd_NodeID pd) (sv_db (w_svc w)) ->
  db_refines sha256 (sv_db (w_svc w))
    (sv_db (w_svc (svc (store (FinishDeletion (pd_ID pd) (pd_ChunkID pd) (pd_NodeID pd))) w).2)).
Proof.
  intros [_ Hn]. apply rtc_once. exists (C_FinishDeletion (pd_ID pd) (pd_ChunkID pd) (pd_NodeID pd)).
  split_and!; [by apply may_background|exact Hn|]. unfold svc, store. cbn [exec]. by destruct (FinishDeletion _ _ _ _).
Qed.

Lemma refines_process_jobs e i stop fates jobs w :
  jobs_named jobs w ->
  db_refines sha256 (sv_db (w_svc w)) (sv_db (w_svc (process_jobs e i stop fates jobs w).2)).
Proof.
  revert w. induction jobs as [|job jobs IH]; intros w Hj; cbn [process_jobs]; [reflexivity|].
  destruct (stop (pd_ID job)); [reflexivity|]. unfold wd_bind at 1.
  pose proof (refines_deleteOne (fates (pd_ID job)) job w) as H1.
  destruct (deleteOne (fates (pd_ID job)) job w) as [r w1]. simpl in H1. apply (jobs_named_mono _ w w1) in Hj; [|done].
  apply Forall_cons_1 in Hj as [Hjob Hj]. etrans; [exact H1|]. destruct r as [[]|code]; unfold wd_bind at 1.
  - pose proof (refines_finish job w1 Hjob) as H2. destruct (svc _ w1) as [r w2]. simpl in H2. etrans; [exact H2|].
    destruct r; [apply IH; by eapply jobs_named_mono|reflexivity].
  - assert (wd_refines sha256 (svc (store (FailDeletion (e_dbnow e) (pd_ID job) (ft_text (fates (pd_ID job)))
      (micros (int64 (pd_Attempts job * i))) deletionMaxAttempts)))) as H2 by refine_steps.
    specialize (H2 w1). destruct (svc _ w1) as [r w2]. simpl in H2. etrans; [exact H2|].
    destruct r; [apply IH; by eapply jobs_named_mono|reflexivity].
Qed.

(** From a database that satisfies its constraints. *)
Definition wd_refines_ok {A} (m : Wd A) : Prop :=
  forall w, schema_ok (sv_db (w_svc w)) -> db_refines sha256 (sv_db (w_svc w)) (sv_db (w_svc (m w).2)).
Lemma wd_refines_weaken {A} (m : Wd A) : wd_refines sha256 m -> wd_refines_ok m.
Proof. intros H w _. apply H. Qed.
Lemma wd_refines_ok_bind {A B} (m : Wd A) (k : A -> Wd B) :
  wd_refines_ok m -> (forall a, wd_refines_ok (k a)) -> wd_refines_ok (wd_bind m k).
Proof.
  intros Hm Hk w Hs. specialize (Hm w Hs). unfold wd_bind. destruct (m w) as [a w']. simpl in Hm.
  etrans; [exact Hm|]. apply Hk. by eapply (db_refines_schema sha256).
Qed.

Lemma refines_processDeletions e i b stop fates : wd_refines_ok (processDeletions e i b stop fates).
Proof.
  intros w Hs. unfold processDeletions, wd_bind, svc, store.
  destruct (ClaimDeletions (e_dbnow e) b (micros (2 * i)) (sv_db (w_svc w))) as [r d] eqn:Hc.
  assert (db_refines sha256 (sv_db (w_svc w)) d) as H1.
  { apply rtc_once. exists (C_ClaimDeletions (e_dbnow e) b (micros (2 * i))). split_and!; [by apply may_background|exact I|]. cbn [exec]. by rewrite Hc. }
  destruct r as [jobs|err]; [|exact H1]. etrans; [exact H1|].
  set (w1 := mkWorld ((w_svc w) <| sv_db := d |>) (w_nodes w)). change d with (sv_db (w_svc w1)) at 1.
  apply refines_process_jobs.
  apply Forall_forall. intros pd Hpd. by eapply (ClaimDeletions_named sha256).
Qed.
Lemma refines_GC_cycle e i b stop fates : wd_refines_ok (GC_cycle e i b stop fates).
Proof.
  unfold GC_cycle. apply wd_refines_ok_bind; [apply wd_refines_weaken; refine_steps|]. intros cfg. cbv zeta.
  apply wd_refines_ok_bind; [apply wd_refines_weaken; refine_steps|]. intros [?|?]; [|apply wd_refines_weaken; refine_steps].
  apply wd_refines_ok_bind; [apply wd_refines_weaken; refine_steps|]. intros [?|?]; [|apply wd_refines_weaken; refine_steps].
  apply wd_refines_ok_bind; [apply refines_processDeletions|]. intros [?|?]; apply wd_refines_weaken; refine_steps.
Qed.

Lemma refines_rehydrate_nodes e nodes : sv_refines sha256 (rehydrate_nodes e nodes).
Proof.
  induction nodes as [|n nodes IH]; simpl; [refine_steps|]. apply sv_refines_bind; [intros s; reflexivity|]. refine_steps.
Qed.
#[local] Hint Resolve refines_rehydrate_nodes : refines.
Lemma refines_Rehydrate e : sv_refines sha256 (Rehydrate e).
Proof. unfold Rehydrate. refine_steps. Qed.
Lemma refines_on_transitions e ts : sv_refines sha256 (on_transitions e ts).
Proof. induction ts; simpl; refine_steps. Qed.
Lemma refines_health_sweep e : sv_refines sha256 (health_sweep e).
Proof.
  intros s. unfold health_sweep. destruct (Sweep _ _ _) as [ts m].
  set (s1 := s <| sv_monitor := m |>). change (sv_db s) with (sv_db s1). apply refines_on_transitions.
Qed.

Lemma refines_pull_stream net a i c : wd_refines sha256 (pull_stream net a i c).
Proof.
  intros w. unfold pull_stream. destruct (w_nodes w !! a); [|reflexivity].
  destruct (rn_source net) as [[]|]; [|reflexivity]. destruct (ReadChunk _ _ _ _ _) as [[]]. reflexivity.
Qed.
Lemma refines_replicate_call net a i s c z : wd_refines sha256 (replicate_call net a i s c z).
Proof.
  intros w. unfold replicate_call. destruct (w_nodes w !! a); [|reflexivity]. destruct (negb _); [reflexivity|].
  pose proof (refines_pull_stream net s i c w) as H. destruct (pull_stream net s i c w) as [p w']. simpl in H.
  etrans; [exact H|]. apply wd_refines_call_node.
Qed.
#[local] Hint Resolve refines_replicate_call : refines.
Lemma refines_reportPhantomSource e net c s : wd_refines sha256 (reportPhantomSource e net c s).
Proof. unfold reportPhantomSource, check_call. refine_steps. Qed.
Lemma refines_pickDestination e cfg t : sv_refines sha256 (pickDestination e cfg t).
Proof. unfold pickDestination. refine_steps. intros s. reflexivity. Qed.
Lemma refines_release_slot k : sv_refines sha256 (release_slot k).
Proof. intros s. reflexivity. Qed.
#[local] Hint Resolve refines_reportPhantomSource refines_pickDestination refines_release_slot : refines.
Lemma refines_copy_to e net t s d : wd_refines sha256 (copy_to e net t s d).
Proof. unfold copy_to, check_call. refine_steps. Qed.
#[local] Hint Resolve refines_copy_to : refines.
Lemma refines_executeRepair e cfg net t : wd_refines sha256 (executeRepair e cfg net t).
Proof. unfold executeRepair. refine_steps. Qed.
#[local] Hint Resolve refines_executeRepair : refines.
Lemma refines_claimAndRepair e cfg o net : wd_refines sha256 (claimAndRepair e cfg o net).
Proof. unfold claimAndRepair. refine_steps. Qed.
Lemma refines_audit_once : sv_refines sha256 audit_once.
Proof. unfold audit_once. refine_steps. Qed.
Lemma refines_scanOnce e cfg : sv_refines sha256 (scanOnce e cfg).
Proof. unfold scanOnce. refine_steps. Qed.

Lemma refines_queue_orphans e known n ids res : wd_refines sha256 (queue_orphans e known n ids res).
Proof. revert res. induction ids; intros res; simpl; refine_steps. Qed.
#[local] Hint Resolve refines_queue_orphans : refines.
Lemma refines_settle_replica e cfg net job od rep res : wd_refines sha256 (settle_replica e cfg net job od rep res).
Proof. unfold settle_replica, verifyReplica, check_call. refine_steps. Qed.
#[local] Hint Resolve refines_settle_replica : refines.
Lemma refines_settle_page e cfg net job od reps res : wd_refines sha256 (settle_page e cfg net job od reps res).
Proof. revert res. induction reps; intros res; simpl; refine_steps. Qed.
#[local] Hint Resolve refines_settle_page : refines.
Lemma refines_settle_pages fuel e cfg net job od after res : wd_refines sha256 (settle_pages fuel e cfg net job od after res).
Proof. revert after res. induction fuel; intros after res; simpl; refine_steps. Qed.
#[local] Hint Resolve refines_settle_pages : refines.

(** The other processes work on the database through the store, too. *)
Definition benign (net : reconcile_net) : Prop :=
  forall w, db_refines sha256 (sv_db (w_svc w)) (sv_db (w_svc (cn_meanwhile net w))).
Lemma refines_reconcileNode e cfg net job : benign net -> wd_refines sha256 (reconcileNode e cfg net job).
Proof.
  intros Hb. unfold reconcileNode, list_call. refine_steps.
Qed.
Lemma refines_runOne e cfg o net : benign net -> wd_refines sha256 (runOne e cfg o net).
Proof. intros Hb. pose proof (fun job => refines_reconcileNode e cfg net job Hb). unfold runOne. refine_steps. Qed.

(** Where the other processes act during a cycle of the reconciler: once the
    node's inventory has come, if a job was claimed. *)
Definition reconcile_pause (cfg : ReconcileConfig) (net : reconcile_net) (job : ReconcileJob) (w : World) : option World :=
  if String.eqb (rc_Address job) EmptyString then None
  else
    let '(_, w) := svc (load (ChunkIDsKnownOnNode (rc_NodeID job))) w in
    match list_call net (rc_Address job) (xc_PageSize cfg) w with (Ok _, w) => Some w | (Err _, _) => None end.
Definition reconcile_interlude (e : env) (cfg : ReconcileConfig) (owner : string) (net : reconcile_net) (w : World) : option World :=
  match svc (store (ClaimReconcileJob (e_dbnow e) owner (micros (xc_LeaseDuration cfg)))) w with
  | (Ok job, w) => reconcile_pause cfg net job w
  | (Err _, _) => None
  end.

(** A step that refines the store up to the pause and after it. *)
Definition wd_pauses {A} (net : reconcile_net) (pause : World -> option World) (m : Wd A) : Prop := forall w,
  match pause w with
  | None => db_refines sha256 (sv_db (w_svc w)) (sv_db (w_svc (m w).2))
  | Some v => db_refines sha256 (sv_db (w_svc w)) (sv_db (w_svc v)) /\
              db_refines sha256 (sv_db (w_svc (cn_meanwhile net v))) (sv_db (w_svc (m w).2))
  end.
Lemma wd_pauses_then {A B} net pause (m : Wd A) (k : A -> Wd B) :
  wd_pauses net pause m -> (forall a, wd_refines sha256 (k a)) -> wd_pauses net pause (wd_bind m k).
Proof.
  intros Hm Hk w. specialize (Hm w). unfold wd_bind. destruct (m w) as [a w1]. specialize (Hk a w1).
  destruct (pause w) as [v|]; simpl in Hm; [destruct Hm as [H1 H2]; split; [done|]|]; by etrans.
Qed.
Lemma reconcileNode_pauses e cfg net job : wd_pauses net (reconcile_pause cfg net job) (reconcileNode e cfg net job).
Proof.
  intros w. destruct (reconcileNode e cfg net job w) as [r w'] eqn:E. cbn [snd]. revert E. unfold reconcile_pause, reconcileNode.
  destruct (String.eqb _ _); [intros [= _ <-]; reflexivity|]. unfold wd_bind at 1.
  pose proof (wd_refines_svc sha256 _ (sv_refines_load sha256 (ChunkIDsKnownOnNode (rc_NodeID job))) w) as H1.
  destruct (svc (load _) w) as [known w1]. simpl in H1. unfold wd_bind at 1.
  pose proof (wd_refines_call_node sha256 (rc_Address job) (cn_list net)
    (fun n => ListChunks n (cn_gone net) (Prelude.int32 (xc_PageSize cfg)) (cn_stop net)) w1) as H2.
  fold (list_call net (rc_Address job) (xc_PageSize cfg)) in H2.
  destruct (list_call net (rc_Address job) (xc_PageSize cfg) w1) as [[batches|code] w2]; simpl in H2;
    [|intros [= _ <-]; etrans; [exact H1|exact H2]].
  unfold wd_bind at 1. cbv zeta. intros E. split; [etrans; [exact H1|exact H2]|].
  match type of E with ?m (cn_meanwhile net w2) = _ =>
    assert (wd_refines sha256 m) as Hm by refine_steps; specialize (Hm (cn_meanwhile net w2)); by rewrite E in Hm end.
Qed.
Lemma runOne_pauses e cfg owner net : wd_pauses net (reconcile_interlude e cfg owner net) (runOne e cfg owner net).
Proof.
  intros w. destruct (runOne e cfg owner net w) as [r w'] eqn:E. cbn [snd]. revert E. unfold reconcile_interlude, runOne. unfold wd_bind at 1.
  assert (wd_refines sha256 (svc (store (ClaimReconcileJob (e_dbnow e) owner (micros (xc_LeaseDuration cfg)))))) as Hc by refine_steps.
  specialize (Hc w). destruct (svc (store (ClaimReconcileJob _ _ _)) w) as [[job|err] w1]; simpl in Hc; [|by destruct err; intros [= _ <-]].
  intros E. match type of E with wd_bind _ ?k w1 = _ => assert (forall a, wd_refines sha256 (k a)) as Hk by refine_steps end.
  pose proof (wd_pauses_then net _ _ _ (reconcileNode_pauses e cfg net job) Hk w1) as H. rewrite E in H. cbn [snd] in H.
  destruct (reconcile_pause cfg net job w1) as [v|]; [destruct H as [H1 H2]; split; [etrans; [exact Hc|exact H1]|exact H2]|etrans; [exact Hc|exact H]].
Qed.
Lemma refines_enqueue_stale e ns : sv_refines sha256 (enqueue_stale e ns).
Proof. induction ns; simpl; refine_steps. Qed.
#[local] Hint Resolve refines_enqueue_stale : refines.
Lemma refines_sweepStaleNodes e : sv_refines sha256 (sweepStaleNodes e).
Proof. unfold sweepStaleNodes. refine_steps. Qed.
End worker_refines.

(** ** The whole coordinator *)

(** A request, or a cycle of a worker; the nodes may change in any way between
    steps. *)
Inductive action :=
| A_RegisterNode (e : env) (nodeID address : string) (stats : option NodeStats)
| A_Heartbeat (e : env) (nodeID address : string) (stats : option NodeStats)
| A_BeginUpload (e : env) (bucket key contentType : string) (chunkSize : Z)
| A_AllocateChunk (e : env) (objectID partID : string) (index sizeBytes : Z)
| A_CommitChunk (e : env) (chunkID checksum : string) (sizeBytes : Z) (succeeded failed : list string)
| A_CompleteUpload (e : env) (objectID : string) (sizeBytes chunkCount : Z) (etag : string)
| A_AbortUpload (e : env) (objectID reason : string)
| A_GetObject (e : env) (bucket key : string)
| A_HeadObject (bucket key : string)
| A_DeleteObject (e : env) (bucket key : string)
| A_ListObjects (bucket prefix startAfter : string) (limit : Z)
| A_ListNodes (healthyOnly : bool)
| A_GetClusterStatus
| A_GetObjectLayout (bucket key : string)
| A_GetReplicationStatus (recentJobLimit : Z)
| A_ReportCorruptReplica (e : env) (chunkID nodeID detail : string)
| A_TriggerReconcile (e : env) (nodeID : string)
| A_CreateMultipartUpload (e : env) (bucket key contentType : string) (chunkSize : Z)
| A_BeginPart (e : env) (uploadID : string) (partNumber : Z)
| A_CompletePart (e : env) (partID : string) (sizeBytes chunkCount : Z) (etag : string)
| A_CompleteMultipartUpload (e : env) (lock : result cache_error bool) (uploadID : string) (parts : list CompletedPartRef)
| A_AbortMultipartUpload (e : env) (uploadID : string)
| A_GC (e : env) (interval batch : Z) (stop : Z -> bool) (fates : Z -> fate)
| A_Rehydrate (e : env)
| A_HealthSweep (e : env)
| A_ScanOnce (e : env) (cfg : RepairConfig)
| A_Audit
| A_Repair (e : env) (cfg : RepairConfig) (owner : string) (net : repair_net)
| A_Reconcile (e : env) (cfg : ReconcileConfig) (owner : string) (net : reconcile_net)
| A_SweepStaleNodes (e : env)
| A_ReclaimRepairLeases (e : env)
| A_ReclaimReconcileLeases (e : env)
| A_Nodes (change : cluster -> cluster).

Section system.
Context `{PG : !Postgres, UU : !Uuid, GM : !GoMath, GS : !GoSort, GR : !GoRange, FW : !FileWalk} (sha256 : string -> string).

Definition serve (a : action) (w : World) : World :=
  match a with
  | A_RegisterNode e id ad st => (svc (RegisterNode e id ad st) w).2
  | A_Heartbeat e id ad st => (svc (Heartbeat e id ad st) w).2
  | A_BeginUpload e b k ct cs => (svc (BeginUpload_rpc e b k ct cs) w).2
  | A_AllocateChunk e o p i s => (svc (AllocateChunk_rpc e o p i s) w).2
  | A_CommitChunk e c h s ok ko => (svc (CommitChunk_rpc e c h s ok ko) w).2
  | A_CompleteUpload e o s n t => (svc (CompleteUpload_rpc e o s n t) w).2
  | A_AbortUpload e o r => (svc (AbortUpload_rpc e o r) w).2
  | A_GetObject e b k => (svc (GetObject_rpc e b k) w).2
  | A_HeadObject b k => (svc (HeadObject_rpc b k) w).2
  | A_DeleteObject e b k => (svc (DeleteObject_rpc e b k) w).2
  | A_ListObjects b p s l => (svc (ListObjects_rpc b p s l) w).2
  | A_ListNodes h => (svc (ListNodes_rpc h) w).2
  | A_GetClusterStatus => (svc GetClusterStatus w).2
  | A_GetObjectLayout b k => (svc (GetObjectLayout b k) w).2
  | A_GetReplicationStatus n => (svc (GetReplicationStatus n) w).2
  | A_ReportCorruptReplica e c n d => (svc (ReportCorruptReplica e c n d) w).2
  | A_TriggerReconcile e n => (svc (TriggerReconcile e n) w).2
  | A_CreateMultipartUpload e b k ct cs => (svc (CreateMultipartUpload_rpc e b k ct cs) w).2
  | A_BeginPart e u n => (svc (BeginPart_rpc e u n) w).2
  | A_CompletePart e p s n t => (svc (CompletePart_rpc e p s n t) w).2
  | A_CompleteMultipartUpload e l u ps => (svc (CompleteMultipartUpload_rpc sha256 e l u ps) w).2
  | A_AbortMultipartUpload e u => (svc (AbortMultipartUpload_rpc e u) w).2
  | A_GC e i b stop fates => (GC_cycle e i b stop fates w).2
  | A_Rehydrate e => (svc (Rehydrate e) w).2
  | A_HealthSweep e => (svc (health_sweep e) w).2
  | A_ScanOnce e cfg => (svc (scanOnce e cfg) w).2
  | A_Audit => (svc audit_once w).2
  | A_Repair e cfg o net => (claimAndRepair e cfg o net w).2
  | A_Reconcile e cfg o net => (runOne e cfg o net w).2
  | A_SweepStaleNodes e => (svc (sweepStaleNodes e) w).2
  | A_ReclaimRepairLeases e => (svc (store (ReclaimExpiredRepairLeases (e_dbnow e))) w).2
  | A_ReclaimReconcileLeases e => (svc (store (ReclaimExpiredReconcileLeases (e_dbnow e))) w).2
  | A_Nodes change => mkWorld (w_svc w) (change (w_nodes w))
  end.

Definition act_benign `{CL : !Calls} (a : action) : Prop :=
  match a with A_Reconcile _ _ _ net => benign sha256 net | _ => True end.

(** The requests that publish or withdraw a version. *)
Definition publishing (a : action) : Prop :=
  match a with
  | A_CompleteUpload _ _ _ _ _ | A_DeleteObject _ _ _ | A_CompleteMultipartUpload _ _ _ _ => True
  | _ => False
  end.

Lemma serve_refines `{CL : !Calls} a w :
  (publishing a -> forall c, may c) -> act_benign a -> schema_ok (sv_db (w_svc w)) ->
  db_refines sha256 (sv_db (w_svc w)) (sv_db (w_svc (serve a w))).
Proof.
  intros Hp Hb Hs. destruct a; simpl; try specialize (Hp I);
    first [ reflexivity
          | by apply refines_GC_cycle | apply refines_claimAndRepair | by apply refines_runOne
          | apply (wd_refines_svc sha256);
            first [ apply refines_RegisterNode | apply refines_Heartbeat | apply refines_BeginUpload
                  | apply refines_AllocateChunk | apply refines_CommitChunk | by apply refines_CompleteUpload
                  | apply refines_AbortUpload | apply refines_GetObject | apply refines_HeadObject
                  | by apply refines_DeleteObject | apply refines_ListObjects | apply refines_ListNodes
                  | apply refines_GetClusterStatus | apply refines_GetObjectLayout | apply refines_GetReplicationStatus
                  | apply refines_ReportCorruptReplica | apply refines_TriggerReconcile
                  | apply refines_CreateMultipartUpload | apply refines_BeginPart | apply refines_CompletePart
                  | by apply refines_CompleteMultipartUpload | apply refines_AbortMultipartUpload
                  | apply refines_Rehydrate | apply refines_health_sweep | apply refines_scanOnce | apply refines_audit_once
                  | apply refines_sweepStaleNodes | refine_call ] ].
Qed.

Definition serve_all (acts : list action) (w : World) : World := foldl (fun w a => serve a w) w acts.

Lemma serve_all_refines acts w :
  Forall act_benign acts -> schema_ok (sv_db (w_svc w)) ->
  db_refines sha256 (sv_db (w_svc w)) (sv_db (w_svc (serve_all acts w))).
Proof.
  intros Hb. revert w. induction Hb as [|a acts Ha _ IH]; intros w Hs; [reflexivity|]. simpl.
  pose proof (serve_refines a w (fun _ _ => I) Ha Hs) as H. etrans; [exact H|]. apply IH. by eapply (db_refines_schema sha256).
Qed.
Lemma serve_all_schema acts w :
  Forall act_benign acts -> schema_ok (sv_db (w_svc w)) -> schema_ok (sv_db (w_svc (serve_all acts w))).
Proof. intros Hb Hs. exact (db_refines_schema sha256 _ _ (serve_all_refines acts w Hb Hs) Hs). Qed.
End system.

(** C3: the coordinator refines the metadata store, and the store's invariants
    hold in every run of the system. Take any sequence of requests and worker
    cycles, with any failures of nodes, network and cache, and any changes on
    the nodes in between. The database it ends in is reached by a trace of store
    methods in which every finished deletion is one the worker had claimed. So
    every constraint of the schema holds; a COMPLETE object has exactly its
    recorded number of chunks, all COMMITTED with a digest; and data that is
    retired, by deletion, overwrite, abort, timeout or trimming, stays queued
    for deletion until its replica row is gone. *)
Theorem system_refines_store `{PG : !Postgres, UU : !Uuid, GM : !GoMath, GS : !GoSort, GR : !GoRange, FW : !FileWalk}
    (sha256 : string -> string) (acts : list action) (w : World) :
  Forall (act_benign sha256) acts -> reachable_gc sha256 (sv_db (w_svc w)) ->
  let d := sv_db (w_svc (serve_all sha256 acts w)) in
  rtc (fun d1 d2 => exists c, names_its_job d1 c /\ d2 = exec sha256 c d1) (sv_db (w_svc w)) d /\
  schema_ok d /\
  (forall o r, objects d !! o = Some r -> ob_state r = ObjectComplete ->
     object_chunk_count d o = ob_chunk_count r /\
     forall c ch, chunks d !! c = Some ch -> ck_object_id ch = Some o ->
       ck_state ch = ChunkCommitted /\ is_Some (ck_checksum_sha256 ch)) /\
  (forall c n r, chunk_replicas d !! (c, n) = Some r -> cr_state r = ReplicaDeleting -> deletion_queued d c n).
Proof.
  intros Hb Hr d. pose proof (reachable_gc_reachable _ _ Hr) as Hr0.
  pose proof (serve_all_refines sha256 acts w Hb (reachable_schema _ _ Hr0)) as Href. fold d in Href.
  pose proof (db_refines_reachable sha256 _ _ Href Hr) as Hd. pose proof (reachable_gc_reachable _ _ Hd) as Hd0.
  split_and!; [eapply rtc_subrel; [|exact Href]; intros ?? (c&_&H); by exists c|by eapply (reachable_schema sha256)| |exact (reachable_gc_queued _ _ Hd)].
  intros o r Ho Hst. destruct (co_sealed _ (reachable_complete _ _ Hd0) o r Ho Hst) as [Hcnt Hall].
  split; [done|]. intros c ch Hc Hoc. pose proof (Hall c ch Hc Hoc) as Hcs. split; [done|].
  destruct (reachable_checksums _ _ Hd0 c ch Hc Hcs) as [x Hx]. by rewrite Hx.
Qed.

(** A coordinator without nodes and objects, and one that has just started three
    nodes, stored an object of one chunk and deleted it. *)
Definition sample_config : CoordinatorConfig := mkCoordinatorConfig 8 2 1 1000000000 0 2000000000 0.
Definition sample_repair_config : RepairConfig := 
  mkRepairConfig true 4 5000000000 10 2 30000000000 60000000000 5 1000000000 60000000000 2 0.
Definition new_service (placer : Strategy) : Service :=
  mkService sample_config empty_db (Redis "fs" ∅) (mkThresholds 15000000000 45000000000) ∅ placer (Some sample_repair_config) ∅.
Definition at_time (t : Z) (id : N) : env := mkEnv (t * 1000) t id true.
Definition register_three : list action := [
  A_RegisterNode (at_time 1 0) "n1" "n1:7000" (Some sample_stats);
  A_RegisterNode (at_time 1 0) "n2" "n2:7000" (Some sample_stats);
  A_RegisterNode (at_time 1 0) "n3" "n3:7000" (Some sample_stats)
].
Definition store_and_delete : list action := register_three ++ [
  A_BeginUpload (at_time 2 10) "photos" "cat.jpg" "image/jpeg" 8;
  A_AllocateChunk (at_time 3 20) (canonical_String 10) EmptyString 0 8;
  A_CommitChunk (at_time 4 0) (canonical_String 20) sample_digest 8 ["n1"; "n2"] [];
  A_CompleteUpload (at_time 5 0) (canonical_String 10) 8 1 "etag";
  A_DeleteObject (at_time 6 0) "photos" "cat.jpg"
].
Definition walk_files : FileWalk := {| walk := fun d => map_to_list (d_data d); walk_perm := fun d => Permutation_refl _ |}.

Lemma system_refines_store_witness :
  deletion_queued (sv_db (w_svc (serve_all (PG := c_locale) (UU := canonical_uuid) (GM := sample_math)
    (GS := sort_by_insertion) (GR := range_by_key) (FW := walk_files) (fun s => s) store_and_delete
    (mkWorld (new_service (Rendezvous DefaultConfig)) ∅)))) 20 "n2".
Proof.
  destruct (system_refines_store (PG := c_locale) (UU := canonical_uuid) (GM := sample_math)
    (GS := sort_by_insertion) (GR := range_by_key) (FW := walk_files) (fun s => s) store_and_delete
    (mkWorld (new_service (Rendezvous DefaultConfig)) ∅)) as (_&_&_&H).
  - repeat constructor.
  - constructor.
  - set (d := sv_db _) in H |- *.
    assert (cr_state <$> chunk_replicas d !! (20%N, "n2") = Some ReplicaDeleting) as Hd by (vm_compute; reflexivity).
    destruct (chunk_replicas d !! (20%N, "n2")) as [r|] eqn:E; [|discriminate Hd].
    apply (H 20%N "n2" r E). injection Hd as Hd. exact Hd.
Defined.
