(* ===== verification/Namespace.v ===== *)
(** * The object store as a map

    What FlexStore promises its clients, without versions, chunks, replicas and
    workers: a map from names to objects that requests publish into and withdraw
    from one at a time. [ObjectStore] is that contract as an interface; the
    clients' theorems are proved against it, and the metadata store and the whole
    coordinator are two instances. *)

From stdpp Require Import base numbers gmap strings list sorting.
From S2P Require Import Prelude Chunking Checksum ChunkStore StorageService ChunkWriter GoFloat GoStrings Placement Health Validate Uuid Cache.
From S2P Require Import Sql Schema Statements Chunks Frames Runs Deletions Objects Nodes Repair Gc Reconcile Multipart Store Listing ChunkInv CompleteInv QueueInv.
From S2P Require Import Reads Uploads Visibility Assembly Coordinator Workers Reconciler Refinement.

(** ** The abstract state *)

Abbreviation namespace := (gmap (string * string) Object).
Definition name_of (o : Object) : string * string := (o_Bucket o, o_Key o).

Inductive event := Publish (o : Object) | Withdraw (bucket key : string).
Definition apply_event (m : namespace) (e : event) : namespace :=
  match e with Publish o => <[name_of o := o]> m | Withdraw b k => delete (b, k) m end.
Definition apply_events (es : list event) (m : namespace) : namespace := foldl apply_event m es.

(** The name an event is about, and what it leaves under it. *)
Definition event_name (e : event) : string * string := match e with Publish o => name_of o | Withdraw b k => (b, k) end.
Definition event_value (e : event) : option Object := match e with Publish o => Some o | Withdraw _ _ => None end.

(** The last word on a name. *)
Definition latest (n : string * string) (es : list event) (old : option Object) : option Object :=
  foldl (fun v e => if decide (event_name e = n) then event_value e else v) old es.

Lemma apply_event_lookup e m n :
  apply_event m e !! n = if decide (event_name e = n) then event_value e else m !! n.
Proof.
  destruct e as [o|b k]; simpl; (case_decide as H; [subst n|]).
  - apply lookup_insert_eq.
  - by apply lookup_insert_ne.
  - apply lookup_delete_eq.
  - by apply lookup_delete_ne.
Qed.
Lemma apply_events_lookup es m n : apply_events es m !! n = latest n es (m !! n).
Proof.
  revert m. induction es as [|e es IH]; intros m; [done|]. unfold apply_events, latest in *. simpl. by rewrite IH, apply_event_lookup.
Qed.
Lemma latest_quiet n es old : Forall (fun e => event_name e <> n) es -> latest n es old = old.
Proof. intros H. unfold latest. induction H as [|e es He _ IH] in old |- *; simpl; [done|]. by rewrite decide_False. Qed.
Lemma apply_events_app es es' m : apply_events (es ++ es') m = apply_events es' (apply_events es m).
Proof. apply foldl_app. Qed.

(** Listing: the objects of a bucket after a marker whose key matches the prefix,
    in key order, cut to a page. *)
Section listing_spec.
Context `{PG : !Postgres}.

Definition listed (bucket prefix startAfter : string) (o : Object) : Prop :=
  o_Bucket o = bucket /\ text_lt startAfter (o_Key o) /\ text_like (o_Key o) (prefix +:+ "%") = true.
#[export] Instance listed_dec b p s o : Decision (listed b p s o).
Proof. unfold listed, text_lt. apply _. Defined.
Definition object_le (x y : Object) : Prop := text_le (o_Key x) (o_Key y).
#[export] Instance object_le_dec : RelDecision object_le.
Proof. intros x y. unfold object_le. apply _. Defined.
Definition matches (m : namespace) (bucket prefix startAfter : string) : list Object :=
  merge_sort object_le (filter (listed bucket prefix startAfter) (map_to_list m).*2).
Definition list_names (m : namespace) (bucket prefix startAfter : string) (limit : Z) : list Object * bool :=
  let all := matches m bucket prefix startAfter in
  (take (Z.to_nat (clamp_limit limit)) all, bool_decide (clamp_limit limit < Z.of_nat (length all))%Z).
End listing_spec.

(** ** The contract *)

(** [os_effect] says which events a legal action may have in a state. *)
Class ObjectStore `{PG : !Postgres} (St Act : Type) := {
  os_ok : St -> Prop;
  os_legal : Act -> Prop;
  os_run : Act -> St -> St;
  os_names : St -> namespace;
  os_effect : Act -> St -> list event -> Prop;
  os_read : string -> string -> St -> option Object;
  os_list : string -> string -> string -> Z -> St -> option (list Object * bool);
  os_step : forall a s, os_legal a -> os_ok s ->
    os_ok (os_run a s) /\ exists es, os_effect a s es /\ os_names (os_run a s) = apply_events es (os_names s);
  os_read_spec : forall b k s, os_ok s -> os_read b k s = os_names s !! (b, k);
  os_list_spec : forall b p a l s, os_ok s -> os_list b p a l s = Some (list_names (os_names s) b p a l)
}.

(** What a client may rely on, for every implementation. *)
Section client.
Context `{PG : !Postgres, OS : !ObjectStore St Act}.

Definition os_run_all (acts : list Act) (s : St) : St := foldl (fun s a => os_run a s) s acts.

(** The events of a run, action by action. *)
Inductive run_events : list Act -> St -> list event -> Prop :=
  | run_nil s : run_events [] s []
  | run_cons a acts s es es' : os_effect a s es -> run_events acts (os_run a s) es' -> run_events (a :: acts) s (es ++ es').

Lemma os_run_ok acts s : Forall os_legal acts -> os_ok s -> os_ok (os_run_all acts s).
Proof.
  intros Hl. revert s. induction Hl as [|a acts Ha _ IH]; intros s Hs; [done|]. simpl. apply IH. by apply os_step.
Qed.

(** A read returns what the last event of the name left. *)
Lemma last_event_wins acts s : Forall os_legal acts -> os_ok s ->
  exists es, run_events acts s es /\ os_names (os_run_all acts s) = apply_events es (os_names s) /\
    forall b k, os_read b k (os_run_all acts s) = latest (b, k) es (os_read b k s).
Proof.
  intros Hl Hs.
  assert (exists es, run_events acts s es /\ os_names (os_run_all acts s) = apply_events es (os_names s)) as (es&Hr&Hn).
  { revert s Hs. induction Hl as [|a acts Ha _ IH]; intros s Hs; [exists []; split; [constructor|done]|].
    destruct (os_step a s Ha Hs) as (Hok&es&He&Hn). destruct (IH _ Hok) as (es'&Hr&Hn').
    exists (es ++ es'). split; [by constructor|]. simpl. by rewrite Hn', Hn, apply_events_app. }
  exists es. split; [done|]. split; [done|]. intros b k.
  rewrite !os_read_spec, Hn, apply_events_lookup by (done || by apply os_run_ok). done.
Qed.

(** A name no event is about reads as before. *)
Lemma quiet_name_unchanged acts s b k : Forall os_legal acts -> os_ok s ->
  (forall es, run_events acts s es -> Forall (fun e => event_name e <> (b, k)) es) ->
  os_read b k (os_run_all acts s) = os_read b k s.
Proof.
  intros Hl Hs Hq. destruct (last_event_wins acts s Hl Hs) as (es&Hr&_&Hread). rewrite Hread. by apply latest_quiet, Hq.
Qed.

(** A client that lists and reads sees one map: what a page shows is what a read
    of the same name returns. *)
Lemma listed_is_read b p a l s out t o : os_ok s -> os_list b p a l s = Some (out, t) -> o ∈ out ->
  (forall n x, os_names s !! n = Some x -> name_of x = n) -> os_read b (o_Key o) s = Some o.
Proof.
  intros Hs Hl Hin Hnames. rewrite os_list_spec in Hl by done. injection Hl as <- _.
  apply elem_of_take in Hin as (i&Hi&_). apply list_elem_of_lookup_2 in Hi. unfold matches in Hi.
  rewrite merge_sort_Permutation in Hi. apply list_elem_of_filter in Hi as [(Hb&_&_) Hi].
  apply list_elem_of_fmap in Hi as ([n x]&->&Hx%elem_of_map_to_list). simpl in *.
  rewrite os_read_spec by done. rewrite <-Hb. change (os_names s !! name_of x = Some x). by rewrite (Hnames _ _ Hx).
Qed.
End client.

(** ** The metadata store *)

(** What a reader finds: the COMPLETE versions, by name. *)
Definition complete_rows (d : db) : list (N * object_row) := rows_where (fun _ r => ob_state r = ObjectComplete) (objects d).
Definition namespace_of (d : db) : namespace :=
  list_to_map ((fun kv => ((ob_bucket kv.2, ob_key kv.2), scanObject kv.1 kv.2)) <$> complete_rows d).

Section store.
Context `{PG : !Postgres} (sha256 : string -> string).

Lemma namespace_of_lookup d b k x : schema_ok d ->
  namespace_of d !! (b, k) = Some x <-> exists o r, objects d !! o = Some r /\ is_current b k r /\ x = scanObject o r.
Proof.
  intros Hs. unfold namespace_of. rewrite <-elem_of_list_to_map.
  - rewrite list_elem_of_fmap. split.
    + intros ([o r]&[= -> -> ->]&Hin). apply elem_of_rows_where in Hin as [Ho Hst]. by exists o, r.
    + intros (o&r&Ho&(<-&<-&Hst)&->). exists (o, r). split; [done|]. by apply elem_of_rows_where.
  - rewrite <-list_fmap_compose. apply NoDup_fmap_2_strong; [|by apply (NoDup_fmap_1 fst), NoDup_rows_where].
    intros [o1 r1] [o2 r2] [H1 Hc1]%elem_of_rows_where [H2 Hc2]%elem_of_rows_where E. simpl in E.
    assert (o1 = o2) as <-.
    { by apply (proj1 (unique_on_spec _ _ _) (so_current _ Hs) _ r1 _ r2). }
    congruence.
Qed.

(** The names are the ones in the objects. *)
Lemma namespace_of_names d n x : schema_ok d -> namespace_of d !! n = Some x -> name_of x = n.
Proof. destruct n as [b k]. intros Hs (o&r&_&(<-&<-&_)&->)%namespace_of_lookup; done. Qed.

Lemma namespace_of_head d b k : schema_ok d ->
  namespace_of d !! (b, k) = match (HeadObject b k d).1 with Ok o => Some o | Err _ => None end.
Proof.
  intros Hs. pose proof (HeadObject_spec b k d Hs) as H. destruct (HeadObject b k d) as [[x|e] d']; simpl.
  - destruct H as (_&r&Hr&Hc&->). apply namespace_of_lookup; [done|]. by exists (o_ID x), r.
  - destruct H as (_&_&Hno). apply eq_None_not_Some. intros [y (o&r&Ho&Hc&_)%namespace_of_lookup]; [|done]. by apply (Hno o r).
Qed.

Lemma namespace_of_same d d' b k : schema_ok d -> schema_ok d' -> same_current b k d d' ->
  namespace_of d' !! (b, k) = namespace_of d !! (b, k).
Proof. intros Hs Hs' Hv. rewrite !namespace_of_head by done. by rewrite (same_current_head b k d d'). Qed.

(** Publishing one name. *)
Lemma namespace_of_publish d d' o r x :
  schema_ok d -> schema_ok d' -> objects d' !! o = Some r -> ob_state r = ObjectComplete -> x = scanObject o r ->
  (forall b k, (b, k) <> (ob_bucket r, ob_key r) -> same_current b k d d') ->
  namespace_of d' = apply_event (namespace_of d) (Publish x).
Proof.
  intros Hs Hs' Ho Hst -> Hsame. apply map_eq. intros [b k]. rewrite apply_event_lookup. case_decide as Hn.
  - apply namespace_of_lookup; [done|]. exists o, r. injection Hn as <- <-. done.
  - apply namespace_of_same; [done|done|]. apply Hsame. intros E. by apply Hn.
Qed.

(** The events of a call. *)
Definition call_effect (c : call) (d : db) (es : list event) : Prop :=
  match c with
  | C_CompleteUpload now o size cnt etag =>
      match (CompleteUpload now o size cnt etag d).1 with
      | Ok x => es = [Publish x] /\ o_ID x = o /\ o_SizeBytes x = size /\ o_ETag x = etag
      | Err _ => es = []
      end
  | C_CompleteMultipartUpload fresh now u expected =>
      match (CompleteMultipartUpload sha256 fresh now u expected d).1 with
      | Ok x => es = [Publish x] /\ o_ID x = fresh
      | Err _ => es = []
      end
  | C_DeleteObject now b k => match (DeleteObject now b k d).1 with Ok _ => es = [Withdraw b k] | Err _ => es = [] end
  | _ => es = []
  end.

Lemma CompleteUpload_published_row now o size cnt etag d x d' :
  CompleteUpload now o size cnt etag d = (Ok x, d') ->
  exists r, objects d !! o = Some r /\ x = scanObject o (complete_row now size cnt etag r) /\
    objects d' !! o = Some (complete_row now size cnt etag r).
Proof.
  intros Hrun. unfold CompleteUpload, inTx in Hrun.
  destruct (CompleteUpload_tx now o size cnt etag d) as [[y d1]|] eqn:E; [|done]. injection Hrun as -> ->.
  unfold CompleteUpload_tx in E. apply tx_bind_ok in E as (row&d1&[-> ->]%gets_ok&E).
  destruct (objects d !! o) as [r|] eqn:Ho; [|by tx_inv E].
  apply tx_bind_ok in E as ([]&d1&[_ ->]%require_ok&E).
  do 2 apply tx_bind_ok in E as (?&d1&[-> ->]%gets_ok&E).
  apply tx_bind_ok in E as ([]&d1&[_ ->]%require_ok&E).
  apply tx_bind_ok in E as ([]&d1&Hs&E).
  apply tx_bind_ok in E as (n&d2&[_ Hu]%update_objects_ok&[-> ->]%tx_ret_ok).
  assert (view_of d o d1) as [_ Ho1] by (eapply view_supersede; [|exact Hs]; done).
  exists r. split_and!; [done|done|]. rewrite Hu. simpl. rewrite lookup_update_where, Ho1, Ho. simpl. by rewrite decide_True.
Qed.

Lemma call_CompleteUpload now o size cnt etag d : schema_ok d ->
  exists es, call_effect (C_CompleteUpload now o size cnt etag) d es /\
    namespace_of (exec sha256 (C_CompleteUpload now o size cnt etag) d) = apply_events es (namespace_of d).
Proof.
  intros Hs. cbn [call_effect]. pose proof (exec_schema sha256 (C_CompleteUpload now o size cnt etag) d Hs) as Hs'. cbn [exec] in *.
  destruct (CompleteUpload now o size cnt etag d) as [[x|e] d'] eqn:E; simpl in *.
  - destruct (CompleteUpload_published_row _ _ _ _ _ _ _ _ E) as (r&Ho&->&Ho'). exists [Publish (scanObject o (complete_row now size cnt etag r))].
    split; [done|]. apply (namespace_of_publish d d' o _ _ Hs Hs' Ho'); [done|done|].
    intros b k Hne. unfold CompleteUpload, inTx in E. destruct (CompleteUpload_tx _ _ _ _ _ d) as [[y d1]|] eqn:Et; [|done].
    injection E as -> ->. eapply seen_CompleteUpload; [|by intros ? ? ?|exact Et]. intros r' Hr'. rewrite Ho in Hr'. injection Hr' as <-. naive_solver.
  - exists []. split; [done|]. by destruct (inTx_err _ _ _ _ E) as [-> _].
Qed.

Definition kept (m : gmap N object_row) (d : db) : Prop := objects d = m.
Lemma kept_put_replicas m : frames_replicas (kept m).
Proof. intros ts m' d u d' <- (_&_&->)%put_replicas_ok. unfold kept. by rewrite trigger_objects. Qed.
Lemma kept_put_deletions m : frames_deletions (kept m).
Proof. by intros m' d u d' Hd (_&->)%put_deletions_ok. Qed.
Lemma kept_sequences m : ignores_sequences (kept m).
Proof. by intros d x y z Hd. Qed.
#[local] Hint Resolve kept_put_replicas kept_put_deletions kept_sequences : frames.
Lemma kept_enqueue m now o : tx_keeps (kept m) (enqueueObjectChunkDeletions now o).
Proof. unfold enqueueObjectChunkDeletions, enqueue_deletions_for. preserve. Qed.

Lemma assembled_published fresh now u expected d x d' :
  CompleteMultipartUpload_tx sha256 fresh now u expected d = Ok (x, d') ->
  exists up r, multipart_uploads d !! u = Some up /\ ob_bucket r = mu_bucket up /\ ob_key r = mu_key up /\
    objects d' !! fresh = Some r /\ ob_state r = ObjectComplete /\ x = scanObject fresh r.
Proof.
  intros (up&etag&v&n&d1&d2&d3&d4&n4&Hu&_&_&Hins&Hrep&_&Hsup&Hpro&->&Hobj&_)%assembly_steps.
  apply insert_object_ok in Hins as [_ ->]. apply reparent_chunks_ok in Hrep as [_ ->].
  apply update_objects_ok in Hpro as [_ ->].
  assert (view_of (d <| objects := <[fresh:=assembled_row up v now]> (objects d) |>
    <| chunks := _ |>) fresh d3) as [_ Ho3] by (eapply view_supersede; [|exact Hsup]; done).
  eexists up, _. split; [done|]. rewrite Hobj. simpl. rewrite lookup_update_where, Ho3. simpl. rewrite lookup_insert_eq. simpl.
  rewrite decide_True by done. split; [|split; [|split; [reflexivity|done]]]; done.
Qed.

Lemma call_CompleteMultipartUpload fresh now u expected d : schema_ok d ->
  exists es, call_effect (C_CompleteMultipartUpload fresh now u expected) d es /\
    namespace_of (exec sha256 (C_CompleteMultipartUpload fresh now u expected) d) = apply_events es (namespace_of d).
Proof.
  intros Hs. cbn [call_effect]. pose proof (exec_schema sha256 (C_CompleteMultipartUpload fresh now u expected) d Hs) as Hs'. cbn [exec] in *.
  unfold CompleteMultipartUpload, inTx in *.
  destruct (CompleteMultipartUpload_tx sha256 fresh now u expected d) as [[x d']|e] eqn:E; simpl in *; [|by exists []].
  destruct (assembled_published _ _ _ _ _ _ _ E) as (up&r&Hu&Hb&Hk&Ho&Hst&->). exists [Publish (scanObject fresh r)].
  split; [done|]. apply (namespace_of_publish d d' fresh _ _ Hs Hs' Ho); [done|done|]. intros b k Hne.
  eapply seen_CompleteMultipartUpload; [|by intros ? ? ?|exact E]. intros up' Hup'. rewrite Hu in Hup'. injection Hup' as <-. congruence.
Qed.

Lemma DeleteObject_withdrawn now b k d y d' : DeleteObject now b k d = (Ok y, d') ->
  forall o r, objects d' !! o = Some r -> ~ is_current b k r.
Proof.
  intros E. unfold DeleteObject, inTx in E. destruct (tx_bind _ _ d) as [[z d1]|] eqn:Et; [|done]. injection E as -> ->.
  apply tx_bind_ok in Et as (m&d1&[-> ->]%gets_ok&Et). apply tx_bind_ok in Et as (n&d1&[_ Hu]%update_objects_ok&Et).
  assert (objects d' = objects d1) as ->.
  { destruct (find_row _ (objects d)) as [[i r]|]; [|by tx_inv Et].
    apply tx_bind_ok in Et as ([]&d2&Hq&[_ ->]%tx_ret_ok).
    exact (kept_enqueue (objects d1) _ _ _ _ _ eq_refl Hq). }
  rewrite Hu. simpl. intros o r (r0&Hr0&->)%lookup_update_where_Some. case_decide as Hc; [|done].
  by intros (_&_&?).
Qed.

Lemma call_DeleteObject now b k d : schema_ok d ->
  exists es, call_effect (C_DeleteObject now b k) d es /\
    namespace_of (exec sha256 (C_DeleteObject now b k) d) = apply_events es (namespace_of d).
Proof.
  intros Hs. cbn [call_effect]. pose proof (exec_schema sha256 (C_DeleteObject now b k) d Hs) as Hs'.
  assert (forall b' k', (b, k) <> (b', k') -> same_current b' k' d (exec sha256 (C_DeleteObject now b k) d)) as Hsame.
  { intros b' k' Hne. apply exec_same_current. intros [-> ->]. by apply Hne. }
  cbn [exec] in *. destruct (DeleteObject now b k d) as [[y|e] d'] eqn:E; simpl in *; cycle 1.
  { exists []. split; [done|]. by destruct (inTx_err _ _ _ _ E) as [-> _]. }
  exists [Withdraw b k]. split; [done|]. apply map_eq. intros [b' k'].
  change (apply_events [Withdraw b k] ?m) with (apply_event m (Withdraw b k)). rewrite apply_event_lookup.
  cbn [event_name event_value]. case_decide as Hn.
  - injection Hn as <- <-. apply eq_None_not_Some. intros [x (o&r&Ho&Hc&_)%namespace_of_lookup]; [|done].
    by apply (DeleteObject_withdrawn _ _ _ _ _ _ E o r).
  - by apply namespace_of_same, Hsame.
Qed.

(** A background call changes nothing a reader can see. *)
Lemma background_call_unseen c d : background_call c -> schema_ok d -> namespace_of (exec sha256 c d) = namespace_of d.
Proof.
  intros Hb Hs. apply map_eq. intros [b k]. apply namespace_of_same; [done|by apply exec_schema|].
  apply exec_same_current. destruct c; simpl in *; tauto.
Qed.

Lemma call_step c d : schema_ok d ->
  exists es, call_effect c d es /\ namespace_of (exec sha256 c d) = apply_events es (namespace_of d).
Proof.
  intros Hs.
  destruct c; try (exists []; split; [done|by apply background_call_unseen]).
  - by apply call_CompleteUpload.
  - by apply call_DeleteObject.
  - by apply call_CompleteMultipartUpload.
Qed.

#[local] Instance object_le_trans : Transitive object_le.
Proof. intros x y z. apply text_le_trans. Qed.
#[local] Instance object_le_total : Total object_le.
Proof. intros x y. apply text_le_total. Qed.
Lemma strictly_sorted_NoDup (l : list Object) : StronglySorted (fun x y => text_lt (o_Key x) (o_Key y)) l -> NoDup l.
Proof.
  induction 1 as [|x l _ IH Hall]; constructor; [|done]. intros Hin. rewrite Forall_forall in Hall. by destruct (Hall x Hin) as [_ []].
Qed.

(** Listings are a function of the namespace. *)
Lemma namespace_of_list d b p s limit : schema_ok d ->
  (ListObjects b p s limit d).1 = Ok (list_names (namespace_of d) b p s limit).
Proof.
  intros Hs. pose proof (listable_sorted d b p s Hs) as Hsort.
  assert (0 < clamp_limit limit <= 1000)%Z as Hcl by (unfold clamp_limit; case_bool_decide; lia).
  unfold ListObjects, inTx, tx_bind, gets, limit_rows. rewrite decide_False by lia. unfold tx_ret, list_names.
  set (rows := order_by key_le _) in *. cbv zeta. rewrite fmap_take.
  assert ((fun kv => scanObject kv.1 kv.2) <$> rows = matches (namespace_of d) b p s) as ->; cycle 1.
  { destruct (page_take (matches (namespace_of d) b p s) (clamp_limit limit)) as [Hout Htr]; [lia|]. cbv zeta in Hout, Htr.
    by rewrite Hout, Htr. }
  set (l := (fun kv => scanObject kv.1 kv.2) <$> rows).
  assert (StronglySorted (fun x y => text_lt (o_Key x) (o_Key y)) l) as Hl by by apply StronglySorted_fmap.
  assert (forall x, x ∈ l <-> x ∈ filter (listed b p s) (map_to_list (namespace_of d)).*2) as Hel.
  { intros x. unfold l. rewrite list_elem_of_filter, !list_elem_of_fmap. split.
    - intros ([i r]&->&Hin). unfold rows in Hin. rewrite order_by_perm in Hin. apply elem_of_rows_where in Hin as [Ho (Hb&Hst&Hlt&Hlike)].
      split; [done|]. exists ((ob_bucket r, ob_key r), scanObject i r). split; [done|]. apply elem_of_map_to_list.
      apply namespace_of_lookup; [done|]. by exists i, r.
    - intros ((Hb&Hlt&Hlike)&[[b' k'] y]&->&Hin%elem_of_map_to_list). apply namespace_of_lookup in Hin as (i&r&Ho&Hc&->); [|done].
      exists (i, r). split; [done|]. unfold rows. rewrite order_by_perm. apply elem_of_rows_where. destruct Hc as (?&?&?).
      split; [done|]. by split_and!. }
  assert (NoDup (filter (listed b p s) (map_to_list (namespace_of d)).*2)) as Hnd.
  { apply NoDup_filter, NoDup_fmap_2_strong; [|apply NoDup_map_to_list].
    intros [n1 x] [n2 y] Hx%elem_of_map_to_list Hy%elem_of_map_to_list E. simpl in E. subst y.
    by rewrite <-(namespace_of_names _ _ _ Hs Hx), <-(namespace_of_names _ _ _ Hs Hy). }
  apply StronglySorted_unique_strong with object_le.
  - intros x y Hx Hy Hxy Hyx.
    assert (y ∈ l) as Hy' by (apply Hel; unfold matches in Hy; by rewrite merge_sort_Permutation in Hy).
    apply list_elem_of_lookup in Hx as [i Hi]. apply list_elem_of_lookup in Hy' as [j Hj].
    assert (o_Key x = o_Key y) as Hk by by apply (anti_symm text_le).
    destruct (Nat.lt_trichotomy i j) as [Hij|[->|Hij]].
    + by destruct (StronglySorted_lookup _ l i j x y Hl Hij Hi Hj) as [_ []].
    + congruence.
    + by destruct (StronglySorted_lookup _ l j i y x Hl Hij Hj Hi) as [_ []].
  - eapply StronglySorted_weaken; [|exact Hl]. by intros x y [? _].
  - unfold matches. apply StronglySorted_merge_sort; apply _.
  - unfold matches. rewrite merge_sort_Permutation. apply NoDup_Permutation; [|done|done].
    by eapply strictly_sorted_NoDup.
Qed.
End store.

#[export] Instance metadata_store `{PG : !Postgres} (sha256 : string -> string) : ObjectStore db call.
Proof.
  refine {| os_ok := schema_ok;
            os_legal := fun _ => True;
            os_run := exec sha256;
            os_names := namespace_of;
            os_effect := call_effect sha256;
            os_read := fun b k d => match (HeadObject b k d).1 with Ok o => Some o | Err _ => None end;
            os_list := fun b p a l d => match (ListObjects b p a l d).1 with Ok page => Some page | Err _ => None end |}.
  - intros c d _ Hs. split; [by apply exec_schema|by apply call_step].
  - intros b k d Hs. by rewrite namespace_of_head.
  - intros b p a l d Hs. by rewrite namespace_of_list.
Defined.

(** ** The coordinator *)

Section system.
Context `{PG : !Postgres, UU : !Uuid, GM : !GoMath, GS : !GoSort, GR : !GoRange, FW : !FileWalk} (sha256 : string -> string).

Definition names (w : World) : namespace := namespace_of (sv_db (w_svc w)).

(** The events of an action, by its reply: a completed upload publishes what it
    reports, a deletion withdraws its name, everything else is silent. *)
Definition own_effect (a : action) (w : World) (es : list event) : Prop :=
  match a with
  | A_CompleteUpload e o size cnt etag =>
      match (CompleteUpload_rpc e o size cnt etag (w_svc w)).1 with
      | Ok reply => exists x, es = [Publish x] /\ reply = (uuid_String (o_ID x), o_ETag x, o_CompletedAt x) /\
                              uuid_Parse o = Some (o_ID x) /\ o_SizeBytes x = size /\ o_ETag x = etag
      | Err _ => es = []
      end
  | A_CompleteMultipartUpload e lock u parts =>
      match (CompleteMultipartUpload_rpc sha256 e lock u parts (w_svc w)).1 with
      | Ok reply => exists x, es = [Publish x] /\ reply = (uuid_String (o_ID x), o_ETag x, o_SizeBytes x)
      | Err _ => es = []
      end
  | A_DeleteObject e b k =>
      match (DeleteObject_rpc e b k (w_svc w)).1 with Ok _ => es = [Withdraw b k] | Err _ => es = [] end
  | A_Reconcile _ _ _ _ => False
  | _ => es = []
  end.

(** A reconciliation is silent itself; in it the other processes may act, and
    its events are theirs: those of the actions they do, in their order, where
    the reconciler waits for the inventory. *)
Inductive act_effect : action -> World -> list event -> Prop :=
  | effect_own a w es : own_effect a w es -> act_effect a w es
  | effect_alone e cfg owner net w : reconcile_interlude e cfg owner net w = None -> act_effect (A_Reconcile e cfg owner net) w []
  | effect_others e cfg owner net w v acts es : reconcile_interlude e cfg owner net w = Some v ->
      cn_meanwhile net v = serve_all sha256 acts v -> acts_effect acts v es -> act_effect (A_Reconcile e cfg owner net) w es
with acts_effect : list action -> World -> list event -> Prop :=
  | effects_none w : acts_effect [] w []
  | effects_next a acts w es es' : act_effect a w es -> acts_effect acts (serve sha256 a w) es' -> acts_effect (a :: acts) w (es ++ es').

(** The actions of a run: what happens in the middle of a reconciliation are
    such actions again, chosen by the state. *)
Definition reconciles (a : action) : Prop := match a with A_Reconcile _ _ _ _ => True | _ => False end.
Inductive legal : action -> Prop :=
  | legal_own a : ~ reconciles a -> legal a
  | legal_reconcile e cfg owner net (others : World -> list action) :
      (forall w, cn_meanwhile net w = serve_all sha256 (others w) w) -> (forall w a, a ∈ others w -> legal a) ->
      legal (A_Reconcile e cfg owner net).

Lemma db_refines_unseen d d' : db_refines (CL := background_calls) sha256 d d' -> schema_ok d -> namespace_of d' = namespace_of d.
Proof.
  induction 1 as [|d1 d2 d3 (c&Hb&_&->) _ IH]; intros Hs; [done|].
  rewrite IH by by apply exec_schema. by apply background_call_unseen.
Qed.

Lemma invalidateObject_db e b k s : sv_db (invalidateObject e b k s).2 = sv_db s.
Proof. unfold invalidateObject, sv_bind, cache_delete. by destruct (Cache_Delete _ _ _). Qed.
Lemma invalidateUpload_db e u s : sv_db (invalidateUpload e u s).2 = sv_db s.
Proof. unfold invalidateUpload, sv_bind, cache_delete. by destruct (Cache_Delete _ _ _). Qed.

Lemma CompleteUpload_events e o size cnt etag w : schema_ok (sv_db (w_svc w)) ->
  exists es, own_effect (A_CompleteUpload e o size cnt etag) w es /\
    names (serve sha256 (A_CompleteUpload e o size cnt etag) w) = apply_events es (names w).
Proof.
  intros Hs. cbn [own_effect serve]. unfold CompleteUpload_rpc, svc, names. destruct (uuid_Parse o) as [id|]; [|by exists []].
  destruct (call_CompleteUpload sha256 (e_dbnow e) id size cnt etag _ Hs) as (es&He&Hn). cbn [call_effect exec] in He, Hn.
  unfold sv_bind, store. destruct (CompleteUpload _ _ _ _ _ (sv_db (w_svc w))) as [[x|err] d'] eqn:E; cbn [fst snd] in *.
  - destruct He as (->&Hid&Hsz&Het). exists [Publish x].
    pose proof (invalidateObject_db e (o_Bucket x) (o_Key x) ((w_svc w) <| sv_db := d' |>)) as Hd.
    destruct (invalidateObject _ _ _ _) as [[] s']. cbn in Hd |- *. rewrite Hd. split; [|exact Hn]. exists x.
    split_and!; [done|done|by rewrite Hid|done|done].
  - exists []. subst es. destruct err; by split.
Qed.

Lemma loadUpload_db e id s : sv_db (loadUpload e id s).2 = sv_db s.
Proof.
  unfold loadUpload, sv_bind, cache_get, store, cacheUpload, sv_bind, cache_set. destruct (Cache_Get _ _ _ _ _) as [[c|err] c']; [done|]. cbn.
  pose proof (GetMultipartUpload_reads id (sv_db s)) as H. destruct (GetMultipartUpload id (sv_db s)) as [[u|err'] d']; cbn in *; [|done].
  by destruct (Cache_Set _ _ _ _ _ _).
Qed.

Lemma CompleteMultipartUpload_events e lock u parts w : schema_ok (sv_db (w_svc w)) ->
  exists es, own_effect (A_CompleteMultipartUpload e lock u parts) w es /\
    names (serve sha256 (A_CompleteMultipartUpload e lock u parts) w) = apply_events es (names w).
Proof.
  intros Hs. cbn [own_effect serve]. unfold CompleteMultipartUpload_rpc, svc, names. destruct (uuid_Parse u) as [id|]; [|by exists []].
  unfold sv_bind. pose proof (loadUpload_db e id (w_svc w)) as Hl. destruct (loadUpload e id (w_svc w)) as [[c|err] s1]; cbn [fst snd] in Hl;
    [|exists []; cbn; by rewrite Hl].
  assert (exists es,
    match (store (CompleteMultipartUpload sha256 (e_fresh e) (e_dbnow e) id parts) s1).1 with
    | Ok x => es = [Publish x] | Err _ => es = [] end /\
    namespace_of (sv_db (store (CompleteMultipartUpload sha256 (e_fresh e) (e_dbnow e) id parts) s1).2) =
    apply_events es (namespace_of (sv_db (w_svc w)))) as (es&He&Hn).
  { rewrite <-Hl in Hs |- *. destruct (call_CompleteMultipartUpload sha256 (e_fresh e) (e_dbnow e) id parts _ Hs) as (es&He&Hn).
    exists es. cbn [call_effect exec] in He, Hn. unfold store.
    destruct (CompleteMultipartUpload _ _ _ _ _ _) as [[x|err] d']; cbn [fst snd] in *; [by destruct He as [-> _]|done]. }
  destruct lock as [[]|]; try (by exists []; cbn; rewrite Hl);
    (destruct (store _ s1) as [[x|err] s2]; cbn [fst snd] in *; subst es; [|by exists []];
     exists [Publish x]; pose proof (invalidateObject_db e (o_Bucket x) (o_Key x) s2) as H2;
     destruct (invalidateObject _ _ _ s2) as [[] s3]; cbn [snd] in H2;
     pose proof (invalidateUpload_db e (uuid_String id) s3) as H3; destruct (invalidateUpload _ _ s3) as [[] s4]; cbn in *;
     rewrite H3, H2; split; [by exists x|done]).
Qed.

Lemma DeleteObject_events e b k w : schema_ok (sv_db (w_svc w)) ->
  exists es, own_effect (A_DeleteObject e b k) w es /\ names (serve sha256 (A_DeleteObject e b k) w) = apply_events es (names w).
Proof.
  intros Hs. cbn [own_effect serve]. unfold DeleteObject_rpc, svc, names. destruct (validateBucketKey b k) as [code|]; [by exists []|].
  destruct (call_DeleteObject sha256 (e_dbnow e) b k _ Hs) as (es&He&Hn). cbn [call_effect exec] in He, Hn.
  unfold sv_bind, store. destruct (DeleteObject _ _ _ (sv_db (w_svc w))) as [[x|err] d'] eqn:E; cbn [fst snd] in *.
  - subst es. exists [Withdraw b k].
    pose proof (invalidateObject_db e b k ((w_svc w) <| sv_db := d' |>)) as Hd.
    destruct (invalidateObject _ _ _ _) as [[] s']. cbn in Hd |- *. by rewrite Hd.
  - exists []. by subst es.
Qed.

Lemma own_step a w : ~ reconciles a -> schema_ok (sv_db (w_svc w)) ->
  exists es, own_effect a w es /\ names (serve sha256 a w) = apply_events es (names w).
Proof.
  intros Hr Hs.
  assert (~ publishing a -> act_benign (CL := background_calls) sha256 a -> names (serve sha256 a w) = names w) as Hquiet.
  { intros Hp Hb'. apply db_refines_unseen; [|done]. by apply (serve_refines (CL := background_calls) sha256). }
  destruct a; try (exists []; split; [done|by apply Hquiet; [intros []|]]).
  - by apply CompleteUpload_events.
  - by apply DeleteObject_events.
  - by apply CompleteMultipartUpload_events.
Qed.

(** A step of the system keeps the schema and has its events. *)
Definition steps (a : action) : Prop := forall w, schema_ok (sv_db (w_svc w)) ->
  schema_ok (sv_db (w_svc (serve sha256 a w))) /\
  exists es, act_effect a w es /\ names (serve sha256 a w) = apply_events es (names w).

Lemma steps_all acts : (forall a, a ∈ acts -> steps a) -> forall w, schema_ok (sv_db (w_svc w)) ->
  schema_ok (sv_db (w_svc (serve_all sha256 acts w))) /\
  exists es, acts_effect acts w es /\ names (serve_all sha256 acts w) = apply_events es (names w).
Proof.
  induction acts as [|a acts IH]; intros Hall w Hs; [split; [done|]; exists []; split; [constructor|done]|]. simpl.
  destruct (Hall a (list_elem_of_here _ _) w Hs) as (Hs1&es&He&Hn).
  destruct (IH (fun b Hb => Hall b (list_elem_of_further _ _ _ Hb)) (serve sha256 a w) Hs1) as (Hs2&es'&He'&Hn').
  split; [done|]. exists (es ++ es'). split; [by econstructor|]. by rewrite Hn', Hn, apply_events_app.
Qed.

Lemma act_step a : legal a -> steps a.
Proof.
  induction 1 as [a Hr|e cfg owner net others Hothers _ IH]; intros w Hs.
  - assert (act_benign (CL := any_call) sha256 a) as Hb by by destruct a.
    split; [exact (db_refines_schema sha256 _ _ (serve_refines (CL := any_call) sha256 a w (fun _ _ => I) Hb Hs) Hs)|].
    destruct (own_step a w Hr Hs) as (es&He&Hn). exists es. split; [by constructor|done].
  - pose proof (runOne_pauses (CL := background_calls) sha256 e cfg owner net w) as Hp. cbn [serve].
    destruct (reconcile_interlude e cfg owner net w) as [v|] eqn:Ev.
    + destruct Hp as [H1 H2]. pose proof (db_refines_schema sha256 _ _ H1 Hs) as Hv.
      destruct (steps_all (others v) (IH v) v Hv) as (Hs1&es&He&Hn). rewrite <-Hothers in Hs1, Hn.
      split; [exact (db_refines_schema sha256 _ _ H2 Hs1)|]. exists es. split; [by eapply effect_others|].
      unfold names in *. by rewrite (db_refines_unseen _ _ H2 Hs1), Hn, (db_refines_unseen _ _ H1 Hs).
    + split; [exact (db_refines_schema sha256 _ _ Hp Hs)|]. exists []. split; [by constructor|]. by apply db_refines_unseen.
Qed.
End system.

#[export] Instance coordinator `{PG : !Postgres, UU : !Uuid, GM : !GoMath, GS : !GoSort, GR : !GoRange, FW : !FileWalk}
    (sha256 : string -> string) : ObjectStore World action.
Proof.
  refine {| os_ok := fun w => schema_ok (sv_db (w_svc w));
            os_legal := legal sha256;
            os_run := serve sha256;
            os_names := names;
            os_effect := act_effect sha256;
            os_read := fun b k w => match (HeadObject b k (sv_db (w_svc w))).1 with Ok o => Some o | Err _ => None end;
            os_list := fun b p a l w => match (ListObjects b p a l (sv_db (w_svc w))).1 with Ok page => Some page | Err _ => None end |}.
  - intros a w Hl. by apply act_step.
  - intros b k w Hs. by rewrite <-namespace_of_head.
  - intros b p a l w Hs. by rewrite namespace_of_list.
Defined.

(** ** The RPCs that read *)

Section reads.
Context `{PG : !Postgres, UU : !Uuid}.

Lemma HeadObject_rpc_names b k w : schema_ok (sv_db (w_svc w)) -> validateBucketKey b k = None ->
  (HeadObject_rpc b k (w_svc w)).1 = match names w !! (b, k) with Some o => Ok (toProtoObject o) | None => Err NotFound end.
Proof.
  intros Hs Hv. unfold HeadObject_rpc, names. rewrite Hv, namespace_of_head by done. unfold sv_bind, store.
  pose proof (HeadObject_spec b k _ Hs) as H. destruct (HeadObject b k (sv_db (w_svc w))) as [[x|e] d']; [done|]. by destruct H as (_&->&_).
Qed.
Lemma ListObjects_rpc_names b p a l w : schema_ok (sv_db (w_svc w)) -> b <> EmptyString ->
  (ListObjects_rpc b p a l (w_svc w)).1 =
  Ok (toProtoObject <$> (list_names (names w) b p a l).1, (list_names (names w) b p a l).2).
Proof.
  intros Hs Hb. unfold ListObjects_rpc, names. apply String.eqb_neq in Hb as ->. unfold sv_bind, store.
  pose proof (namespace_of_list (sv_db (w_svc w)) b p a l Hs) as H. destruct (ListObjects b p a l (sv_db (w_svc w))) as [r d'].
  cbn [fst] in H. subst r. by destruct (list_names _ _ _ _ _).
Qed.
End reads.

(** C4: FlexStore is a map from names to objects. Take any sequence of requests
    and worker cycles, with any failures of nodes, network and cache. It has the
    effect of a sequence of events: an upload or multipart upload that is
    answered with success publishes exactly the object it reports, an answered
    deletion withdraws its name, and every other action - failed requests, reads,
    unfinished uploads, heartbeats, garbage collection, repair, trimming, health
    changes - has none. A reconciliation has none of its own either; while it
    waits for a node's inventory the other processes may run any such sequence,
    and its events are exactly those of that sequence. Afterwards a HEAD of any
    valid name answers with the object the last event of that name published, or
    NotFound, and a listing is the page that the map as a whole gives. *)
Theorem system_implements_namespace `{PG : !Postgres, UU : !Uuid, GM : !GoMath, GS : !GoSort, GR : !GoRange, FW : !FileWalk}
    (sha256 : string -> string) (acts : list action) (w : World) :
  Forall (legal sha256) acts -> schema_ok (sv_db (w_svc w)) ->
  let w' := serve_all sha256 acts w in
  exists es, run_events (OS := coordinator sha256) acts w es /\
    (forall b k, validateBucketKey b k = None ->
       (HeadObject_rpc b k (w_svc w')).1 =
       match latest (b, k) es (names w !! (b, k)) with Some o => Ok (toProtoObject o) | None => Err NotFound end) /\
    (forall b p a l, b <> EmptyString ->
       let page := list_names (apply_events es (names w)) b p a l in
       (ListObjects_rpc b p a l (w_svc w')).1 = Ok (toProtoObject <$> page.1, page.2)).
Proof.
  intros Hb Hs w'. pose proof (os_run_ok (OS := coordinator sha256) acts w Hb Hs) as Hs'. change (schema_ok (sv_db (w_svc w'))) in Hs'.
  destruct (last_event_wins (OS := coordinator sha256) acts w Hb Hs) as (es&Hr&Hn&_).
  change (names w' = apply_events es (names w)) in Hn. exists es. split; [done|]. split.
  - intros b k Hv. by rewrite HeadObject_rpc_names, Hn, apply_events_lookup.
  - intros b p a l Hne page. by rewrite ListObjects_rpc_names, Hn.
Qed.

(** While n1 is reconciled, the object is deleted. *)
Definition delete_meanwhile `{PG : !Postgres, UU : !Uuid, GM : !GoMath, GS : !GoSort, GR : !GoRange, FW : !FileWalk} : reconcile_net :=
  mkReconcileNet (mkFate true false no_faults 0 EmptyString) (fun _ => false) (fun _ => None)
    (serve_all (fun s => s) [A_DeleteObject (at_time 8 0) "photos" "cat.jpg"]) elements (fun _ => mkFate true false no_faults 0 EmptyString) false EmptyString.
Definition stored_then_deleted `{PG : !Postgres, UU : !Uuid, GM : !GoMath, GS : !GoSort, GR : !GoRange, FW : !FileWalk} : list action :=
  take 7 store_and_delete ++ [A_TriggerReconcile (at_time 7 0) "n1";
    A_Reconcile (at_time 8 0) (mkReconcileConfig true 5000000000 100 30000000000 60000000000 true) "c" delete_meanwhile].

Lemma system_implements_namespace_witness :
  let RE := run_events (OS := coordinator (PG := c_locale) (UU := canonical_uuid) (GM := sample_math)
    (GS := sort_by_insertion) (GR := range_by_key) (FW := walk_files) (fun s => s)) in
  let acts := stored_then_deleted (PG := c_locale) (UU := canonical_uuid) (GM := sample_math)
    (GS := sort_by_insertion) (GR := range_by_key) (FW := walk_files) in
  let w := mkWorld (new_service (Rendezvous DefaultConfig)) {[ "n1:7000" := ChunkStore.mkNode (mkStore true 0 0 0 0 0) (mkDisk ∅ ∅) ]} in
  (exists es x, RE (take 7 acts) w es /\ latest ("photos", "cat.jpg") es None = Some x /\ o_ETag x = "etag") /\
  (exists es, RE acts w es /\ latest ("photos", "cat.jpg") es None = None).
Proof.
  intros RE acts w.
  pose proof (system_implements_namespace (PG := c_locale) (UU := canonical_uuid) (GM := sample_math)
    (GS := sort_by_insertion) (GR := range_by_key) (FW := walk_files) (fun s => s)) as H.
  assert (schema_ok (sv_db (w_svc w))) as Hs by exact empty_db_schema.
  assert (forall a : action, ~ reconciles a -> legal (PG := c_locale) (UU := canonical_uuid) (GM := sample_math)
    (GS := sort_by_insertion) (GR := range_by_key) (FW := walk_files) (fun s => s) a) as Hown by (intros a; apply legal_own).
  split.
  - destruct (H (take 7 acts) w) as (es&Hr&Hh&_); [repeat constructor; intros []|exact Hs|].
    specialize (Hh "photos" "cat.jpg" ltac:(vm_compute; reflexivity)).
    change (names w !! ("photos", "cat.jpg")) with (@None Object) in Hh. set (rpc := (HeadObject_rpc _ _ _).1) in Hh.
    assert (match rpc with Ok m => om_Etag m = "etag" | Err _ => False end) as Hm by (vm_compute; reflexivity).
    exists es. destruct (latest ("photos", "cat.jpg") es None) as [x|]; [|rewrite Hh in Hm; destruct Hm].
    exists x. split; [exact Hr|]. split; [reflexivity|]. rewrite Hh in Hm. exact Hm.
  - destruct (H acts w) as (es&Hr&Hh&_); [|exact Hs|].
    { repeat (apply Forall_cons; split; [first [solve [apply Hown; intros []]|idtac]|]); [|apply Forall_nil; exact I].
      apply (legal_reconcile _ _ _ _ _ (fun _ => [A_DeleteObject (at_time 8 0) "photos" "cat.jpg"])); [reflexivity|].
      intros v a Ha. apply list_elem_of_singleton in Ha as ->. apply Hown. intros []. }
    specialize (Hh "photos" "cat.jpg" ltac:(vm_compute; reflexivity)).
    change (names w !! ("photos", "cat.jpg")) with (@None Object) in Hh. set (rpc := (HeadObject_rpc _ _ _).1) in Hh.
    assert (rpc = Err NotFound) as Hm by (vm_compute; reflexivity).
    exists es. split; [exact Hr|]. destruct (latest ("photos", "cat.jpg") es None) as [x|]; [|reflexivity]. rewrite Hm in Hh. discriminate Hh.
Defined.
