(* ===== verification/Staleness.v ===== *)
(** * How old an answer of the object cache can be

    GetObject answers from the cache of src/internal/coordinator/service.go when
    it finds an entry there. Whether invalidations arrive is up to the network:
    an entry can outlive the version it describes. The entries are followed here
    through every action of the coordinator. No action but GetObject writes one,
    so what a reader gets was read from the metadata store by an earlier
    GetObject, less than the configured time ago. *)

From stdpp Require Import base numbers gmap strings list sorting.
From S2P Require Import Prelude Chunking Checksum GoStrings RangeReq Download ChunkStore StorageService ChunkWriter.
From S2P Require Import GoFloat Placement Health Validate Uuid Cache.
From S2P Require Import Sql Schema Statements Chunks Frames Runs Deletions Objects Nodes Repair Gc Reconcile Multipart Store Trim.
From S2P Require Import Commit ChunkInv CompleteInv Reads RepairQueue RepairOps Coordinator Workers Reconciler Refinement.

(** ** Entries *)

Definition entry_of (c : Cache) (key : string) : option (cached * option Z) :=
  match c with Noop => None | Redis prefix entries => entries !! redis_key prefix key end.

Lemma visible_entry now c key v : visible now c key = Some v -> exists exp, entry_of c key = Some (v, exp) /\ (forall t, exp = Some t -> now < t)%Z.
Proof.
  destruct c as [|prefix m]; [done|]. simpl. unfold live_entry. destruct (m !! _) as [[v' [t|]]|]; [|intros [= ->]; by exists None|done].
  case_decide; [|done]. intros [= ->]. exists (Some t). split; [done|]. congruence.
Qed.
Lemma entry_get {A} (decode : cached -> option A) up now c key key' x :
  entry_of (Cache_Get decode up now c key).2 key' = Some x -> entry_of c key' = Some x.
Proof.
  destruct c as [|prefix m]; [done|]. simpl. destruct up; [|done]. simpl. destruct (live_entry _ _ _) as [v|]; [|done].
  destruct (decode v); [done|]. simpl. intros [_ H]%lookup_delete_Some. done.
Qed.
Lemma entry_delete up c key key' x : entry_of (Cache_Delete up c key).2 key' = Some x -> entry_of c key' = Some x.
Proof. destruct c as [|prefix m]; [done|]. simpl. destruct up; [|done]. simpl. intros [_ H]%lookup_delete_Some. done. Qed.
Lemma entry_set up now c key val ttl key' x : entry_of (Cache_Set up now c key val ttl).2 key' = Some x ->
  entry_of c key' = Some x \/ key' = key /\ x.1 = val /\ (0 < ttl -> x.2 = Some (now + lifetime ttl))%Z.
Proof.
  destruct c as [|prefix m]; [done|]. simpl. destruct up; [|by left]. simpl.
  intros [[E <-]|[_ H]]%lookup_insert_Some; [right|by left]. apply redis_key_inj in E. subst. split_and!; [done..|]. intros Ht.
  cbn [snd]. unfold set_expiry. by rewrite decide_True.
Qed.

(** ** Actions that write no object entry *)

Definition kept (s s' : Service) : Prop :=
  sv_cfg s' = sv_cfg s /\
  forall key o exp, entry_of (sv_cache s') key = Some (CachedObject o, exp) -> entry_of (sv_cache s) key = Some (CachedObject o, exp).
#[export] Instance kept_preorder : PreOrder kept.
Proof. split; [done|]. intros s1 s2 s3 [C1 E1] [C2 E2]. split; [congruence|auto]. Qed.
Definition sv_kept {A} (m : Sv A) : Prop := forall s, kept s (m s).2.
Definition wd_kept {A} (m : Wd A) : Prop := forall w, kept (w_svc w) (w_svc (m w).2).

Lemma sv_kept_ret {A} (a : A) : sv_kept (sv_ret a).
Proof. intros s. reflexivity. Qed.
Lemma sv_kept_bind {A B} (m : Sv A) (k : A -> Sv B) : sv_kept m -> (forall a, sv_kept (k a)) -> sv_kept (sv_bind m k).
Proof. intros Hm Hk s. specialize (Hm s). unfold sv_bind. destruct (m s) as [a s']. simpl in Hm. etrans; [exact Hm|]. apply Hk. Qed.
Lemma sv_kept_load {A} (f : db -> A) : sv_kept (load f).
Proof. intros s. reflexivity. Qed.
Lemma sv_kept_gets {A} (f : Service -> A) : sv_kept (sv_gets f).
Proof. intros s. reflexivity. Qed.
Lemma sv_kept_store {A} (op : Op db A) : sv_kept (store op).
Proof. intros s. unfold store. by destruct (op (sv_db s)). Qed.
Lemma sv_kept_observe e id addr : sv_kept (observe e id addr).
Proof. intros s. unfold observe. by destruct (Observe _ _ _ _ _ _ _ _). Qed.
Lemma sv_kept_cache_get {A} (decode : cached -> option A) e key : sv_kept (cache_get decode e key).
Proof.
  intros s. unfold cache_get. destruct (Cache_Get _ _ _ _ _) as [r c] eqn:E. split; [done|]. intros key' o exp H. simpl in H.
  apply (entry_get decode (e_redis e) (e_now e) (sv_cache s) key). by rewrite E.
Qed.
Lemma sv_kept_cache_delete e key : sv_kept (cache_delete e key).
Proof.
  intros s. unfold cache_delete. destruct (Cache_Delete _ _ _) as [r c] eqn:E. split; [done|]. intros key' o exp H. simpl in H.
  apply (entry_delete (e_redis e) (sv_cache s) key). by rewrite E.
Qed.
Lemma sv_kept_cache_set e key v ttl : as_object v = None -> sv_kept (cache_set e key v ttl).
Proof.
  intros Hv s. unfold cache_set. destruct (Cache_Set _ _ _ _ _ _) as [r c] eqn:E. split; [done|]. intros key' o exp H. simpl in H.
  assert (entry_of (Cache_Set (e_redis e) (e_now e) (sv_cache s) key v ttl).2 key' = Some (CachedObject o, exp)) as H' by (by rewrite E).
  apply entry_set in H' as [H'|[_ [Hx _]]]; [done|]. simpl in Hx. by subst v.
Qed.
Lemma wd_kept_ret {A} (a : A) : wd_kept (wd_ret a).
Proof. intros w. reflexivity. Qed.
Lemma wd_kept_bind {A B} (m : Wd A) (k : A -> Wd B) : wd_kept m -> (forall a, wd_kept (k a)) -> wd_kept (wd_bind m k).
Proof. intros Hm Hk w. specialize (Hm w). unfold wd_bind. destruct (m w) as [a w']. simpl in Hm. etrans; [exact Hm|]. apply Hk. Qed.
Lemma wd_kept_svc {A} (m : Sv A) : sv_kept m -> wd_kept (svc m).
Proof. intros Hm w. unfold svc. specialize (Hm (w_svc w)). by destruct (m (w_svc w)). Qed.
Lemma wd_kept_call_node {A} addr ft (f : node -> result Z A * node) : wd_kept (call_node addr ft f).
Proof.
  intros w. unfold call_node. destruct (w_nodes w !! addr); [|reflexivity]. destruct (negb _); [reflexivity|].
  destruct (f _). by destruct (ft_lost ft).
Qed.

Create HintDb kept discriminated.
#[export] Hint Constants Opaque : kept.
#[export] Hint Resolve sv_kept_ret sv_kept_load sv_kept_gets sv_kept_store sv_kept_observe sv_kept_cache_get
  sv_kept_cache_delete wd_kept_ret wd_kept_call_node : kept.
#[export] Hint Extern 1 (sv_kept (cache_set _ _ _ _)) => apply sv_kept_cache_set; reflexivity : kept.

Ltac keep_steps :=
  repeat first
  [ progress intros
  | progress cbv zeta
  | solve [eauto 2 with kept nocore]
  | apply sv_kept_bind
  | apply wd_kept_bind
  | apply wd_kept_svc
  | match goal with
    | |- sv_kept (if ?c then _ else _) => destruct c
    | |- wd_kept (if ?c then _ else _) => destruct c
    | |- sv_kept match ?c with _ => _ end => destruct c
    | |- wd_kept match ?c with _ => _ end => destruct c
    end ].

Section handlers.
Context `{PG : !Postgres, UU : !Uuid, GM : !GoMath, GS : !GoSort, GR : !GoRange, FW : !FileWalk} (sha256 : string -> string).

Lemma kept_invalidateNodeCache e : sv_kept (invalidateNodeCache e).
Proof. unfold invalidateNodeCache. keep_steps. Qed.
Lemma kept_invalidateObject e b k : sv_kept (invalidateObject e b k).
Proof. unfold invalidateObject. keep_steps. Qed.
Lemma kept_invalidateUpload e u : sv_kept (invalidateUpload e u).
Proof. unfold invalidateUpload. keep_steps. Qed.
#[local] Hint Resolve kept_invalidateNodeCache kept_invalidateObject kept_invalidateUpload : kept.
Lemma kept_invalidateChunkOwnerCache e c : sv_kept (invalidateChunkOwnerCache e c).
Proof. unfold invalidateChunkOwnerCache. keep_steps. Qed.
Lemma kept_OnNodeRecovered e : sv_kept (OnNodeRecovered e).
Proof. unfold OnNodeRecovered. keep_steps. Qed.
#[local] Hint Resolve kept_invalidateChunkOwnerCache kept_OnNodeRecovered : kept.
Lemma kept_onNodeRejoined e n : sv_kept (onNodeRejoined e n).
Proof. unfold onNodeRejoined. keep_steps. Qed.
#[local] Hint Resolve kept_onNodeRejoined : kept.
Lemma kept_onTransition e t : sv_kept (onTransition e t).
Proof. unfold onTransition. keep_steps. Qed.
#[local] Hint Resolve kept_onTransition : kept.
Lemma kept_healthyNodes e : sv_kept (healthyNodes e).
Proof. unfold healthyNodes. keep_steps. Qed.
Lemma kept_select_nodes ns req : sv_kept (select_nodes ns req).
Proof. intros s. unfold select_nodes. destruct (SelectNodes _ _ _) as [[]|]; by split. Qed.
#[local] Hint Resolve kept_healthyNodes kept_select_nodes : kept.
Lemma kept_RegisterNode e id a st : sv_kept (RegisterNode e id a st).
Proof. unfold RegisterNode, refuse, answer, heartbeat_ms. keep_steps. Qed.
Lemma kept_Heartbeat e id a st : sv_kept (Heartbeat e id a st).
Proof. unfold Heartbeat, refuse, answer, heartbeat_ms. keep_steps. Qed.
Lemma kept_BeginUpload e b k ct cs : sv_kept (BeginUpload_rpc e b k ct cs).
Proof. unfold BeginUpload_rpc, refuse, answer. keep_steps. Qed.
Lemma kept_AllocateChunk e o p i s : sv_kept (AllocateChunk_rpc e o p i s).
Proof. unfold AllocateChunk_rpc, refuse, answer. keep_steps. Qed.
Lemma kept_CommitChunk e c h s ok ko : sv_kept (CommitChunk_rpc e c h s ok ko).
Proof. unfold CommitChunk_rpc, refuse, answer. keep_steps. Qed.
Lemma kept_CompleteUpload e o s n t : sv_kept (CompleteUpload_rpc e o s n t).
Proof. unfold CompleteUpload_rpc, refuse, answer. keep_steps. Qed.
Lemma kept_AbortUpload e o r : sv_kept (AbortUpload_rpc e o r).
Proof. unfold AbortUpload_rpc, refuse, answer. keep_steps. Qed.
Lemma kept_HeadObject b k : sv_kept (HeadObject_rpc b k).
Proof. unfold HeadObject_rpc, refuse, answer. keep_steps. Qed.
Lemma kept_DeleteObject e b k : sv_kept (DeleteObject_rpc e b k).
Proof. unfold DeleteObject_rpc, refuse, answer. keep_steps. Qed.
Lemma kept_ListObjects b p s l : sv_kept (ListObjects_rpc b p s l).
Proof. unfold ListObjects_rpc, refuse, answer. keep_steps. Qed.
Lemma kept_ListNodes h : sv_kept (ListNodes_rpc h).
Proof. unfold ListNodes_rpc, refuse, answer. keep_steps. Qed.
Lemma kept_GetClusterStatus  : sv_kept (GetClusterStatus).
Proof. unfold GetClusterStatus, refuse, answer. keep_steps. Qed.
Lemma kept_GetReplicationStatus n : sv_kept (GetReplicationStatus n).
Proof. unfold GetReplicationStatus, refuse, answer. keep_steps. Qed.
Lemma kept_GetObjectLayout b k : sv_kept (GetObjectLayout b k).
Proof. unfold GetObjectLayout, refuse, answer. keep_steps. Qed.
Lemma kept_ReportCorruptReplica e c n d : sv_kept (ReportCorruptReplica e c n d).
Proof. unfold ReportCorruptReplica, refuse, answer. keep_steps. Qed.
Lemma kept_enqueue_all e ids acc : sv_kept (enqueue_all e ids acc).
Proof. revert acc. induction ids; intros acc; simpl; unfold refuse, answer; keep_steps. Qed.
#[local] Hint Resolve kept_enqueue_all : kept.
Lemma kept_TriggerReconcile e n : sv_kept (TriggerReconcile e n).
Proof. unfold TriggerReconcile, refuse, answer. keep_steps. Qed.
Lemma kept_cacheUpload e u : sv_kept (cacheUpload e u).
Proof. unfold cacheUpload. keep_steps. Qed.
#[local] Hint Resolve kept_cacheUpload : kept.
Lemma kept_loadUpload e u : sv_kept (loadUpload e u).
Proof. unfold loadUpload. keep_steps. Qed.
#[local] Hint Resolve kept_loadUpload : kept.
Lemma kept_CreateMultipartUpload e b k ct cs : sv_kept (CreateMultipartUpload_rpc e b k ct cs).
Proof. unfold CreateMultipartUpload_rpc, refuse, answer. keep_steps. Qed.
Lemma kept_BeginPart e u n : sv_kept (BeginPart_rpc e u n).
Proof. unfold BeginPart_rpc, refuse, answer. keep_steps. Qed.
Lemma kept_CompletePart e p s n t : sv_kept (CompletePart_rpc e p s n t).
Proof. unfold CompletePart_rpc, refuse, answer. keep_steps. Qed.
Lemma kept_CompleteMultipartUpload e l u ps : sv_kept (CompleteMultipartUpload_rpc sha256 e l u ps).
Proof. unfold CompleteMultipartUpload_rpc, refuse, answer. keep_steps. Qed.
Lemma kept_AbortMultipartUpload e u : sv_kept (AbortMultipartUpload_rpc e u).
Proof. unfold AbortMultipartUpload_rpc, refuse, answer. keep_steps. Qed.

Lemma kept_deleteOne ft job : wd_kept (deleteOne ft job).
Proof. unfold deleteOne. keep_steps. Qed.
#[local] Hint Resolve kept_deleteOne : kept.
Lemma kept_process_jobs e i stop fates jobs : wd_kept (process_jobs e i stop fates jobs).
Proof. induction jobs; cbn [process_jobs]; keep_steps. Qed.
#[local] Hint Resolve kept_process_jobs : kept.
Lemma kept_processDeletions e i b stop fates : wd_kept (processDeletions e i b stop fates).
Proof. unfold processDeletions. keep_steps. Qed.
#[local] Hint Resolve kept_processDeletions : kept.
Lemma kept_GC_cycle e i b stop fates : wd_kept (GC_cycle e i b stop fates).
Proof. unfold GC_cycle. keep_steps. Qed.
Lemma kept_rehydrate_nodes e nodes : sv_kept (rehydrate_nodes e nodes).
Proof. induction nodes as [|n nodes IH]; simpl; [keep_steps|]. apply sv_kept_bind; [intros s; by split|]. keep_steps. Qed.
#[local] Hint Resolve kept_rehydrate_nodes : kept.
Lemma kept_Rehydrate e : sv_kept (Rehydrate e).
Proof. unfold Rehydrate. keep_steps. Qed.
Lemma kept_on_transitions e ts : sv_kept (on_transitions e ts).
Proof. induction ts; simpl; keep_steps. Qed.
Lemma kept_health_sweep e : sv_kept (health_sweep e).
Proof.
  intros s. unfold health_sweep. destruct (Sweep _ _ _) as [ts m]. transitivity (s <| sv_monitor := m |>); [done|]. apply kept_on_transitions.
Qed.
Lemma kept_pull_stream net a i c : wd_kept (pull_stream net a i c).
Proof.
  intros w. unfold pull_stream. destruct (w_nodes w !! a); [|reflexivity].
  destruct (rn_source net) as [[]|]; [|reflexivity]. destruct (ReadChunk _ _ _ _ _) as [[]]. reflexivity.
Qed.
Lemma kept_replicate_call net a i s c z : wd_kept (replicate_call net a i s c z).
Proof.
  intros w. unfold replicate_call. destruct (w_nodes w !! a); [|reflexivity]. destruct (negb _); [reflexivity|].
  pose proof (kept_pull_stream net s i c w) as H. destruct (pull_stream net s i c w) as [p w']. simpl in H.
  etrans; [exact H|]. apply wd_kept_call_node.
Qed.
#[local] Hint Resolve kept_replicate_call : kept.
Lemma kept_reportPhantomSource e net c s : wd_kept (reportPhantomSource e net c s).
Proof. unfold reportPhantomSource, check_call. keep_steps. Qed.
Lemma kept_pickDestination e cfg t : sv_kept (pickDestination e cfg t).
Proof. unfold pickDestination. keep_steps. intros s. by split. Qed.
Lemma kept_release_slot k : sv_kept (release_slot k).
Proof. intros s. by split. Qed.
#[local] Hint Resolve kept_reportPhantomSource kept_pickDestination kept_release_slot : kept.
Lemma kept_copy_to e net t s d : wd_kept (copy_to e net t s d).
Proof. unfold copy_to, check_call. keep_steps. Qed.
#[local] Hint Resolve kept_copy_to : kept.
Lemma kept_executeRepair e cfg net t : wd_kept (executeRepair e cfg net t).
Proof. unfold executeRepair. keep_steps. Qed.
#[local] Hint Resolve kept_executeRepair : kept.
Lemma kept_claimAndRepair e cfg o net : wd_kept (claimAndRepair e cfg o net).
Proof. unfold claimAndRepair. keep_steps. Qed.
Lemma kept_audit_once : sv_kept audit_once.
Proof. unfold audit_once. keep_steps. Qed.
Lemma kept_scanOnce e cfg : sv_kept (scanOnce e cfg).
Proof. unfold scanOnce. keep_steps. Qed.
Lemma kept_queue_orphans e known n ids res : wd_kept (queue_orphans e known n ids res).
Proof. revert res. induction ids; intros res; simpl; keep_steps. Qed.
#[local] Hint Resolve kept_queue_orphans : kept.
Lemma kept_settle_replica e cfg net job od rep res : wd_kept (settle_replica e cfg net job od rep res).
Proof. unfold settle_replica, verifyReplica, check_call. keep_steps. Qed.
#[local] Hint Resolve kept_settle_replica : kept.
Lemma kept_settle_page e cfg net job od reps res : wd_kept (settle_page e cfg net job od reps res).
Proof. revert res. induction reps; intros res; simpl; keep_steps. Qed.
#[local] Hint Resolve kept_settle_page : kept.
Lemma kept_settle_pages fuel e cfg net job od after res : wd_kept (settle_pages fuel e cfg net job od after res).
Proof. revert after res. induction fuel; intros after res; simpl; keep_steps. Qed.
#[local] Hint Resolve kept_settle_pages : kept.

(** What the other processes do between two pages of a reconciliation; a request
    they serve there is an action of its own. *)
Definition quiet_net (net : reconcile_net) : Prop := forall w, kept (w_svc w) (w_svc (cn_meanwhile net w)).
Lemma kept_reconcileNode e cfg net job : quiet_net net -> wd_kept (reconcileNode e cfg net job).
Proof. intros Hb. unfold reconcileNode, list_call. keep_steps. Qed.
Lemma kept_runOne e cfg o net : quiet_net net -> wd_kept (runOne e cfg o net).
Proof. intros Hb. pose proof (fun job => kept_reconcileNode e cfg net job Hb). unfold runOne. keep_steps. Qed.
Lemma kept_enqueue_stale e ns : sv_kept (enqueue_stale e ns).
Proof. induction ns; simpl; keep_steps. Qed.
#[local] Hint Resolve kept_enqueue_stale : kept.
Lemma kept_sweepStaleNodes e : sv_kept (sweepStaleNodes e).
Proof. unfold sweepStaleNodes. keep_steps. Qed.
End handlers.

(** ** Runs *)

Section runs.
Context `{PG : !Postgres, UU : !Uuid, GM : !GoMath, GS : !GoSort, GR : !GoRange, FW : !FileWalk} (sha256 : string -> string).

Definition quiet (a : action) : Prop := match a with A_Reconcile _ _ _ net => quiet_net net | _ => True end.
Definition is_read (a : action) : bool := match a with A_GetObject _ _ _ => true | _ => false end.

Lemma serve_kept a w : quiet a -> is_read a = false -> kept (w_svc w) (w_svc (serve sha256 a w)).
Proof.
  intros Hq Hr. destruct a; try discriminate Hr; simpl;
    first [ reflexivity
          | apply kept_GC_cycle | apply kept_claimAndRepair | by apply kept_runOne
          | apply wd_kept_svc;
            first [ apply kept_RegisterNode | apply kept_Heartbeat | apply kept_BeginUpload
                  | apply kept_AllocateChunk | apply kept_CommitChunk | apply kept_CompleteUpload
                  | apply kept_AbortUpload | apply kept_HeadObject
                  | apply kept_DeleteObject | apply kept_ListObjects | apply kept_ListNodes
                  | apply kept_GetClusterStatus | apply kept_GetObjectLayout | apply kept_GetReplicationStatus
                  | apply kept_ReportCorruptReplica | apply kept_TriggerReconcile
                  | apply kept_CreateMultipartUpload | apply kept_BeginPart | apply kept_CompletePart
                  | apply kept_CompleteMultipartUpload | apply kept_AbortMultipartUpload
                  | apply kept_Rehydrate | apply kept_health_sweep | apply kept_scanOnce | apply kept_audit_once
                  | apply kept_sweepStaleNodes | apply sv_kept_store ] ].
Qed.

(** What the metadata store answers about a name. *)
Definition current (d : db) (b k : string) (resp : LayoutMsg) : Prop :=
  exists obj cs, (GetObject b k d).1 = Ok (obj, cs) /\ resp = mkLayoutMsg (toProtoObject obj) (toPlacementMsg <$> cs).

(** One read: its answer is current, or the content of a live entry; and it adds
    at most the entry of what is current. *)
Lemma GetObject_rpc_cache e b k s :
  let '(r, s') := GetObject_rpc e b k s in
  sv_cfg s' = sv_cfg s /\
  (forall key o exp, entry_of (sv_cache s') key = Some (CachedObject o, exp) ->
     entry_of (sv_cache s) key = Some (CachedObject o, exp) \/
     exists resp, key = ObjectKey b k /\ validateBucketKey b k = None /\ current (sv_db s) b k resp /\ o = newCachedObject resp /\
       (0 < cfg_ObjectCacheTTL (sv_cfg s) -> exp = Some (e_now e + lifetime (cfg_ObjectCacheTTL (sv_cfg s))))%Z) /\
  (forall resp, r = Ok resp -> validateBucketKey b k = None /\
     (current (sv_db s) b k resp \/
      exists o exp, entry_of (sv_cache s) (ObjectKey b k) = Some (CachedObject o, exp) /\ (forall t, exp = Some t -> e_now e < t)%Z /\
        resp = toProto o)).
Proof.
  unfold GetObject_rpc. destruct (validateBucketKey b k) eqn:Hv; [simpl; split_and!; [done|by left|done]|].
  unfold sv_bind at 1. pose proof (sv_kept_cache_get as_object e (ObjectKey b k) s) as [Hcfg Hent].
  unfold cache_get in *. destruct (Cache_Get as_object (e_redis e) (e_now e) (sv_cache s) (ObjectKey b k)) as [r c] eqn:E. simpl in Hcfg, Hent.
  destruct r as [o|err].
  { apply Cache_Get_ok in E as [-> (v&Hvis&Hd)]. destruct v as [o'| |]; try done. injection Hd as ->. simpl.
    split_and!; [done|by left|]. intros resp [= <-]. split; [done|]. right.
    destruct (visible_entry _ _ _ _ Hvis) as (exp&He&Ht). by exists o, exp. }
  unfold sv_bind at 1, store. cbn [sv_db]. pose proof (GetObject_reads b k (sv_db s)) as Hread.
  destruct (GetObject b k (sv_db s)) as [r d] eqn:Eg. simpl in Hread. subst d.
  destruct r as [[obj cs]|err2]; cbn; rewrite Eg; cbn; [|split_and!; [done|intros; left; by apply Hent|done]].
  set (resp := mkLayoutMsg (toProtoObject obj) (toPlacementMsg <$> cs)). set (ttl := cfg_ObjectCacheTTL (sv_cfg s)).
  assert (current (sv_db s) b k resp) as Hcur by (exists obj, cs; by rewrite Eg).
  unfold sv_bind, cache_set. cbn [sv_cache sv_gets]. cbn.
  destruct (Cache_Set (e_redis e) (e_now e) c (ObjectKey b k) (CachedObject (newCachedObject resp)) ttl) as [r c'] eqn:Es. cbn.
  split_and!; [done| |by intros resp' [= <-]; auto]. intros key o exp He.
  assert (entry_of (Cache_Set (e_redis e) (e_now e) c (ObjectKey b k) (CachedObject (newCachedObject resp)) ttl).2 key = Some (CachedObject o, exp)) as He'
    by (by rewrite Es).
  apply entry_set in He' as [He'|(->&[= ->]&Hexp)]; [left; by apply Hent|right]. by exists resp.
Qed.

(** An entry tells the read that made it. *)
Definition dated (acts : list action) (w : World) (key : string) (o : cachedObject) (exp : option Z) : Prop :=
  exists before e b k after resp,
    acts = before ++ A_GetObject e b k :: after /\ key = ObjectKey b k /\ validateBucketKey b k = None /\
    exp = Some (e_now e + lifetime (cfg_ObjectCacheTTL (sv_cfg (w_svc w))))%Z /\
    current (sv_db (w_svc (serve_all sha256 before w))) b k resp /\ o = newCachedObject resp.
Lemma dated_snoc acts a w key o exp : dated acts w key o exp -> dated (acts ++ [a]) w key o exp.
Proof.
  intros (before&e&b&k&after&resp&->&H). exists before, e, b, k, (after ++ [a]), resp. split; [|exact H].
  by rewrite <-app_assoc.
Qed.

Definition no_objects (c : Cache) : Prop := forall key o exp, entry_of c key <> Some (CachedObject o, exp).
Lemma entries_dated acts w : Forall quiet acts -> no_objects (sv_cache (w_svc w)) -> (0 < cfg_ObjectCacheTTL (sv_cfg (w_svc w)))%Z ->
  let w' := serve_all sha256 acts w in
  sv_cfg (w_svc w') = sv_cfg (w_svc w) /\
  forall key o exp, entry_of (sv_cache (w_svc w')) key = Some (CachedObject o, exp) -> dated acts w key o exp.
Proof.
  intros Hq Hn Ht. induction acts as [|a acts IH] using rev_ind; [split; [done|]; intros key o exp H; by destruct (Hn key o exp)|].
  apply Forall_app in Hq as [Hq [Ha _]%Forall_cons]. destruct (IH Hq) as [Hcfg Hent]. cbn zeta.
  unfold serve_all. rewrite foldl_app. cbn [foldl]. fold (serve_all sha256 acts w). set (w1 := serve_all sha256 acts w) in *.
  destruct (is_read a) eqn:Hr.
  - destruct a as [| | | | | | |e b k| | | | | | | | | | | | | | | | | | | | | | | | |]; try discriminate Hr. cbn [serve].
    pose proof (GetObject_rpc_cache e b k (w_svc w1)) as Hg. unfold svc. destruct (GetObject_rpc e b k (w_svc w1)) as [r s'].
    destruct Hg as (Hc&He&_). cbn. rewrite Hc. split; [done|]. intros key o exp H. rewrite Hcfg in He.
    destruct (He key o exp H) as [H'|(resp&->&Hv&Hcur&->&Hexp)]; [by apply dated_snoc, Hent|].
    exists acts, e, b, k, [], resp. split_and!; [done..|by apply Hexp|done|done].
  - destruct (serve_kept a w1 Ha Hr) as [Hc He]. rewrite Hc. split; [done|]. intros key o exp H. by apply dated_snoc, Hent, He.
Qed.
End runs.

(** C15: bounded staleness. Take a coordinator that starts with no objects in
    its cache and any sequence of requests and worker cycles, with any clocks,
    any failures of nodes and network, and a cache that loses whatever writes
    and invalidations it likes (reads served in the middle of a reconciliation
    are actions of their own). Whatever a read then answers, the metadata store
    answered it too: now, or to an earlier read of the same name, less than the
    configured time of the cache ago by the clocks of the two reads. The time
    must be positive, and Redis counts it in milliseconds, one at the least. An
    entry set with another time, which the configuration accepts, has no such
    bound: it never expires. *)
Theorem reads_are_recent `{PG : !Postgres, UU : !Uuid, GM : !GoMath, GS : !GoSort, GR : !GoRange, FW : !FileWalk}
    (sha256 : string -> string) (acts : list action) (w : World) (e : env) (b k : string) (resp : LayoutMsg) :
  Forall quiet acts -> no_objects (sv_cache (w_svc w)) -> (0 < cfg_ObjectCacheTTL (sv_cfg (w_svc w)))%Z ->
  let w' := serve_all sha256 acts w in
  (GetObject_rpc e b k (w_svc w')).1 = Ok resp ->
  current (sv_db (w_svc w')) b k resp \/
  exists before e0 after old,
    acts = before ++ A_GetObject e0 b k :: after /\ (e_now e < e_now e0 + Z.max (cfg_ObjectCacheTTL (sv_cfg (w_svc w))) millisecond)%Z /\
    current (sv_db (w_svc (serve_all sha256 before w))) b k old /\ resp = toProto (newCachedObject old).
Proof.
  intros Hq Hn Ht w' Hr. destruct (entries_dated sha256 acts w Hq Hn Ht) as [_ Hent]. fold w' in Hent.
  pose proof (GetObject_rpc_cache e b k (w_svc w')) as Hg. destruct (GetObject_rpc e b k (w_svc w')) as [r s']. cbn in Hr.
  destruct Hg as (_&_&Hg). destruct (Hg resp Hr) as [Hv [Hcur|(o&exp&He&Hlive&->)]]; [by left|right].
  destruct (Hent _ _ _ He) as (before&e0&b0&k0&after&old&->&Hkey&Hv0&->&Hcur&->).
  assert (b = b0 /\ k = k0) as [<- <-].
  { unfold validateBucketKey in Hv, Hv0. destruct (ValidateBucket b) eqn:Hb, (ValidateBucket b0) eqn:Hb0; try done.
    apply ObjectKey_inj; [by apply ValidateBucket_safe..|done]. }
  exists before, e0, after, old. split_and!; [done| |done|done].
  pose proof (lifetime_bounds _ Ht). specialize (Hlive _ eq_refl). lia.
Qed.

(** An object is stored and read; the delete that follows cannot reach the
    cache, and a read a second later still finds it. *)
Definition caching_service : Service :=
  mkService (mkCoordinatorConfig 8 2 1 1000000000 30000000000 2000000000 0) empty_db (Redis "fs" ∅)
    (mkThresholds 15000000000 45000000000) ∅ (Rendezvous DefaultConfig) None ∅.
Definition read_then_lose : list action := register_three ++ [
  A_BeginUpload (at_time 2 10) "photos" "cat.jpg" "image/jpeg" 8;
  A_AllocateChunk (at_time 3 20) (canonical_String 10) EmptyString 0 8;
  A_CommitChunk (at_time 4 0) (canonical_String 20) sample_digest 8 ["n1"; "n2"] [];
  A_CompleteUpload (at_time 5 0) (canonical_String 10) 8 1 "etag";
  A_GetObject (at_time 6 0) "photos" "cat.jpg";
  A_DeleteObject (mkEnv 7000 7 0 false) "photos" "cat.jpg"
].
Lemma reads_are_recent_witness :
  let W := serve_all (PG := c_locale) (UU := canonical_uuid) (GM := sample_math)
    (GS := sort_by_insertion) (GR := range_by_key) (FW := walk_files) (fun s => s) in
  let w := mkWorld caching_service (∅ : gmap string node) in
  exists resp, (GetObject_rpc (PG := c_locale) (UU := canonical_uuid) (at_time 1000000 0) "photos" "cat.jpg" (w_svc (W read_then_lose w))).1 = Ok resp /\
    exists before e0 after old, read_then_lose = before ++ A_GetObject e0 "photos" "cat.jpg" :: after /\
      (e_now (at_time 1000000 0) < e_now e0 + 30000000000)%Z /\
      current (PG := c_locale) (UU := canonical_uuid) (sv_db (w_svc (W before w))) "photos" "cat.jpg" old /\ resp = toProto (newCachedObject old).
Proof.
  intros W w.
  assert (exists resp, (GetObject_rpc (PG := c_locale) (UU := canonical_uuid) (at_time 1000000 0) "photos" "cat.jpg" (w_svc (W read_then_lose w))).1 = Ok resp) as [resp Hr].
  { destruct (GetObject_rpc _ _ _ _).1 as [resp|] eqn:E; [by exists resp|]. exfalso. revert E. vm_compute. discriminate. }
  exists resp. split; [exact Hr|].
  destruct (reads_are_recent (PG := c_locale) (UU := canonical_uuid) (GM := sample_math)
    (GS := sort_by_insertion) (GR := range_by_key) (FW := walk_files) (fun s => s) read_then_lose w (at_time 1000000 0) "photos" "cat.jpg" resp)
    as [Hc|H]; [repeat constructor|intros key o exp; discriminate|reflexivity|exact Hr| |exact H].
  exfalso. destruct Hc as (obj&cs&Hc&_). revert Hc. vm_compute. discriminate.
Defined.
