(* ===== verification/Samples.v ===== *)
(** * A small cluster

    Concrete runs of the modelled system, with a value for every class of
    parameters. The witnesses of the theorems about the whole system use them. *)

From Stdlib Require Import Strings.Byte.
From stdpp Require Import base numbers gmap strings list.
From S2P Require Import Prelude Chunking Checksum ChunkStore StorageService ChunkWriter GoFloat GoStrings Placement Health Validate Uuid Cache.
From S2P Require Import Sql Schema Statements Chunks Objects Nodes Repair Gc Reconcile Multipart Coordinator Workers Reconciler Refinement.

#[export] Existing Instance c_locale.
#[export] Existing Instance canonical_uuid.
#[export] Existing Instance sample_math.
#[export] Existing Instance sort_by_insertion.
#[export] Existing Instance range_by_key.
#[export] Existing Instance walk_files.

Definition two_bytes : bytes := [x41; x42].

(** A node that holds the bytes as the chunk with the identifier. *)
Definition node_with (id : N) (data : bytes) : node :=
  match RelativePath (uuid_String id) with
  | Some p => ChunkStore.mkNode (mkStore true 0 (Z.of_nat (length data)) 1 0 0) (mkDisk {[ p := mkFile data 0 ]} ∅)
  | None => empty_node
  end.
Definition three_nodes (n1 n2 n3 : node) : cluster := <["n1:7000" := n1]> (<["n2:7000" := n2]> (<["n3:7000" := n3]> ∅)).

(** A chunk of two bytes that was written to the nodes [ok] only, and whose
    repair is queued. *)
Definition degraded_acts (ok failed : list string) : list action := register_three ++ [
  A_BeginUpload (at_time 2 10) "photos" "cat.jpg" "image/jpeg" 8;
  A_AllocateChunk (at_time 3 20) (uuid_String 10) EmptyString 0 2;
  A_CommitChunk (at_time 4 0) (uuid_String 20) (Sum two_bytes) 2 ok failed;
  A_CompleteUpload (at_time 5 0) (uuid_String 10) 2 1 "etag";
  A_ScanOnce (at_time 6 0) sample_repair_config
].
(** A coordinator without a cache. *)
Definition start (nodes : cluster) : World := mkWorld ((new_service (Rendezvous DefaultConfig)) <| sv_cache := Noop |>) nodes.
Lemma start_schema nodes : schema_ok (sv_db (w_svc (start nodes))).
Proof. exact empty_db_schema. Qed.
Definition degraded (nodes : cluster) : World := serve_all (fun s => s) (degraded_acts ["n1"] ["n2"]) (start nodes).
Lemma degraded_schema nodes : schema_ok (sv_db (w_svc (degraded nodes))).
Proof. unfold degraded. refine (serve_all_schema (fun s => s) _ (start nodes) _ (start_schema nodes)). repeat constructor. Qed.
(** The claimed repair, and the world after the claim. *)
Definition claim (w : World) : result store_error RepairTarget * World :=
  svc (store (ClaimRepairJob 7 "coordinator" 60000000 2)) w.
Definition sample_target : RepairTarget :=
  mkRepairTarget 1 20 1 EmptyString 6 (Sum two_bytes) 2 [mkReplicaView "n1" "n1:7000" (Some HEALTHY) ReplicaAvailable 0]
    ["n1"; "n2"] 1 0 1.
Definition good_net : repair_net := mkRepairNet good_fate (Some (no_faults, reliable)) good_fate good_fate false EmptyString.

(** A reconciliation that verifies checksums and meets no fault. *)
Definition sample_reconcile : ReconcileConfig := mkReconcileConfig true 5000000000 100 30000000000 60000000000 true.
Definition quiet_net : reconcile_net :=
  mkReconcileNet good_fate (fun _ => false) (fun _ => None) (fun w => w) elements (fun _ => good_fate) false EmptyString.
