(* ===== verification/Roster.v ===== *)
(** * The placement roster

    What placement chooses from: the HEALTHY nodes of the database, or the
    roster cached a moment ago. A cached roster is coherent when its nodes are
    distinct, known under the same address and not DEAD. *)

From stdpp Require Import base numbers gmap strings list sorting.
From S2P Require Import Prelude Checksum ChunkStore StorageService GoFloat Placement Health Validate Uuid Cache.
From S2P Require Import Sql Schema Statements Chunks Objects Nodes Repair Gc Reconcile Multipart Coordinator.

(** A node as placement sees it, against the database. *)
Definition known_node (d : db) (n : Placement.NodeInfo) : Prop :=
  exists r, storage_nodes d !! Placement.ID n = Some r /\ sn_grpc_address r = Placement.Address n /\ sn_health r <> DEAD.
Definition roster_ok (d : db) (ns : list Placement.NodeInfo) : Prop :=
  NoDup (Placement.ID <$> ns) /\ Forall (known_node d) ns.
Definition cached_roster_ok (s : Service) : Prop :=
  forall now ns, visible now (sv_cache s) NodesKey = Some (CachedNodes ns) -> roster_ok (sv_db s) ns.

Section roster.
Context `{PG : !Postgres, UU : !Uuid, GM : !GoMath, GS : !GoSort}.

Lemma elem_of_order_by {A} (R : relation A) `{!RelDecision R} (l : list A) x : x ∈ order_by R l <-> x ∈ l.
Proof. unfold order_by. by rewrite merge_sort_Permutation, scan_perm. Qed.

Lemma ListNodes_roster d : roster_ok d (placement_node <$> ListNodes true d).
Proof.
  unfold ListNodes. rewrite <-list_fmap_compose. split.
  - rewrite <-list_fmap_compose. simpl. unfold order_by. rewrite merge_sort_Permutation, scan_perm.
    rewrite (list_fmap_ext _ fst); [apply NoDup_rows_where|done].
  - apply Forall_forall. intros n Hn. apply list_elem_of_fmap in Hn as ([id r]&->&Hin).
    apply elem_of_order_by, elem_of_rows_where in Hin as [Hr Hh]. exists r. simpl.
    split_and!; [done|done|]. by rewrite (Hh eq_refl).
Qed.

Lemma healthyNodes_ok e s :
  let '(ns, s') := healthyNodes e s in
  (cached_roster_ok s -> roster_ok (sv_db s) ns /\ cached_roster_ok s') /\
  (exists c, s' = s <| sv_cache := c |> /\
     forall now k v, visible now c k = Some v -> visible now (sv_cache s) k = Some v \/ k = NodesKey).
Proof.
  unfold healthyNodes, sv_bind, cache_get.
  pose proof (fun now => Cache_Get_visible as_nodes (e_redis e) (e_now e) now (sv_cache s) NodesKey) as Hv.
  destruct (Cache_Get as_nodes (e_redis e) (e_now e) (sv_cache s) NodesKey) as [[ns|err] c] eqn:E; simpl in Hv.
  - apply Cache_Get_ok in E as (->&v&Hvis&Hd). destruct v; simplify_eq/=. split; [intros Hc; split; [by eapply Hc|done]|].
    exists (sv_cache s). split; [done|]. auto.
  - unfold load, sv_gets, cache_set, sv_ret. simpl.
    pose proof (fun now => visible_set (e_redis e) (e_now e) now c NodesKey
      (CachedNodes (placement_node <$> ListNodes true (sv_db s))) (cfg_NodeCacheTTL (sv_cfg s))) as Hs.
    destruct (Cache_Set _ _ _ _ _ _) as [r c']. simpl in *. split.
    + intros Hc. split; [apply ListNodes_roster|]. intros now ns Hns. apply Hs in Hns as [Hns|[_ Hns]]; [by eapply Hc, Hv|]. injection Hns as ->. apply ListNodes_roster.
    + exists c'. split; [done|]. intros now k v Hk. apply Hs in Hk as [Hk|[-> _]]; [left; by apply Hv|by right].
Qed.

(** Choosing changes the random source at most. *)
Lemma select_nodes_frame ns req s r s' : select_nodes ns req s = (r, s') -> exists placer, s' = s <| sv_placer := placer |>.
Proof.
  unfold select_nodes. destruct (SelectNodes _ _ _) as [[r0 p]|]; intros [= <- <-]; [by eexists|]. exists (sv_placer s). by destruct s.
Qed.

(** Whatever the roster is, what is chosen is in it and not excluded. *)
Lemma select_loop_members fuel R remaining chosen selected rng sel rng' :
  select_loop fuel R remaining chosen selected rng = Some (sel, rng') ->
  forall n, n ∈ sel -> n ∈ selected \/ n ∈ (w_node <$> remaining).
Proof.
  revert remaining chosen selected rng. induction fuel as [|fuel IH]; intros remaining chosen selected rng; simpl; [done|].
  case_decide; [|intros [= <- _]; by left]. destruct (sampleIndex remaining rng) as [idx rng1].
  set (i := match idx with None => 0%nat | Some i => i end). destruct (remaining !! i) as [pick|] eqn:Hi; [|done].
  assert (w_node pick ∈ (w_node <$> remaining)) as Hp by (apply list_elem_of_fmap; exists pick; split; [done|by eapply list_elem_of_lookup_2]).
  set (next := if decide (ID (w_node pick) ∈ chosen) then (chosen, selected) else ({[ID (w_node pick)]} ∪ chosen, selected ++ [w_node pick])).
  assert (forall n, n ∈ next.2 -> n ∈ selected \/ n ∈ (w_node <$> remaining)) as Hnext.
  { intros n. unfold next. case_decide; simpl; [by left|]. rewrite elem_of_app, list_elem_of_singleton. intros [?| ->]; auto. }
  destruct next as [chosen' selected']. simpl in Hnext.
  assert (forall n, n ∈ (w_node <$> (take i remaining ++ drop (S i) remaining)) -> n ∈ (w_node <$> remaining)) as Hrest.
  { intros n Hn. pose proof (take_drop_perm remaining i pick Hi) as Hperm. apply (Permutation_map w_node) in Hperm.
    change (map w_node remaining) with (w_node <$> remaining) in Hperm. rewrite Hperm. by right. }
  destruct (take i remaining ++ drop (S i) remaining) as [|x rest] eqn:E; [intros [= <- _]; apply Hnext|].
  intros Hsel n Hn. destruct (IH _ _ _ _ Hsel n Hn) as [H1|H1]; [by apply Hnext|right; by apply Hrest].
Qed.
Lemma select_nodes_eligible ns req s sel s' : select_nodes ns req s = (Ok sel, s') ->
  forall n, n ∈ sel -> n ∈ ns /\ (ID n ∉ Exclude req).
Proof.
  unfold select_nodes. destruct (SelectNodes (sv_placer s) ns req) as [[r p]|] eqn:E; intros [= -> _].
  assert (forall cfg n, n ∈ eligibleNodes ns req cfg -> n ∈ ns /\ (ID n ∉ Exclude req)) as He
    by (intros cfg n (H1&H2&_)%eligibleNodes_spec; done).
  unfold SelectNodes in E. destruct (sv_placer s) as [cfg rng|cfg].
  - destruct (Weighted_SelectNodes cfg ns req rng) as [[r rng']|] eqn:Ew; [|done]. injection E as -> _. revert Ew.
    unfold Weighted_SelectNodes. do 3 (case_decide; [done|]). destruct (select_loop _ _ _ _ _ _) as [[sel' rng1]|] eqn:El; [|done].
    case_decide; [done|]. intros [= -> _] n Hn. destruct (select_loop_members _ _ _ _ _ _ _ _ El n Hn) as [Hx|Hx]; [by apply elem_of_nil in Hx|].
    apply (He cfg). by rewrite eligible_nodes in Hx.
  - injection E as E _. revert E. unfold Rendezvous_SelectNodes. do 2 (case_decide; [done|]). destruct (String.eqb _ _); [done|].
    case_decide; [done|]. intros [= <-] n (i&Hn&_)%elem_of_take. apply list_elem_of_lookup_2 in Hn. apply (He cfg).
    change (n ∈ Rank cfg ns req) in Hn. by rewrite Rank_perm in Hn.
Qed.

Definition placer_config (p : Strategy) : Config := match p with Weighted cfg _ => cfg | Rendezvous cfg => cfg end.

Lemma select_nodes_ok ns req s r s' :
  NoDup (Placement.ID <$> ns) -> valid_request req -> select_nodes ns req s = (r, s') ->
  answers_exactly (placer_config (sv_placer s)) ns req r /\
  exists placer, s' = s <| sv_placer := placer |> /\ placer_config placer = placer_config (sv_placer s).
Proof.
  intros Hnd Hv. unfold select_nodes.
  destruct (SelectNodes_answers (placer_config (sv_placer s)) ns req (sv_placer s) Hnd) as (r0&p&Hs&Hex&_).
  { destruct (sv_placer s); simpl; eauto. }
  rewrite Hs. intros [= <- <-]. split; [by apply Hex|]. exists p. split; [done|].
  unfold SelectNodes in Hs. destruct (sv_placer s); [|by injection Hs as _ <-].
  destruct (Weighted_SelectNodes _ _ _ _) as [[]|]; [|done]. by injection Hs as _ <-.
Qed.

Lemma select_nodes_members ns req s r s' :
  NoDup (Placement.ID <$> ns) -> (0 <= ChunkSize req)%Z -> Key req <> EmptyString -> select_nodes ns req s = (r, s') ->
  (exists placer, s' = s <| sv_placer := placer |>) /\ forall sel, r = Ok sel -> Forall (fun n => n ∈ ns) sel.
Proof.
  intros Hnd Hsize Hkey Hs. destruct (decide (1 <= Replicas req)%Z) as [HR|HR].
  - apply select_nodes_ok in Hs as [Hans (p&->&_)]; [|done|done]. split; [by eexists|]. intros sel ->.
    unfold answers_exactly in Hans. case_decide; [|done]. destruct Hans as (sel'&[= <-]&_&_&Hin).
    apply Forall_forall. intros n Hn. by apply Hin.
  - unfold select_nodes in Hs. destruct (SelectNodes_answers (placer_config (sv_placer s)) ns req (sv_placer s) Hnd) as (r0&p&E&_&Hbad).
    { destruct (sv_placer s); simpl; eauto. }
    rewrite E in Hs. injection Hs as <- <-. split; [by eexists|]. intros sel ->. by discriminate Hbad; left; lia.
Qed.
End roster.
