(* ===== verification/RepairExec.v ===== *)
(** * What a repair does to the data (src/internal/coordinator/repair.go)

    One repair, from the claim of the job to its end, against storage nodes that may fail at any point:
    which replicas it may register, which it may drop, and what happens to the
    files of the nodes. *)

From Stdlib Require Import Strings.Byte.
From stdpp Require Import base numbers gmap strings list sorting.
From S2P Require Import Prelude Chunking Checksum ChunkStore StorageService ChunkWriter GoFloat GoStrings Placement Health Validate Uuid Cache.
From S2P Require Import Sql Schema Statements Chunks Frames Runs Objects Nodes Repair Gc Reconcile Multipart Commit RepairQueue Coordinator Workers Roster Refinement Samples.

(** ** The transfer between two nodes *)

(** The node has a file with the digest under the chunk's name. *)
Definition has_digest (n : node) (chunkID sum : string) : Prop :=
  exists p f, RelativePath chunkID = Some p /\ d_data (n_disk n) !! p = Some f /\ Sum (f_data f) = sum.
Definition has_digest_at (nodes : cluster) (addr chunkID sum : string) : Prop :=
  exists n, nodes !! addr = Some n /\ has_digest n chunkID sum.
Definition digest_at (nodes : cluster) (addr chunkID : string) : option string :=
  n ← nodes !! addr; p ← RelativePath chunkID; f ← d_data (n_disk n) !! p; Some (Sum (f_data f)).
Lemma digest_at_Some nodes addr id sum : digest_at nodes addr id = Some sum -> has_digest_at nodes addr id sum.
Proof.
  unfold digest_at, has_digest_at, has_digest. destruct (nodes !! addr) as [n|]; [|done]. simpl.
  destruct (RelativePath id) as [p|]; [|done]. simpl. destruct (d_data (n_disk n) !! p) as [f|] eqn:Hf; [|done].
  intros [= <-]. eauto 10.
Qed.
(** The node has no file under the chunk's name. *)
Definition lacks (n : node) (chunkID : string) : Prop :=
  forall p, RelativePath chunkID = Some p -> d_data (n_disk n) !! p = None.
Definition small_cluster (nodes : cluster) : Prop := map_Forall (fun _ n => small_files n) nodes.
#[export] Instance small_cluster_dec nodes : Decision (small_cluster nodes).
Proof. unfold small_cluster, small_files. apply _. Defined.

Lemma carried_ok frames fin : carried Ok frames fin = mkReader (concat frames) (Fault <$> fin).
Proof. induction frames as [|f frames IH]; [done|]. simpl. by rewrite IH. Qed.

(** A node that is asked for a digest never ends a stream of other bytes with OK. *)
Lemma ReadChunk_honest io tr n id expected out status n' :
  small_files n -> expected <> EmptyString -> ReadChunk io tr n id expected = (out, status, n') ->
  n_disk n' = n_disk n /\ (Z.of_nat (length (concat out)) < 2 ^ 63)%Z /\
  (status = None -> has_digest n id expected /\ Sum (concat out) = expected).
Proof.
  intros Hsm Hne Hr. assert (n_disk n' = n_disk n) as Hd.
  { unfold ReadChunk in Hr. destruct (negb _); [by injection Hr as _ _ <-|].
    destruct (Open io _ id) as [[data size]|[]]; try by injection Hr as _ _ <-.
    destruct (read_loop _ io tr 0 data hash_New 0) as [frames [[h sent]|code]]; [|by injection Hr as _ _ <-].
    destruct (negb _ && _); [by injection Hr as _ _ <-|]. case_decide; by injection Hr as _ _ <-. }
  split; [done|]. destruct (RelativePath id) as [p|] eqn:Hp.
  2: { unfold ReadChunk, RelativePath in *. destruct (ValidateChunkID id); [done|]. by injection Hr as <- <- _. }
  destruct (d_data (n_disk n) !! p) as [f|] eqn:Hf.
  - destruct (ReadChunk_spec io tr n id expected p f out status n' Hp Hf (Hsm p f Hf) Hr) as (Hpre&_&Hok). split.
    + apply prefix_length in Hpre. pose proof (Hsm p f Hf). simpl in *. lia.
    + intros Hs. destruct (Hok Hs) as [-> Hsum]. specialize (Hsum Hne). split; [|done]. by exists p, f.
  - unfold ReadChunk, Open in Hr. simpl in Hr. rewrite Hp, Hf in Hr.
    destruct (negb _); by injection Hr as <- <- _.
Qed.

(** A write is refused for its digest only if the bytes all came and have another one. *)
Lemma Write_mismatch io now n id src size sum n' trace :
  (Z.of_nat (length (rd_data src)) < 2 ^ 63)%Z -> Write io now n id src size sum = (Err ErrChecksum, n', trace) ->
  rd_fail src = None /\ Sum (rd_data src) <> sum.
Proof.
  intros Hlen. unfold Write. destruct (RelativePath id); [|done]. destruct (negb _ && _); [done|].
  destruct (existing_copy _ _ _ _); [done|]. destruct (fails io SysMkdir); [done|]. destruct (_ || _); [done|].
  unfold write_temp, abandon. destruct (fails io SysCopy); [done|]. destruct (rd_fail src); [done|].
  destruct (tee_new _ Hlen) as [-> ->]. case_decide; [done|]. destruct (_ && fails io SysSync); [done|].
  destruct (fails io SysClose); [done|]. destruct (negb (String.eqb sum EmptyString) && _) eqn:Hv.
  - intros _. split; [done|]. intros Hs. apply andb_true_iff in Hv as [_ Hv].
    by rewrite (proj2 (Verify_ok id sum (Sum (rd_data src))) (eq_sym Hs)) in Hv.
  - destruct (fails io SysRename); [done|]. by destruct (_ && fails io SysSyncDir).
Qed.

(** What the destination may receive: anything, but if the stream ends well then
    bytes of the expected digest. *)
Definition honest (sum : string) (pull : option (stream bytes)) : Prop :=
  forall st, pull = Some st ->
    (Z.of_nat (length (concat (st_msgs st))) < 2 ^ 63)%Z /\ (st_end st = None -> Sum (concat (st_msgs st)) = sum).

Lemma ReplicateChunk_spec io now n id src size sum pull :
  honest sum pull -> sum <> EmptyString -> (0 <= size)%Z ->
  let '(r, n') := ReplicateChunk io now n id src size sum pull in
  stores id size sum n n' /\ r <> Err FailedPrecondition.
Proof.
  intros Hh Hne Hsize. unfold ReplicateChunk. destruct (negb _); [split; [reflexivity|done]|].
  destruct (String.eqb src EmptyString); [split; [reflexivity|done]|].
  destruct pull as [st|]; [|split; [by apply stores_same_disk|done]].
  rewrite stream_source_carried, carried_ok. destruct (Hh st eq_refl) as [Hlen Hend].
  pose proof (Write_stores_copy io now (on_store BeginRequest n) id (mkReader (concat (st_msgs st)) (Fault <$> st_end st)) size sum
    Hlen Hne Hsize) as Hw.
  destruct (Write _ _ _ _ _ _ _) as [[[res|err] n1] trace] eqn:E; destruct Hw as [Hs _].
  - split; [|done]. intros q. destruct (Hs q) as [H|H]; [by left|by right].
  - split; [intros q; destruct (Hs q) as [H|H]; [by left|by right]|]. intros [= Hc].
    destruct err; try done. apply Write_mismatch in E as [Hf Hsum]; [|done]. apply Hsum, Hend. by apply fmap_None in Hf.
Qed.

Lemma stores_lacks id size sum n n' : stores id size sum n n' -> lacks n' id -> lacks n id.
Proof.
  intros Hs Hl p Hp. destruct (Hs p) as [<-|[_ (q&f&Hq&Hf&_)]]; [by apply Hl|]. by rewrite (Hl q Hq) in Hf.
Qed.

(** ** The calls of a repair *)

Section calls.
Context `{PG : !Postgres, UU : !Uuid, GM : !GoMath, GS : !GoSort}.

Lemma pull_stream_spec net addr id sum w :
  small_cluster (w_nodes w) -> sum <> EmptyString ->
  let '(pull, w') := pull_stream net addr id sum w in
  honest sum pull /\ w_svc w' = w_svc w /\
  (forall a, option_Forall2 (fun n n' => n_disk n' = n_disk n) (w_nodes w !! a) (w_nodes w' !! a)).
Proof.
  intros Hsm Hne. unfold pull_stream.
  assert (forall a, option_Forall2 (fun n n' => n_disk n' = n_disk n) (w_nodes w !! a) (w_nodes w !! a)) as Hrefl
    by (intros a; by destruct (w_nodes w !! a); constructor).
  destruct (w_nodes w !! addr) as [n|] eqn:Hn; [|by split_and!].
  destruct (rn_source net) as [[io tr]|]; [|by split_and!].
  destruct (ReadChunk io tr n id sum) as [[out status] n'] eqn:Hr.
  apply ReadChunk_honest in Hr as (Hd&Hlen&Hok); [|by apply (Hsm addr)|done]. split_and!; [|done|].
  - intros st [= <-]. simpl. split; [done|]. destruct status; [done|]. intros _. by apply Hok.
  - intros a. simpl. destruct (decide (a = addr)) as [->|Ha]; [rewrite lookup_insert_eq, Hn; by constructor|].
    rewrite lookup_insert_ne by done. apply Hrefl.
Qed.

Lemma same_disks_stores id size sum (m m' : cluster) :
  (forall a, option_Forall2 (fun n n' => n_disk n' = n_disk n) (m !! a) (m' !! a)) -> cluster_stores id size sum m m'.
Proof. intros H a. destruct (H a); constructor. by apply stores_same_disk. Qed.

Lemma replicate_call_spec net dest id src sum size w r w' :
  small_cluster (w_nodes w) -> sum <> EmptyString -> (0 <= size)%Z ->
  replicate_call net dest id src sum size w = (r, w') ->
  w_svc w' = w_svc w /\ cluster_stores id size sum (w_nodes w) (w_nodes w') /\ r <> Err FailedPrecondition.
Proof.
  intros Hsm Hne Hsize. unfold replicate_call.
  destruct (w_nodes w !! dest) as [nd|] eqn:Hd; [|intros [= <- <-]; split_and!; (done || reflexivity)].
  destruct (ft_up (rn_pull net)) eqn:Hup; simpl; [|intros [= <- <-]; split_and!; (done || reflexivity)].
  pose proof (pull_stream_spec net src id sum w Hsm Hne) as Hp.
  destruct (pull_stream net src id sum w) as [pull w1]. destruct Hp as (Hh&Hsvc&Hdisks).
  apply (same_disks_stores id size sum) in Hdisks. unfold call_node. rewrite Hup. simpl.
  destruct (w_nodes w1 !! dest) as [n1|] eqn:Hn1; [|intros [= <- <-]; by split_and!].
  pose proof (ReplicateChunk_spec (ft_io (rn_pull net)) (ft_now (rn_pull net)) n1 id src size sum pull Hh Hne Hsize) as Hr.
  destruct (ReplicateChunk _ _ n1 _ _ _ _ _) as [r1 n2]. destruct Hr as [Hs Hr].
  assert (cluster_stores id size sum (w_nodes w) (<[dest := n2]> (w_nodes w1))) as Hc
    by (etrans; [exact Hdisks|by eapply cluster_stores_insert]).
  destruct (ft_lost (rn_pull net)); intros [= <- <-]; by split_and!.
Qed.

(** No file changed. *)
Definition same_files (m m' : cluster) : Prop :=
  forall a, option_Forall2 (fun n n' => d_data (n_disk n') = d_data (n_disk n)) (m !! a) (m' !! a).

Lemma Write_nothing_received io now n id data err size sum :
  (Z.of_nat (length data) < 2 ^ 63)%Z -> lacks n id ->
  let '(r, n', _) := Write io now n id (mkReader data (Some err)) size sum in
  d_data (n_disk n') = d_data (n_disk n) /\ (exists e, r = Err e /\ e <> ErrChecksum).
Proof.
  intros Hlen Hl. destruct (Write io now n id _ size sum) as [[r n'] trace] eqn:E.
  assert (r <> Err ErrChecksum) as Hne by (intros ->; by apply Write_mismatch in E as [? _]).
  destruct (RelativePath id) as [p|] eqn:Hp.
  2: { unfold Write in E. rewrite Hp in E. injection E as <- <- <-. eauto. }
  pose proof (Write_ok io now n id (mkReader data (Some err)) size sum p Hlen Hp) as Hw. rewrite E in Hw.
  destruct Hw as [_ _ Hr]. destruct r as [res|e].
  - destruct Hr as ((f&Hf&_)&_&Hex). destruct (AlreadyExisted res).
    + subst n'. by rewrite (Hl p Hp) in Hf.
    + by destruct Hex as [_ [? _]].
  - split; [|exists e; split; [done|congruence]]. destruct e as [| | |[]| | |]; try done. by destruct Hr as [_ [? _]].
Qed.

(** A source that does not have the bytes gives nothing to a node without the chunk. *)
Lemma replicate_call_no_source net dest id src sum size w r w' :
  small_cluster (w_nodes w) -> sum <> EmptyString ->
  ~ has_digest_at (w_nodes w) src id sum -> (forall n, w_nodes w !! dest = Some n -> lacks n id) ->
  replicate_call net dest id src sum size w = (r, w') ->
  same_files (w_nodes w) (w_nodes w') /\ exists code, r = Err code.
Proof.
  intros Hsm Hne Hno Hl. unfold replicate_call. assert (same_files (w_nodes w) (w_nodes w)) as Hrefl.
  { intros a. by destruct (w_nodes w !! a); constructor. }
  destruct (w_nodes w !! dest) as [nd|] eqn:Hd; [|intros [= <- <-]; by eauto].
  destruct (ft_up (rn_pull net)) eqn:Hup; simpl; [|intros [= <- <-]; by eauto].
  pose proof (pull_stream_spec net src id sum w Hsm Hne) as Hp.
  assert (forall st, (pull_stream net src id sum w).1 = Some st -> exists err, st_end st = Some err) as Hend.
  { unfold pull_stream. destruct (w_nodes w !! src) as [n|] eqn:Hn; [|done]. destruct (rn_source net) as [[io tr]|]; [|done].
    destruct (ReadChunk io tr n id sum) as [[out [code|]] n'] eqn:Hr; simpl; intros st [= <-]; simpl; [by eauto|].
    apply ReadChunk_honest in Hr as (_&_&Hok); [|by apply (Hsm src)|done]. destruct Hno. exists n. split; [done|]. by apply Hok. }
  destruct (pull_stream net src id sum w) as [pull w1]. destruct Hp as (Hh&_&Hdisks). simpl in Hend.
  pose proof (Hdisks dest) as Hdd. rewrite Hd in Hdd. inversion Hdd as [? n1 Hdisk Heq1 Hn1|]; subst.
  unfold call_node. rewrite <-Hn1, Hup. simpl.
  assert (let '(r, n2) := ReplicateChunk (ft_io (rn_pull net)) (ft_now (rn_pull net)) n1 id src size sum pull in
    d_data (n_disk n2) = d_data (n_disk n1) /\ exists code, r = Err code) as Hr.
  { unfold ReplicateChunk. destruct (negb _); [by eauto|]. destruct (String.eqb src EmptyString); [by eauto|].
    destruct pull as [st|]; [|by eauto]. destruct (Hend st eq_refl) as [err Herr]. rewrite stream_source_carried, carried_ok, Herr.
    destruct (Hh st eq_refl) as [Hlen _].
    pose proof (Write_nothing_received (ft_io (rn_pull net)) (ft_now (rn_pull net)) (on_store BeginRequest n1) id
      (concat (st_msgs st)) (Fault err) size sum Hlen) as Hw.
    destruct (Write _ _ _ _ _ _ _) as [[r1 n2] trace].
    destruct Hw as (Hdata&er&->&_); [intros p Hpp; simpl; rewrite Hdisk; by apply (Hl nd)|]. by eauto. }
  destruct (ReplicateChunk _ _ n1 _ _ _ _ _) as [r1 n2]. destruct Hr as [Hdata Hr].
  assert (same_files (w_nodes w) (<[dest := n2]> (w_nodes w1))) as Hsame.
  { intros a. destruct (decide (a = dest)) as [->|Ha].
    - rewrite lookup_insert_eq, Hd. constructor. by rewrite Hdata, Hdisk.
    - rewrite lookup_insert_ne by done. destruct (Hdisks a); constructor. by f_equal. }
  destruct (ft_lost (rn_pull net)); intros [= <- <-]; by eauto.
Qed.

(** A check changes nothing; its answer is the state of the node. *)
Lemma check_call_spec ft addr id verify w r w' :
  check_call ft addr id verify w = (r, w') ->
  w' = w /\
  (forall res, r = Ok res -> exists n, w_nodes w !! addr = Some n /\
     (Exists res = false -> lacks n id) /\
     (Exists res = true -> verify = true -> has_digest n id (cr_Checksum res))).
Proof.
  unfold check_call, call_node. destruct (w_nodes w !! addr) as [n|] eqn:Hn; [|by intros [= <- <-]].
  destruct (negb (ft_up ft)); [by intros [= <- <-]|].
  assert (mkWorld (w_svc w) (<[addr := n]> (w_nodes w)) = w) as -> by (rewrite insert_id by done; by destruct w).
  destruct (ft_lost ft); intros [= <- <-]; (split; [done|]); [done|].
  intros res Hres. exists n. split; [done|]. unfold CheckChunk in Hres. destruct (negb (ValidateChunkID id)); [done|].
  destruct (ChunkStore_Check (ft_io ft) n id verify) as [res'|] eqn:Hc; [|done]. injection Hres as ->.
  unfold ChunkStore_Check in Hc. destruct (RelativePath id) as [p|] eqn:Hp; [|done].
  unfold lacks, has_digest. rewrite Hp. destruct (d_data (n_disk n) !! p) as [f|] eqn:Hf.
  - destruct (fails (ft_io ft) SysStat); [done|]. destruct verify; simpl in Hc; [|by injection Hc as <-].
    unfold verifyFile in Hc. rewrite Hf in Hc. destruct (fails _ SysOpen); [done|]. destruct (fails _ SysRead); [done|].
    injection Hc as <-. simpl. split; [done|]. intros _ _. exists p, f. by split_and!.
  - injection Hc as <-. simpl. split; [|done]. intros _ q [= <-]. done.
Qed.
End calls.

(** ** The statements of a repair *)

(** Only the repair queue changed. *)
Definition only_jobs (d d' : db) : Prop := exists m, d' = d <| repair_jobs := m |>.

Lemma only_jobs_refl d : only_jobs d d.
Proof. exists (repair_jobs d). by destruct d. Qed.
Lemma only_jobs_replicas d d' : only_jobs d d' -> chunk_replicas d' = chunk_replicas d.
Proof. by intros [m ->]. Qed.
Lemma only_jobs_inTx P `{!forall k v, Decision (P k v)} f d r d' :
  inTx (do! update_repairs P f in tx_ret tt) d = (r, d') -> only_jobs d d'.
Proof.
  unfold inTx. destruct (tx_bind _ _ d) as [[[] d1]|] eqn:E; intros [= <- <-]; [|apply only_jobs_refl].
  tx_inv E. eexists. done.
Qed.

Lemma CompleteRepair_replicas now job c n d r d' :
  CompleteRepair now job c n d = (r, d') ->
  storage_nodes d' = storage_nodes d /\
  match r with
  | Ok _ => exists row, chunk_replicas d' = <[(c, n) := row]> (chunk_replicas d) /\ cr_state row = ReplicaAvailable
  | Err _ => d' = d
  end.
Proof.
  unfold CompleteRepair, inTx, CompleteRepair_tx. destruct (tx_bind _ _ d) as [[a d1]|] eqn:E; intros [= <- <-]; [|done].
  apply tx_bind_ok in E as (u&d2&Hd2%upsert_replica_ok&E).
  assert (storage_nodes d2 = storage_nodes d) as Hn by (by rewrite Hd2, trigger_nodes).
  eassert (chunk_replicas d2 = _) as Hr by (by rewrite Hd2, trigger_replicas). clear Hd2. tx_inv E. simpl. split; [done|].
  eexists. rewrite Hr. split; [done|]. by destruct (chunk_replicas d !! (c, n)).
Qed.
Lemma DropReplica_replicas c n d r d' :
  DropReplica c n d = (r, d') ->
  storage_nodes d' = storage_nodes d /\
  (forall k, chunk_replicas d' !! k = chunk_replicas d !! k \/ k = (c, n) /\ chunk_replicas d' !! k = None).
Proof.
  unfold DropReplica, inTx. destruct (tx_bind _ _ d) as [[a d1]|] eqn:E; intros [= <- <-]; [|auto].
  tx_inv E. rewrite trigger_nodes, trigger_replicas. simpl. split; [done|]. intros k.
  destruct (decide (k = (c, n))) as [->|Hk].
  - right. split; [done|]. apply eq_None_not_Some. intros [v [_ Hv]%lookup_delete_where_Some]. by apply Hv.
  - left. apply option_eq. intros v. rewrite lookup_delete_where_Some. naive_solver.
Qed.

Section repair.
Context `{PG : !Postgres, UU : !Uuid, GM : !GoMath, GS : !GoSort}.

Lemma invalidateChunkOwnerCache_db e c s :
  let '(_, s') := invalidateChunkOwnerCache e c s in sv_db s' = sv_db s /\ sv_inFlight s' = sv_inFlight s.
Proof.
  unfold invalidateChunkOwnerCache, store, sv_bind, ObjectKeyForChunk, inTx.
  destruct (tx_bind _ _ (sv_db s)) as [[[b k] d1]|] eqn:E; [|done]. tx_inv E.
  unfold invalidateObject, sv_bind, cache_delete. simpl. by destruct (Cache_Delete _ _ _).
Qed.

(** What a repair does to the replicas of the chunk, given how it ended. *)
Record repair_effect (target : RepairTarget) (source : Replica) (picked : option Placement.NodeInfo)
    (w w' : World) (r : result repair_error unit) : Prop := {
  re_files : cluster_stores (uuid_String (rt_ChunkID target)) (rt_Size target) (rt_Checksum target) (w_nodes w) (w_nodes w');
  re_nodes : storage_nodes (sv_db (w_svc w')) = storage_nodes (sv_db (w_svc w));
  re_replicas : forall k,
    let d := sv_db (w_svc w) in let d' := sv_db (w_svc w') in let id := uuid_String (rt_ChunkID target) in
    chunk_replicas d' !! k = chunk_replicas d !! k \/
    (k = (rt_ChunkID target, rp_node_id source) /\ r <> Ok tt /\ chunk_replicas d' !! k = None /\
     exists n, w_nodes w !! rp_address source = Some n /\ lacks n id) \/
    (exists dest, picked = Some dest /\ k = (rt_ChunkID target, Placement.ID dest) /\ r = Ok tt /\
       cr_state <$> chunk_replicas d' !! k = Some ReplicaAvailable)
}.

(** Steps that leave the nodes and the replicas alone. *)
Lemma repair_effect_idle target source picked w w' r :
  w_nodes w' = w_nodes w -> only_jobs (sv_db (w_svc w)) (sv_db (w_svc w')) ->
  repair_effect target source picked w w' r.
Proof. intros Hn [m Hd]. split; [rewrite Hn; reflexivity|by rewrite Hd|]. intros k. left. by rewrite Hd. Qed.

Lemma reportPhantomSource_spec e net c source w w' u :
  reportPhantomSource e net c source w = (u, w') ->
  w_nodes w' = w_nodes w /\ storage_nodes (sv_db (w_svc w')) = storage_nodes (sv_db (w_svc w)) /\
  sv_inFlight (w_svc w') = sv_inFlight (w_svc w) /\
  forall k, chunk_replicas (sv_db (w_svc w')) !! k = chunk_replicas (sv_db (w_svc w)) !! k \/
    k = (c, rp_node_id source) /\ chunk_replicas (sv_db (w_svc w')) !! k = None /\
    exists n, w_nodes w !! rp_address source = Some n /\ lacks n (uuid_String c).
Proof.
  unfold reportPhantomSource, wd_bind. destruct (check_call _ _ _ _ w) as [r w1] eqn:Hc.
  apply check_call_spec in Hc as [-> Hres]. destruct r as [res|]; [|intros [= <- <-]; auto].
  destruct (Exists res) eqn:Hex; [intros [= <- <-]; auto|]. destruct (Hres res eq_refl) as (n&Hn&Hl&_).
  specialize (Hl Hex). unfold svc, store. destruct (DropReplica c _ _) as [r d1] eqn:Hd.
  apply DropReplica_replicas in Hd as [Hsn Hd].
  assert (forall k, chunk_replicas d1 !! k = chunk_replicas (sv_db (w_svc w)) !! k \/
    k = (c, rp_node_id source) /\ chunk_replicas d1 !! k = None /\
    exists n, w_nodes w !! rp_address source = Some n /\ lacks n (uuid_String c)) as Hk
    by (intros k; destruct (Hd k) as [|[]]; naive_solver).
  destruct r as [[]|]; cbn [w_svc w_nodes]; [|intros [= <- <-]; by split_and!].
  match goal with |- context [invalidateChunkOwnerCache e c ?s] => pose proof (invalidateChunkOwnerCache_db e c s) as Hi;
    destruct (invalidateChunkOwnerCache e c s) as [[] s2] end.
  intros [= <- <-]. destruct Hi as [Hdb Hif]. cbn [w_svc w_nodes]. rewrite Hdb, Hif. by split_and!.
Qed.

Lemma copy_to_spec e net target source dest w r w' :
  small_cluster (w_nodes w) -> rt_Checksum target <> EmptyString -> (0 <= rt_Size target)%Z ->
  copy_to e net target source dest w = (r, w') ->
  repair_effect target source (Some dest) w w' r /\ sv_inFlight (w_svc w') = sv_inFlight (w_svc w) /\
  (r = Ok tt ->
     is_Some (chunk_replicas (sv_db (w_svc w')) !! (rt_ChunkID target, Placement.ID dest)) /\
     has_digest_at (w_nodes w') (Placement.Address dest) (uuid_String (rt_ChunkID target)) (rt_Checksum target)).
Proof.
  intros Hsm Hne Hsize. unfold copy_to, wd_bind, svc at 1, store.
  destruct (RecordRepairPlan _ _ _ _ _) as [r1 d1] eqn:E1. apply only_jobs_inTx in E1.
  set (w1 := mkWorld ((w_svc w) <| sv_db := d1 |>) (w_nodes w)).
  assert (small_cluster (w_nodes w1)) as Hsm1 by done.
  destruct r1 as [[]|]; [|intros [= <- <-]; split_and!; [by apply repair_effect_idle|done|done]].
  destruct (replicate_call _ _ _ _ _ _ w1) as [r2 w2] eqn:E2.
  apply replicate_call_spec in E2 as (Hsvc&Hfiles&Hnf); [|done|done|done]. destruct E1 as [m Hd1].
  assert (forall r, repair_effect target source (Some dest) w w2 r) as Hsame.
  { intros r0. split; [done|by rewrite Hsvc; simpl; rewrite Hd1|]. intros k. left. rewrite Hsvc. simpl. by rewrite Hd1. }
  assert (sv_inFlight (w_svc w2) = sv_inFlight (w_svc w)) as Hslots by (by rewrite Hsvc).
  destruct r2 as [x|code].
  - destruct (check_call _ _ _ _ w2) as [r3 w3] eqn:E3. apply check_call_spec in E3 as [-> Hcheck].
    destruct r3 as [check|]; [|intros [= <- <-]; by split_and!].
    destruct (Exists check) eqn:Hex; simpl; [|intros [= <- <-]; by split_and!].
    destruct (String.eqb_spec (cr_Checksum check) (rt_Checksum target)) as [Hsum|]; simpl; [|intros [= <- <-]; by split_and!].
    destruct (Hcheck check eq_refl) as (n&Hn&_&Hdig). specialize (Hdig Hex eq_refl). rewrite Hsum in Hdig.
    unfold svc at 1. destruct (CompleteRepair _ _ _ _ _) as [r4 d4] eqn:E4. apply CompleteRepair_replicas in E4 as [Hsn E4].
    destruct r4 as [k|]; [|intros [= <- <-]; subst d4; split_and!; [|done|done]].
    2: { destruct (Hsame (Err (RepairStore e0))) as [F1 F2 F3]. by split. }
    destruct E4 as (row&Hrow&Hav). unfold svc. cbn [w_svc w_nodes].
    match goal with |- context [invalidateChunkOwnerCache e ?c ?s] => pose proof (invalidateChunkOwnerCache_db e c s) as Hi;
      destruct (invalidateChunkOwnerCache e c s) as [[] s2] end.
    destruct Hi as [Hdb Hif]. simpl in Hdb, Hif. intros [= <- <-]. cbn [w_svc w_nodes].
    destruct (Hsame (Ok tt)) as [F1 F2 F3]. split_and!; [|by rewrite Hif|].
    + split; cbn [w_svc w_nodes]; [done|by rewrite Hdb, Hsn|]. intros k'. simpl. rewrite Hdb, Hrow.
      destruct (decide (k' = (rt_ChunkID target, Placement.ID dest))) as [->|Hk'].
      * right; right. exists dest. rewrite lookup_insert_eq. simpl. by rewrite Hav.
      * rewrite lookup_insert_ne by done. destruct (F3 k') as [?|[(_&?&_)|(d&[= <-]&->&_)]]; [by left|done|done].
    + intros _. rewrite Hdb, Hrow, lookup_insert_eq. split; [done|]. by exists n.
  - assert ((code =? FailedPrecondition)%Z = false) as -> by (apply Z.eqb_neq; by intros ->).
    destruct (reportPhantomSource e net (rt_ChunkID target) source w2) as [[] w3] eqn:E3.
    apply reportPhantomSource_spec in E3 as (Hn3&Hs3&Hif3&Hk3). intros [= <- <-].
    destruct (Hsame (Err (RepairCall code))) as [F1 F2 F3]. split_and!; [|by rewrite Hif3|done].
    split; [by rewrite Hn3|by rewrite Hs3|]. intros k. simpl. destruct (Hk3 k) as [->|(->&Hnone&n&Hn&Hl)]; [apply F3|].
    right; left. split_and!; [done|done|done|]. specialize (Hfiles (rp_address source)). rewrite Hn in Hfiles. simpl in Hfiles.
    destruct (w_nodes w !! rp_address source) as [n0|]; [|by inversion Hfiles]. exists n0. split; [done|].
    inversion Hfiles; subst. by eapply stores_lacks.
Qed.

Lemma pickDestination_spec e cfg target s r s' :
  pickDestination e cfg target s = (r, s') ->
  sv_db s' = sv_db s /\
  match r with
  | Ok dest =>
      (Placement.ID dest ∉ rt_Occupied target) /\ (cached_roster_ok s -> known_node (sv_db s) dest) /\
      (forall k, sv_inFlight s !! Placement.ID dest = Some k -> k < rcf_MaxPerNode cfg)%Z /\
      sv_inFlight s' = <[Placement.ID dest := (default 0 (sv_inFlight s !! Placement.ID dest) + 1)%Z]> (sv_inFlight s)
  | Err _ => sv_inFlight s' = sv_inFlight s
  end.
Proof.
  unfold pickDestination, sv_bind, sv_gets. pose proof (healthyNodes_ok e s) as Hh.
  destruct (healthyNodes e s) as [ns s1]. destruct Hh as (Hros&cache&Hs1&_).
  assert (sv_db s1 = sv_db s) as Hdb by (by rewrite Hs1). assert (sv_inFlight s1 = sv_inFlight s) as Hif by (by rewrite Hs1). clear Hs1.
  set (req := mkRequest _ _ _ _). destruct (select_nodes ns req s1) as [r1 s2] eqn:Hs.
  destruct (select_nodes_frame _ _ _ _ _ Hs) as [placer ->]. destruct r1 as [sel|err]; [|intros [= <- <-]; by simpl].
  destruct sel as [|dest sel]; [intros [= <- <-]; by simpl|].
  destruct (select_nodes_eligible _ _ _ _ _ Hs dest) as [Hns Hex]; [by left|].
  intros [= <- <-]. simpl. split; [done|].
  unfold req in Hex. simpl in Hex. rewrite Hif in Hex |- *. split_and!; [set_solver| | |done].
  - intros Hc. destruct (Hros Hc) as [[_ Hknown] _]. rewrite Forall_forall in Hknown. by apply Hknown.
  - intros k Hk. destruct (decide (k < rcf_MaxPerNode cfg)%Z) as [|Hge]; [done|]. exfalso. apply Hex, elem_of_app. right.
    unfold saturated. apply list_elem_of_fmap. exists (Placement.ID dest, k). split; [done|].
    apply elem_of_map_to_list, map_lookup_filter_Some. simpl. split; [done|lia].
Qed.

(** A slot that is taken and released again. *)
Lemma release_slot_taken k s (m : gmap string Z) :
  map_Forall (fun _ n => 0 < n)%Z m -> sv_inFlight s = <[k := (default 0 (m !! k) + 1)%Z]> m ->
  sv_inFlight (release_slot k s).2 = m.
Proof.
  intros Hpos Hm. unfold release_slot. simpl. rewrite Hm, lookup_insert_eq. simpl.
  destruct (m !! k) as [n|] eqn:Hk; simpl.
  - pose proof (Hpos k n Hk). simpl in *. rewrite decide_False by lia. rewrite insert_insert_eq. apply insert_id. rewrite Hk. f_equal. lia.
  - by rewrite delete_insert_id.
Qed.

(** Everything one repair may do. *)
Record repair_ok (cfg : RepairConfig) (target : RepairTarget) (w w' : World) (r : result repair_error unit) : Prop := {
  ro_files : cluster_stores (uuid_String (rt_ChunkID target)) (rt_Size target) (rt_Checksum target) (w_nodes w) (w_nodes w');
  ro_slots : map_Forall (fun _ n => 0 < n)%Z (sv_inFlight (w_svc w)) -> sv_inFlight (w_svc w') = sv_inFlight (w_svc w);
  ro_nodes : storage_nodes (sv_db (w_svc w')) = storage_nodes (sv_db (w_svc w));
  ro_replicas : forall c n,
    let d := sv_db (w_svc w) in let d' := sv_db (w_svc w') in let id := uuid_String (rt_ChunkID target) in
    chunk_replicas d' !! (c, n) = chunk_replicas d !! (c, n) \/
    (c = rt_ChunkID target /\ r <> Ok tt /\ chunk_replicas d' !! (c, n) = None /\
     exists source rest nd, rt_Sources target = source :: rest /\ n = rp_node_id source /\
       w_nodes w !! rp_address source = Some nd /\ lacks nd id) \/
    (c = rt_ChunkID target /\ (n ∉ rt_Occupied target) /\ r = Ok tt /\
     cr_state <$> chunk_replicas d' !! (c, n) = Some ReplicaAvailable /\
     exists addr, has_digest_at (w_nodes w') addr id (rt_Checksum target) /\
       (cached_roster_ok (w_svc w) -> exists row, storage_nodes d !! n = Some row /\ sn_health row <> DEAD /\ sn_grpc_address row = addr))
}.

Lemma repair_ok_idle cfg target w w' r :
  w_nodes w' = w_nodes w -> only_jobs (sv_db (w_svc w)) (sv_db (w_svc w')) ->
  sv_inFlight (w_svc w') = sv_inFlight (w_svc w) -> repair_ok cfg target w w' r.
Proof. intros Hn [m Hd] Hs. split; [rewrite Hn; reflexivity|done|by rewrite Hd|]. intros c n. left. by rewrite Hd. Qed.

Lemma executeRepair_ok e cfg net target w r w' :
  small_cluster (w_nodes w) -> (0 <= rt_Size target)%Z ->
  executeRepair e cfg net target w = (r, w') -> repair_ok cfg target w w' r.
Proof.
  intros Hsm Hsize. unfold executeRepair. case_decide.
  { unfold wd_bind, svc, store. destruct (FinishRepairAsNoop _ _ _ _) as [r1 d1] eqn:E1. apply only_jobs_inTx in E1.
    intros [= <- <-]. by apply repair_ok_idle. }
  destruct (rt_Sources target) as [|source rest] eqn:Hsrc; [intros [= <- <-]; apply repair_ok_idle; [done|apply only_jobs_refl|done]|].
  destruct (String.eqb_spec (rt_Checksum target) EmptyString) as [|Hsum]; [intros [= <- <-]; apply repair_ok_idle; [done|apply only_jobs_refl|done]|].
  unfold wd_bind, svc at 1. destruct (pickDestination e cfg target (w_svc w)) as [picked s1] eqn:Hp.
  apply pickDestination_spec in Hp as [Hdb Hp]. destruct picked as [dest|err].
  - destruct Hp as (Hocc&Hknown&_&Hslot). destruct (copy_to e net target source dest _) as [r2 w2] eqn:Hcopy.
    apply copy_to_spec in Hcopy as ([F1 F2 F3]&Hif&Hok); [|done|done|done]. simpl in F1, F2, F3, Hif.
    unfold svc. intros [= <- <-]. split; cbn [w_svc w_nodes]; [done| | |].
    + intros Hpos. apply (release_slot_taken (Placement.ID dest) (w_svc w2)); [done|]. by rewrite Hif.
    + simpl. by rewrite F2, Hdb.
    + intros c n. simpl. rewrite <-Hdb. destruct (F3 (c, n)) as [?|[([= -> ->]&?&?&nd&?&?)|(d&[= <-]&[= -> ->]&->&?)]]; [by left| |].
      * right; left. split_and!; [done|done|done|]. by exists source, rest, nd.
      * right; right. split_and!; [done|done|done|done|]. exists (Placement.Address dest). split; [by apply Hok|]. intros HC.
        destruct (Hknown HC) as (row&Hrow&Haddr&Hdead). rewrite Hdb. by exists row.
  - case_decide; intros E.
    + unfold svc, store in E. cbn [w_svc w_nodes] in E. destruct (FinishRepairAsNoop _ _ _ _) as [r1 d1] eqn:E1 in E. apply only_jobs_inTx in E1. injection E as <- <-.
      apply repair_ok_idle; simpl; [done|by rewrite <-Hdb|done].
    + injection E as <- <-. apply repair_ok_idle; simpl; [done|rewrite Hdb; apply only_jobs_refl|done].
Qed.

(** Without a digest there is nothing to copy. *)
Lemma executeRepair_no_checksum e cfg net target w r w' :
  rt_Checksum target = EmptyString -> executeRepair e cfg net target w = (r, w') ->
  w_nodes w' = w_nodes w /\ only_jobs (sv_db (w_svc w)) (sv_db (w_svc w')) /\ sv_inFlight (w_svc w') = sv_inFlight (w_svc w).
Proof.
  intros Hsum. unfold executeRepair. case_decide.
  { unfold wd_bind, svc, store. destruct (FinishRepairAsNoop _ _ _ _) as [r1 d1] eqn:E1. apply only_jobs_inTx in E1. by intros [= <- <-]. }
  destruct (rt_Sources target); [intros [= <- <-]; split_and!; [done|apply only_jobs_refl|done]|].
  rewrite Hsum. intros [= <- <-]. split_and!; [done|apply only_jobs_refl|done].
Qed.

(** ** From the claim to the end *)

(** What a claimed job says is what the tables say. *)
Definition has_due_job (now : Z) (d : db) (c : N) : Prop :=
  exists i j, repair_jobs d !! i = Some j /\ claimable now j /\ rj_chunk_id j = c.

Lemma ClaimRepairJob_target now owner lease rf d r d' : ClaimRepairJob now owner lease rf d = (r, d') ->
  only_jobs d d' /\
  forall t, r = Ok t -> has_due_job now d (rt_ChunkID t) /\ exists ch, chunks d !! rt_ChunkID t = Some ch /\ rt_Checksum t = nullString (ck_checksum_sha256 ch) /\
    rt_Size t = ck_size_bytes ch /\ rt_Sources t = repair_sources d (rt_ChunkID t) /\
    (forall n, n ∈ rt_Occupied t <-> is_Some (chunk_replicas d !! (rt_ChunkID t, n))).
Proof.
  unfold ClaimRepairJob, inTx. destruct (ClaimRepairJob_tx now owner lease rf d) as [[t d1]|] eqn:E; intros [= <- <-];
    [|split; [apply only_jobs_refl|done]].
  unfold ClaimRepairJob_tx in E. apply tx_bind_ok in E as (m&d2&[-> ->]%gets_ok&E).
  destruct (order_by due_le _) as [|[id j] rest] eqn:Ho; [done|].
  assert ((id, j) ∈ rows_where (fun _ j => claimable now j) (repair_jobs d)) as [Hid Hdue]%elem_of_rows_where.
  { rewrite <-(elem_of_order_by due_le), Ho. left. }
  apply tx_bind_ok in E as (u&d2&Hu&E). assert (only_jobs d d2) as Hj by (tx_inv Hu; by eexists).
  apply tx_bind_ok in E as (row&d3&[-> ->]%gets_ok&E). destruct (chunks d2 !! rj_chunk_id j) as [ch|] eqn:Hch; [|done].
  apply tx_bind_ok in E as (d3&d4&[-> ->]%gets_ok&[-> ->]%tx_ret_ok). split; [done|]. intros t [= <-]. destruct Hj as [m ->].
  split; [by exists id, j|]. exists ch. simpl. split_and!; [done|done|done|done|]. intros n. by rewrite occupancy_spec.
Qed.
Lemma FailRepair_jobs now job cause backoff most d r d' : FailRepair now job cause backoff most d = (r, d') -> only_jobs d d'.
Proof.
  unfold FailRepair, inTx. destruct (tx_bind _ _ d) as [[b d1]|] eqn:E; intros [= <- <-]; [|apply only_jobs_refl].
  apply tx_bind_ok in E as (row&d2&[-> ->]%gets_ok&E). apply tx_bind_ok in E as (u&d2&Hu&E).
  assert (only_jobs d d2) as Hj by (tx_inv Hu; by eexists). destruct (repair_jobs d !! job); [|done]. by apply tx_ret_ok in E as [_ ->].
Qed.

Lemma repair_sources_address d c source : source ∈ repair_sources d c ->
  exists row r, storage_nodes d !! rp_node_id source = Some row /\ rp_address source = sn_grpc_address row /\
    chunk_replicas d !! (c, rp_node_id source) = Some r /\ cr_state r = ReplicaAvailable.
Proof.
  unfold repair_sources. intros ([n row]&->&Hin)%list_elem_of_fmap. apply elem_of_order_by, list_elem_of_filter in Hin as [_ Hin].
  unfold available_nodes in Hin. apply list_elem_of_omap in Hin as ([[c' m] r]&[Hr [Hc Hst]]%elem_of_rows_where&Hn). simpl in *. subst c'.
  destruct (storage_nodes d !! m) as [x|] eqn:Hx; [|done]. injection Hn as <- <-. by exists x, r.
Qed.

(** The replica rows of a chunk after a repair, given the digest it must have. *)
Definition row_repaired (w w' : World) (c : N) (sum n : string) : Prop :=
  let d := sv_db (w_svc w) in let d' := sv_db (w_svc w') in let id := uuid_String c in
  (chunk_replicas d !! (c, n) = None /\ cr_state <$> chunk_replicas d' !! (c, n) = Some ReplicaAvailable /\
   exists row addr, storage_nodes d !! n = Some row /\ has_digest_at (w_nodes w') addr id sum /\
     (cached_roster_ok (w_svc w) -> sn_health row <> DEAD /\ sn_grpc_address row = addr)) \/
  (cr_state <$> chunk_replicas d !! (c, n) = Some ReplicaAvailable /\ chunk_replicas d' !! (c, n) = None /\
   exists row nd, storage_nodes d !! n = Some row /\ w_nodes w !! sn_grpc_address row = Some nd /\ lacks nd id).

(** A repair leaves everything but the queue, or works on one chunk, for which a
    job was due. *)
Definition repaired (now : Z) (w w' : World) : Prop :=
  let d := sv_db (w_svc w) in let d' := sv_db (w_svc w') in
  w_nodes w' = w_nodes w /\ only_jobs d d' \/
  exists c ch sum, has_due_job now d c /\ chunks d !! c = Some ch /\ ck_checksum_sha256 ch = Some sum /\
    cluster_stores (uuid_String c) (ck_size_bytes ch) sum (w_nodes w) (w_nodes w') /\
    forall c' n, chunk_replicas d' !! (c', n) = chunk_replicas d !! (c', n) \/ c' = c /\ row_repaired w w' c sum n.

Lemma repaired_only_jobs now w w1 w' :
  w_nodes w' = w_nodes w1 -> only_jobs (sv_db (w_svc w1)) (sv_db (w_svc w')) -> repaired now w w1 -> repaired now w w'.
Proof.
  intros Hn [m Hd] [[Hn1 [m1 Hd1]]|(c&ch&sum&Hdue&Hc&Hs&Hf&Hr)].
  - left. split; [congruence|]. exists m. by rewrite Hd, Hd1.
  - right. exists c, ch, sum. split_and!; [done|done|done|by rewrite Hn|]. unfold row_repaired. rewrite Hn, Hd. exact Hr.
Qed.

Lemma executeRepair_repaired now e cfg net target w d r w' :
  let w1 := mkWorld ((w_svc w) <| sv_db := d |>) (w_nodes w) in
  schema_ok (sv_db (w_svc w')) -> small_cluster (w_nodes w) -> schema_ok (sv_db (w_svc w)) -> only_jobs (sv_db (w_svc w)) d ->
  has_due_job now (sv_db (w_svc w)) (rt_ChunkID target) ->
  (exists ch, chunks (sv_db (w_svc w)) !! rt_ChunkID target = Some ch /\ rt_Checksum target = nullString (ck_checksum_sha256 ch) /\
     rt_Size target = ck_size_bytes ch /\ rt_Sources target = repair_sources (sv_db (w_svc w)) (rt_ChunkID target) /\
     (forall n, n ∈ rt_Occupied target <-> is_Some (chunk_replicas (sv_db (w_svc w)) !! (rt_ChunkID target, n)))) ->
  executeRepair e cfg net target w1 = (r, w') ->
  repaired now w w' /\ storage_nodes (sv_db (w_svc w')) = storage_nodes (sv_db (w_svc w)) /\
  (map_Forall (fun _ n => 0 < n)%Z (sv_inFlight (w_svc w)) -> sv_inFlight (w_svc w') = sv_inFlight (w_svc w)).
Proof.
  intros w1 Hs' Hsm Hs [m Hd] Hdue (ch&Hch&Hsum&Hsize&Hsrc&Hocc) E.
  destruct (String.eqb_spec (rt_Checksum target) EmptyString) as [Hno|Hne].
  { apply executeRepair_no_checksum in E as (Hn&[m' Hj]&Hif); [|done]. simpl in *.
    split_and!; [left; split; [done|]; exists m'; by rewrite Hj, Hd|by rewrite Hj, Hd|by rewrite Hif]. }
  assert (0 <= rt_Size target)%Z as Hsz.
  { rewrite Hsize. by apply (so_chunks _ Hs (rt_ChunkID target)). }
  destruct (executeRepair_ok e cfg net target w1 r w' Hsm Hsz E) as [Hfiles Hslots Hnodes Hrows]. simpl in *.
  split_and!; [right|by rewrite Hnodes, Hd|done]. destruct (ck_checksum_sha256 ch) as [sum|] eqn:Hck; [|by rewrite Hsum in Hne].
  rewrite Hsum in Hrows, Hfiles. rewrite Hsize in Hfiles. simpl in Hrows, Hfiles. rewrite Hd in Hrows, Hnodes. simpl in *.
  exists (rt_ChunkID target), ch, sum. split_and!; [done|done|done|done|]. intros c' n.
  destruct (Hrows c' n) as [Hsame|[(->&_&Hnone&source&rest&nd&Hso&->&Hnd&Hl)|(->&Hno&_&Hav&addr&Hdig&Hco)]]; [by left| |]; right; (split; [done|]).
  - right. destruct (repair_sources_address (sv_db (w_svc w)) (rt_ChunkID target) source) as (row&r0&Hrow&Haddr&Hr0&Hst).
    { rewrite <-Hsrc, Hso. by left. }
    split_and!; [by rewrite Hr0; simpl; rewrite Hst|done|]. exists row, nd. by rewrite <-Haddr.
  - left. split_and!; [|done|].
    + apply eq_None_not_Some. rewrite <-Hocc. done.
    + destruct (chunk_replicas (sv_db (w_svc w')) !! (rt_ChunkID target, n)) as [r1|] eqn:Hr1; [|done].
      destruct (so_replica_node _ Hs' (rt_ChunkID target, n) r1 Hr1 n eq_refl) as [row Hrow]. rewrite Hnodes in Hrow.
      exists row, addr. split_and!; [done|done|]. intros HC. destruct Hco as (row'&Hrow'&Hdead&Haddr).
      * intros t ns Hv. eapply (HC t). exact Hv.
      * rewrite Hrow in Hrow'. by injection Hrow' as <-.
Qed.

(** C9: what a repair may do, whatever fails on the way. Take one whole run of
    the repair worker, from claiming a job to reporting its end, on an integral
    database and nodes whose files are shorter than 2^63 bytes, with nothing
    else changing the tables meanwhile. No node loses a chunk: every file is as
    before, except that the file of the repaired chunk may now be a complete copy
    with the length and the digest of the chunk's row. The slot taken for the
    destination is given back. At most the replica rows of one chunk change, one
    for which a job was due when the run began, and in two ways only. A row
    appears, AVAILABLE, on a registered node that had no row of the chunk in any
    state, and at the address the repair used there is a file with the recorded
    digest; if the cached roster agrees with the database, the address is the
    node's and the node is not DEAD. Or the AVAILABLE row of a node disappears
    that has no file of the chunk. *)
Theorem claimAndRepair_verified e cfg owner net w r w' :
  schema_ok (sv_db (w_svc w)) -> small_cluster (w_nodes w) -> claimAndRepair e cfg owner net w = (r, w') ->
  repaired (e_dbnow e) w w' /\ schema_ok (sv_db (w_svc w')) /\ storage_nodes (sv_db (w_svc w')) = storage_nodes (sv_db (w_svc w)) /\
  (map_Forall (fun _ n => 0 < n)%Z (sv_inFlight (w_svc w)) -> sv_inFlight (w_svc w') = sv_inFlight (w_svc w)).
Proof.
  intros Hs Hsm E.
  assert (schema_ok (sv_db (w_svc w'))) as Hs'.
  { pose proof (refines_claimAndRepair (fun s => s) e cfg owner net w) as H. rewrite E in H. exact (db_refines_schema (fun s => s) _ _ H Hs). }
  revert E. unfold claimAndRepair, wd_bind, svc at 1, store at 1.
  destruct (ClaimRepairJob _ _ _ _ (sv_db (w_svc w))) as [r1 d1] eqn:E1.
  pose proof (keeps_ClaimRepairJob _ _ _ _ _ _ _ Hs E1) as Hd1. apply ClaimRepairJob_target in E1 as [Hj Ht].
  set (w1 := mkWorld ((w_svc w) <| sv_db := d1 |>) (w_nodes w)).
  assert (repaired (e_dbnow e) w w1 /\ storage_nodes d1 = storage_nodes (sv_db (w_svc w))) as [Hrep1 Hn1].
  { split; [by left|]. destruct Hj as [m ->]. done. }
  destruct r1 as [target|[]]; try (intros [= <- <-]; by split_and!).
  destruct (executeRepair e cfg net target w1) as [r2 w2] eqn:E2.
  assert (schema_ok (sv_db (w_svc w2))) as Hs2.
  { pose proof (refines_executeRepair (fun s => s) e cfg net target w1) as H. rewrite E2 in H. exact (db_refines_schema (fun s => s) _ _ H Hd1). }
  destruct (executeRepair_repaired (e_dbnow e) e cfg net target w d1 r2 w2 Hs2 Hsm Hs Hj (proj1 (Ht target eq_refl)) (proj2 (Ht target eq_refl)) E2) as (Hrep&Hn&Hslots).
  destruct r2 as [u|err]; [intros [= <- <-]; by split_and!|]. destruct (rn_shutdown net); [intros [= <- <-]; by split_and!|].
  unfold svc, store. destruct (FailRepair _ _ _ _ _ (sv_db (w_svc w2))) as [r3 d3] eqn:E3. apply FailRepair_jobs in E3.
  intros [= <- <-]. split_and!; [by apply (repaired_only_jobs _ w w2)|done| |done]. destruct E3 as [m3 E3]. simpl. by rewrite E3.
Qed.

(** A source whose copy is rotten is not demoted. When the first source of a
    claimed repair holds a file of the chunk with another digest than the
    recorded one, and the nodes that have no replica row hold no file of it, then
    whatever the network does executeRepair changes no replica row, no file and
    not the order of the sources, and it fails unless it defers; so the next
    attempt meets the same source again. The branch that is to demote such a
    source waits for FailedPrecondition from the destination, which answers
    Internal: the source's own verification ends the stream with an error. *)
Theorem rotten_source_stays e cfg net target source rest nd w r w' :
  small_cluster (w_nodes w) -> (0 <= rt_Size target)%Z -> cached_roster_ok (w_svc w) ->
  let c := rt_ChunkID target in let id := uuid_String c in let d := sv_db (w_svc w) in
  rt_Sources target = source :: rest -> (0 < rt_DesiredReplicas target)%Z -> rt_Checksum target <> EmptyString ->
  w_nodes w !! rp_address source = Some nd -> ~ lacks nd id -> ~ has_digest nd id (rt_Checksum target) ->
  (forall n row nd', storage_nodes d !! n = Some row -> n ∉ rt_Occupied target ->
     w_nodes w !! sn_grpc_address row = Some nd' -> lacks nd' id) ->
  executeRepair e cfg net target w = (r, w') ->
  let d' := sv_db (w_svc w') in
  chunk_replicas d' = chunk_replicas d /\ repair_sources d' c = repair_sources d c /\
  same_files (w_nodes w) (w_nodes w') /\ (rt_TransientOccupancy target = 0%Z -> r <> Ok tt).
Proof.
  intros Hsm Hsize Hroster c id d Hsrc Hdes Hne Hnd Hhas Hrot Hfree. pose proof (executeRepair_ok e cfg net target w r w' Hsm Hsize) as Hok.
  intros Hex d'. specialize (Hok Hex). destruct Hok as [_ _ Hnodes Hrep].
  assert (~ has_digest_at (w_nodes w) (rp_address source) id (rt_Checksum target)) as Hno.
  { intros (n&Hn&Hd). apply Hrot. by rewrite Hnd in Hn; injection Hn as <-. }
  assert (same_files (w_nodes w) (w_nodes w') /\ (r = Ok tt -> rt_TransientOccupancy target <> 0%Z)) as [Hsame Hr].
  { clear Hrep Hnodes. unfold executeRepair in Hex. rewrite decide_False in Hex by lia. rewrite Hsrc in Hex.
    rewrite (proj2 (String.eqb_neq _ _) Hne) in Hex. unfold wd_bind, svc at 1 in Hex.
    destruct (pickDestination e cfg target (w_svc w)) as [picked s1] eqn:Hp.
    apply pickDestination_spec in Hp as [Hdb Hp].
    assert (same_files (w_nodes w) (w_nodes w)) as Hrefl by (intros a; by destruct (w_nodes w !! a); constructor).
    destruct picked as [dest|err].
    - destruct Hp as (Hocc&Hknown&_&_). destruct (Hknown Hroster) as (row&Hrow&Haddr&_). unfold copy_to, wd_bind, svc, store in Hex. cbn [w_svc w_nodes] in Hex.
      destruct (RecordRepairPlan _ _ _ _ _) as [[[]|er] d1]; [|by injection Hex as <- <-].
      destruct (replicate_call _ _ _ _ _ _ _) as [r2 w2] eqn:E2.
      apply replicate_call_no_source in E2 as [Hsame [code ->]]; [|done|done|done|].
      2: { intros n Hn. simpl in Hn. rewrite <-Haddr in Hn. by eapply Hfree. }
      simpl in Hsame. destruct (code =? FailedPrecondition)%Z.
      + destruct (MarkReplicaCorrupt _ _ _ _ _). by injection Hex as <- <-.
      + destruct (reportPhantomSource e net (rt_ChunkID target) source w2) as [[] w3] eqn:E3.
        apply reportPhantomSource_spec in E3 as [Hn3 _]. injection Hex as <- <-. simpl. by rewrite Hn3.
    - case_decide as Hdef.
      + unfold svc, store in Hex. destruct (FinishRepairAsNoop _ _ _ _). injection Hex as <- <-. split; [done|]. lia.
      + by injection Hex as <- <-. }
  assert (chunk_replicas d' = chunk_replicas d) as Hcr.
  { apply map_eq. intros [c' n]. destruct (Hrep c' n) as [?|[(->&_&_&source'&rest'&nd'&Hs&->&Hn'&Hl)|(->&Hocc&_&_&addr&(nd'&Hn'&p&f&Hp&Hf&_)&Hco)]]; [done| |].
    - rewrite Hsrc in Hs. injection Hs as <- <-. rewrite Hnd in Hn'. by injection Hn' as <-.
    - destruct (Hco Hroster) as (row&Hrow&_&<-). specialize (Hsame (sn_grpc_address row)). rewrite Hn' in Hsame. inversion Hsame as [n0 ? Hd0 Heq|]; subst.
      rewrite Hd0, (Hfree n row n0 Hrow Hocc (eq_sym Heq) p Hp) in Hf. done. }
  split_and!; [done| |done|by intros Ht Hrok; apply Hr in Hrok].
  unfold repair_sources, available_nodes. unfold d', d in *. by rewrite Hcr, Hnodes.
Qed.
End repair.

(** The node n1 holds the chunk; it is copied to n3. *)
Definition one_copy : World := degraded (three_nodes (node_with 20 two_bytes) empty_node empty_node).

Lemma claimAndRepair_verified_witness :
  let w := claimAndRepair (at_time 8 0) sample_repair_config "coordinator" good_net one_copy in
  w.1 = (true, None) /\ has_digest_at (w_nodes w.2) "n3:7000" (uuid_String 20) (Sum two_bytes).
Proof.
  set (w := claimAndRepair _ _ _ _ _). assert (w.1 = (true, None)) as Hw by (vm_compute; reflexivity).
  assert (sv_cache (w_svc one_copy) = Noop) as Hcache by (vm_compute; reflexivity).
  assert (chunk_replicas (sv_db (w_svc one_copy)) !! (20%N, "n3") = None) as Hnone by (vm_compute; reflexivity).
  assert (cr_state <$> chunk_replicas (sv_db (w_svc w.2)) !! (20%N, "n3") = Some ReplicaAvailable) as Hsome
    by (vm_compute; reflexivity).
  assert (sn_grpc_address <$> storage_nodes (sv_db (w_svc one_copy)) !! "n3" = Some "n3:7000") as Haddr
    by (vm_compute; reflexivity).
  assert ((chunks (sv_db (w_svc one_copy)) !! 20%N ≫= ck_checksum_sha256) = Some (Sum two_bytes)) as Hsum by (vm_compute; reflexivity).
  destruct (claimAndRepair_verified (at_time 8 0) sample_repair_config "coordinator" good_net one_copy w.1 w.2) as [H _].
  - exact (degraded_schema _).
  - apply (bool_decide_unpack _). vm_compute. exact I.
  - apply surjective_pairing.
  - split; [exact Hw|]. destruct H as [[_ Hj]|(c&ch&sum&_&Hc&Hs&_&H)].
    { rewrite (only_jobs_replicas _ _ Hj), Hnone in Hsome. discriminate Hsome. }
    destruct (H 20%N "n3") as [H0|[<- [(_&_&row&addr&Hrow&Hdig&Hco)|(H0&_)]]];
      [rewrite H0, Hnone in Hsome; discriminate Hsome| |rewrite Hnone in H0; discriminate H0].
    destruct Hco as [_ Ha]; [unfold cached_roster_ok; rewrite Hcache; discriminate|].
    rewrite Hrow in Haddr. injection Haddr as Haddr. rewrite Hc in Hsum. cbn [mbind option_bind] in Hsum. rewrite Hs in Hsum. injection Hsum as <-.
    rewrite <-Haddr, Ha. exact Hdig.
Defined.

(** The copy on n1 has rotted. *)
Definition rotten_copy : World := (claim (degraded (three_nodes (node_with 20 [x00]) empty_node empty_node))).2.

Lemma rotten_source_stays_witness :
  let w := executeRepair (at_time 8 0) sample_repair_config good_net sample_target rotten_copy in
  w.1 = Err (RepairCall Internal) /\
  cr_state <$> chunk_replicas (sv_db (w_svc w.2)) !! (20%N, "n1") = Some ReplicaAvailable.
Proof.
  set (w := executeRepair _ _ _ _ _).
  assert (sv_cache (w_svc rotten_copy) = Noop) as Hcache by (vm_compute; reflexivity).
  assert (map_Forall (fun n row => n ∈ ["n1"; "n2"] \/
    (fun nd : node => size (d_data (n_disk nd))) <$> w_nodes rotten_copy !! sn_grpc_address row = Some 0%nat)
    (storage_nodes (sv_db (w_svc rotten_copy)))) as Hall by (apply (bool_decide_unpack _); vm_compute; exact I).
  set (p := ["00"; "00"; uuid_String 20 +:+ chunkSuffix]).
  assert (RelativePath (uuid_String 20) = Some p) as Hp by (vm_compute; reflexivity).
  assert (d_data (n_disk (node_with 20 [x00])) !! p = Some (mkFile [x00] 0)) as Hf by (vm_compute; reflexivity).
  destruct (rotten_source_stays (at_time 8 0) sample_repair_config good_net sample_target
    (mkReplicaView "n1" "n1:7000" (Some HEALTHY) ReplicaAvailable 0) [] (node_with 20 [x00]) rotten_copy w.1 w.2) as [H _].
  - apply (bool_decide_unpack _). vm_compute. exact I.
  - vm_compute. discriminate.
  - unfold cached_roster_ok. rewrite Hcache. discriminate.
  - reflexivity.
  - reflexivity.
  - vm_compute. discriminate.
  - vm_compute. reflexivity.
  - intros H. discriminate (eq_trans (eq_sym (H p Hp)) Hf).
  - intros (q&f&Hq&Hf'&Hs). change (rt_ChunkID sample_target) with 20%N in Hq. rewrite Hp in Hq. injection Hq as <-.
    apply (eq_trans (eq_sym Hf)) in Hf'. injection Hf' as <-. revert Hs. vm_compute. discriminate.
  - intros n row nd Hrow Hocc Hnd q _.
    destruct (Hall n row Hrow) as [Hin|Hin]; [destruct (Hocc Hin)|]. rewrite Hnd in Hin. injection Hin as Hin.
    apply map_size_empty_inv in Hin. rewrite Hin. apply lookup_empty.
  - apply surjective_pairing.
  - split; [vm_compute; reflexivity|]. rewrite H. vm_compute. reflexivity.
Defined.
