(* ===== verification/Races.v ===== *)
(** * Work that overtakes other work

    Concrete runs of the whole system in which two workers, each correct on its
    own, undo each other's work. *)

From Stdlib Require Import Strings.Byte.
From stdpp Require Import base numbers gmap strings list.
From S2P Require Import Prelude Chunking Checksum ChunkStore StorageService ChunkWriter GoFloat GoStrings Placement Health Validate Uuid Cache.
From S2P Require Import Sql Schema Statements Chunks Objects Nodes Repair Gc Reconcile Multipart Coordinator Workers Reconciler.
From S2P Require Import Refinement Samples RepairExec.

(** The repair copies the chunk to n3 but its response is lost; the
    nodes are reconciled, as they are after they register, so that the copy is
    queued as an orphan; the retried repair finds the copy and registers it. *)
Definition repair_after_orphan : list action := degraded_acts ["n1"] ["n2"] ++ [
  A_Repair (at_time 7 0) sample_repair_config "coordinator"
    (mkRepairNet (mkFate true true no_faults 0 EmptyString) (Some (no_faults, reliable)) good_fate good_fate false EmptyString);
  A_Reconcile (at_time 8 0) sample_reconcile "coordinator" quiet_net;
  A_Reconcile (at_time 8 0) sample_reconcile "coordinator" quiet_net;
  A_Reconcile (at_time 8 0) sample_reconcile "coordinator" quiet_net;
  A_Repair (at_time 1000009 0) sample_repair_config "coordinator" good_net
].
(** Then the node n1 loses its disk, and the garbage collector runs. *)
Definition n1_lost : action := A_Nodes (fun nodes => <["n1:7000" := empty_node]> nodes).
Definition collect : action := A_GC (at_time 1000010 0) 1000000000 10 (fun _ => false) (fun _ => good_fate).

Definition before_collection : World :=
  serve_all (fun s => s) (repair_after_orphan ++ [n1_lost]) (start (three_nodes (node_with 20 two_bytes) empty_node empty_node)).
Definition after_collection : World := serve (fun s => s) collect before_collection.

(** No node holds the chunk. *)
Definition lost (nodes : cluster) (chunkID sum : string) : Prop := map_Forall (fun _ n => ~ has_digest n chunkID sum) nodes.

(** A deletion queued for an orphan outlives the reason it was queued for.
    The guards of QueueOrphanDeletion are evaluated when the job is queued;
    neither the garbage collector nor CompleteRepair looks at it again. In this
    run of the coordinator's handlers and workers a repair registers, after
    verifying it, a copy on a node for which an orphan deletion is pending. The
    other copy is lost with its node's disk. The next garbage collection deletes
    the verified AVAILABLE copy, the last one of a COMMITTED chunk of a COMPLETE
    object. *)
Theorem orphan_deletion_takes_the_last_copy :
  let d := sv_db (w_svc before_collection) in let d' := sv_db (w_svc after_collection) in
  (cr_state <$> chunk_replicas d !! (20%N, "n3") = Some ReplicaAvailable /\
   has_digest_at (w_nodes before_collection) "n3:7000" (uuid_String 20) (Sum two_bytes)) /\
  chunk_replicas d' !! (20%N, "n3") = None /\
  lost (w_nodes after_collection) (uuid_String 20) (Sum two_bytes) /\
  ck_state <$> chunks d' !! 20%N = Some ChunkCommitted /\ ob_state <$> objects d' !! 10%N = Some ObjectComplete.
Proof.
  cbv zeta. split_and!; [vm_compute; reflexivity| |vm_compute; reflexivity| |vm_compute; reflexivity..].
  - apply digest_at_Some. vm_compute. reflexivity.
  - assert (map_Forall (fun _ (n : node) => size (d_data (n_disk n)) = 0%nat) (w_nodes after_collection)) as H.
    { apply (bool_decide_unpack _). vm_compute. exact I. }
    intros a n Hn (p&f&_&Hf&_). specialize (H a n Hn). simpl in H. apply map_size_empty_inv in H. by rewrite H, lookup_empty in Hf.
Qed.
