(* ===== verification/Gateway.v ===== *)
(** * The gateway's handlers

    CoordinatorClient (src/internal/gateway/client.go) with the retries of
    src/internal/retry/retry.go, the upload loop (handler.go), the object and
    the multipart handlers (objects.go, multipart.go) and the mapping of errors
    to HTTP statuses (src/internal/apierr/apierr.go). What the network does to
    each call is an argument. Headers other than those named, the JSON
    documents and the pool of buffers are left out; a buffer of the pool has
    the length asked for. *)

From Stdlib Require Import Strings.Byte.
From stdpp Require Import base numbers gmap strings list sorting.
From S2P Require Import Prelude Chunking Checksum GoStrings RangeReq Download ChunkStore StorageService ChunkWriter.
From S2P Require Import GoFloat Placement Health Validate Uuid Cache.
From S2P Require Import Sql Schema Statements Chunks Objects Nodes Repair Gc Reconcile Multipart Coordinator Workers.

(** ** Errors *)

Definition Unknown : Z := 2.
Definition AlreadyExists : Z := 6.
Definition Unimplemented : Z := 12.

Inductive Code :=
  | CodeNoSuchKey | CodeNoSuchUpload | CodeInvalidBucketName | CodeInvalidKey | CodeInvalidPartNumber
  | CodeInvalidRequest | CodeEntityTooLarge | CodeCorruptObject | CodeInsufficientCapacity
  | CodeInsufficientReplicas | CodeServiceUnavailable | CodeInternalError | CodeRequestTimeout
  | CodeClientClosedRequest | CodeMethodNotAllowed | CodeUploadIncomplete | CodeInvalidRange
  | CodeAccessDenied | CodeSlowDown.

(** An error with its HTTP status and code, or a gRPC error. *)
Inductive gw_error :=
  | ApiErr (status : Z) (code : Code)
  | RpcErr (code : Z).

(** The status and the code the client gets. *)
Definition apierr_From (e : gw_error) : Z * Code :=
  match e with
  | ApiErr status code => (status, code)
  | RpcErr code =>
      if (code =? NotFound)%Z then (404, CodeNoSuchKey)
      else if (code =? InvalidArgument)%Z then (400, CodeInvalidRequest)
      else if (code =? AlreadyExists)%Z then (409, CodeInvalidRequest)
      else if (code =? FailedPrecondition)%Z then (422, CodeCorruptObject)
      else if (code =? ResourceExhausted)%Z then (507, CodeInsufficientCapacity)
      else if (code =? Unavailable)%Z then (503, CodeServiceUnavailable)
      else if (code =? DeadlineExceeded)%Z then (504, CodeRequestTimeout)
      else if (code =? Canceled)%Z then (499, CodeClientClosedRequest)
      else if (code =? Unimplemented)%Z then (501, CodeInternalError)
      else (500, CodeInternalError)
  end%Z.

(** ** Calls to the coordinator *)

(** One attempt of a call: the coordinator's clock and identifiers, whether the
    request arrives, the status the client sees if the response is lost, and
    whether the context is done before the attempt or during the wait after it. *)
Record attempt := mkAttempt {
  at_env : env;
  at_up : bool;
  at_lost : option Z;
  at_cancelled : bool;
  at_interrupted : bool
}.

Definition isTransient (code : Z) : bool :=
  (code =? Unavailable)%Z || (code =? DeadlineExceeded)%Z || (code =? Aborted)%Z.

Section client.
Context {A : Type} (attempts : nat -> attempt) (fn : env -> Rpc A).

(** A call of the generated stub. *)
Definition stub_call (a : attempt) : Rpc A := fun s =>
  if negb (at_up a) then (Err Unavailable, s)
  else
    let '(r, s') := fn (at_env a) s in
    match at_lost a with Some code => (Err code, s') | None => (r, s') end.

(** The loop of retry.Do from attempt [i], with [left] attempts to go; [last]
    is the error of the attempt before. *)
Fixpoint retry_loop (left i : nat) (last : option Z) : Rpc A :=
  match left with
  | O => refuse (default Unknown last)
  | S left' =>
      if at_cancelled (attempts i) then refuse (default Unknown last)
      else
        sv! r := stub_call (attempts i) in
        match r with
        | Ok a => answer a
        | Err code =>
            if negb (isTransient code) then refuse code
            else if decide (left' = 0)%nat then refuse code
            else if at_interrupted (attempts i) then refuse code
            else retry_loop left' (S i) (Some code)
        end
  end.

(** DefaultPolicy's MaxAttempts *)
Definition maxAttempts : nat := 3.
Definition client_call (retryable : bool) : Rpc A := retry_loop (if retryable then maxAttempts else 1) 1 None.
End client.

(** The calls of CoordinatorClient; CommitChunk and CompleteUpload are not
    retried. *)
Section methods.
Context `{PG : !Postgres, UU : !Uuid, GM : !GoMath, GS : !GoSort} (attempts : nat -> attempt).

Definition client_BeginUpload (bucket key contentType : string) (chunkSize : Z) : Rpc BeginUploadReply :=
  client_call attempts (fun e => BeginUpload_rpc e bucket key contentType chunkSize) true.
Definition client_AllocateChunk (objectID partID : string) (index size : Z) : Rpc AllocateChunkReply :=
  client_call attempts (fun e => AllocateChunk_rpc e objectID partID index size) true.
Definition client_CommitChunk (chunkID sum : string) (size : Z) (succeeded failed : list string) : Rpc Z :=
  client_call attempts (fun e => CommitChunk_rpc e chunkID sum size succeeded failed) false.
Definition client_CompleteUpload (objectID : string) (size count : Z) (etag : string) : Rpc (string * string * option Z) :=
  client_call attempts (fun e => CompleteUpload_rpc e objectID size count etag) false.
Definition client_AbortUpload (objectID reason : string) : Rpc unit :=
  client_call attempts (fun e => AbortUpload_rpc e objectID reason) true.
Definition client_GetObject (bucket key : string) : Rpc LayoutMsg :=
  client_call attempts (fun e => GetObject_rpc e bucket key) true.
Definition client_HeadObject (bucket key : string) : Rpc ObjectMsg :=
  client_call attempts (fun _ => HeadObject_rpc bucket key) true.
Definition client_ReportCorruptReplica (chunkID nodeID detail : string) : Rpc (Z * bool) :=
  client_call attempts (fun e => ReportCorruptReplica e chunkID nodeID detail) true.
Definition client_DeleteObject (bucket key : string) : Rpc (option string) :=
  client_call attempts (fun e => DeleteObject_rpc e bucket key) true.
End methods.

(** ** Replies *)

(** The status and the headers that carry a result; the identifier is the
    object's, the part's or the upload's. An error carries its code. *)
Record HttpReply := mkHttpReply {
  hr_Status : Z;
  hr_ETag : string;
  hr_Id : string;
  hr_Count : Z;
  hr_Error : option Code
}.
Abbreviation mkReply status etag id count := (mkHttpReply status etag id count None).
(** apierr.Write *)
Definition fail (e : gw_error) : HttpReply :=
  mkHttpReply (apierr_From e).1 EmptyString EmptyString 0 (Some (apierr_From e).2).

Definition quote : string := String (Ascii.ascii_of_N 34) EmptyString.
Definition quoteETag (e : string) : string := if String.eqb e EmptyString then EmptyString else quote +:+ e +:+ quote.

(** ** The upload loop *)

(** The part of config.Gateway the handlers read. *)
Record GatewayConfig := mkGatewayConfig {
  gw_ChunkSize : Z;
  gw_MaxObjectSize : Z
}.

Record chunkOwner := mkChunkOwner {
  ow_objectID : string;
  ow_partID : string
}.
Record uploadResult := mkUploadResult {
  ur_SizeBytes : Z;
  ur_ChunkCount : Z;
  ur_ETag : string
}.

(** What the network does during an upload, by the index of the chunk. *)
Record upload_net := mkUploadNet {
  un_begin : nat -> attempt;
  un_alloc : Z -> nat -> attempt;
  un_links : Z -> string -> link;
  un_order : Z -> list RangeReq.NodeInfo -> list RangeReq.NodeInfo;
  un_commit : Z -> nat -> attempt;
  un_record : Z -> attempt;
  un_complete : nat -> attempt;
  un_abort : nat -> attempt
}.

Definition target_info (n : Placement.NodeInfo) : RangeReq.NodeInfo := mkNodeInfo (Placement.ID n) (Placement.Address n).

(** The nodes of the world as an argument of their own. *)
Definition on_nodes {A} (f : cluster -> A * cluster) : Wd A := fun w =>
  let '(a, nodes) := f (w_nodes w) in (a, mkWorld (w_svc w) nodes).

Section gateway.
Context `{PG : !Postgres, UU : !Uuid, GM : !GoMath, GS : !GoSort} (sha256 : string -> string).

Definition recordFailedCommit (a : attempt) (chunkID sum : string) (size : Z) (res : FanoutResult) : Wd unit :=
  if decide (length (Succeeded res) = 0 /\ length (Failed res) = 0)%nat then wd_ret tt
  else
    act! svc (stub_call (fun e => CommitChunk_rpc e chunkID sum size (Succeeded res) (Failed res)) a) in
    wd_ret tt.

(** One chunk of the stream. *)
Definition upload_chunk (net : upload_net) (owner : chunkOwner) (chunk : Chunk) : Wd (result gw_error unit) :=
  let i := ch_Index chunk in
  let data := ch_Data chunk in
  let size := Z.of_nat (length data) in
  let sum := Sum data in
  wd! r := svc (client_AllocateChunk (un_alloc net i) (ow_objectID owner) (ow_partID owner) (Prelude.int32 i) size) in
  match r with
  | Err code =>
      wd_ret (Err (if (code =? ResourceExhausted)%Z then ApiErr 503 CodeInsufficientCapacity
                   else ApiErr 502 CodeServiceUnavailable))
  | Ok alloc =>
      let minReplicas := if decide (ac_MinWriteReplicas alloc < 1)%Z then 1%Z else ac_MinWriteReplicas alloc in
      wd! r := on_nodes (fun nodes =>
                 ChunkWriter_Write nodes (un_links net i) (un_order net i) (ac_ChunkId alloc) data sum
                   (target_info <$> ac_Targets alloc) minReplicas) in
      let '(res, err) := r in
      match err with
      | Some _ =>
          act! recordFailedCommit (un_record net i) (ac_ChunkId alloc) sum size res in
          wd_ret (Err (ApiErr 503 CodeInsufficientReplicas))
      | None =>
          wd! r := svc (client_CommitChunk (un_commit net i) (ac_ChunkId alloc) sum size (Succeeded res) (Failed res)) in
          match r with
          | Err code =>
              wd_ret (Err (if (code =? ResourceExhausted)%Z then ApiErr 503 CodeInsufficientReplicas
                           else ApiErr 502 CodeServiceUnavailable))
          | Ok _ => wd_ret (Ok tt)
          end
      end
  end.

(** The loop over the chunks; [None] when the fuel runs out. *)
Fixpoint upload_loop (fuel : nat) (net : upload_net) (owner : chunkOwner) (sp : Splitter) (h : hash) (total count : Z) :
    Wd (option (result gw_error uploadResult)) :=
  match fuel with
  | O => wd_ret None
  | S fuel' =>
      match Next sp with
      | (Err SplitEOF, _) => wd_ret (Some (Ok (mkUploadResult total count (Hex h))))
      | (Err ErrChunkTooLarge, _) => wd_ret (Some (Err (ApiErr 413 CodeEntityTooLarge)))
      | (Err (SplitRead _ _), _) => wd_ret (Some (Err (ApiErr 499 CodeClientClosedRequest)))
      | (Ok chunk, sp) =>
          wd! r := upload_chunk net owner chunk in
          match r with
          | Err err => wd_ret (Some (Err err))
          | Ok _ =>
              upload_loop fuel' net owner sp (hash_Write h (ch_Data chunk))
                (int64 (total + Z.of_nat (length (ch_Data chunk)))) (Prelude.int32 (count + 1))
          end
      end
  end.

(** A chunk is never empty, so there are at most as many as bytes. *)
Definition streamUpload (cfg : GatewayConfig) (net : upload_net) (src : Reader) (owner : chunkOwner) (chunkSize : Z) :
    Wd (option (result gw_error uploadResult)) :=
  match NewSplitterBuffer src (Z.to_nat chunkSize) (gw_MaxObjectSize cfg) with
  | None => wd_ret (Some (Err (ApiErr 500 CodeInternalError)))
  | Some sp => upload_loop (S (length (rd_data src))) net owner sp hash_New 0 0
  end.

(** ** Objects *)

(** PutObject after BeginUpload. *)
Definition put_body (cfg : GatewayConfig) (net : upload_net) (begun : BeginUploadReply) (body : Reader) :
    Wd (option (result gw_error HttpReply)) :=
  wd! r := streamUpload cfg net body (mkChunkOwner (bu_ObjectId begun) EmptyString) (bu_ChunkSize begun) in
  match r with
  | None => wd_ret None
  | Some (Err err) => wd_ret (Some (Err err))
  | Some (Ok res) =>
      wd! r := svc (client_CompleteUpload (un_complete net) (bu_ObjectId begun) (ur_SizeBytes res) (ur_ChunkCount res) (ur_ETag res)) in
      match r with
      | Err code => wd_ret (Some (Err (RpcErr code)))
      | Ok (objectID, etag, _) => wd_ret (Some (Ok (mkReply 201 (quoteETag etag) objectID (ur_ChunkCount res))))
      end
  end.

Definition PutObject (cfg : GatewayConfig) (net : upload_net) (bucket key contentType : string) (body : Reader) :
    Wd (option HttpReply) :=
  let contentType := if String.eqb contentType EmptyString then "application/octet-stream" else contentType in
  wd! r := svc (client_BeginUpload (un_begin net) bucket key contentType (gw_ChunkSize cfg)) in
  match r with
  | Err code => wd_ret (Some (fail (RpcErr code)))
  | Ok begun =>
      wd! r := put_body cfg net begun body in
      match r with
      | Some (Ok reply) => wd_ret (Some reply)
      | _ =>
          act! svc (client_AbortUpload (un_abort net) (bu_ObjectId begun) "gateway aborted upload") in
          wd_ret match r with Some (Err err) => Some (fail err) | _ => None end
      end
  end.

(** The faults of the node and the transport when a request reads a chunk for
    the [t]-th time; dialling fails, or the stream breaks, or the node's calls fail. *)
Record read_net := mkReadNet {
  rd_dial : nat -> string -> bool;
  rd_io : nat -> string -> faults;
  rd_transport : nat -> string -> transport;
  rd_done : nat -> bool
}.

(** The cluster a download talks to. *)
Definition reading (net : read_net) (nodes : cluster) : Download.Cluster :=
  Download.mkCluster
    (fun t addr => if rd_dial net t addr then None else Some Unavailable)
    (fun t addr id sum =>
       match nodes !! addr with
       | None => Err Unavailable
       | Some n => let '(frames, status, _) := ReadChunk (rd_io net t addr) (rd_transport net t addr) n id sum in Ok (frames, status)
       end)
    (rd_done net).

Definition placement_of (p : PlacementMsg) : ChunkPlacement :=
  mkPlacement (pm_ChunkId p) (pm_ChunkIndex p) (pm_SizeBytes p) (pm_ChecksumSha256 p)
    ((fun n => mkNodeInfo (nm_NodeId n) (nm_GrpcAddress n)) <$> pm_Nodes p).
Definition layout_response (l : LayoutMsg) : Download.GetObjectResponse :=
  Download.mkGetObjectResponse (Download.mkObjectInfo (om_SizeBytes (lm_Object l)) (om_ChunkSize (lm_Object l)))
    (placement_of <$> lm_Chunks l).

(** GetObject for a key that is not empty; [Err] is the error document. The
    corruption reports are the caller's to deliver. *)
Definition GetObject_http (get : nat -> attempt) (net : read_net) (reporter : bool) (client : Download.client)
    (bucket key raw : string) : Wd (result HttpReply Download.Response) :=
  wd! r := svc (client_GetObject get bucket key) in
  match r with
  | Err code => wd_ret (Err (fail (RpcErr code)))
  | Ok obj => fun w => (Ok (Download.GetObject_serve (reading net (w_nodes w)) reporter client (layout_response obj) raw), w)
  end.

Definition HeadObject_http (head : nat -> attempt) (bucket key : string) : Wd HttpReply :=
  wd! r := svc (client_HeadObject head bucket key) in
  wd_ret match r with
         | Err code => fail (RpcErr code)
         | Ok o => mkReply 200 (quoteETag (om_Etag o)) (om_ObjectId o) (om_ChunkCount o)
         end.

Definition DeleteObject_http (del : nat -> attempt) (bucket key : string) : Wd HttpReply :=
  wd! r := svc (client_DeleteObject del bucket key) in
  wd_ret match r with
         | Err code => fail (RpcErr code)
         | Ok existed => mkReply 204 EmptyString (default EmptyString existed) 0
         end.

(** ** Multipart uploads *)

Definition CreateMultipartUpload_http (cfg : GatewayConfig) (a : attempt) (bucket key contentType : string) : Wd HttpReply :=
  wd! r := svc (stub_call (fun e => CreateMultipartUpload_rpc e bucket key contentType (gw_ChunkSize cfg)) a) in
  wd_ret match r with
         | Err code => fail (RpcErr code)
         | Ok (uploadID, chunkSize) => mkReply 201 EmptyString uploadID chunkSize
         end.

(** The part number is the text of the path. A failed part is not aborted. *)
Definition UploadPart (cfg : GatewayConfig) (net : upload_net) (begin finish : attempt) (uploadID partNumber : string)
    (body : Reader) : Wd (option HttpReply) :=
  match ParseInt partNumber with
  | None => wd_ret (Some (fail (ApiErr 400 CodeInvalidPartNumber)))
  | Some n =>
      if decide (n < 1 \/ 10000 < n)%Z then wd_ret (Some (fail (ApiErr 400 CodeInvalidPartNumber)))
      else
        wd! r := svc (stub_call (fun e => BeginPart_rpc e uploadID (Prelude.int32 n)) begin) in
        match r with
        | Err code => wd_ret (Some (fail (RpcErr code)))
        | Ok (partID, chunkSize) =>
            wd! r := streamUpload cfg net body (mkChunkOwner EmptyString partID) chunkSize in
            match r with
            | None => wd_ret None
            | Some (Err err) => wd_ret (Some (fail err))
            | Some (Ok res) =>
                wd! r := svc (stub_call (fun e => CompletePart_rpc e partID (ur_SizeBytes res) (ur_ChunkCount res) (ur_ETag res)) finish) in
                wd_ret match r with
                       | Err code => Some (fail (RpcErr code))
                       | Ok _ => Some (mkReply 200 (quoteETag (ur_ETag res)) partID (ur_SizeBytes res))
                       end
            end
        end
  end.

(** [manifest] is the decoded request body, [Err] when it cannot be read or decoded. *)
Definition CompleteMultipartUpload_http (a : attempt) (lock : result cache_error bool) (uploadID : string)
    (manifest : result unit (list CompletedPartRef)) : Wd HttpReply :=
  match manifest with
  | Err _ => wd_ret (fail (ApiErr 400 CodeInvalidRequest))
  | Ok parts =>
      wd! r := svc (stub_call (fun e => CompleteMultipartUpload_rpc sha256 e lock uploadID parts) a) in
      wd_ret match r with
             | Err code => fail (RpcErr code)
             | Ok (objectID, etag, size) => mkReply 200 (quoteETag etag) objectID size
             end
  end.

Definition AbortMultipartUpload_http (a : attempt) (uploadID : string) : Wd HttpReply :=
  wd! r := svc (stub_call (fun e => AbortMultipartUpload_rpc e uploadID) a) in
  wd_ret match r with
         | Err code => fail (RpcErr code)
         | Ok _ => mkReply 204 EmptyString EmptyString 0
         end.
(** ** Every upload ends *)

(** What [Next] returns has left the reader. *)
Lemma Next_shrinks sp chunk sp' :
  (0 < sp_chunkSize sp)%nat -> Next sp = (Ok chunk, sp') ->
  sp_chunkSize sp' = sp_chunkSize sp /\ (length (rd_data (sp_r sp')) < length (rd_data (sp_r sp)))%nat.
Proof.
  intros Hk. unfold Next, ReadFull. destruct (sp_done sp); [done|].
  assert (forall data r' done, emit sp data r' done = (Ok chunk, sp') -> data <> [] /\ sp_r sp' = r' /\ sp_chunkSize sp' = sp_chunkSize sp) as He.
  { intros data r' done. unfold emit. case_decide; [done|]. case_decide; [done|]. by intros [= _ <-]. }
  case_decide as Hge.
  - intros (Hne&->&->)%He. split; [done|]. simpl. rewrite length_drop.
    destruct (rd_data (sp_r sp)); [simpl in *; lia|simpl in *; lia].
  - assert (emit sp (rd_data (sp_r sp)) (mkReader [] (rd_fail (sp_r sp))) true = (Ok chunk, sp') ->
      sp_chunkSize sp' = sp_chunkSize sp /\ (length (rd_data (sp_r sp')) < length (rd_data (sp_r sp)))%nat) as Hlast.
    { intros (Hne&->&->)%He. split; [done|]. destruct (rd_data (sp_r sp)); [done|simpl; lia]. }
    destruct (rd_fail (sp_r sp)) as [[|e]|]; [exact Hlast|done|].
    destruct (rd_data (sp_r sp)) as [|x l]; [done|exact Hlast].
Qed.

Lemma upload_loop_total net owner fuel sp h total count w :
  (0 < sp_chunkSize sp)%nat -> (length (rd_data (sp_r sp)) < fuel)%nat ->
  (upload_loop fuel net owner sp h total count w).1 <> None.
Proof.
  revert sp h total count w. induction fuel as [|fuel IH]; intros sp h total count w Hk Hf; [lia|]. cbn [upload_loop].
  destruct (Next sp) as [[chunk|[| |]] sp'] eqn:En; try done. unfold wd_bind.
  destruct (upload_chunk net owner chunk w) as [[u|err] w1]; [|done].
  apply Next_shrinks in En as [Hk' Hs]; [|done]. apply IH; [by rewrite Hk'|lia].
Qed.

(** The fuel of [streamUpload] is enough for every body. *)
Lemma streamUpload_total cfg net src owner size w : (streamUpload cfg net src owner size w).1 <> None.
Proof.
  unfold streamUpload, NewSplitterBuffer. case_decide; [done|]. apply upload_loop_total; simpl; lia.
Qed.
Lemma PutObject_total cfg net b k ct body w : (PutObject cfg net b k ct body w).1 <> None.
Proof.
  unfold PutObject, wd_bind. destruct (svc _ w) as [[begun|code] w1]; [|done]. unfold put_body, wd_bind, wd_ret.
  pose proof (streamUpload_total cfg net body (mkChunkOwner (bu_ObjectId begun) EmptyString) (bu_ChunkSize begun) w1) as H.
  destruct (streamUpload _ _ _ _ _ w1) as [[[res|err]|] w2]; [|by destruct (svc (client_AbortUpload _ _ _) w2)|done].
  destruct (svc (client_CompleteUpload _ _ _ _ _) w2) as [[[[id etag] at_]|code] w3]; [done|by destruct (svc (client_AbortUpload _ _ _) w3)].
Qed.
Lemma UploadPart_total cfg net begin finish uploadID partNumber body w :
  (UploadPart cfg net begin finish uploadID partNumber body w).1 <> None.
Proof.
  unfold UploadPart, wd_bind. destruct (ParseInt partNumber) as [n|]; [|done]. case_decide; [done|].
  destruct (svc _ w) as [[[partID size]|code] w1]; [|done].
  pose proof (streamUpload_total cfg net body (mkChunkOwner EmptyString partID) size w1) as Ht.
  destruct (streamUpload _ _ _ _ _ w1) as [[[res|err]|] w2]; [|done|done]. by destruct (svc _ w2) as [[]].
Qed.
End gateway.

(** ** A network *)

(** A call at a time (in microseconds) with a fresh identifier; and an upload
    whose first BeginUpload does not reach the coordinator and in which one node
    never answers. *)
Definition sample_attempt (up : bool) (t : Z) (id : N) : attempt := mkAttempt (mkEnv (t * 1000) t id true) up None false false.
Definition sample_upload_net : upload_net := mkUploadNet
  (fun i => sample_attempt (1 <? i)%nat 2 10)
  (fun i _ => sample_attempt true 3 ((20 + Z.to_N i) mod 2 ^ 128))
  (fun i addr => mkLink (negb (String.eqb addr "n1:7000")) None false no_faults 0)
  (fun _ l => reverse l)
  (fun _ _ => sample_attempt true 4 0)
  (fun _ => sample_attempt true 4 0)
  (fun _ => sample_attempt true 5 0)
  (fun _ => sample_attempt true 6 0).
