(* ===== verification/Lifecycle.v ===== *)
(** * Processes (src/internal/runtime/lifecycle.go, src/internal/observability)

    What the three binaries share: the group of tasks that stops as soon as one
    of them ends, the readiness page, and the request identifier that follows a
    request through the services. *)

From stdpp Require Import base numbers gmap strings list relations.
From S2P Require Import Prelude StorageService Gateway.

(** ** The group *)

Module Group.

(** What a task's function returns: nil, a cancelled context, or an error. *)
Inductive exit := Clean | Cancelled | Failed (e : string).

(** A goroutine started by Go: in the function; after it; after errOnce; and
    after the cancellation, when the wait group is told. *)
Inductive phase :=
  | Working
  | Returned (r : exit)
  | Recorded (r : exit)
  | Finished (r : exit).

Record TaskGroup := mkGroup {
  gr_done : bool;
  gr_err : option string;
  gr_tasks : list phase
}.
Definition NewGroup : TaskGroup := mkGroup false None [].

(** errOnce.Do *)
Definition record (r : exit) (err : option string) : option string :=
  match r, err with Failed e, None => Some e | _, _ => err end.

(** The steps of the goroutines, of main and of the signal handler. *)
Inductive step : TaskGroup -> TaskGroup -> Prop :=
  | StepGo g : step g (mkGroup (gr_done g) (gr_err g) (gr_tasks g ++ [Working]))
  | StepReturn g i r : gr_tasks g !! i = Some Working ->
      step g (mkGroup (gr_done g) (gr_err g) (<[i := Returned r]> (gr_tasks g)))
  | StepRecord g i r : gr_tasks g !! i = Some (Returned r) ->
      step g (mkGroup (gr_done g) (record r (gr_err g)) (<[i := Recorded r]> (gr_tasks g)))
  | StepCancel g i r : gr_tasks g !! i = Some (Recorded r) ->
      step g (mkGroup true (gr_err g) (<[i := Finished r]> (gr_tasks g)))
  | StepStop g : step g (mkGroup true (gr_err g) (gr_tasks g)).
Definition reachable : TaskGroup -> Prop := rtc step NewGroup.

Definition finished (p : phase) : bool := match p with Finished _ => true | _ => false end.
(** Wait: [None] while a task has not returned. *)
Definition Wait (g : TaskGroup) : option (option string) :=
  if forallb finished (gr_tasks g) then Some (gr_err g) else None.

(** The error a task has left behind. *)
Definition left (p : phase) : option string :=
  match p with Recorded (Failed e) | Finished (Failed e) => Some e | _ => None end.

Record group_ok (g : TaskGroup) : Prop := {
  go_done : forall i r, gr_tasks g !! i = Some (Finished r) -> gr_done g = true;
  go_from : forall e, gr_err g = Some e -> exists i p, gr_tasks g !! i = Some p /\ left p = Some e;
  go_kept : forall i p e, gr_tasks g !! i = Some p -> left p = Some e -> is_Some (gr_err g)
}.

(** A task that moves from one phase to another. *)
Lemma group_ok_move g i p p' done err :
  group_ok g -> gr_tasks g !! i = Some p ->
  (gr_done g = true -> done = true) -> (finished p' = true -> done = true) ->
  (forall e, left p = Some e -> left p' = Some e) ->
  (forall e, err = Some e -> gr_err g = Some e \/ left p' = Some e) -> (is_Some (gr_err g) -> is_Some err) ->
  (forall e, left p' = Some e -> is_Some err) ->
  group_ok (mkGroup done err (<[i := p']> (gr_tasks g))).
Proof.
  intros [H1 H2 H3] Hi Hd Hf Hl He Hs Hk.
  assert (i < length (gr_tasks g))%nat as Hlen by (apply lookup_lt_is_Some; eauto).
  split; cbn [gr_done gr_err gr_tasks].
  - intros j r Hj. destruct (decide (j = i)) as [->|Hne]; [rewrite list_lookup_insert_eq in Hj by done; injection Hj as ->; by apply Hf|].
    rewrite list_lookup_insert_ne in Hj by done. eauto.
  - intros e E. destruct (He e E) as [Ho|Ho]; [|exists i, p'; by rewrite list_lookup_insert_eq].
    destruct (H2 e Ho) as (j&q&Hj&Hq). destruct (decide (j = i)) as [->|Hne].
    + exists i, p'. rewrite list_lookup_insert_eq by done. split; [done|]. apply Hl. congruence.
    + exists j, q. by rewrite list_lookup_insert_ne.
  - intros j q e Hj Hq. destruct (decide (j = i)) as [->|Hne]; [rewrite list_lookup_insert_eq in Hj by done; injection Hj as <-; by eapply Hk|].
    rewrite list_lookup_insert_ne in Hj by done. eauto.
Qed.

Lemma group_step_ok g g' : step g g' -> group_ok g -> group_ok g'.
Proof.
  intros Hs Hg. destruct Hs as [g|g i r Hi|g i r Hi|g i r Hi|g].
  - destruct Hg as [H1 H2 H3]. split; cbn [gr_done gr_err gr_tasks].
    + intros i r [Hi|[_ Hi]]%lookup_app_Some; [eauto|]. apply list_lookup_singleton_Some in Hi as [_ Hi]. discriminate Hi.
    + intros e E. destruct (H2 e E) as (i&p&Hi&Hp). exists i, p. split; [by apply lookup_app_l_Some|done].
    + intros i p e [Hi|[_ Hi]]%lookup_app_Some Hp; [eauto|]. apply list_lookup_singleton_Some in Hi as [_ <-]. discriminate Hp.
  - eapply group_ok_move; [done|exact Hi|done|done|done|by left|done|done].
  - eapply group_ok_move; [done|exact Hi|done|done|done| | |].
    + intros e. destruct r as [| |e'], (gr_err g); cbn; auto.
    + destruct r, (gr_err g); cbn; eauto.
    + intros e. destruct r, (gr_err g); cbn; eauto; done.
  - eapply group_ok_move; [done|exact Hi|done|done|by destruct r|by left|done|].
    intros e He. apply (go_kept _ Hg i (Recorded r) e Hi). by destruct r.
  - destruct Hg as [H1 H2 H3]. split; cbn [gr_done gr_err gr_tasks]; [done|done|exact H3].
Qed.

Lemma group_reachable_ok g : reachable g -> group_ok g.
Proof.
  intros H. apply (rtc_ind_r group_ok NewGroup) with (3 := H); [by split|]. intros x y _ Hs Hx. by eapply group_step_ok.
Qed.

(** Any exit stops the process, and Wait tells the truth: when it returns, every
    task has returned, the context is done if there was a task, the error is one
    a task failed with, and it is nil only if no task failed. *)
Theorem group_contract g : reachable g ->
  (forall i r, gr_tasks g !! i = Some (Finished r) -> gr_done g = true) /\
  (forall err, Wait g = Some err ->
     (gr_tasks g <> [] -> gr_done g = true) /\
     match err with
     | Some e => Finished (Failed e) ∈ gr_tasks g
     | None => forall e, Finished (Failed e) ∉ gr_tasks g
     end).
Proof.
  intros [H1 H2 H3]%group_reachable_ok. split; [exact H1|]. intros err. unfold Wait.
  destruct (forallb finished (gr_tasks g)) eqn:Ef; [|done]. intros [= <-]. rewrite forallb_forall in Ef.
  assert (forall i p, gr_tasks g !! i = Some p -> exists r, p = Finished r) as Hall.
  { intros i p Hi. apply list_elem_of_lookup_2, list_elem_of_In in Hi. specialize (Ef p Hi). destruct p; try done. eauto. }
  split.
  - intros Hne. destruct (gr_tasks g) as [|p ps] eqn:Et; [done|]. destruct (Hall 0%nat p eq_refl) as [r ->].
    by apply (H1 0%nat r).
  - destruct (gr_err g) as [e|] eqn:Ee.
    + destruct (H2 e eq_refl) as (i&p&Hi&Hp). destruct (Hall i p Hi) as [r ->]. apply list_elem_of_lookup. exists i.
      destruct r; by simplify_eq/=.
    + intros e [i Hi]%list_elem_of_lookup. by destruct (H3 i _ e Hi eq_refl).
Qed.

(** The error that Wait reports is the first one recorded. *)
Lemma first_error_wins g g' e : rtc step g g' -> gr_err g = Some e -> gr_err g' = Some e.
Proof.
  induction 1 as [|g1 g2 g3 Hs _ IH]; [done|]. intros He. apply IH.
  destruct Hs as [| |g i r| |]; try done. cbn. rewrite He. by destruct r.
Qed.
End Group.

(** ** Readiness *)

Module Readiness.

(** /readyz: [ready] is the flag, [check] the dependency's answer if there is a
    check. *)
Definition readyz (ready : bool) (check : option (option string)) : Z * string :=
  if negb ready then (503%Z, "starting")
  else match check with
       | Some (Some err) => (503%Z, "not ready: " +:+ err)
       | _ => (200%Z, "ready")
       end.
Definition healthz : Z * string := (200%Z, "ok").

Lemma readyz_exact ready check : (readyz ready check).1 = 200%Z <-> ready = true /\ forall err, check <> Some (Some err).
Proof.
  unfold readyz. destruct ready, check as [[err|]|]; naive_solver.
Qed.
End Readiness.

(** ** The request identifier *)

Module Tracing.

(** grpc-go refuses a call whose metadata has a value it cannot send. *)
Class GrpcMetadata := {
  sendable : string -> bool;
  sendable_ascii : forall s, Forall (fun c => 32 <= Ascii.nat_of_ascii c <= 126)%nat (String.list_ascii_of_string s) -> sendable s = true
}.

Definition printable (c : Ascii.ascii) : bool := (32 <=? Ascii.nat_of_ascii c)%nat && (Ascii.nat_of_ascii c <=? 126)%nat.
Definition ascii_only : GrpcMetadata.
Proof.
  refine {| sendable := fun s => forallb printable (String.list_ascii_of_string s) |}.
  intros s Hs. apply forallb_forall. intros c Hc. rewrite Forall_forall in Hs. apply list_elem_of_In in Hc.
  specialize (Hs c Hc). unfold printable. apply andb_true_iff. rewrite !Nat.leb_le. lia.
Defined.

(** What the code reads of a context. *)
Record context := mkContext {
  cx_id : option string;
  cx_outgoing : list (string * string);
  cx_incoming : list (string * string)
}.
Definition requestIDMetadataKey : string := "x-flexstore-request-id".
Definition RequestIDFrom (ctx : context) : string := default EmptyString (cx_id ctx).
Definition WithRequestID (ctx : context) (id : string) : context := mkContext (Some id) (cx_outgoing ctx) (cx_incoming ctx).

Definition injectRequestID (ctx : context) : context :=
  let id := RequestIDFrom ctx in
  if String.eqb id EmptyString then ctx
  else mkContext (cx_id ctx) (cx_outgoing ctx ++ [(requestIDMetadataKey, id)]) (cx_incoming ctx).

(** md.Get *)
Definition md_get (key : string) (md : list (string * string)) : list string :=
  (filter (fun kv : string * string => kv.1 = key) md).*2.
Definition adoptRequestID (ctx : context) : context :=
  let id := RequestIDFrom ctx in
  let id := if String.eqb id EmptyString then
              match md_get requestIDMetadataKey (cx_incoming ctx) with
              | v :: _ => if String.eqb v EmptyString then id else v
              | [] => id
              end
            else id in
  if String.eqb id EmptyString then ctx else WithRequestID ctx id.

(** A call from a handler with the context: the context of the handler it
    reaches, or the code grpc-go refuses it with. *)
Definition call `{!GrpcMetadata} (ctx : context) : result Z context :=
  let ctx := injectRequestID ctx in
  if forallb (fun kv => sendable kv.2) (cx_outgoing ctx) then Ok (adoptRequestID (mkContext None [] (cx_outgoing ctx)))
  else Err Internal.
(** A chain of calls: the gateway calls the coordinator, which calls a node,
    which calls another. *)
Fixpoint chain `{!GrpcMetadata} (n : nat) (ctx : context) : result Z context :=
  match n with
  | O => Ok ctx
  | S n' => match call ctx with Ok ctx' => chain n' ctx' | Err code => Err code end
  end.
(** The context the middleware gives the handler. *)
Definition request_context (header fresh : string) : context :=
  WithRequestID (mkContext None [] []) (if String.eqb header EmptyString then fresh else header).

Lemma call_traced `{!GrpcMetadata} ctx id : id <> EmptyString -> cx_id ctx = Some id -> cx_outgoing ctx = [] ->
  match call ctx with
  | Ok ctx' => sendable id = true /\ cx_id ctx' = Some id /\ cx_outgoing ctx' = []
  | Err code => sendable id = false /\ code = Internal
  end.
Proof.
  intros Hne Hid Ho. apply String.eqb_neq in Hne. unfold call, injectRequestID, RequestIDFrom. rewrite Hid, Ho.
  change (default EmptyString (Some id)) with id. rewrite Hne. cbn [cx_outgoing app forallb snd]. rewrite andb_true_r.
  destruct (sendable id) eqn:Es; [|done]. split; [done|].
  assert (md_get requestIDMetadataKey [(requestIDMetadataKey, id)] = [id]) as Hmd by reflexivity.
  unfold adoptRequestID, RequestIDFrom. cbn [cx_id cx_incoming]. change (default EmptyString None) with EmptyString.
  rewrite Hmd. cbn [String.eqb]. rewrite Hne. cbn [String.eqb]. by rewrite Hne.
Qed.

(** Through any chain of calls every service logs the identifier of the request,
    given by the client or made up; a client's identifier that gRPC cannot carry
    makes the first call fail. *)
Theorem request_id_follows `{!GrpcMetadata} (header fresh : string) (n : nat) :
  fresh <> EmptyString -> sendable fresh = true ->
  let id := if String.eqb header EmptyString then fresh else header in
  match chain n (request_context header fresh) with
  | Ok ctx => RequestIDFrom ctx = id
  | Err code => code = Internal /\ sendable header = false /\ (0 < n)%nat
  end.
Proof.
  intros Hf Hs id.
  assert (id <> EmptyString) as Hne by (unfold id; destruct (String.eqb_spec header EmptyString); done).
  assert (sendable id = false -> sendable header = false) as Hh by (unfold id; destruct (String.eqb header EmptyString); congruence).
  assert (forall ctx, cx_id ctx = Some id -> cx_outgoing ctx = [] ->
    match chain n ctx with
    | Ok ctx' => RequestIDFrom ctx' = id
    | Err code => code = Internal /\ sendable header = false /\ (0 < n)%nat
    end) as Hall; [|by apply Hall].
  induction n as [|n IH]; intros ctx Hid Ho; [cbn; unfold RequestIDFrom; by rewrite Hid|].
  cbn [chain]. pose proof (call_traced ctx id Hne Hid Ho) as Hc. destruct (call ctx) as [ctx'|code].
  - destruct Hc as (_&H1&H2). specialize (IH ctx' H1 H2). destruct (chain n ctx'); [done|]. destruct IH as (?&?&_). split_and!; [done|done|lia].
  - destruct Hc as [H1 ->]. split_and!; [done|by apply Hh|lia].
Qed.
End Tracing.
