(* ===== verification/Admin.v ===== *)
(** * The gateway's listing and admin pages (src/internal/gateway/objects.go, admin.go)

    ListObjects, AdminNodes, AdminObjectChunks, AdminReplication, AdminHealth
    and AdminReconcile over the coordinator's RPCs. A page is the value the
    handler encodes as JSON; times stay numbers instead of RFC 3339 text. The
    theorem at the end says what the verdict of /admin/health means for the
    data. *)

From stdpp Require Import base numbers gmap strings list sorting.
From S2P Require Import Prelude Chunking Checksum GoStrings RangeReq Download ChunkStore StorageService ChunkWriter.
From S2P Require Import GoFloat Placement Health Validate Uuid Cache.
From S2P Require Import Sql Schema Statements Chunks Objects Nodes Repair Gc Reconcile Multipart Store Coordinator Workers Reconciler Refinement Samples Gateway.

(** ** Names of states *)

Definition shortHealth (h : State) : string :=
  match h with
  | StateHealthy => "HEALTHY"
  | StateSuspect => "SUSPECT"
  | StateDead => "DEAD"
  | StateUnknown => "UNKNOWN"
  end.

(** [None] is UNSPECIFIED. *)
Definition shortReplicaState (s : option ReplicaState) : string :=
  match s with
  | Some ReplicaWriting => "WRITING"
  | Some ReplicaAvailable => "AVAILABLE"
  | Some ReplicaUnavailable => "UNAVAILABLE"
  | Some ReplicaDeleting => "DELETING"
  | _ => "UNKNOWN"
  end.

Definition shortRepairState (s : RepairJobState) : string :=
  match s with
  | RepairPending => "PENDING"
  | RepairRunning => "RUNNING"
  | RepairSucceeded => "SUCCEEDED"
  | RepairFailed => "FAILED"
  end.

(** ** The pages *)

Record nodeView := mkNodeViewPage {
  nv_NodeID : string;
  nv_Address : string;
  nv_Health : string;
  nv_TotalBytes : Z;
  nv_UsedBytes : Z;
  nv_AvailableBytes : Z;
  nv_UsedPercent : float64;
  nv_ChunkCount : Z;
  nv_ActiveRequests : Z;
  nv_LastHeartbeat : option Z;
  nv_HeartbeatAgeMS : Z
}.
Record nodesPage := mkNodesPage {
  np_Nodes : list nodeView;
  np_Healthy : Z;
  np_Suspect : Z;
  np_Dead : Z;
  np_Total : Z;
  np_ReplicationFactor : Z;
  np_TotalObjects : Z;
  np_TotalChunks : Z;
  np_UnderReplicatedChunks : Z
}.

Record replicaView := mkReplicaView {
  rv_NodeID : string;
  rv_State : string;
  rv_NodeHealth : string
}.
Record chunkView := mkChunkView {
  cv_ChunkID : string;
  cv_Index : Z;
  cv_SizeBytes : Z;
  cv_Checksum : string;
  cv_AvailableReplicas : Z;
  cv_UnderReplicated : bool;
  cv_Unavailable : bool;
  cv_Replicas : list replicaView
}.
Record chunksPage := mkChunksPage {
  cp_Object : ObjectMsg;
  cp_ETag : string;
  cp_ReplicationFactor : Z;
  cp_UnderReplicatedChunks : Z;
  cp_UnavailableChunks : Z;
  cp_DistinctNodes : list string;
  cp_Chunks : list chunkView
}.

Record jobView := mkJobView {
  jv_ID : Z;
  jv_ChunkID : string;
  jv_State : string;
  jv_Source : string;
  jv_Target : string;
  jv_Attempts : Z;
  jv_LastError : string;
  jv_UpdatedAt : Z
}.
Record replicationPage := mkReplicationPage {
  rp_Status : ReplicationStatus;
  rp_Durable : bool;
  rp_RecentJobs : list jobView
}.

Record healthPage := mkHealthPage {
  hp_Status : string;
  hp_NodesHealthy : Z;
  hp_NodesSuspect : Z;
  hp_NodesDead : Z;
  hp_Replication : ReplicationStatus
}.

Record item := mkItem {
  it_Key : string;
  it_Size : Z;
  it_ETag : string;
  it_ContentType : string;
  it_Version : Z;
  it_ModifiedAt : option Z
}.
Record listingPage := mkListingPage {
  lp_Bucket : string;
  lp_Objects : list item;
  lp_Truncated : bool
}.

(** A page with its status, or an error document. *)
Abbreviation page A := (result HttpReply (Z * A)).

(** How many of the nodes have the given health. *)
Definition count_health (h : string) (views : list string) : Z :=
  Z.of_nat (length (filter (fun v => v = h) views)).

Section pages.
Context `{PG : !Postgres, UU : !Uuid, GM : !GoMath, GS : !GoSort}.

Definition node_view (now : Z) (n : Node) : nodeView :=
  mkNodeViewPage (n_ID n) (n_Address n) (shortHealth (parsed_health (n_Health n)))
    (n_TotalBytes n) (n_UsedBytes n) (n_AvailableBytes n)
    (if decide (0 < n_TotalBytes n)%Z
     then fmul (fdiv (of_int (n_UsedBytes n)) (of_int (n_TotalBytes n))) (of_int 100) else f0)
    (n_ChunkCount n) (n_ActiveRequests n) (n_LastHeartbeatAt n)
    match n_LastHeartbeatAt n with Some hb => Z.quot (time_sub now (nanos hb)) 1000000 | None => 0%Z end.

Definition AdminNodes (a : attempt) (now : Z) : Wd (page nodesPage) :=
  wd! r := svc (stub_call (fun _ => GetClusterStatus) a) in
  wd_ret match r with
         | Err code => Err (fail (RpcErr code))
         | Ok (nodes, rf, totalObjects, stats) =>
             let views := node_view now <$> nodes in
             let healths := nv_Health <$> views in
             Ok (200%Z, mkNodesPage views (count_health "HEALTHY" healths) (count_health "SUSPECT" healths)
                    (count_health "DEAD" healths) (Z.of_nat (length views)) rf totalObjects
                    (cs_TotalChunks stats) (cs_UnderReplicatedChunks stats))
         end.

(** lookupLayout: the key as it is, and without "/chunks" if there is no such
    object. *)
Definition lookupLayout (a a' : attempt) (bucket key : string) :
    Rpc (ObjectMsg * list (string * Z * Z * string * list (string * string * option ReplicaState * State))) :=
  sv! r := stub_call (fun _ => GetObjectLayout bucket key) a in
  match r with
  | Ok layout => answer layout
  | Err code =>
      if negb (code =? NotFound)%Z || negb (HasSuffix key "/chunks") then refuse code
      else stub_call (fun _ => GetObjectLayout bucket (TrimSuffix key "/chunks")) a'
  end.

(** A replica that counts: AVAILABLE, on a node that is not DEAD. *)
Definition shown_available (rep : string * string * option ReplicaState * State) : bool :=
  let '(_, _, state, health) := rep in
  String.eqb (shortReplicaState state) "AVAILABLE" && negb (String.eqb (shortHealth health) "DEAD").

Definition chunk_view_page (rf : Z) (c : string * Z * Z * string * list (string * string * option ReplicaState * State)) : chunkView :=
  let '(id, index, size, checksum, replicas) := c in
  let available := Z.of_nat (length (filter (fun rep => shown_available rep = true) replicas)) in
  mkChunkView id index size checksum available (available <? rf)%Z (available =? 0)%Z
    ((fun rep : string * string * option ReplicaState * State =>
        let '(n, _, state, health) := rep in mkReplicaView n (shortReplicaState state) (shortHealth health)) <$> replicas).

(** The nodes in the order in which they are first met. *)
Fixpoint first_seen (seen : list string) (ids : list string) : list string :=
  match ids with
  | [] => []
  | id :: ids' => if decide (id ∈ seen) then first_seen seen ids' else id :: first_seen (id :: seen) ids'
  end.

Definition AdminObjectChunks (a a' b : attempt) (bucket key : string) : Wd (page chunksPage) :=
  wd! r := svc (lookupLayout a a' bucket key) in
  match r with
  | Err code => wd_ret (Err (fail (RpcErr code)))
  | Ok (obj, chunks) =>
      wd! r := svc (stub_call (fun _ => GetReplicationStatus 1) b) in
      wd_ret match r with
             | Err code => Err (fail (RpcErr code))
             | Ok status =>
                 let rf := rs_ReplicationFactor status in
                 let views := chunk_view_page rf <$> chunks in
                 Ok (200%Z, mkChunksPage obj (quoteETag (om_Etag obj)) rf
                   (Z.of_nat (length (filter (fun v => cv_UnderReplicated v = true) views)))
                   (Z.of_nat (length (filter (fun v => cv_Unavailable v = true) views)))
                   (first_seen [] (concat ((fun c : string * Z * Z * string * list (string * string * option ReplicaState * State) =>
                      (fun rep : string * string * option ReplicaState * State => rep.1.1.1) <$> filter (fun rep => shown_available rep = true) c.2) <$> chunks)))
                   views)
             end
  end.

Definition job_view (j : RepairJob) : jobView :=
  mkJobView (rpj_ID j) (uuid_String (rpj_ChunkID j)) (shortRepairState (rpj_State j)) (rpj_SourceNodeID j)
    (rpj_TargetNodeID j) (rpj_Attempts j) (rpj_LastError j) (rpj_UpdatedAt j).

(** [jobs] is the query parameter, empty when absent. *)
Definition AdminReplication (a : attempt) (jobs : string) : Wd (page replicationPage) :=
  let limit := match ParseInt jobs with Some n => if decide (0 <= n)%Z then n else 25%Z | None => 25%Z end in
  wd! r := svc (stub_call (fun _ => GetReplicationStatus (Prelude.int32 limit)) a) in
  wd_ret match r with
         | Err code => Err (fail (RpcErr code))
         | Ok status => Ok (200%Z, mkReplicationPage status (rs_UnderReplicatedChunks status =? 0)%Z (job_view <$> rs_RecentJobs status))
         end.

(** The status line and the verdict. *)
Definition health_verdict (healthy : Z) (status : ReplicationStatus) : Z * string :=
  if decide (0 < rs_UnavailableChunks status)%Z then (503%Z, "unavailable")
  else if decide (0 < rs_UnderReplicatedChunks status)%Z then (200%Z, "degraded")
  else if decide (healthy < rs_ReplicationFactor status)%Z then (200%Z, "degraded")
  else (200%Z, "healthy").

Definition AdminHealth (a b : attempt) : Wd (page healthPage) :=
  wd! r := svc (stub_call (fun _ => GetClusterStatus) a) in
  match r with
  | Err code => wd_ret (Err (fail (RpcErr code)))
  | Ok (nodes, _, _, _) =>
      wd! r := svc (stub_call (fun _ => GetReplicationStatus 0) b) in
      wd_ret match r with
             | Err code => Err (fail (RpcErr code))
             | Ok status =>
                 let healths := (fun n => shortHealth (parsed_health (n_Health n))) <$> nodes in
                 let healthy := count_health "HEALTHY" healths in
                 let '(code, text) := health_verdict healthy status in
                 Ok (code, mkHealthPage text healthy (count_health "SUSPECT" healths) (count_health "DEAD" healths) status)
             end
  end.

Definition AdminReconcile (a : attempt) (node : string) : Wd (page (list string)) :=
  wd! r := svc (stub_call (fun e => TriggerReconcile e node) a) in
  wd_ret match r with
         | Err code => Err (fail (RpcErr code))
         | Ok scheduled => Ok (202%Z, scheduled)
         end.

(** [limit], [prefix] and [startAfter] are query parameters, empty when absent. *)
Definition ListObjects_http (a : attempt) (bucket limit prefix startAfter : string) : Wd (page listingPage) :=
  match (if String.eqb limit EmptyString then Some 1000%Z
         else match ParseInt limit with Some n => if decide (n <= 0)%Z then None else Some n | None => None end) with
  | None => wd_ret (Err (fail (ApiErr 400 CodeInvalidRequest)))
  | Some n =>
      wd! r := svc (stub_call (fun _ => ListObjects_rpc bucket prefix startAfter (Prelude.int32 n)) a) in
      wd_ret match r with
             | Err code => Err (fail (RpcErr code))
             | Ok (objs, truncated) =>
                 Ok (200%Z, mkListingPage bucket
                   ((fun o => mkItem (om_Key o) (om_SizeBytes o) (quoteETag (om_Etag o)) (om_ContentType o) (om_Version o) (om_CompletedAt o)) <$> objs)
                   truncated)
             end
  end.
End pages.

(** ** What the verdict means *)

Lemma length_filter_rows {K V} `{Countable K} (P : K -> V -> Prop) (Q : K * V -> Prop)
    `{!forall k v, Decision (P k v), !forall kv, Decision (Q kv)} (m : gmap K V) :
  length (filter Q (rows_where P m)) = size (filter (fun kv => P kv.1 kv.2 /\ Q kv) m).
Proof.
  unfold rows_where. rewrite <-length_map_to_list.
  apply Permutation_length, NoDup_Permutation.
  - apply NoDup_filter, NoDup_map_to_list.
  - apply NoDup_map_to_list.
  - intros [k v]. rewrite list_elem_of_filter, !elem_of_map_to_list, !map_lookup_filter_Some. simpl. tauto.
Qed.

Lemma short_healthy (r : node_row) : shortHealth (parsed_health (sn_health r)) = "HEALTHY" <-> sn_health r = HEALTHY.
Proof. by destruct (sn_health r). Qed.

(** The nodes shown as HEALTHY are the HEALTHY rows. *)
Lemma healthy_nodes_counted `{PG : !Postgres} (d : db) :
  count_health "HEALTHY" ((fun n => shortHealth (parsed_health (n_Health n))) <$> ListNodes false d) =
  count_where (fun _ r => sn_health r = HEALTHY) (storage_nodes d).
Proof.
  unfold count_health, count_where, ListNodes. f_equal. rewrite <-list_fmap_compose. unfold compose. cbn [n_Health scanNode].
  rewrite order_by_perm.
  transitivity (length (filter (fun kv : string * node_row => sn_health kv.2 = HEALTHY)
    (rows_where (fun _ r => false = true -> sn_health r = HEALTHY) (storage_nodes d)))).
  - generalize (rows_where (fun (_ : string) r => false = true -> sn_health r = HEALTHY) (storage_nodes d)).
    intros l. induction l as [|[k r] l IH]; [done|]. rewrite fmap_cons, !filter_cons. cbn [snd].
    pose proof (short_healthy r). repeat case_decide; simpl in *; try (exfalso; tauto); lia.
  - rewrite length_filter_rows. f_equal. apply map_filter_ext. intros k r _. simpl. naive_solver.
Qed.

(** A call that reaches the coordinator and whose answer arrives. *)
Definition delivered (a : attempt) : Prop := at_up a = true /\ at_lost a = None.

Lemma stub_call_delivered {A} (fn : env -> Rpc A) a s : delivered a -> stub_call fn a s = fn (at_env a) s.
Proof. intros [Hu Hl]. unfold stub_call. rewrite Hu, Hl. simpl. by destruct (fn (at_env a) s). Qed.

(** The chunks of live objects, and how many usable copies they have. *)
Definition lost_chunk (d : db) : Prop :=
  exists c ch, chunks d !! c = Some ch /\ accountable d ch /\ count_available (chunk_replicas d) c = 0%Z.
Definition fully_replicated (rf : Z) (d : db) : Prop :=
  forall c ch, chunks d !! c = Some ch -> accountable d ch -> (rf <= count_available (chunk_replicas d) c)%Z.

Lemma durability_counts_exact rf d : schema_ok d -> (1 <= rf)%Z ->
  (0 < (DurabilityCounts rf d).2 <-> lost_chunk d)%Z /\
  ((DurabilityCounts rf d).1 = 0 <-> fully_replicated rf d)%Z /\ (0 <= (DurabilityCounts rf d).1)%Z.
Proof.
  intros Hs Hrf. unfold DurabilityCounts. cbn [fst snd].
  assert (forall c ch, chunks d !! c = Some ch -> ck_available_replicas ch = count_available (chunk_replicas d) c) as Hcnt.
  { intros c ch Hc. by apply (so_counters _ Hs). }
  split_and!; [| |apply count_where_nonneg].
  - rewrite count_where_pos. unfold lost_chunk. split.
    + intros (c&ch&Hc&[[Ha _] H0]). exists c, ch. by rewrite <-(Hcnt c ch Hc).
    + intros (c&ch&Hc&Ha&H0). exists c, ch. rewrite (Hcnt c ch Hc). split_and!; [done|done|lia|done].
  - rewrite count_where_zero. unfold fully_replicated. split.
    + intros H c ch Hc Ha. specialize (H c ch Hc). rewrite <-(Hcnt c ch Hc).
      apply Z.nlt_ge. intros Hlt. by apply H.
    + intros H c ch Hc [Ha Hlt]. specialize (H c ch Hc Ha). rewrite (Hcnt c ch Hc) in Hlt. lia.
Qed.

(** C32: what the health page says is true of the data. When both calls reach
    the coordinator, the page is answered without changing anything; it is 503
    and "unavailable" exactly when some committed chunk with a live owner has no
    AVAILABLE replica left, and "healthy" exactly when every such chunk has as
    many AVAILABLE replicas as the replication factor and enough nodes are
    healthy for new uploads. *)
Theorem AdminHealth_verdict `{PG : !Postgres} a b w :
  let d := sv_db (w_svc w) in
  let rf := cfg_ReplicationFactor (sv_cfg (w_svc w)) in
  delivered a -> delivered b -> schema_ok d -> (1 <= rf < 2 ^ 31)%Z ->
  exists status p, AdminHealth a b w = (Ok (status, p), w) /\
    (status = 503%Z <-> lost_chunk d) /\ (status = 503%Z \/ status = 200%Z) /\
    (hp_Status p = "unavailable" <-> lost_chunk d) /\
    (hp_Status p = "healthy" <->
       fully_replicated rf d /\ (rf <= count_where (fun _ r => sn_health r = HEALTHY) (storage_nodes d))%Z).
Proof.
  intros d rf Ha Hb Hs Hrf. unfold AdminHealth, wd_bind at 1, svc at 1. rewrite stub_call_delivered by done.
  unfold GetClusterStatus, sv_bind, load, sv_gets, answer, sv_ret. cbn [w_svc w_nodes].
  unfold wd_bind, svc. rewrite stub_call_delivered by done.
  unfold GetReplicationStatus, sv_bind, load, sv_gets, answer, sv_ret. cbn [w_svc w_nodes].
  fold d rf. rewrite healthy_nodes_counted. set (healthy := count_where _ _).
  destruct (durability_counts_exact rf d Hs ltac:(lia)) as (Hlost&Hfull&Hnn).
  unfold health_verdict. cbn [rs_UnavailableChunks rs_UnderReplicatedChunks rs_ReplicationFactor].
  assert (Prelude.int32 rf = rf) as -> by (apply int32_small; lia).
  destruct (DurabilityCounts rf d) as [under lost]. cbn [fst snd] in *.
  assert (lost_chunk d -> ~ fully_replicated rf d) as Hex.
  { intros (c&ch&Hc&Hac&H0) H. specialize (H c ch Hc Hac). lia. }
  destruct w as [s nodes]. cbn [w_svc w_nodes] in *.
  repeat case_decide; eexists _, _; (split; [reflexivity|]); cbn [hp_Status]; split_and!; auto.
  all: split; [intros E; first [discriminate E|by apply Hlost|split; [apply Hfull|]; lia]|intros E; try reflexivity; exfalso].
  all: first [apply Hlost in E; lia|destruct E as [E1 E2]; first [by apply Hex in E1; [|apply Hlost]|apply Hfull in E1; lia]].
Qed.

(** Three healthy nodes, and one chunk that has lost its only copy. *)
Definition lost_copy : World :=
  serve_all (fun s => s) [A_ReportCorruptReplica (at_time 8 0) (uuid_String 20) "n1" "bit rot"]
    (degraded (three_nodes empty_node empty_node empty_node)).

Lemma AdminHealth_verdict_witness :
  exists p, (AdminHealth (sample_attempt true 9 0) (sample_attempt true 9 0) lost_copy).1 = Ok (503%Z, p) /\
    lost_chunk (sv_db (w_svc lost_copy)).
Proof.
  destruct (AdminHealth_verdict (sample_attempt true 9 0) (sample_attempt true 9 0) lost_copy) as (status&p&E&H1&_).
  - repeat split.
  - repeat split.
  - unfold lost_copy. refine (serve_all_schema (fun s => s) _ (degraded _) _ (degraded_schema _)). repeat constructor.
  - vm_compute. split; [discriminate|reflexivity].
  - exists p.
    assert (status = 503%Z) as -> by (apply (f_equal (fun x => match x.1 with Ok (s, _) => s | Err _ => 0%Z end)) in E; vm_compute in E; by rewrite <- E).
    rewrite E. split; [reflexivity|]. by apply H1.
Defined.
