(* ===== verification/Router.v ===== *)
(** * The gateway as an HTTP server

    The route table and the error fallbacks (src/internal/gateway/router.go),
    the limit on request bodies (limits.go), the middleware (middleware.go) and
    their composition in cmd/gateway/main.go, on top of the handlers of Gateway
    and Admin. A request is given with what the server has parsed of it; the
    decoding of the multipart manifest is an argument. Of a response the model
    keeps the status, the error code and the handler's result. *)

From Stdlib Require Import Ascii.
From stdpp Require Import base numbers gmap strings list sorting.
From S2P Require Import Prelude Chunking Checksum GoStrings Mux RangeReq Download ChunkStore StorageService ChunkWriter.
From S2P Require Import GoFloat Placement Health Validate Metrics Uuid Cache.
From S2P Require Import Sql Schema Statements Chunks Objects Nodes Repair Gc Reconcile Multipart Coordinator Workers Reconciler Refinement Gateway Admin.

(** ** Routes *)

Inductive endpoint :=
  | EpPutObject | EpGetObject | EpHeadObject | EpDeleteObject | EpListObjects
  | EpCompleteMultipartUpload | EpUploadPart | EpAbortMultipartUpload | EpCreateMultipartUpload
  | EpDashboard | EpAdminHealth | EpAdminStats | EpAdminNodes | EpAdminReplication
  | EpAdminObjectChunks | EpAdminReconcile | EpRoot.

Definition newMux : list (pattern endpoint) :=
  [mkPattern "PUT" [Lit "objects"; Wild; Multi true] EpPutObject;
   mkPattern "GET" [Lit "objects"; Wild; Multi true] EpGetObject;
   mkPattern "HEAD" [Lit "objects"; Wild; Multi true] EpHeadObject;
   mkPattern "DELETE" [Lit "objects"; Wild; Multi true] EpDeleteObject;
   mkPattern "GET" [Lit "objects"; Wild] EpListObjects;
   mkPattern "POST" [Lit "multipart"; Wild; Lit "complete"] EpCompleteMultipartUpload;
   mkPattern "PUT" [Lit "multipart"; Wild; Wild] EpUploadPart;
   mkPattern "DELETE" [Lit "multipart"; Wild] EpAbortMultipartUpload;
   mkPattern "POST" [Lit "multipart"; Wild; Multi true] EpCreateMultipartUpload;
   mkPattern "GET" [Lit "dashboard"] EpDashboard;
   mkPattern "GET" [Lit "admin"; Lit "health"] EpAdminHealth;
   mkPattern "GET" [Lit "admin"; Lit "stats"] EpAdminStats;
   mkPattern "GET" [Lit "admin"; Lit "nodes"] EpAdminNodes;
   mkPattern "GET" [Lit "admin"; Lit "replication"] EpAdminReplication;
   mkPattern "GET" [Lit "admin"; Lit "objects"; Wild; Multi true] EpAdminObjectChunks;
   mkPattern "POST" [Lit "admin"; Lit "reconcile"] EpAdminReconcile;
   mkPattern "GET" [Multi false] EpRoot].

(** ** Requests and responses *)

(** The path is the one EscapedPath gives; [rq_Pattern] is the field the mux
    sets; [rq_Query] is empty for an absent parameter; [rq_ContentLength] is -1
    when the length is not declared. *)
Record request := mkRequest {
  rq_Method : string;
  rq_Path : string;
  rq_Pattern : string;
  rq_Query : string -> string;
  rq_ContentType : string;
  rq_Range : string;
  rq_RequestId : string;
  rq_ContentLength : Z;
  rq_Body : Reader
}.

Definition with_body (r : request) (body : Reader) : request :=
  mkRequest (rq_Method r) (rq_Path r) (rq_Pattern r) (rq_Query r) (rq_ContentType r) (rq_Range r) (rq_RequestId r)
    (rq_ContentLength r) body.

(** The body of a request as net/http delivers it: the bytes that arrive, and
    whether the last chunk was seen, the connection ended or it failed. With a
    declared length the body ends when that many bytes have arrived. *)
Inductive connection := LastChunk | Closed | Broken (e : string).
Definition http_body (declared : Z) (arrived : bytes) (conn : connection) : Reader :=
  let cut := match conn with Broken e => Some (Fault e) | _ => Some UnexpectedEOF end in
  if decide (0 <= declared)%Z then
    if decide (declared <= Z.of_nat (length arrived))%Z then mkReader (take (Z.to_nat declared) arrived) None
    else mkReader arrived cut
  else mkReader arrived match conn with LastChunk => None | _ => cut end.

Inductive document :=
  | DocListing (p : listingPage)
  | DocNodes (p : nodesPage)
  | DocChunks (p : chunksPage)
  | DocReplication (p : replicationPage)
  | DocHealth (p : healthPage)
  | DocReconcile (ids : list string)
  | DocStats (uploadBytes downloadBytes requests inFlight : float64)
  | DocService
  | DocDashboard.

Inductive response :=
  | Replied (r : HttpReply)
  | Streamed (r : Download.Response)
  | Shown (status : Z) (d : document)
  | Moved
  | Allowing (methods : list string)
  | Silent.

Definition rs_status (r : response) : Z :=
  match r with
  | Replied r => hr_Status r
  | Streamed r => rs_Status r
  | Shown status _ => status
  | Moved => 301
  | Allowing _ => 405
  | Silent => 200
  end.

(** The X-Flexstore-Error-Code header, which comes with the error document. *)
Definition rs_code (r : response) : option Code :=
  match r with
  | Replied r => hr_Error r
  | Streamed r => if (rs_Status r =? 416)%Z then Some CodeInvalidRange else None
  | Allowing _ => Some CodeMethodNotAllowed
  | _ => None
  end.

Definition shown {A} (doc : A -> document) (p : page A) : response :=
  match p with Err e => Replied e | Ok (status, p) => Shown status (doc p) end.

(** What Registry.Gather yields for a metric. *)
Inductive metric := MetricCounter (v : float64) | MetricGauge (v : float64) | MetricOther.

(** What a request meets: the network, the clock, the decoder of manifests, the
    lock the coordinator asks the cache for, the text of an error, the metric
    families of the gateway ([None] when they cannot be gathered), and whether
    the client has hung up, so that the request's context is cancelled, when a
    handler has an error to report. *)
Record http_net := mkHttpNet {
  hn_upload : upload_net;
  hn_calls : nat -> attempt;
  hn_first : attempt;
  hn_second : attempt;
  hn_third : attempt;
  hn_read : read_net;
  hn_client : Download.client;
  hn_reports : nat -> nat -> attempt;
  hn_detail : nat -> string;
  hn_now : Z;
  hn_manifest : Reader -> result unit (list CompletedPartRef);
  hn_lock : result cache_error bool;
  hn_families : option (list (string * list metric));
  hn_gone : bool
}.

Section server.
Context `{PG : !Postgres, UU : !Uuid, GM : !GoMath, GS : !GoSort} (sha256 : string -> string).

Definition notFoundError : gw_error := ApiErr 404 CodeNoSuchKey.
Definition writeNotFound : response := Replied (fail notFoundError).

Definition ListObjects_route (net : http_net) (r : request) (bucket : string) : Wd response :=
  wd! p := ListObjects_http (hn_first net) bucket (rq_Query r "limit") (rq_Query r "prefix") (rq_Query r "start_after") in
  wd_ret (shown DocListing p).

(** The reports of a download, in the order they are made. Each is sent before
    the next replica is read; the download has its layout already, so nothing of
    it depends on them. A report that fails is only logged. *)
Fixpoint deliver_reports (net : http_net) (i : nat) (reports : list report) : Wd unit :=
  match reports with
  | [] => wd_ret tt
  | (chunkID, nodeID) :: reports' =>
      act! svc (client_ReportCorruptReplica (hn_reports net i) chunkID nodeID (hn_detail net i)) in
      deliver_reports net (S i) reports'
  end.

Definition GetObject_route (net : http_net) (r : request) (bucket key : string) : Wd response :=
  wd! x := GetObject_http (hn_calls net) (hn_read net) true (hn_client net) bucket key (rq_Range r) in
  match x with
  | Err e => wd_ret (Replied e)
  | Ok resp => act! deliver_reports net 0 (rs_Reports resp) in wd_ret (Streamed resp)
  end.

(** AdminStats: the sums of the families the page shows. *)
Definition metric_sum (ms : list metric) : float64 :=
  foldl (fun sum m => match m with MetricCounter v | MetricGauge v => fadd sum v | MetricOther => sum end) f0 ms.
Definition last_family (name : string) (families : list (string * list metric)) : float64 :=
  foldl (fun out f => if String.eqb f.1 name then metric_sum f.2 else out) f0 families.
Definition AdminStats (net : http_net) : response :=
  match hn_families net with
  | None => Replied (fail (ApiErr 500 CodeInternalError))
  | Some fs => Shown 200 (DocStats (last_family "flexstore_upload_bytes_total" fs)
                 (last_family "flexstore_download_bytes_total" fs) (last_family "flexstore_http_requests_total" fs)
                 (last_family "flexstore_http_requests_in_flight" fs))
  end.

(** An upload that never ends has no response. *)
Definition replied_if (o : option HttpReply) : option response := Replied <$> o.

(** The handler of a pattern, with the values of its wildcards in order. *)
Definition handle (cfg : GatewayConfig) (net : http_net) (r : request) (ep : endpoint) (vars : list string) :
    Wd (option response) :=
  let v1 := default EmptyString (vars !! 0%nat) in
  let v2 := default EmptyString (vars !! 1%nat) in
  let one {A} (f : A -> response) (m : Wd A) : Wd (option response) := wd! a := m in wd_ret (Some (f a)) in
  match ep with
  | EpPutObject =>
      wd! o := PutObject cfg (hn_upload net) v1 v2 (rq_ContentType r) (rq_Body r) in wd_ret (replied_if o)
  | EpGetObject =>
      if String.eqb v2 EmptyString then one (fun x => x) (ListObjects_route net r v1)
      else one (fun x => x) (GetObject_route net r v1 v2)
  | EpHeadObject => one Replied (HeadObject_http (hn_calls net) v1 v2)
  | EpDeleteObject => one Replied (DeleteObject_http (hn_calls net) v1 v2)
  | EpListObjects => one (fun x => x) (ListObjects_route net r v1)
  | EpCompleteMultipartUpload =>
      one Replied (CompleteMultipartUpload_http sha256 (hn_first net) (hn_lock net) v1 (hn_manifest net (rq_Body r)))
  | EpUploadPart =>
      wd! o := UploadPart cfg (hn_upload net) (hn_first net) (hn_second net) v1 v2 (rq_Body r) in wd_ret (replied_if o)
  | EpAbortMultipartUpload => one Replied (AbortMultipartUpload_http (hn_first net) v1)
  | EpCreateMultipartUpload => one Replied (CreateMultipartUpload_http cfg (hn_first net) v1 v2 (rq_ContentType r))
  | EpDashboard => wd_ret (Some (Shown 200 DocDashboard))
  | EpAdminHealth => one (shown DocHealth) (AdminHealth (hn_first net) (hn_second net))
  | EpAdminStats => wd_ret (Some (AdminStats net))
  | EpAdminNodes => one (shown DocNodes) (AdminNodes (hn_first net) (hn_now net))
  | EpAdminReplication => one (shown DocReplication) (AdminReplication (hn_first net) (rq_Query r "jobs"))
  | EpAdminObjectChunks =>
      one (shown DocChunks) (AdminObjectChunks (hn_first net) (hn_second net) (hn_third net) v1 v2)
  | EpAdminReconcile => one (shown DocReconcile) (AdminReconcile (hn_first net) (rq_Query r "node"))
  | EpRoot =>
      wd_ret (Some (if String.eqb (pathUnescape (rq_Path r)) "/" then Shown 200 DocService else writeNotFound))
  end.

(** The handler of the request, with jsonFallbacks around the mux. *)
Definition route (cfg : GatewayConfig) (net : http_net) (r : request) : Wd (option response) :=
  match findHandler newMux (rq_Method r) (rq_Path r) with
  | Matched p vars => handle cfg net r (pt_handler p) vars
  | Redirect true => wd_ret (Some Moved)
  | NotAllowed methods => wd_ret (Some (Allowing methods))
  | Redirect false | NoRoute => wd_ret (Some writeNotFound)
  end.

(** Handler.fail, which writes nothing when the client has hung up; the status is
    then the 200 net/http and the recorder assume. *)
Definition unless_gone (net : http_net) (x : response) : response :=
  if hn_gone net then match rs_code x with Some _ => Silent | None => x end else x.
Definition NewRouter (cfg : GatewayConfig) (net : http_net) (r : request) : Wd (option response) :=
  wd! o := route cfg net r in wd_ret (unless_gone net <$> o).

(** http.MaxBytesReader *)
Definition MaxBytesReader (body : Reader) (maxBytes : Z) : Reader :=
  if decide (Z.of_nat (length (rd_data body)) <= maxBytes)%Z then body
  else mkReader (take (Z.to_nat maxBytes) (rd_data body)) (Some (Fault "http: request body too large")).

Definition LimitRequestBody (next : request -> Wd (option response)) (maxBytes : Z) (r : request) : Wd (option response) :=
  if decide (maxBytes <= 0)%Z then next r
  else if String.eqb (rq_Method r) "PUT" || String.eqb (rq_Method r) "POST" then
    if decide (maxBytes < rq_ContentLength r)%Z then wd_ret (Some (Replied (fail (ApiErr 413 CodeEntityTooLarge))))
    else next (with_body r (MaxBytesReader (rq_Body r) maxBytes))
  else next r.

(** ** Metrics *)

(** The request counter by method, route and status class, and the gauge of
    requests in flight. *)
Record http_metrics := mkHttpMetrics {
  hm_RequestsTotal : gmap (string * string * string) Z;
  hm_InFlight : Z
}.

Definition routeLabel (pattern path : string) : string :=
  if negb (String.eqb pattern EmptyString) then pattern
  else
    match Split (TrimPrefix path "/") "/"%char with
    | [] => "/"
    | part :: _ => if String.eqb part EmptyString then "/" else "/" +:+ part
    end.

Definition statusLabel (code : Z) : string :=
  if (code <? 200)%Z then "1xx"
  else if (code <? 300)%Z then "2xx"
  else if (code <? 400)%Z then "3xx"
  else if (code <? 500)%Z then "4xx"
  else "5xx".

(** A download that fails after its status ends in a panic, which runs the
    deferred calls only. *)
Definition panics (r : response) : bool :=
  match r with Streamed s => match rs_Outcome s with Complete => false | _ => true end | _ => false end.

(** The labels of a request, and the two calls of WithLabelValues. *)
Definition request_samples (r : request) (status : Z) : list Families.sample :=
  Families.Middleware_samples (rq_Method r) (routeLabel (rq_Pattern r) (pathUnescape (rq_Path r))) (statusLabel status).
Definition labels_fit `{PM : !Prometheus} (r : request) (status : Z) : bool :=
  forallb (fun s : Families.sample => Families.WithLabelValues s.1 s.2) (request_samples r status).

(** The handler gets a copy of the request ([r.WithContext]), and it is on the
    copy that the mux sets the pattern. The X-Request-Id of the response is the
    caller's or a fresh one. A label value the Prometheus client refuses is a
    panic too: net/http closes the connection, and what was buffered of the
    response is not sent. *)
Definition Middleware `{PM : !Prometheus} (next : request -> Wd (option response)) (fresh : string) (m : http_metrics) (r : request) :
    Wd (option (string * response * http_metrics)) :=
  let requestID := if String.eqb (rq_RequestId r) EmptyString then fresh else rq_RequestId r in
  let m := mkHttpMetrics (hm_RequestsTotal m) (hm_InFlight m + 1) in
  wd! resp := next r in
  wd_ret
    match resp with
    | None => None
    | Some x =>
        let key := (rq_Method r, routeLabel (rq_Pattern r) (pathUnescape (rq_Path r)), statusLabel (rs_status x)) in
        let total := hm_RequestsTotal m in
        if panics x then Some (requestID, x, mkHttpMetrics total (hm_InFlight m - 1))
        else if labels_fit r (rs_status x)
        then Some (requestID, x, mkHttpMetrics (<[key := (default 0 (total !! key) + 1)%Z]> total) (hm_InFlight m - 1))
        else Some (requestID, Silent, mkHttpMetrics total (hm_InFlight m - 1))
    end.

(** The chain cmd/gateway/main.go builds. *)
Definition serve_http `{PM : !Prometheus} (cfg : GatewayConfig) (net : http_net) (fresh : string) (m : http_metrics) (r : request) :
    Wd (option (string * response * http_metrics)) :=
  Middleware (LimitRequestBody (NewRouter cfg net) (gw_MaxObjectSize cfg)) fresh m r.
End server.

(** ** The paths of objects *)

(** The URL path of an object, and the keys that have no segment path.Clean
    would take away: "." nowhere, an empty one only at the end. *)
Definition object_path (bucket key : string) : string := "/objects/" +:+ escape bucket +:+ "/" +:+ escape_path key.
Definition clean_key (key : string) : bool :=
  let segs := Split key "/"%char in
  forallb (fun s => negb (String.eqb s EmptyString)) (removelast segs) && forallb (fun s => negb (String.eqb s ".")) segs.
Definition object_methods : list (string * endpoint) :=
  [("PUT", EpPutObject); ("GET", EpGetObject); ("HEAD", EpHeadObject); ("DELETE", EpDeleteObject)].

Lemma segments_object_path b k :
  segments (object_path b k) = "objects" :: escape b :: (escape <$> Split k "/"%char).
Proof.
  assert (escape <$> Split k "/"%char <> []) as Hne by (intros E%fmap_nil_inv; by apply split_at_not_nil in E).
  change (Split ("objects/" +:+ escape b +:+ "/" +:+ escape_path k) "/"%char = "objects" :: escape b :: (escape <$> Split k "/"%char)).
  transitivity (Split (join "/"%char ("objects" :: escape b :: (escape <$> Split k "/"%char))) "/"%char).
  - by rewrite (join_cons _ "objects"), (join_cons _ (escape b)) by done.
  - apply Split_join; [done|]. repeat constructor; [apply escape_chars|]. apply Forall_forall.
    intros s (x&->&_)%list_elem_of_fmap. apply escape_chars.
Qed.

Lemma match_object m ep b ys : (m, ep) ∈ object_methods -> ys <> [] -> b <> EmptyString -> b <> "/" ->
  match_method newMux m ("objects" :: escape b :: ys) =
  Some (mkPattern m [Lit "objects"; Wild; Multi true] ep, [b; pathUnescape (join "/"%char ys)]).
Proof.
  intros Hin Hys H1 H2. destruct ys as [|y ys]; [done|]. apply match_method_direct.
  rewrite <-(pathUnescape_escape b) in H1, H2. rewrite <-(pathUnescape_escape b) at 2.
  unfold object_methods in Hin. rewrite !elem_of_cons, elem_of_nil in Hin.
  destruct Hin as [[= -> ->]|[[= -> ->]|[[= -> ->]|[[= -> ->]|[]]]]]; (apply matchPath_lit; [by vm_compute|]);
    (apply matchPath_wild; [done|done|reflexivity|]);
    (apply (matchPath_multi _ _ _ _ [pathUnescape (escape b)]); [reflexivity|reflexivity|reflexivity]).
Qed.

Lemma bucket_segment b : ValidateBucket b = None -> plain_segment b /\ b <> "/".
Proof. intros [[H _] _ _ _]%ValidateBucket_safe. split; [split_and!|]; intros ->; simpl in H; lia. Qed.

(** The segments of a key that the coordinator accepts. *)
Lemma key_segments k : ValidateKey k = None ->
  let segs := Split k "/"%char in
  (".." ∉ segs) /\ segs <> [EmptyString] /\
  (clean_key k = true -> exists x xs, Forall plain_segment (x :: xs) /\ (segs = x :: xs \/ segs = (x :: xs) ++ [EmptyString])).
Proof.
  intros Hv segs. assert (join "/"%char segs = k) as Hj by apply split_at_join.
  assert (segs <> [EmptyString]) as Hne.
  { intros E. rewrite E in Hj. simpl in Hj. subst k. done. }
  assert (".." ∉ segs) as Hdd.
  { intros Hin. unfold ValidateKey in Hv. destruct (existsb (String.eqb "..") (Split k "/"%char)) eqn:Hs; [by repeat case_match|].
    apply not_true_iff_false in Hs. apply Hs, existsb_exists. exists "..". split; [by apply list_elem_of_In|done]. }
  split_and!; [done|done|]. unfold clean_key. fold segs. intros [Hc Hd]%andb_true_iff.
  rewrite forallb_forall in Hc, Hd.
  assert (segs <> []) as Hnil by apply split_at_not_nil.
  assert (forall s, s ∈ segs -> s <> EmptyString -> plain_segment s) as Hplain.
  { intros s Hs Hs'. split_and!; [done| |by intros ->]. intros ->. specialize (Hd "."). discriminate Hd. by apply list_elem_of_In. }
  pose proof (app_removelast_last EmptyString Hnil) as Hsplit. set (init := removelast segs) in *. set (z := List.last segs EmptyString) in *.
  assert (Forall plain_segment init) as Hinit.
  { apply Forall_forall. intros s Hs. apply Hplain; [rewrite Hsplit; apply elem_of_app; by left|]. intros ->.
    specialize (Hc EmptyString). discriminate Hc. by apply list_elem_of_In. }
  destruct (decide (z = EmptyString)) as [Hz|Hz].
  - rewrite Hz in Hsplit. destruct init as [|x xs]; [done|]. exists x, xs. split; [done|by right].
  - assert (Forall plain_segment segs) as Hall.
    { rewrite Hsplit. apply Forall_app. split; [done|]. constructor; [|done]. apply Hplain; [|done].
      rewrite Hsplit. apply elem_of_app. right. by left. }
    destruct segs as [|x xs]; [done|]. exists x, xs. split; [done|by left].
Qed.

Lemma clean_key_intro k init : Forall plain_segment init ->
  (Split k "/"%char = init \/ Split k "/"%char = init ++ [EmptyString]) -> clean_key k = true.
Proof.
  intros Hp Hs. unfold clean_key. rewrite Forall_forall in Hp. apply andb_true_iff. rewrite !forallb_forall. split.
  - intros s Hin. apply negb_true_iff, String.eqb_neq. apply list_elem_of_In in Hin.
    destruct Hs as [Hs|Hs]; rewrite Hs in Hin; [|rewrite removelast_last in Hin; by apply Hp]. apply Hp.
    destruct init as [|x xs]; [done|]. rewrite (app_removelast_last EmptyString (l := x :: xs)) by done. apply elem_of_app. by left.
  - intros s Hin. apply negb_true_iff, String.eqb_neq. apply list_elem_of_In in Hin.
    destruct Hs as [Hs|Hs]; rewrite Hs in Hin; [by apply Hp|]. apply elem_of_app in Hin as [Hin|Hin%list_elem_of_singleton]; [by apply Hp|by subst].
Qed.

(** The route of an object. *)
Lemma object_route m ep b k :
  (m, ep) ∈ object_methods -> ValidateBucket b = None -> ValidateKey k = None ->
  if clean_key k then findHandler newMux m (object_path b k) = Matched (mkPattern m [Lit "objects"; Wild; Multi true] ep) [b; k]
  else exists known, findHandler newMux m (object_path b k) = Redirect known.
Proof.
  intros Hm Hb Hk. destruct (bucket_segment b Hb) as [Hpb Hsl]. destruct (key_segments k Hk) as (Hdd&Hne&Hclean).
  assert (m <> "CONNECT") as Hcon by (intros ->; unfold object_methods in Hm; set_solver).
  pose proof (segments_object_path b k) as Hseg. assert (Split k "/"%char <> []) as Hnil by apply split_at_not_nil.
  assert (join "/"%char (Split k "/"%char) = k) as Hj by apply split_at_join.
  assert (plain_segment "objects") as Hobj by by split_and!. assert (b <> EmptyString) as Hbne by apply Hpb. apply escape_plain in Hpb.
  destruct (clean_key k) eqn:Ec.
  - destruct (Hclean eq_refl) as (x&xs&Hx&Hxs).
    eapply findHandler_matched; [done|done| | | |done|]; rewrite Hseg.
    + apply escape_all_plain in Hx. destruct Hxs as [-> | ->].
      * apply cleanPath_plain. constructor; [done|by constructor].
      * rewrite fmap_app. apply (cleanPath_slash "objects" (escape b :: (escape <$> x :: xs))). constructor; [done|by constructor].
    + rewrite (match_object m ep b (escape <$> Split k "/"%char));
        [|done|by intros ?%fmap_nil_inv|done|done].
      unfold pathUnescape. by rewrite PathUnescape_join, Hj.
    + apply (match_object m ep b ((escape <$> Split k "/"%char) ++ [EmptyString])); [done| |done|done].
      by destruct (Split k "/"%char).
    + simpl. rewrite length_fmap. destruct (Split k "/"%char); [done|simpl; lia].
  - apply findHandler_unclean; [done|]. rewrite Hseg. intros E.
    assert (clean_key k = true) as Hc; [|congruence]. clear Ec.
    destruct (cleanPath_fixed _ E) as [E1|[E1|(ys&E1&Hys)]]; [done| |].
    + apply Forall_cons in E1 as [_ [_ E1]%Forall_cons]. apply (clean_key_intro k (Split k "/"%char)); [by apply escape_all_plain|by left].
    + destruct ys as [|y1 [|y2 ys]]; [done| |].
      { injection E1 as _ _ E1. by apply fmap_nil_inv in E1. }
      injection E1 as _ _ E1. apply Forall_cons in Hys as [_ [_ Hys]%Forall_cons].
      apply fmap_app_inv in E1 as (init&z&Hinit&Hz&E1). symmetry in Hz.
      apply (clean_key_intro k init); [|right; rewrite E1; f_equal].
      * apply escape_all_plain. by rewrite <-Hinit.
      * destruct z as [|z0 [|? ?]]; [done| |done]. injection Hz as Hz. f_equal. by apply (escape_inj z0 EmptyString).
Qed.

(** ** Every error has its code *)

Definition yields {A} (P : A -> Prop) (m : Wd A) : Prop := forall w, P (m w).1.
Lemma yields_ret {A} (P : A -> Prop) a : P a -> yields P (wd_ret a).
Proof. intros H w. exact H. Qed.
Lemma yields_bind {A B} (P : B -> Prop) (m : Wd A) (k : A -> Wd B) : (forall a, yields P (k a)) -> yields P (wd_bind m k).
Proof. intros H w. unfold wd_bind. destruct (m w) as [a w']. apply H. Qed.
Lemma yields_then {A B} (Q : A -> Prop) (P : B -> Prop) (m : Wd A) (k : A -> Wd B) :
  yields Q m -> (forall a, Q a -> yields P (k a)) -> yields P (wd_bind m k).
Proof. intros Hm Hk w. unfold wd_bind. specialize (Hm w). destruct (m w) as [a w']. by apply Hk. Qed.

(** An error comes with a status of its class, and only an error does. *)
Definition error_sound (e : gw_error) : Prop := match e with ApiErr status _ => 400 <= status < 600 | RpcErr _ => True end%Z.
Definition reply_sound (r : HttpReply) : Prop :=
  match hr_Error r with Some _ => 400 <= hr_Status r < 600 | None => 200 <= hr_Status r < 300 end%Z.
(** What the handlers answer; the exception is the page of /admin/health. *)
Definition response_sound (r : response) : Prop :=
  match rs_code r with
  | Some _ => (400 <= rs_status r < 600)%Z
  | None => (200 <= rs_status r < 400)%Z \/ exists p, r = Shown 503 (DocHealth p) /\ hp_Status p = "unavailable"
  end.
Definition page_sound {A} (p : page A) : Prop :=
  match p with Err e => hr_Error e <> None /\ reply_sound e | Ok (status, _) => (200 <= status < 300)%Z end.

Lemma fail_sound e : error_sound e -> hr_Error (fail e) <> None /\ reply_sound (fail e).
Proof.
  intros H. split; [done|]. unfold reply_sound, fail. cbn [hr_Error hr_Status].
  destruct e as [status code|code]; [exact H|]. unfold apierr_From. repeat case_match; cbn; lia.
Qed.
Lemma fail_replied e : error_sound e -> response_sound (Replied (fail e)).
Proof. intros [_ H]%fail_sound. exact H. Qed.
Lemma reply_response r : reply_sound r -> response_sound (Replied r).
Proof. unfold reply_sound, response_sound. simpl. destruct (hr_Error r); [done|]. intros H. left. lia. Qed.

(** The handlers. *)
Ltac soundness :=
  repeat first
    [ progress intros
    | apply yields_ret
    | match goal with
      | |- yields _ (wd_bind _ _) => apply yields_bind
      | |- yields _ (match ?x with _ => _ end) => destruct x
      | |- yields _ (if ?x then _ else _) => destruct x
      | |- context [match ?x with Ok _ => _ | Err _ => _ end] => destruct x
      end ].

Section sound.
Context `{PG : !Postgres, UU : !Uuid, GM : !GoMath, GS : !GoSort} (sha256 : string -> string).

Lemma reply_fail e : error_sound e -> reply_sound (fail e).
Proof. intros H. by apply fail_sound. Qed.

Lemma upload_chunk_sound net owner chunk :
  yields (fun r => match r with Err e => error_sound e | Ok _ => True end) (upload_chunk net owner chunk).
Proof.
  unfold upload_chunk. soundness; try exact I; repeat case_match; cbn; lia.
Qed.
Lemma upload_loop_sound fuel net owner sp h total count :
  yields (fun r => match r with Some (Err e) => error_sound e | _ => True end) (upload_loop fuel net owner sp h total count).
Proof.
  revert sp h total count. induction fuel as [|fuel IH]; intros sp h total count; [by apply yields_ret|]. cbn [upload_loop].
  destruct (Next sp) as [[chunk|[| |]] sp']; try (apply yields_ret; cbn; (exact I || lia)).
  eapply yields_then; [apply upload_chunk_sound|]. intros [u|err] Herr; [apply IH|by apply yields_ret].
Qed.
Lemma streamUpload_sound cfg net src owner size :
  yields (fun r => match r with Some (Err e) => error_sound e | _ => True end) (streamUpload cfg net src owner size).
Proof. unfold streamUpload. destruct (NewSplitterBuffer _ _ _); [apply upload_loop_sound|apply yields_ret; cbn; lia]. Qed.

Lemma PutObject_sound cfg net b k ct body :
  yields (fun r => forall x, r = Some x -> reply_sound x) (PutObject cfg net b k ct body).
Proof.
  unfold PutObject. apply yields_bind. intros [begun|code]; [|apply yields_ret; intros x [= <-]; by apply reply_fail].
  eapply (yields_then (fun r => match r with Some (Ok x) => reply_sound x | Some (Err e) => error_sound e | None => True end)).
  - unfold put_body. eapply yields_then; [apply streamUpload_sound|].
    intros [[res|err]|] H; [|by apply yields_ret|by apply yields_ret].
    apply yields_bind. intros [[[id etag] n]|code]; apply yields_ret; [cbn; lia|exact I].
  - intros [[x|err]|] H; [by apply yields_ret; intros ? [= <-]| |].
    + apply yields_bind. intros u. apply yields_ret. intros x [= <-]. by apply reply_fail.
    + apply yields_bind. intros u. by apply yields_ret.
Qed.
Lemma UploadPart_sound cfg net begin finish id num body :
  yields (fun r => forall x, r = Some x -> reply_sound x) (UploadPart cfg net begin finish id num body).
Proof.
  unfold UploadPart. assert (forall st c, (400 <= st < 600)%Z -> reply_sound (fail (ApiErr st c))) as Hf by (intros; by apply reply_fail).
  destruct (ParseInt num); [|apply yields_ret; intros x [= <-]; by apply Hf].
  case_decide as Hn; [apply yields_ret; intros x [= <-]; by apply Hf|].
  apply yields_bind. intros [[part size]|code]; [|apply yields_ret; intros x [= <-]; by apply reply_fail].
  eapply yields_then; [apply streamUpload_sound|].
  intros [[res|err]|] H; [|apply yields_ret; intros x [= <-]; by apply reply_fail|by apply yields_ret].
  apply yields_bind. intros [u|code]; apply yields_ret; intros x [= <-]; [cbn; lia|by apply reply_fail].
Qed.

Lemma GetObject_serve_status cl reporter c obj raw :
  let s := rs_Status (Download.GetObject_serve cl reporter c obj raw) in s = 200%Z \/ s = 206%Z \/ s = 416%Z.
Proof.
  assert (forall status len range spans, rs_Status (send cl reporter c status len range spans) = status) as Hs.
  { intros. unfold send. by destruct (streamDownload cl reporter c 0 0 spans) as [[? ?] ?]. }
  unfold Download.GetObject_serve. repeat case_match; rewrite ?Hs; auto.
Qed.
Lemma GetObject_route_sound net r b k : yields response_sound (GetObject_route net r b k).
Proof.
  unfold GetObject_route.
  eapply (yields_then (fun x => match x with Err e => reply_sound e | Ok s => rs_Status s = 200%Z \/ rs_Status s = 206%Z \/ rs_Status s = 416%Z end)).
  - unfold GetObject_http. apply yields_bind. intros [obj|code]; [|apply yields_ret; by apply reply_fail].
    intros w. apply GetObject_serve_status.
  - intros [s|e] H; [|apply yields_ret; by apply reply_response]. apply yields_bind. intros u. apply yields_ret.
    unfold response_sound. simpl. destruct (rs_Status s =? 416)%Z eqn:E; [lia|]. left. lia.
Qed.

Lemma shown_sound {A} (doc : A -> document) (m : Wd (page A)) : yields page_sound m ->
  yields response_sound (wd! p := m in wd_ret (shown doc p)).
Proof.
  intros H. eapply yields_then; [exact H|]. intros [[status p]|e] Hp; apply yields_ret.
  - left. simpl. unfold page_sound in Hp. lia.
  - apply reply_response, Hp.
Qed.

Lemma page_fail {A} e : error_sound e -> page_sound (A := A) (Err (fail e)).
Proof. exact (fail_sound e). Qed.
Lemma AdminNodes_sound a now : yields page_sound (AdminNodes a now).
Proof. unfold AdminNodes. apply yields_bind. intros [[[[]]]|code]; apply yields_ret; [cbn; lia|by apply page_fail]. Qed.
Lemma AdminObjectChunks_sound a a' c b k : yields page_sound (AdminObjectChunks a a' c b k).
Proof.
  unfold AdminObjectChunks. apply yields_bind. intros [[]|code]; [|apply yields_ret; by apply page_fail].
  apply yields_bind. intros [st|code]; apply yields_ret; [cbn; lia|by apply page_fail].
Qed.
Lemma AdminReplication_sound a jobs : yields page_sound (AdminReplication a jobs).
Proof. unfold AdminReplication. apply yields_bind. intros [st|code]; apply yields_ret; [cbn; lia|by apply page_fail]. Qed.
Lemma AdminReconcile_sound a node : yields page_sound (AdminReconcile a node).
Proof. unfold AdminReconcile. apply yields_bind. intros [st|code]; apply yields_ret; [cbn; lia|by apply page_fail]. Qed.
Lemma ListObjects_sound a b l p s : yields page_sound (ListObjects_http a b l p s).
Proof.
  unfold ListObjects_http. destruct (if String.eqb l EmptyString then _ else _); [|apply yields_ret, page_fail; cbn; lia].
  apply yields_bind. intros [[]|code]; apply yields_ret; [cbn; lia|by apply page_fail].
Qed.
Lemma AdminHealth_sound a b : yields response_sound (wd! p := AdminHealth a b in wd_ret (shown DocHealth p)).
Proof.
  eapply (yields_then (fun p : page healthPage => match p with Err e => reply_sound e
    | Ok (status, p) => (200 <= status < 400)%Z \/ status = 503%Z /\ hp_Status p = "unavailable" end)).
  - unfold AdminHealth. apply yields_bind. intros [[[[]]]|code]; [|apply yields_ret; by apply reply_fail].
    apply yields_bind. intros [st|code]; apply yields_ret; [|by apply reply_fail].
    unfold health_verdict. repeat case_decide; simpl; first [by right|left; lia].
  - intros [[status p]|e] H; apply yields_ret; [|by apply reply_response]. destruct H as [H|[-> H]]; [by left|right]. by exists p.
Qed.

Lemma ListObjects_route_sound net r b : yields response_sound (ListObjects_route net r b).
Proof. apply shown_sound, ListObjects_sound. Qed.
Lemma HeadObject_sound calls b k : yields reply_sound (HeadObject_http calls b k).
Proof. unfold HeadObject_http. apply yields_bind. intros [o|code]; apply yields_ret; [cbn; lia|by apply reply_fail]. Qed.
Lemma DeleteObject_sound calls b k : yields reply_sound (DeleteObject_http calls b k).
Proof. unfold DeleteObject_http. apply yields_bind. intros [o|code]; apply yields_ret; [cbn; lia|by apply reply_fail]. Qed.
Lemma CreateMultipartUpload_sound cfg a b k ct : yields reply_sound (CreateMultipartUpload_http cfg a b k ct).
Proof. unfold CreateMultipartUpload_http. apply yields_bind. intros [[]|code]; apply yields_ret; [cbn; lia|by apply reply_fail]. Qed.
Lemma CompleteMultipartUpload_sound a lock id manifest : yields reply_sound (CompleteMultipartUpload_http sha256 a lock id manifest).
Proof.
  unfold CompleteMultipartUpload_http. destruct manifest; [|apply yields_ret, reply_fail; cbn; lia].
  apply yields_bind. intros [[[]]|code]; apply yields_ret; [cbn; lia|by apply reply_fail].
Qed.
Lemma AbortMultipartUpload_sound a id : yields reply_sound (AbortMultipartUpload_http a id).
Proof. unfold AbortMultipartUpload_http. apply yields_bind. intros [o|code]; apply yields_ret; [cbn; lia|by apply reply_fail]. Qed.

Lemma replied_sound (m : Wd HttpReply) : yields reply_sound m -> yields response_sound (wd! a := m in wd_ret (Replied a)).
Proof. intros H. eapply yields_then; [exact H|]. intros r Hr. by apply yields_ret, reply_response. Qed.
End sound.

Create HintDb envelope.
#[export] Hint Resolve AdminNodes_sound AdminObjectChunks_sound AdminReplication_sound AdminReconcile_sound ListObjects_sound
  AdminHealth_sound GetObject_route_sound ListObjects_route_sound HeadObject_sound DeleteObject_sound
  CreateMultipartUpload_sound CompleteMultipartUpload_sound AbortMultipartUpload_sound shown_sound : envelope.

(** What a handler of the table answers. *)
Lemma handle_sound `{PG : !Postgres, UU : !Uuid, GM : !GoMath, GS : !GoSort} sha256 cfg net r ep vars :
  yields (fun o => forall x, o = Some x -> response_sound x) (handle sha256 cfg net r ep vars).
Proof.
  assert (forall (m : Wd response), yields response_sound m ->
    yields (fun o => forall x, o = Some x -> response_sound x) (wd! a := m in wd_ret (Some a))) as Hone.
  { intros m H. eapply yields_then; [exact H|]. intros a Ha. apply yields_ret. by intros x [= <-]. }
  assert (forall {A} (f : A -> response) (m : Wd A), yields response_sound (wd! a := m in wd_ret (f a)) ->
    yields (fun o => forall x, o = Some x -> response_sound x) (wd! a := m in wd_ret (Some (f a)))) as Hmap.
  { intros A f m H w. specialize (H w). unfold wd_bind in *. destruct (m w) as [a w']. by intros x [= <-]. }
  assert (forall (m : Wd HttpReply), yields reply_sound m ->
    yields (fun o => forall x, o = Some x -> response_sound x) (wd! a := m in wd_ret (Some (Replied a)))) as Hrep.
  { intros m H. by apply Hmap, replied_sound. }
  assert (forall (m : Wd (option HttpReply)), yields (fun r => forall x, r = Some x -> reply_sound x) m ->
    yields (fun o => forall x, o = Some x -> response_sound x) (wd! o := m in wd_ret (replied_if o))) as Hopt.
  { intros m H. eapply yields_then; [exact H|]. intros [a|] Ha; apply yields_ret; [|done]. intros x [= <-]. by apply reply_response, Ha. }
  destruct ep; cbn [handle]; try (apply Hopt; first [apply PutObject_sound|apply UploadPart_sound]).
  all: try (apply Hmap; eauto with envelope; fail).
  all: try (apply Hrep; eauto with envelope; fail).
  - destruct (String.eqb _ _); apply Hone; eauto with envelope.
  - apply Hone. eauto with envelope.
  - apply yields_ret. intros x [= <-]. left. simpl. lia.
  - apply yields_ret. intros x [= <-]. unfold AdminStats. destruct (hn_families net); [left; simpl; lia|].
    apply fail_replied. cbn. lia.
  - apply yields_ret. intros x [= <-]. destruct (String.eqb _ _); [left; simpl; lia|]. apply fail_replied. cbn. lia.
Qed.

(** ** A request *)

Definition sample_http : http_net :=
  mkHttpNet sample_upload_net (fun _ => sample_attempt true 7 0) (sample_attempt true 7 0) (sample_attempt true 7 0)
    (sample_attempt true 7 0)
    (mkReadNet (fun _ _ => true) (fun _ _ => no_faults) (fun _ _ => reliable) (fun _ => false))
    (fun _ => None) (fun _ _ => sample_attempt true 8 0) (fun _ => "checksum mismatch") 7000
    (fun _ => Err tt) (Ok true) None false.
Definition sample_request (m path range : string) (body : bytes) : request :=
  mkRequest m path EmptyString (fun _ => EmptyString) EmptyString range EmptyString (Z.of_nat (length body)) (mkReader body None).
Definition no_metrics : http_metrics := mkHttpMetrics ∅ 0.

(** ** What the metrics count *)

(** The text has no slash. *)
Definition no_slash (x : string) : Prop := all_chars (fun c => negb (Ascii.eqb c "/"%char)) x = true.

Lemma no_slash_join x : no_slash x -> Split x "/"%char = [x].
Proof. intros H. apply (Split_join "/"%char [x]); [done|by constructor]. Qed.
Lemma route_label_segment x : no_slash x -> x <> EmptyString -> routeLabel EmptyString (String "/"%char x) = String "/"%char x.
Proof.
  intros Hx Hne. unfold routeLabel. cbn [String.eqb negb].
  assert (TrimPrefix (String "/"%char x) "/" = x) as ->.
  { unfold TrimPrefix, HasPrefix. simpl. assert (String.prefix EmptyString x = true) as -> by by destruct x.
    rewrite Nat.sub_0_r. apply substring_full. }
  rewrite no_slash_join by done. by apply String.eqb_neq in Hne as ->.
Qed.

(** A path of one segment that no route has. *)
Definition stray (x : string) : Prop :=
  plain_segment x /\ no_slash x /\ x <> "objects" /\ x <> "dashboard" /\ x <> "admin".

Lemma get_patterns : method_node newMux "GET" =
  let at_ segs ep := (segs, mkPattern "GET" segs ep) in
  [at_ [Lit "objects"; Wild; Multi true] EpGetObject; at_ [Lit "objects"; Wild] EpListObjects;
   at_ [Lit "dashboard"] EpDashboard; at_ [Lit "admin"; Lit "health"] EpAdminHealth; at_ [Lit "admin"; Lit "stats"] EpAdminStats;
   at_ [Lit "admin"; Lit "nodes"] EpAdminNodes; at_ [Lit "admin"; Lit "replication"] EpAdminReplication;
   at_ [Lit "admin"; Lit "objects"; Wild; Multi true] EpAdminObjectChunks; at_ [Multi false] EpRoot].
Proof. reflexivity. Qed.

Lemma stray_route x : stray x ->
  findHandler newMux "GET" (String "/"%char (escape x)) = Matched (mkPattern "GET" [Multi false] EpRoot) [].
Proof.
  intros (Hp&Hs&H1&H2&H3). pose proof (proj2 (escape_plain x) Hp) as Hp'.
  assert (segments (String "/"%char (escape x)) = [escape x]) as Hseg by apply no_slash_join, escape_chars.
  assert (child_lit x (method_node newMux "GET") = []) as Hl.
  { apply String.eqb_neq in H1, H2, H3. rewrite get_patterns. unfold child_lit. cbn [omap list_omap fst snd].
    by rewrite H1, H2, H3. }
  assert (x <> "/") as Hslash by by intros ->.
  assert (forall ys, matchPath (method_node newMux "GET") (escape x :: ys) [] = Some (mkPattern "GET" [Multi false] EpRoot, [])) as Hm.
  { intros ys. cbn [matchPath]. destruct Hp' as (Hne&_&_). apply String.eqb_neq in Hne. rewrite Hne. cbn [andb].
    rewrite pathUnescape_escape. destruct Hp as (Hx&_&_). apply String.eqb_neq in Hx, Hslash. rewrite Hx, Hl, matchPath_nil, Hslash.
    change (child_wild (method_node newMux "GET")) with (@nil (list segment * pattern endpoint)). by rewrite matchPath_nil. }
  apply (findHandler_matched _ _ _ _ _ []); [done|done| | | |done|]; rewrite Hseg.
  - by apply cleanPath_plain; constructor.
  - by apply match_method_direct, Hm.
  - by apply match_method_direct, Hm.
  - simpl. lia.
Qed.

(** The labels of a request fit when its method and the first segment of its path
    are text. *)
Lemma status_label_text code : ValidString (statusLabel code) = true.
Proof. unfold statusLabel. repeat case_match; vm_compute; reflexivity. Qed.
Lemma labels_fit_text `{PM : !Prometheus} r code : ValidString (rq_Method r) = true ->
  ValidString (routeLabel (rq_Pattern r) (pathUnescape (rq_Path r))) = true -> labels_fit r code = true.
Proof.
  intros H1 H2. unfold labels_fit, request_samples, Families.Middleware_samples, Families.WithLabelValues. cbn [forallb fst snd].
  rewrite !label_value_utf8, H1, H2, status_label_text. reflexivity.
Qed.
Lemma labels_fit_not_text `{PM : !Prometheus} r code :
  ValidString (routeLabel (rq_Pattern r) (pathUnescape (rq_Path r))) = false -> labels_fit r code = false.
Proof.
  intros H. unfold labels_fit, request_samples, Families.Middleware_samples. cbn [forallb fst snd].
  by rewrite (Families.fits_bad _ _ (routeLabel (rq_Pattern r) (pathUnescape (rq_Path r)))) by (try done; right; left).
Qed.

(** The objects' requests are counted under one label. *)
Lemma object_path_label b k : routeLabel EmptyString (pathUnescape (object_path b k)) = "/objects".
Proof.
  unfold object_path, pathUnescape. generalize (escape b +:+ "/" +:+ escape_path k). intros t.
  change ("/objects/" +:+ t) with (String "/" (String "o" (String "b" (String "j" (String "e" (String "c" (String "t" (String "s" (String "/" t)))))))))%char.
  cbn [PathUnescape]. repeat (rewrite (eq_refl : Ascii.eqb _ "%" = false); cbn iota). by destruct (PathUnescape t).
Qed.

(** A path no route knows is answered with 404 and counted under its own first
    segment: the label falls back to the path, because the matched pattern is set
    on the copy of the request the router sees. So every such path makes a time
    series. When the segment is not UTF-8 the label is refused instead: the
    middleware panics, the answer is lost and nothing is counted. *)
Theorem stray_paths_make_series `{PG : !Postgres, UU : !Uuid, GM : !GoMath, GS : !GoSort, PM : !Prometheus} sha256 cfg net fresh m r x w :
  stray x -> hn_gone net = false -> rq_Method r = "GET" -> rq_Path r = String "/"%char (escape x) -> rq_Pattern r = EmptyString ->
  exists id m', hm_InFlight m' = hm_InFlight m /\
    let key := ("GET", String "/"%char x, "4xx") in
    if ValidString (String "/"%char x)
    then serve_http sha256 cfg net fresh m r w = (Some (id, writeNotFound, m'), w) /\
         hm_RequestsTotal m' = <[key := (default 0 (hm_RequestsTotal m !! key) + 1)%Z]> (hm_RequestsTotal m)
    else serve_http sha256 cfg net fresh m r w = (Some (id, Silent, m'), w) /\ hm_RequestsTotal m' = hm_RequestsTotal m.
Proof.
  intros Hx Hg Hm Hp Hpat.
  assert (pathUnescape (rq_Path r) = String "/"%char x) as Hpath by (rewrite Hp; apply pathUnescape_slash).
  assert (LimitRequestBody (NewRouter sha256 cfg net) (gw_MaxObjectSize cfg) r w = (Some writeNotFound, w)) as Hr.
  { unfold LimitRequestBody. rewrite Hm. cbn [String.eqb Ascii.eqb Bool.eqb orb].
    assert (NewRouter sha256 cfg net r w = (Some writeNotFound, w)) as Hr; [|by case_decide].
    unfold NewRouter, wd_bind, route. rewrite Hm, Hp, stray_route by done. cbn [pt_handler handle]. rewrite Hpath.
    unfold unless_gone. rewrite Hg. destruct Hx as ((Hne&_&_)&_). by destruct x. }
  assert (routeLabel (rq_Pattern r) (pathUnescape (rq_Path r)) = String "/"%char x) as Hl.
  { rewrite Hpath, Hpat. destruct Hx as ((Hne&_&_)&Hs&_). by apply route_label_segment. }
  unfold serve_http, Middleware, wd_bind. rewrite Hr. cbn [panics wd_ret hm_RequestsTotal hm_InFlight].
  destruct (ValidString (String "/"%char x)) eqn:Hv.
  - rewrite labels_fit_text by (try (rewrite Hm; reflexivity); by rewrite Hl). rewrite Hl, Hm.
    eexists _, _. split; [|split; [reflexivity|done]]. cbn [hm_InFlight]. lia.
  - rewrite labels_fit_not_text by by rewrite Hl. eexists _, _. split; [|split; [reflexivity|done]]. cbn [hm_InFlight]. lia.
Qed.

(** ** The server's promises *)

(** C35: every valid name has its own route. For a bucket and a key the
    coordinator accepts, the four methods on the object's path reach the
    object's handler with exactly that bucket and key, through escaping,
    cleaning and matching, whatever characters the key has. The only exception
    is a key with an empty or a dot segment: its path is redirected to another
    one. *)
Theorem object_routing (m : string) (ep : endpoint) (b k : string) :
  (m, ep) ∈ object_methods -> ValidateBucket b = None -> ValidateKey k = None ->
  if clean_key k then findHandler newMux m (object_path b k) = Matched (mkPattern m [Lit "objects"; Wild; Multi true] ep) [b; k]
  else exists known, findHandler newMux m (object_path b k) = Redirect known.
Proof. exact (object_route m ep b k). Qed.

Lemma object_routing_witness :
  findHandler newMux "GET" (object_path "photos" "a b/100%?.jpg") =
    Matched (mkPattern "GET" [Lit "objects"; Wild; Multi true] EpGetObject) ["photos"; "a b/100%?.jpg"].
Proof.
  refine (object_routing "GET" EpGetObject "photos" "a b/100%?.jpg" _ _ _);
    [right; left|vm_compute; reflexivity|vm_compute; reflexivity].
Defined.

(** What is not text has no label: the method, or the first segment of the path. *)
Definition unlabelled (r : request) : Prop :=
  ValidString (rq_Method r) = false \/ ValidString (routeLabel (rq_Pattern r) (pathUnescape (rq_Path r))) = false.

Definition answer_sound (net : http_net) (x : response) : Prop :=
  (x = Silent /\ hn_gone net = true) \/ response_sound x.

Lemma unlabelled_labels `{PM : !Prometheus} r code : labels_fit r code = false -> unlabelled r.
Proof.
  intros H. unfold unlabelled. destruct (ValidString (rq_Method r)) eqn:H1; [right|by left].
  destruct (ValidString (routeLabel _ _)) eqn:H2; [|done]. by rewrite labels_fit_text in H.
Qed.

Lemma route_sound `{PG : !Postgres, UU : !Uuid, GM : !GoMath, GS : !GoSort} sha256 cfg net r :
  yields (fun o => forall x, o = Some x -> response_sound x) (route sha256 cfg net r).
Proof.
  unfold route. destruct (findHandler newMux _ _) as [p vars|[]|ms|]; [apply handle_sound|..];
    apply yields_ret; intros x [= <-]; first [left; simpl; lia|apply fail_replied; cbn; lia|unfold response_sound; simpl; lia].
Qed.
Lemma unless_gone_sound net x : response_sound x -> answer_sound net (unless_gone net x).
Proof.
  intros Hx. unfold unless_gone, answer_sound. destruct (hn_gone net); [|by right]. destruct (rs_code x); [by left|by right].
Qed.

(** Every handler answers: the loops of the uploads have fuel enough. *)
Lemma handle_total `{PG : !Postgres, UU : !Uuid, GM : !GoMath, GS : !GoSort} sha256 cfg net r ep vars :
  yields (fun o => o <> None) (handle sha256 cfg net r ep vars).
Proof.
  assert (forall {A} (f : A -> response) (m : Wd A), yields (fun o : option response => o <> None) (wd! a := m in wd_ret (Some (f a)))) as Hone.
  { intros A f m. apply yields_bind. intros a. by apply yields_ret. }
  assert (forall m : Wd (option HttpReply), yields (fun o => o <> None) m -> yields (fun o => o <> None) (wd! o := m in wd_ret (replied_if o))) as Hopt.
  { intros m H. eapply yields_then; [exact H|]. intros [a|] Ha; [|done]. by apply yields_ret. }
  destruct ep; cbn [handle]; try apply Hone; try by apply yields_ret.
  - apply Hopt. intros w. apply PutObject_total.
  - destruct (String.eqb _ _); apply Hone.
  - apply Hopt. intros w. apply UploadPart_total.
Qed.
Lemma server_total `{PG : !Postgres, UU : !Uuid, GM : !GoMath, GS : !GoSort} sha256 cfg net r :
  yields (fun o => o <> None) (LimitRequestBody (NewRouter sha256 cfg net) (gw_MaxObjectSize cfg) r).
Proof.
  assert (forall r', yields (fun o => o <> None) (NewRouter sha256 cfg net r')) as Hr.
  { intros r'. unfold NewRouter. apply (yields_then (fun o => o <> None)).
    - unfold route. destruct (findHandler newMux _ _) as [p vars|[]|ms|]; [apply handle_total|..]; by apply yields_ret.
    - intros [x|] H; [|done]. by apply yields_ret. }
  unfold LimitRequestBody. case_decide; [apply Hr|]. destruct (_ || _); [|apply Hr]. case_decide; [by apply yields_ret|apply Hr].
Qed.

(** C36: every request is answered, and every error answer carries a code.
    Whatever the request, the network and the state are, the server (with the
    upload loops of PutObject and UploadPart) ends with a response that either
    has an error code from the API's list, and then its status is between 400
    and 599, or has none and a status between 200 and 399. There are three
    exceptions: the page of /admin/health with 503, a client that has hung up,
    to whom nothing is written, and a request whose method or first path segment
    is not UTF-8, whose answer the panic of the metrics loses. *)
Theorem errors_have_codes `{PG : !Postgres, UU : !Uuid, GM : !GoMath, GS : !GoSort, PM : !Prometheus} sha256 cfg net fresh m r w :
  exists id resp m' w', serve_http sha256 cfg net fresh m r w = (Some (id, resp, m'), w') /\
    (answer_sound net resp \/ resp = Silent /\ unlabelled r).
Proof.
  unfold serve_http, Middleware, wd_bind.
  assert (yields (fun o => forall x, o = Some x -> answer_sound net x)
    (LimitRequestBody (NewRouter sha256 cfg net) (gw_MaxObjectSize cfg) r)) as H.
  { assert (forall r', yields (fun o => forall x, o = Some x -> answer_sound net x) (NewRouter sha256 cfg net r')) as Hr.
    { intros r'. unfold NewRouter. eapply yields_then; [apply (route_sound sha256 cfg net r')|]. intros [x|] Hx; apply yields_ret; [|done].
      intros y [= <-]. by apply unless_gone_sound, Hx. }
    unfold LimitRequestBody. case_decide; [apply Hr|]. destruct (_ || _); [|apply Hr]. case_decide; [|apply Hr].
    apply yields_ret. intros x [= <-]. right. apply fail_replied. cbn. lia. }
  specialize (H w). pose proof (server_total sha256 cfg net r w) as Ht.
  destruct (LimitRequestBody _ _ _ w) as [[x|] w1]; [|done]. cbn [wd_ret].
  destruct (panics x); [eexists _, _, _, _; split; [done|]; left; by apply H|].
  destruct (labels_fit r (rs_status x)) eqn:Hl; eexists _, _, _, _; (split; [done|]).
  - left. by apply H.
  - right. split; [done|]. exact (unlabelled_labels r _ Hl).
Qed.
