(* ===== verification/UploadFiles.v ===== *)
(** * What an upload leaves on the nodes

    The files of the storage nodes while the gateway writes one chunk: every
    file is as before, or it is the chunk's own and holds exactly its bytes. *)

From Stdlib Require Import Strings.Byte.
From stdpp Require Import base numbers gmap strings list.
From S2P Require Import Prelude Chunking Checksum GoStrings RangeReq ChunkStore StorageService ChunkWriter.

Definition writes (id : string) (data : bytes) (n n' : node) : Prop :=
  forall q, d_data (n_disk n') !! q = d_data (n_disk n) !! q \/
    RelativePath id = Some q /\ f_data <$> d_data (n_disk n') !! q = Some data.

#[export] Instance writes_preorder id data : PreOrder (writes id data).
Proof.
  split; [intros n q; by left|]. intros n1 n2 n3 H12 H23 q.
  destruct (H23 q) as [->|?]; [apply H12|by right].
Qed.

Definition cluster_writes (id : string) (data : bytes) (nodes nodes' : cluster) : Prop :=
  forall addr, option_Forall2 (writes id data) (nodes !! addr) (nodes' !! addr).

#[export] Instance cluster_writes_preorder id data : PreOrder (cluster_writes id data).
Proof.
  split; [intros nodes addr; reflexivity|]. intros n1 n2 n3 H12 H23 addr.
  specialize (H12 addr). specialize (H23 addr).
  destruct H12 as [x y Hxy|]; [|done]. inversion H23; subst; constructor. by etrans.
Qed.

Lemma cluster_writes_insert id data nodes addr n n' :
  nodes !! addr = Some n -> writes id data n n' -> cluster_writes id data nodes (<[addr := n']> nodes).
Proof.
  intros Hn Hs a. destruct (decide (a = addr)) as [->|Ha].
  - rewrite lookup_insert_eq, Hn. by constructor.
  - rewrite lookup_insert_ne by done. reflexivity.
Qed.

(** Only a prefix of the bytes may arrive; the length tells. *)
Lemma Write_writes io now n id src data sum :
  (Z.of_nat (length data) < 2 ^ 63)%Z -> rd_data src `prefix_of` data ->
  let '(_, n', _) := Write io now n id src (Z.of_nat (length data)) sum in writes id data n n'.
Proof.
  intros Hlen Hpre. destruct (Write io now n id src (Z.of_nat (length data)) sum) as [[r n'] trace] eqn:E.
  destruct (RelativePath id) as [p|] eqn:Hp.
  2: { unfold Write in E. rewrite Hp in E. injection E as <- <- <-. reflexivity. }
  pose proof (prefix_length _ _ Hpre) as Hl.
  pose proof (Write_ok io now n id src (Z.of_nat (length data)) sum p) as Hw. rewrite E in Hw.
  destruct Hw as [Ht _ _]; [lia|done|]. apply Forall_cons_1 in Ht as [[Hd|[Hd (_&Hs&_)]] _]; intros q; rewrite Hd; [by left|].
  unfold published. destruct (decide (q = p)) as [->|]; [|left; by rewrite lookup_insert_ne].
  right. split; [done|]. rewrite lookup_insert_eq. simpl. f_equal. destruct Hpre as [rest ->].
  rewrite length_app in Hs. destruct rest; [by rewrite app_nil_r|simpl in Hs; lia].
Qed.

Lemma carried_take_prefix k frames fin :
  rd_data (carried store_payload (take k (StoreData <$> frames)) fin) `prefix_of` concat frames.
Proof.
  revert k. induction frames as [|f frames IH]; intros [|k]; try apply prefix_nil.
  rewrite fmap_cons. cbn [take carried store_payload rd_data concat]. by apply prefix_app.
Qed.

Lemma StoreChunk_writes io now n id data sum k fin :
  (Z.of_nat (length data) < 2 ^ 63)%Z ->
  let '(_, n') := StoreChunk io now n (mkStream (take k (chunk_messages id data sum)) fin) in writes id data n n'.
Proof.
  intros Hlen. assert (forall n1, n_disk n1 = n_disk n -> writes id data n n1) as Hsame by (intros n1 E q; left; by rewrite E).
  unfold StoreChunk, chunk_messages. cbn [st_msgs st_end].
  destruct k as [|k]; cbn [take]; [by apply Hsame|]. cbn [h_ChunkId h_ChecksumSha256 h_SizeBytes].
  destruct (negb (ValidateChunkID id)); [by apply Hsame|]. destruct (negb _ && _); [by apply Hsame|].
  rewrite stream_source_carried. cbn [st_msgs st_end].
  pose proof (Write_writes io now (on_store BeginRequest n) id
    (carried store_payload (take k (StoreData <$> frames_of data)) fin) data sum Hlen) as Hw.
  rewrite <-(frames_of_concat data) in Hw at 2. specialize (Hw (carried_take_prefix k _ fin)).
  by destruct (Write _ _ _ _ _ _ _) as [[[res|e] n'] trace].
Qed.

Lemma writeOne_writes nodes ln t id data sum :
  (Z.of_nat (length data) < 2 ^ 63)%Z -> cluster_writes id data nodes (writeOne nodes ln t id data sum).2.
Proof.
  intros Hlen. unfold writeOne. destruct (nodes !! ni_GrpcAddress t) as [n|] eqn:Hn; [|reflexivity].
  destruct (ln_up ln); simpl; [|reflexivity]. destruct (ln_arrived ln) as [k|].
  - pose proof (StoreChunk_writes (ln_io ln) (ln_now ln) n id data sum k (Some "transport is closing") Hlen) as Hs.
    destruct (StoreChunk _ _ _ _) as [r n']. by eapply cluster_writes_insert.
  - rewrite StoreChunk_all_messages.
    pose proof (StoreChunk_writes (ln_io ln) (ln_now ln) n id data sum (length (chunk_messages id data sum)) None Hlen) as Hs.
    destruct (StoreChunk _ _ _ _) as [r n']. apply (cluster_writes_insert id data nodes (ni_GrpcAddress t)) in Hs; [|done].
    destruct (ln_ack_lost ln); [done|]. destruct r; [|done]. case_decide; [done|]. by destruct (negb _).
Qed.

Lemma write_all_writes nodes links id data sum targets res :
  (Z.of_nat (length data) < 2 ^ 63)%Z -> cluster_writes id data nodes (write_all nodes links id data sum targets res).2.
Proof.
  intros Hlen. revert nodes res. induction targets as [|t targets IH]; intros nodes res; [reflexivity|]. cbn [write_all].
  pose proof (writeOne_writes nodes (links (ni_GrpcAddress t)) t id data sum Hlen) as H1.
  destruct (writeOne nodes _ t id data sum) as [r nodes1]. simpl in H1. etrans; [exact H1|]. apply IH.
Qed.

Lemma ChunkWriter_Write_writes nodes links order id data sum targets minReplicas :
  (Z.of_nat (length data) < 2 ^ 63)%Z ->
  cluster_writes id data nodes (ChunkWriter_Write nodes links order id data sum targets minReplicas).2.
Proof.
  intros Hlen. unfold ChunkWriter_Write. case_decide; [reflexivity|].
  pose proof (write_all_writes nodes links id data sum (order targets) (mkFanout [] []) Hlen) as H1.
  destruct (write_all _ _ _ _ _ _ _) as [res nodes']. by case_decide.
Qed.
