(* ===== verification/UploadDb.v ===== *)
(** * The rows of an upload

    What the statements of an upload do to the rows of one object: reserving a
    chunk and its targets, committing it, publishing the object. The other
    rows of the tables are only seen as unchanged. *)

From Stdlib Require Import Strings.Byte.
From stdpp Require Import base numbers gmap strings list sorting.
From S2P Require Import Prelude Sql Schema Statements Chunks Frames Runs Objects Nodes Repair Gc Reconcile Multipart Store.
From S2P Require Import ChunkInv CompleteInv Commit Reads Deletions Uploads Assembly.

(** ** The registered nodes *)

Definition same_nodes (d0 d : db) : Prop := storage_nodes d = storage_nodes d0.

Section nodes.
Context (d0 : db).
Lemma same_nodes_put_objects : frames_objects (same_nodes d0).
Proof. by intros m d u d' Hd (_&_&->)%put_objects_ok. Qed.
Lemma same_nodes_put_uploads : frames_uploads (same_nodes d0).
Proof. by intros m d u d' Hd (_&_&->)%put_uploads_ok. Qed.
Lemma same_nodes_put_chunks : frames_chunks (same_nodes d0).
Proof. by intros m d u d' Hd (_&_&_&_&_&->)%put_chunks_ok. Qed.
Lemma same_nodes_put_replicas : frames_replicas (same_nodes d0).
Proof. intros ts m d u d' Hd (_&_&->)%put_replicas_ok. unfold same_nodes. by rewrite trigger_nodes. Qed.
Lemma same_nodes_put_deletions : frames_deletions (same_nodes d0).
Proof. by intros m d u d' Hd (_&->)%put_deletions_ok. Qed.
Lemma same_nodes_sequences : ignores_sequences (same_nodes d0).
Proof. by intros d x y z Hd. Qed.
#[local] Hint Resolve same_nodes_put_objects same_nodes_put_uploads same_nodes_put_chunks same_nodes_put_replicas
  same_nodes_put_deletions same_nodes_sequences : frames.

Lemma same_nodes_ReserveChunk fresh now owner index size : op_keeps (same_nodes d0) (ReserveChunk fresh now owner index size).
Proof. unfold ReserveChunk, assertOwnerWritable, upsert_chunk. preserve. Qed.
Lemma same_nodes_RecordChunkTargets now c targets : op_keeps (same_nodes d0) (RecordChunkTargets now c targets).
Proof. unfold RecordChunkTargets. preserve. Qed.
Lemma same_nodes_CommitChunk now c sum size ok ko m : op_keeps (same_nodes d0) (CommitChunk now c sum size ok ko m).
Proof. unfold CommitChunk, CommitChunk_tx, mark_failed, mark_available. preserve. Qed.
Lemma same_nodes_CompleteUpload now o size cnt etag : op_keeps (same_nodes d0) (CompleteUpload now o size cnt etag).
Proof.
  unfold CompleteUpload, CompleteUpload_tx, supersedeCurrentVersion, enqueueObjectChunkDeletions, enqueue_deletions_for. preserve.
Qed.
Lemma same_nodes_BeginUpload fresh now b k ct cs : op_keeps (same_nodes d0) (BeginUpload fresh now b k ct cs).
Proof. unfold BeginUpload. preserve. Qed.
Lemma same_nodes_AbortUpload now o r : op_keeps (same_nodes d0) (AbortUpload now o r).
Proof. unfold AbortUpload, orphanObjectChunks, enqueueObjectChunkDeletions, enqueue_deletions_for. preserve. Qed.
End nodes.

(** ** Reserving a chunk *)

Lemma strip_Some (d d' : db) :
  (forall c, strip_counter <$> chunks d' !! c = strip_counter <$> chunks d !! c) ->
  forall c ch', chunks d' !! c = Some ch' -> exists ch, chunks d !! c = Some ch /\ strip_counter ch' = strip_counter ch.
Proof.
  intros H c ch' Hc. specialize (H c). rewrite Hc in H. destruct (chunks d !! c) as [ch|]; [|done].
  apply (inj Some) in H. eauto.
Qed.

(** Replica rows of [c] stay or are WRITING; up to counters nothing else changed. *)
Record targets_recorded (c : N) (d d' : db) : Prop := {
  tr_here : forall n r, chunk_replicas d' !! (c, n) = Some r ->
    chunk_replicas d !! (c, n) = Some r \/ cr_state r = ReplicaWriting;
  tr_other : forall c' n, c' <> c -> chunk_replicas d' !! (c', n) = chunk_replicas d !! (c', n);
  tr_objects : objects d' = objects d;
  tr_chunks : forall i, strip_counter <$> chunks d' !! i = strip_counter <$> chunks d !! i
}.

Lemma RecordChunkTargets_ok now c targets d r d' :
  RecordChunkTargets now c targets d = (r, d') -> targets_recorded c d d'.
Proof.
  unfold RecordChunkTargets, inTx. destruct (tx_for _ _ d) as [[[] d1]|] eqn:E; intros [= <- <-]; [|by split; auto].
  revert d E. induction targets as [|n targets IH]; intros d E; simpl in E.
  { apply tx_ret_ok in E as [_ ->]. by split; auto. }
  apply tx_bind_ok in E as (u&d2&Hu%upsert_replica_ok&E). apply IH in E as [H1 H2 H3 H4]. split.
  - intros n' r Hr. apply H1 in Hr as [Hr|Hr]; [|by right]. rewrite Hu, trigger_replicas in Hr. simpl in Hr.
    destruct (decide ((c, n') = (c, n))) as [Heq|Hne].
    + injection Heq as ->. rewrite lookup_insert_eq in Hr. injection Hr as <-. right.
      by destruct (chunk_replicas d !! (c, n)).
    + rewrite lookup_insert_ne in Hr by done. by left.
  - intros c' n' Hne. rewrite H2, Hu, trigger_replicas by done. simpl. rewrite lookup_insert_ne; congruence.
  - by rewrite H3, Hu, trigger_objects.
  - intros i. by rewrite H4, Hu, trigger_strip.
Qed.

(** The row at the next position of the object, new or taken over. *)
Lemma ReserveChunk_ok fresh now o index size d r d' :
  ReserveChunk fresh now (mkOwner (Some o) None) index size d = (r, d') ->
  objects d' = objects d /\ chunk_replicas d' = chunk_replicas d /\
  match r with
  | Err _ => d' = d
  | Ok c =>
      (exists ch', chunks d' !! c = Some ch' /\ ck_object_id ch' = Some o /\ ck_chunk_index ch' = index) /\
      (forall c', c' <> c -> chunks d' !! c' = chunks d !! c') /\
      (chunks d !! c = None /\ c = fresh \/
       exists ch, chunks d !! c = Some ch /\ ck_object_id ch = Some o /\ ck_chunk_index ch = index)
  end.
Proof.
  unfold ReserveChunk. case_bool_decide as Hone; [intros [= <- <-]; done|].
  unfold inTx. destruct (tx_bind _ _ d) as [[c d1]|] eqn:E; intros [= <- <-]; [|done].
  apply tx_bind_ok in E as ([]&d2&[-> _]%assertOwnerWritable_ok&E). unfold upsert_chunk in E.
  apply tx_bind_ok in E as (m&d2&[-> ->]%gets_ok&E). destruct (find_row _ _) as [[old row]|] eqn:Hf.
  - apply find_row_Some in Hf as [Hold (_&Hobj&Hidx)]. simpl in Hobj.
    apply tx_bind_ok in E as (n&d2&[_ ->]%update_chunks_ok&[-> ->]%tx_ret_ok). simpl. split_and!; [done|done| | |].
    + rewrite lookup_update_where, Hold. simpl. rewrite decide_True by done. eexists. split; [done|]. by destruct row.
    + intros c' Hne. rewrite lookup_update_where. destruct (chunks d !! c'); [|done]. simpl. by rewrite decide_False.
    + right. by exists row.
  - apply tx_bind_ok in E as ([]&d2&[Hnew ->]%insert_chunk_ok&[-> ->]%tx_ret_ok). simpl. split_and!; [done|done| | |].
    + rewrite lookup_insert_eq. eexists. by split_and!.
    + intros c' Hne. by rewrite lookup_insert_ne.
    + by left.
Qed.

(** ** Committing and publishing *)

(** Only registered nodes can be recorded as holding a chunk. *)
Lemma mark_all_available_nodes now c ns d d' :
  schema_ok d -> tx_for ns (mark_available now c) d = Ok (tt, d') -> forall n, n ∈ ns -> is_Some (storage_nodes d !! n).
Proof.
  revert d. induction ns as [|m ns IH]; intros d Hs E n Hn; [by apply elem_of_nil in Hn|]. simpl in E.
  apply tx_bind_ok in E as (u&d1&E1&E).
  assert (schema_ok d1) as Hs1 by (eapply keeps_upsert_replica; [exact Hs|exact E1]).
  apply upsert_replica_ok in E1. assert (storage_nodes d1 = storage_nodes d) as Hnodes by (by rewrite E1, trigger_nodes).
  apply elem_of_cons in Hn as [->|Hn]; [|rewrite <-Hnodes; by apply (IH d1)]. rewrite <-Hnodes.
  eapply (so_replica_node _ Hs1 (c, m)); [|done]. rewrite E1, trigger_replicas. simpl. apply lookup_insert_eq.
Qed.
Lemma CommitChunk_registered now c sum size ok ko m d a d' :
  schema_ok d -> CommitChunk now c sum size ok ko m d = (Ok a, d') -> forall n, n ∈ ok -> is_Some (storage_nodes d !! n).
Proof.
  intros Hs. unfold CommitChunk, inTx, CommitChunk_tx. destruct (tx_bind _ _ d) as [[a1 d1]|] eqn:E; [|done]. intros _ n Hn.
  apply tx_bind_ok in E as (row&d2&[-> ->]%gets_ok&E). destruct (chunks d !! c) as [ch|]; [|by tx_inv E].
  destruct (mark_all_failed_run now c ko d Hs) as (d2&H1&R1).
  apply tx_bind_ok in E as ([]&d2'&E1&E). rewrite H1 in E1. injection E1 as <-.
  apply tx_bind_ok in E as ([]&d3&E2&_). rewrite <-(rc_nodes _ _ _ _ R1).
  exact (mark_all_available_nodes _ _ _ _ _ (rc_schema _ _ _ _ R1) E2 n Hn).
Qed.

Lemma CommitChunk_ok now c sum size ok ko m d a d' :
  schema_ok d -> CommitChunk now c sum size ok ko m d = (Ok a, d') ->
  (exists ch ch', chunks d !! c = Some ch /\ chunks d' !! c = Some ch' /\
     strip_counter ch' = strip_counter (committed_row now sum size ch)) /\
  (forall c', c' <> c -> strip_counter <$> chunks d' !! c' = strip_counter <$> chunks d !! c') /\
  (forall n, chunk_replicas d' !! (c, n) = after_commit now ok ko n (chunk_replicas d !! (c, n))) /\
  (forall c' n, c' <> c -> chunk_replicas d' !! (c', n) = chunk_replicas d !! (c', n)) /\
  (forall o r, objects d !! o = Some r -> exists r', objects d' !! o = Some r' /\
     ob_state r' = ob_state r /\ ob_bucket r' = ob_bucket r /\ ob_key r' = ob_key r).
Proof.
  intros Hs Ec. pose proof (CommitChunk_registered _ _ _ _ _ _ _ _ _ _ Hs Ec) as Hn. revert Ec. unfold CommitChunk, inTx, CommitChunk_tx.
  destruct (tx_bind _ _ d) as [[a1 d1]|] eqn:E; [|done]. intros [= -> ->].
  apply tx_bind_ok in E as (row&d1&[-> ->]%gets_ok&E). destruct (chunks d !! c) as [ch|] eqn:Hc; [|by tx_inv E].
  destruct (mark_all_failed_run now c ko d Hs) as (d1&H1&R1).
  destruct (mark_all_available_run now c ok d1 (rc_schema _ _ _ _ R1)) as (d2&H2&R2).
  { rewrite <-(fmap_is_Some strip_counter), (rc_chunks _ _ _ _ R1), fmap_is_Some. eauto. }
  { intros n Hin. rewrite (rc_nodes _ _ _ _ R1). by apply Hn. }
  assert (replicas_change c (after_commit now ok ko) d d2) as R
    by (eapply replicas_change_trans; [exact R1|exact R2|done]).
  apply tx_bind_ok in E as (u&d1'&E1&E). rewrite H1 in E1. injection E1 as <- <-.
  apply tx_bind_ok in E as (u'&d2'&E2&E). rewrite H2 in E2. injection E2 as <- <-.
  clear H1 H2 R1 R2. assert (exists ch2, chunks d2 !! c = Some ch2 /\ strip_counter ch2 = strip_counter ch) as (ch2&Hc2&Hch2).
  { pose proof (rc_chunks _ _ _ _ R c) as H. rewrite Hc in H. destruct (chunks d2 !! c) as [ch2|]; [|done].
    apply (inj Some) in H. eauto. }
  tx_inv E. simpl. split_and!.
  - exists ch, (committed_row now sum size ch2). rewrite lookup_update_where, Hc2. simpl. rewrite decide_True by done.
    split_and!; [done|done|]. apply strip_counter_eq in Hch2 as (?&?&?&?&?&?&?&?). destruct ch, ch2.
    unfold strip_counter, committed_row, upd in *. simpl in *. congruence.
  - intros c' Hne. rewrite lookup_update_where, <-(rc_chunks _ _ _ _ R c'). destruct (chunks d2 !! c'); [|done]. simpl.
    by rewrite decide_False.
  - apply R.
  - apply R.
  - intros o r Ho. rewrite lookup_update_where, (rc_objects _ _ _ _ R), Ho. simpl. eexists. split; [done|].
    by destruct (decide _).
Qed.

Lemma CompleteUpload_ok now o size cnt etag d obj d' :
  schema_ok d -> (0 <= size)%Z -> CompleteUpload now o size cnt etag d = (Ok obj, d') ->
  exists r, objects d !! o = Some r /\ ob_state r = ObjectUploading /\
    object_chunk_count d o = cnt /\ object_committed_count d o = cnt /\
    obj = scanObject o (complete_row now size cnt etag r) /\
    HeadObject (ob_bucket r) (ob_key r) d' = (Ok obj, d') /\
    (forall c, strip_counter <$> chunks d' !! c = strip_counter <$> chunks d !! c) /\
    (forall c n, chunk_of_object d o c -> chunk_replicas d' !! (c, n) = chunk_replicas d !! (c, n)).
Proof.
  intros Hs Hsz Hrun. destruct (CompleteUpload_inv _ _ _ _ _ _ _ _ Hrun) as (r&Ho&Hst&Htot&Hcom).
  destruct (CompleteUpload_run now o size cnt etag r d) as (d1&d2&d3&Hrun3&Hd1&Hrt&_&Hd3&Hs3); [done..|].
  rewrite Hrun3 in Hrun. injection Hrun as <- <-. exists r. split_and!; try done.
  - apply HeadObject_current; [done| |done]. rewrite Hd3. simpl. rewrite lookup_update_where, (rt_objects _ _ _ _ Hrt), Hd1. simpl.
    rewrite lookup_update_where, Ho. simpl. by rewrite decide_True, decide_False by naive_solver.
  - intros c. rewrite Hd3. simpl. rewrite (rt_chunks _ _ _ _ Hrt). by rewrite Hd1.
  - intros c n Hc. rewrite Hd3. simpl. rewrite (proj2 (rt_replicas _ _ _ _ Hrt c n)); [by rewrite Hd1|].
    rewrite from_superseded. intros (o'&(Hne&_)&Hc'). apply Hne. unfold chunk_of_object in *. congruence.
Qed.
