(* ===== verification/ReconcileExec.v ===== *)
(** * A reconciliation settles every replica of the node

    What reconcileNode (src/internal/coordinator/reconcile.go) does to the
    replica rows of a node that came back: it ends, promotes only what it
    verified, drops only what the node's inventory lacks, and leaves nothing
    unverified behind. *)

From stdpp Require Import base numbers gmap strings list sorting.
From S2P Require Import Prelude Chunking Checksum GoStrings ChunkStore StorageService ChunkWriter GoFloat Placement Health Validate Uuid Cache.
From S2P Require Import Sql Schema Statements Chunks Frames Runs Deletions Objects Nodes Repair Gc Reconcile Multipart Store Commit UploadDb.
From S2P Require Import Coordinator Workers Reconciler Refinement Samples RepairExec.

(** ** The inventory *)

Section inventory.
Context `{UU : !Uuid, FW : !FileWalk}.

Lemma walk_batches_all stop k gone batch sent files sent' batch' :
  walk_batches (E := Z) (fun sent batch => match stop (length sent) with Some code => Err code | None => Ok (sent ++ [batch]) end)
    k gone batch sent files = Ok (sent', batch') ->
  concat sent' ++ batch' = concat sent ++ batch ++ omap (inventory_entry gone) files.
Proof.
  revert batch sent. induction files as [|pf files IH]; intros batch sent; simpl.
  { intros [= <- <-]. by rewrite app_nil_r. }
  destruct (inventory_entry gone pf) as [en|]; [|apply IH]. case_decide.
  - destruct (stop (length sent)); [done|]. intros ->%IH. rewrite concat_app. simpl. rewrite app_nil_r, <-!app_assoc. done.
  - intros ->%IH. by rewrite <-!app_assoc.
Qed.

(** A complete stream is the whole inventory. *)
Lemma ListChunks_all n gone size stop batches n' :
  ListChunks n gone size stop = (Ok batches, n') ->
  concat batches = omap (inventory_entry gone) (walk (n_disk n)).
Proof.
  unfold ListChunks, WalkInventory. destruct (walk_batches _ _ _ _ _ _) as [[sent batch]|] eqn:E; [|done].
  apply walk_batches_all in E. simpl in E. case_decide as Hb.
  - destruct (stop (length sent)); [done|]. intros [= <- <-]. rewrite concat_app. simpl. by rewrite app_nil_r.
  - intros [= <- <-]. destruct batch; [by rewrite app_nil_r in E|simpl in Hb; lia].
Qed.

(** The name of a chunk's file gives its identifier back. *)
Lemma chunk_file_id id p : RelativePath id = Some p ->
  HasSuffix (base_name p) chunkSuffix = true /\ TrimSuffix (base_name p) chunkSuffix = id /\ ValidateChunkID id = true.
Proof.
  unfold RelativePath. destruct (ValidateChunkID id); [|done]. intros [= <-].
  change (base_name _) with (id +:+ chunkSuffix).
  split_and!; [apply HasSuffix_app|apply TrimSuffix_app|done].
Qed.

(** The inventory misses no file that stayed. *)
Lemma inventory_complete n gone size stop batches n' c p f :
  ListChunks n gone size stop = (Ok batches, n') -> (c < 2 ^ 128)%N ->
  RelativePath (uuid_String c) = Some p -> d_data (n_disk n) !! p = Some f -> gone p = false ->
  c ∈ inventory_ids batches.
Proof.
  intros Hl%ListChunks_all Hc Hp Hf Hg. unfold inventory_ids. rewrite Hl. apply list_elem_of_omap.
  exists (mkEntry (uuid_String c) (file_size f) (f_modified f)). split; [|by apply uuid_roundtrip].
  apply list_elem_of_omap. exists (p, f). split; [rewrite walk_perm; by apply elem_of_map_to_list|].
  destruct (chunk_file_id _ _ Hp) as (H1&H2&H3). unfold inventory_entry. cbn [fst snd]. by rewrite H1, H2, H3, Hg.
Qed.
End inventory.

(** ** One replica *)

(** What settling did to the rows of node [n], with the inventory [onDisk] and
    the nodes as they are: a row is as before, dropped because the inventory
    lacks the chunk, CORRUPT, or promoted from STALE after the check. *)
Section settle.
Context `{PG : !Postgres, UU : !Uuid, FW : !FileWalk}.
Context (verify : bool) (addr n : string) (onDisk : gset N) (nodes : cluster).

Definition stale (d : db) (c : N) : Prop := cr_state <$> chunk_replicas d !! (c, n) = Some ReplicaStale.
#[export] Instance stale_dec d c : Decision (stale d c).
Proof. unfold stale. apply _. Defined.
Definition row_settled (d d' : db) (c : N) : Prop :=
  chunk_replicas d' !! (c, n) = chunk_replicas d !! (c, n) \/
  (c ∉ onDisk) /\ chunk_replicas d' !! (c, n) = None \/
  c ∈ onDisk /\ cr_state <$> chunk_replicas d' !! (c, n) = Some ReplicaCorrupt \/
  c ∈ onDisk /\ stale d c /\ cr_state <$> chunk_replicas d' !! (c, n) = Some ReplicaAvailable /\
    (verify = true -> exists ch sum, chunks d !! c = Some ch /\ ck_checksum_sha256 ch = Some sum /\
       has_digest_at nodes addr (uuid_String c) sum).
Record settled (d d' : db) : Prop := {
  se_chunks : forall c, strip_counter <$> chunks d' !! c = strip_counter <$> chunks d !! c;
  se_other : forall k, k.2 <> n -> chunk_replicas d' !! k = chunk_replicas d !! k;
  se_row : forall c, row_settled d d' c
}.

Lemma settled_refl d : settled d d.
Proof. split; [done|done|]. intros c. by left. Qed.

Lemma settled_fresh d d' c : settled d d' -> ~ stale d c -> ~ stale d' c.
Proof.
  intros [_ _ Hr] Hn Hs. unfold stale in *. destruct (Hr c) as [E|[[_ E]|[[_ E]|(_&H&_)]]]; [congruence| | |done]; rewrite E in Hs; done.
Qed.

Lemma settled_trans d1 d2 d3 : settled d1 d2 -> settled d2 d3 -> settled d1 d3.
Proof.
  intros [A1 A2 A3] [B1 B2 B3]. split; [intros c; by rewrite B1|intros k Hk; rewrite B2 by done; by apply A2|].
  intros c. destruct (B3 c) as [E|[H|[H|(H1&H2&H3&H4)]]].
  - unfold row_settled. rewrite E. apply A3.
  - by right; left.
  - by right; right; left.
  - unfold stale in H2. destruct (A3 c) as [E|[[_ E]|[[_ E]|(_&_&E&_)]]]; [|rewrite E in H2; done|congruence|congruence].
    right; right; right. split_and!; [done|unfold stale; congruence|done|]. intros Hv. destruct (H4 Hv) as (ch&sum&Hch&Hsum&Hd).
    destruct (strip_Some d1 d2 A1 c ch Hch) as (ch0&Hch0&Hst). exists ch0, sum.
    split_and!; [done| |done]. apply strip_counter_eq in Hst as (_&_&_&_&E5&_). congruence.
Qed.

Lemma DropReplica_settled c d r d' :
  c ∉ onDisk -> DropReplica c n d = (r, d') -> settled d d' /\ (forall u, r = Ok u -> ~ stale d' c).
Proof.
  intros Hc. unfold DropReplica, inTx. destruct (tx_bind _ _ d) as [[a d1]|] eqn:E; intros [= <- <-]; [|by split; [apply settled_refl|]].
  tx_inv E. unfold stale. rewrite trigger_replicas. simpl.
  assert (forall k, k <> (c, n) -> delete_where (fun k _ => k = (c, n)) (chunk_replicas d) !! k = chunk_replicas d !! k) as Hne.
  { intros k Hk. apply option_eq. intros v. rewrite lookup_delete_where_Some. naive_solver. }
  assert (delete_where (fun k _ => k = (c, n)) (chunk_replicas d) !! (c, n) = None) as Hnone.
  { apply eq_None_not_Some. intros [v [_ Hv]%lookup_delete_where_Some]. by apply Hv. }
  split; [|intros _ _; by rewrite Hnone]. split.
  - intros c'. by rewrite trigger_strip.
  - intros k Hk. rewrite trigger_replicas. simpl. apply Hne. intros ->. done.
  - intros c'. unfold row_settled. rewrite trigger_replicas. simpl. destruct (decide (c' = c)) as [->|Hc'].
    + right; left. done.
    + left. apply Hne. congruence.
Qed.

(** An update of the one row. *)
Lemma update_settled (P : replica_row -> Prop) `{!forall r, Decision (P r)} f c d k d' :
  update_replicas (fun key r => key = (c, n) /\ P r) f d = Ok (k, d') ->
  (forall c', strip_counter <$> chunks d' !! c' = strip_counter <$> chunks d !! c') /\
  (forall key, key <> (c, n) -> chunk_replicas d' !! key = chunk_replicas d !! key) /\
  chunk_replicas d' !! (c, n) = (fun r => if decide (P r) then f r else r) <$> chunk_replicas d !! (c, n).
Proof.
  intros [_ ->]%update_replicas_ok. rewrite trigger_replicas. simpl. split_and!.
  - intros c'. by rewrite trigger_strip.
  - intros key Hk. rewrite lookup_update_where. destruct (chunk_replicas d !! key); [|done]. simpl. rewrite decide_False; [done|]. by intros [? _].
  - rewrite lookup_update_where. destruct (chunk_replicas d !! (c, n)) as [r|]; [|done]. simpl. f_equal.
    destruct (decide (P r)); [by rewrite decide_True|rewrite decide_False; tauto].
Qed.

Lemma PromoteVerifiedReplica_settled now c ch sum d r d' :
  c ∈ onDisk -> chunks d !! c = Some ch -> (verify = true -> ck_checksum_sha256 ch = Some sum /\ has_digest_at nodes addr (uuid_String c) sum) ->
  PromoteVerifiedReplica now c n d = (r, d') -> settled d d' /\ (forall b, r = Ok b -> ~ stale d' c).
Proof.
  intros Hc Hch Hv. unfold PromoteVerifiedReplica, inTx.
  destruct (tx_bind _ _ d) as [[b d1]|] eqn:E; intros [= <- <-]; [|by split; [apply settled_refl|]].
  apply tx_bind_ok in E as (k&d2&Hup&[_ ->]%tx_ret_ok). apply (update_settled (fun r => cr_state r = ReplicaStale)) in Hup as (H1&H2&H3).
  split; [split; [done|intros key Hk; apply H2; by intros ->|]|].
  - intros c'. destruct (decide (c' = c)) as [->|Hc']; [|left; apply H2; congruence]. unfold row_settled. rewrite H3. unfold stale.
    destruct (chunk_replicas d !! (c, n)) as [row|]; simpl; [|by left].
    destruct (decide (cr_state row = ReplicaStale)) as [Hs|]; [|by left]. right; right; right.
    split_and!; [done|by rewrite Hs|done|]. intros Hvt. destruct (Hv Hvt). by exists ch, sum.
  - intros _ _. unfold stale. rewrite H3. destruct (chunk_replicas d !! (c, n)) as [row|]; simpl; [|done].
    destruct (decide (cr_state row = ReplicaStale)) as [Hs|Hs]; [done|]. by intros [= E].
Qed.

Lemma MarkReplicaCorrupt_settled now c detail d r d' :
  c ∈ onDisk -> MarkReplicaCorrupt now c n detail d = (r, d') -> settled d d' /\ (forall b, r = Ok b -> ~ stale d' c).
Proof.
  intros Hc. unfold MarkReplicaCorrupt, inTx, MarkReplicaCorrupt_tx.
  destruct (tx_bind _ _ d) as [[b d1]|] eqn:E; intros [= <- <-]; [|by split; [apply settled_refl|]].
  apply tx_bind_ok in E as (k&d2&Hup&E). apply tx_bind_ok in E as (row&d3&[-> ->]%gets_ok&E).
  destruct (chunks d2 !! c) as [ch|]; [|done]. apply tx_bind_ok in E as (j&d3&Hq&[_ ->]%tx_ret_ok).
  apply enqueue_deletion_ok in Hq as ((m&q&->)&_&_). apply (update_settled (fun r => cr_state r <> ReplicaDeleting)) in Hup as (H1&H2&H3).
  split; [split; [done|intros key Hk; apply H2; by intros ->|]|].
  - intros c'. destruct (decide (c' = c)) as [->|Hc']; [|left; apply H2; congruence]. unfold row_settled. simpl. rewrite H3.
    destruct (chunk_replicas d !! (c, n)) as [row|]; simpl; [|by left].
    destruct (decide (cr_state row <> ReplicaDeleting)); [|by left]. by right; right; left.
  - intros _ _. unfold stale. simpl. rewrite H3. destruct (chunk_replicas d !! (c, n)) as [row|]; simpl; [|done].
    destruct (decide (cr_state row <> ReplicaDeleting)) as [Hs|Hs]; [done|]. intros [= E]. apply Hs. by rewrite E.
Qed.
End settle.

(** ** Pages *)

#[local] Instance chunk_id_le_trans : Transitive chunk_id_le.
Proof. intros a b c. unfold chunk_id_le. lia. Qed.
#[local] Instance chunk_id_le_total : Total chunk_id_le.
Proof. intros a b. unfold chunk_id_le. lia. Qed.

Section pages.
Context `{PG : !Postgres, UU : !Uuid, FW : !FileWalk}.
Context (e : env) (cfg : ReconcileConfig) (net : reconcile_net) (job : ReconcileJob) (onDisk : gset N).

Definition world_settled (w w' : World) : Prop :=
  w_nodes w' = w_nodes w /\
  settled (xc_VerifyChecksums cfg) (rc_Address job) (rc_NodeID job) onDisk (w_nodes w) (sv_db (w_svc w)) (sv_db (w_svc w')).

Lemma world_settled_refl w : world_settled w w.
Proof. split; [done|apply settled_refl]. Qed.
Lemma world_settled_trans w1 w2 w3 : world_settled w1 w2 -> world_settled w2 w3 -> world_settled w1 w3.
Proof. intros [E1 H1] [E2 H2]. split; [congruence|]. eapply settled_trans; [exact H1|]. by rewrite <-E1. Qed.

(** What the query says of a replica is what the chunk's row says. *)
Definition listed (d : db) (rep : StaleReplicaOnNode) : Prop :=
  exists ch, chunks d !! sr_ChunkID rep = Some ch /\ sr_Checksum rep = nullString (ck_checksum_sha256 ch).
Lemma listed_settled d d' rep :
  (forall c, strip_counter <$> chunks d' !! c = strip_counter <$> chunks d !! c) -> listed d rep -> listed d' rep.
Proof.
  intros Hs (ch&Hc&Hsum). specialize (Hs (sr_ChunkID rep)). rewrite Hc in Hs.
  destruct (chunks d' !! sr_ChunkID rep) as [ch'|] eqn:Hc'; [|done]. apply (inj Some) in Hs.
  apply strip_counter_eq in Hs as (_&_&_&_&E&_). exists ch'. by rewrite E.
Qed.

Lemma after_store {A} (op : Op db A) w r w' :
  svc (store op) w = (r, w') ->
  exists d', op (sv_db (w_svc w)) = (r, d') /\ w' = mkWorld ((w_svc w) <| sv_db := d' |>) (w_nodes w).
Proof. unfold svc, store. destruct (op (sv_db (w_svc w))) as [x d']. intros [= <- <-]. by exists d'. Qed.

Lemma after_invalidate c w u w' :
  svc (invalidateChunkOwnerCache e c) w = (u, w') -> w_nodes w' = w_nodes w /\ sv_db (w_svc w') = sv_db (w_svc w).
Proof.
  unfold svc. pose proof (invalidateChunkOwnerCache_db e c (w_svc w)) as H.
  destruct (invalidateChunkOwnerCache e c (w_svc w)) as [x s']. intros [= <- <-]. by destruct H.
Qed.

Lemma verifyReplica_spec ft rep w r w' :
  verifyReplica cfg ft (rc_Address job) rep w = (r, w') ->
  w' = w /\ (r = Ok true -> xc_VerifyChecksums cfg = true ->
    sr_Checksum rep <> EmptyString /\ has_digest_at (w_nodes w) (rc_Address job) (uuid_String (sr_ChunkID rep)) (sr_Checksum rep)).
Proof.
  unfold verifyReplica, wd_bind, wd_ret. destruct (check_call _ _ _ _ w) as [rc w1] eqn:E.
  apply check_call_spec in E as [-> Hres]. intros [= <- <-]. split; [done|]. destruct rc as [res|]; [|done].
  intros [= H] Hv. rewrite Hv in H. apply andb_true_iff in H as [H1 H2]. apply andb_true_iff in H1 as [H1 _].
  apply andb_true_iff in H2 as [H2 H3]. apply negb_true_iff, String.eqb_neq in H2. apply String.eqb_eq in H3.
  split; [done|]. destruct (Hres res eq_refl) as (n&Hn&_&Hd). exists n. split; [done|]. rewrite <-H3. by apply Hd.
Qed.

(** A step on the row, then the invalidation. *)
Lemma settle_step w w1 w2 c u :
  world_settled w w1 -> svc (invalidateChunkOwnerCache e c) w1 = (u, w2) -> ~ stale (rc_NodeID job) (sv_db (w_svc w1)) c ->
  world_settled w w2 /\ ~ stale (rc_NodeID job) (sv_db (w_svc w2)) c.
Proof. intros [E H] [E1 E2]%after_invalidate Hn. unfold world_settled. rewrite E1, E2. done. Qed.

Lemma settle_replica_settled rep res w r w' :
  listed (sv_db (w_svc w)) rep -> settle_replica e cfg net job onDisk rep res w = (r, w') ->
  world_settled w w' /\ (forall res', r = Ok res' -> ~ stale (rc_NodeID job) (sv_db (w_svc w')) (sr_ChunkID rep)).
Proof.
  intros (ch&Hch&Hsum). unfold settle_replica. case_decide as Hc.
  - unfold wd_bind at 1. destruct (svc _ w) as [r1 w1] eqn:E. apply after_store in E as (d1&E&->).
    eapply (DropReplica_settled (xc_VerifyChecksums cfg) (rc_Address job) _ onDisk (w_nodes w)) in E as [Hs Hn]; [|done].
    destruct r1 as [u|err]; [|intros [= <- <-]; split; [by split|done]]. unfold wd_bind at 1. destruct (svc _ _) as [u' w2] eqn:E2.
    intros [= <- <-]. apply (settle_step w) in E2 as [H1 H2]; [by split|by split|exact (Hn _ eq_refl)].
  - unfold wd_bind at 1. destruct (verifyReplica _ _ _ _ w) as [ok w1] eqn:Ev.
    apply verifyReplica_spec in Ev as [-> Hok]. destruct ok as [[]|code]; [| |intros [= <- <-]; split; [apply world_settled_refl|done]].
    + unfold wd_bind at 1. destruct (svc _ w) as [r1 w1] eqn:E. apply after_store in E as (d1&E&->).
      eapply (PromoteVerifiedReplica_settled (xc_VerifyChecksums cfg) (rc_Address job) _ onDisk (w_nodes w) _ _ ch (sr_Checksum rep)) in E
        as [Hs Hn]; [|apply dec_stable; tauto|done|].
      2: { intros Hv. destruct (Hok eq_refl Hv) as [Hne Hd]. split; [|done]. rewrite Hsum in *.
        by destruct (ck_checksum_sha256 ch). }
      destruct r1 as [[]|err]; [|intros [= <- <-]; split; [by split|intros ? _; by eapply Hn]|intros [= <- <-]; split; [by split|done]].
      unfold wd_bind at 1. destruct (svc _ _) as [u' w2] eqn:E2.
      intros [= <- <-]. apply (settle_step w) in E2 as [H1 H2]; [by split|by split|exact (Hn _ eq_refl)].
    + unfold wd_bind at 1. destruct (svc _ w) as [r1 w1] eqn:E. apply after_store in E as (d1&E&->).
      eapply (MarkReplicaCorrupt_settled (xc_VerifyChecksums cfg) (rc_Address job) _ onDisk (w_nodes w)) in E as [Hs Hn]; [|apply dec_stable; tauto].
      destruct r1 as [u|err]; [|intros [= <- <-]; split; [by split|done]]. unfold wd_bind at 1. destruct (svc _ _) as [u' w2] eqn:E2.
      intros [= <- <-]. apply (settle_step w) in E2 as [H1 H2]; [by split|by split|exact (Hn _ eq_refl)].
Qed.

Lemma settle_page_settled reps res w r w' :
  Forall (listed (sv_db (w_svc w))) reps -> settle_page e cfg net job onDisk reps res w = (r, w') ->
  world_settled w w' /\ (forall res' rep, r = Ok res' -> rep ∈ reps -> ~ stale (rc_NodeID job) (sv_db (w_svc w')) (sr_ChunkID rep)).
Proof.
  revert res w. induction reps as [|rep reps IH]; intros res w Hl; simpl.
  { intros [= <- <-]. split; [apply world_settled_refl|]. intros ? rep _ Hin. by apply elem_of_nil in Hin. }
  apply Forall_cons in Hl as [Hrep Hl]. unfold wd_bind. destruct (settle_replica _ _ _ _ _ rep res w) as [r1 w1] eqn:E.
  apply settle_replica_settled in E as [Hs Hn]; [|done]. destruct r1 as [res1|err]; [|intros [= <- <-]; split; [done|by intros]].
  intros Er. apply IH in Er as [Hs' Hn']; cycle 1.
  { eapply Forall_impl; [exact Hl|]. intros x Hx. eapply listed_settled; [|exact Hx]. apply Hs. }
  split; [by eapply world_settled_trans|]. intros res' rep' Hr [->|Hin]%elem_of_cons; [|by eapply Hn'].
  eapply settled_fresh; [apply Hs'|by eapply Hn].
Qed.

(** What a page of the query holds. *)
Lemma StaleReplicasOnNode_page after limit d r d' :
  StaleReplicasOnNode (rc_NodeID job) after limit d = (r, d') ->
  d' = d /\ forall reps, r = Ok reps ->
    Forall (fun rep => (after < sr_ChunkID rep)%N /\ listed d rep) reps /\
    forall c, (after < c)%N -> is_Some (chunks d !! c) -> stale (rc_NodeID job) d c ->
      c ∈ sr_ChunkID <$> reps \/
      (limit <= Z.of_nat (length reps))%Z /\ forall rep, rep ∈ reps -> (sr_ChunkID rep <= c)%N.
Proof.
  unfold StaleReplicasOnNode, inTx. destruct (tx_bind _ _ d) as [[reps d1]|] eqn:E; intros [= <- <-]; [|done].
  apply tx_bind_ok in E as (d2&d3&[-> ->]%gets_ok&E). apply tx_bind_ok in E as (rows&d3&(Hlim&->&->)%limit_rows_ok&[-> ->]%tx_ret_ok).
  split; [done|]. intros ? [= <-].
  set (P := fun (c : N) (_ : chunk_row) => (after < c)%N /\ cr_state <$> chunk_replicas d !! (c, rc_NodeID job) = Some ReplicaStale).
  set (l := order_by chunk_id_le (rows_where P (chunks d))).
  assert (forall kc, kc ∈ l <-> chunks d !! kc.1 = Some kc.2 /\ P kc.1 kc.2) as Hl.
  { intros [k v]. unfold l. rewrite order_by_perm. apply elem_of_rows_where. }
  assert (StronglySorted chunk_id_le l) as Hsort by (unfold l, order_by; apply StronglySorted_merge_sort; apply _).
  split.
  - apply Forall_fmap, Forall_forall. intros kc Hin. assert (kc ∈ l) as [Hc [Ha _]]%Hl by (rewrite <-(take_drop (Z.to_nat limit) l); apply elem_of_app; by left).
    split; [done|]. by exists kc.2.
  - intros c Ha [ch Hc] Hs. assert ((c, ch) ∈ l) as Hin by (by apply Hl). rewrite <-(take_drop (Z.to_nat limit) l) in Hin, Hsort.
    apply elem_of_app in Hin as [Hin|Hin]; [left; apply list_elem_of_fmap; exists (mkStaleReplica c (nullString (ck_checksum_sha256 ch)) (ck_size_bytes ch));
      split; [done|]; apply list_elem_of_fmap; by exists (c, ch)|].
    right. split.
    + rewrite length_fmap, length_take. destruct (decide (Z.to_nat limit <= length l)%nat); [lia|].
      rewrite drop_ge in Hin by lia. by apply elem_of_nil in Hin.
    + intros rep (kc&->&Hkc)%list_elem_of_fmap. simpl. by apply (StronglySorted_app_1_elem_of _ _ _ _ _ Hsort Hkc Hin).
Qed.

(** The chunks the cursor has not passed. *)
Definition ahead (after : N) (d : db) : gset N := filter (fun c => after < c)%N (dom (chunks d)).

Lemma settled_dom d d' : (forall c, strip_counter <$> chunks d' !! c = strip_counter <$> chunks d !! c) -> dom (chunks d') = dom (chunks d).
Proof.
  intros H. apply set_eq. intros c. rewrite !elem_of_dom. specialize (H c).
  destruct (chunks d' !! c), (chunks d !! c); simpl in H; try done; split; intros [? ?]; by eexists.
Qed.
Lemma ahead_shrinks d d' after c :
  dom (chunks d') = dom (chunks d) -> (after < c)%N -> is_Some (chunks d !! c) -> (size (ahead c d') < size (ahead after d))%nat.
Proof.
  intros Hd Ha Hc. unfold ahead. rewrite Hd. apply subset_size. split.
  - intros x. rewrite !elem_of_filter. intros [Hx ?]. split; [lia|done].
  - intros Hsub. assert (c ∈ filter (fun x => c < x)%N (dom (chunks d))) as [Hx _]%elem_of_filter; [|lia].
    apply Hsub, elem_of_filter. split; [done|]. by apply elem_of_dom.
Qed.

Lemma last_elem_of (l : list N) d : l <> [] -> List.last l d ∈ l.
Proof. intros (l'&x&->)%exists_last. rewrite List.last_last. apply elem_of_app. right. by left. Qed.

Lemma settle_pages_settled fuel after res w r w' :
  (size (ahead after (sv_db (w_svc w))) < fuel)%nat ->
  settle_pages fuel e cfg net job onDisk after res w = (r, w') ->
  r <> None /\ world_settled w w' /\
  (forall res', r = Some (Ok res') -> (0 < xc_PageSize cfg)%Z ->
   forall c, (after < c)%N -> is_Some (chunks (sv_db (w_svc w)) !! c) -> ~ stale (rc_NodeID job) (sv_db (w_svc w')) c).
Proof.
  revert after res w. induction fuel as [|fuel IH]; intros after res w Hf; [lia|]. cbn [settle_pages].
  unfold wd_bind at 1. destruct (svc _ w) as [r1 w1] eqn:E. apply after_store in E as (d1&E&->).
  apply StaleReplicasOnNode_page in E as [-> Hpage].
  set (w1 := mkWorld ((w_svc w) <| sv_db := sv_db (w_svc w) |>) (w_nodes w)).
  assert (sv_db (w_svc w1) = sv_db (w_svc w)) as Hdb by done. assert (world_settled w w1) as Hw1 by (split; [done|apply settled_refl]).
  clearbody w1. destruct r1 as [reps|err]; [|intros [= <- <-]; split_and!; [done|done|done]].
  destruct (Hpage reps eq_refl) as [Hreps Hall]. clear Hpage.
  assert (Forall (listed (sv_db (w_svc w1))) reps) as Hlist.
  { rewrite Hdb. eapply Forall_impl; [exact Hreps|]. by intros x [_ Hx]. }
  destruct reps as [|rep0 reps0]; cbv beta iota.
  { intros [= <- <-]. split_and!; [done|done|]. intros res' _ Hpos c Ha Hc. rewrite Hdb. intros Hst.
    destruct (Hall c Ha Hc Hst) as [Hin|[Hlim _]]; [by apply elem_of_nil in Hin|simpl in Hlim; lia]. }
  assert (rep0 :: reps0 <> []) as Hne by done. set (reps := rep0 :: reps0) in *. clearbody reps. clear rep0 reps0.
  unfold wd_bind. destruct (settle_page _ _ _ _ _ reps res w1) as [r2 w2] eqn:E2.
  apply settle_page_settled in E2 as [Hw2 Hdone]; [|done].
  assert (world_settled w w2) as Hww2 by (by eapply world_settled_trans).
  destruct r2 as [res2|err]; [|intros [= <- <-]; by split_and!].
  assert (forall c, c ∈ sr_ChunkID <$> reps -> ~ stale (rc_NodeID job) (sv_db (w_svc w2)) c) as Hids.
  { intros c (rep&->&Hin)%list_elem_of_fmap. by eapply Hdone. }
  case_decide as Hshort.
  - intros [= <- <-]. split_and!; [done|done|]. intros res' _ Hpos c Ha Hc.
    destruct (decide (stale (rc_NodeID job) (sv_db (w_svc w)) c)) as [Hst|Hst]; [|eapply settled_fresh; [apply Hww2|done]].
    destruct (Hall c Ha Hc Hst) as [Hin|[Hlim _]]; [by apply Hids|lia].
  - set (last := List.last (sr_ChunkID <$> reps) after).
    assert (last ∈ sr_ChunkID <$> reps) as Hlast by (apply last_elem_of; by destruct reps).
    assert (exists rep, rep ∈ reps /\ last = sr_ChunkID rep) as (rl&Hrl&Hrle) by (apply list_elem_of_fmap in Hlast as (x&?&?); eauto).
    rewrite Forall_forall in Hreps. destruct (Hreps rl Hrl) as [Hlt (chl&Hchl&_)].
    assert (dom (chunks (sv_db (w_svc w2))) = dom (chunks (sv_db (w_svc w)))) as Hdom by (apply settled_dom, Hww2).
    intros Hgo. apply IH in Hgo as (Hr&Hw'&Hrest); cycle 1.
    { pose proof (ahead_shrinks (sv_db (w_svc w)) (sv_db (w_svc w2)) after last Hdom) as Hsh. rewrite Hrle in Hsh |- *.
      specialize (Hsh Hlt ltac:(by eexists)). lia. }
    split_and!; [done|by eapply world_settled_trans|]. intros res' Hres Hpos c Ha Hc.
    destruct (decide (stale (rc_NodeID job) (sv_db (w_svc w)) c)) as [Hst|Hst];
      [|eapply settled_fresh; [apply Hw'|]; eapply settled_fresh; [apply Hww2|done]].
    destruct (decide (c ∈ sr_ChunkID <$> reps)) as [Hin|Hnin]; [eapply settled_fresh; [apply Hw'|by apply Hids]|].
    destruct (Hall c Ha Hc Hst) as [Hin|[_ Hle]]; [done|].
    assert (last <> c) by (intros E; by rewrite E in Hlast). pose proof (Hle rl Hrl) as Hle'. rewrite <-Hrle in Hle'.
    apply (Hrest res' Hres Hpos c); [lia|]. apply elem_of_dom. rewrite Hdom. by apply elem_of_dom.
Qed.
End pages.

(** ** The whole job *)

Section job.
Context `{PG : !Postgres, UU : !Uuid, FW : !FileWalk}.

Lemma QueueOrphanDeletion_frame now c n d r d' :
  QueueOrphanDeletion now c n d = (r, d') ->
  chunk_replicas d' = chunk_replicas d /\ chunks d' = chunks d /\ (schema_ok d -> schema_ok d').
Proof.
  intros E. split_and!; [| |intros Hs; by eapply keeps_QueueOrphanDeletion].
  all: revert E; unfold QueueOrphanDeletion, inTx; destruct (tx_bind _ _ d) as [[b d1]|] eqn:E; intros [= <- <-]; [|done].
  all: apply tx_bind_ok in E as (d2&d3&[-> ->]%gets_ok&E); case_bool_decide; [|by apply tx_ret_ok in E as [_ ->]].
  all: apply tx_bind_ok in E as (k&d3&Hq&[_ ->]%tx_ret_ok); by apply enqueue_deletion_ok in Hq as ((m&q&->)&_&_).
Qed.

Lemma queue_orphans_frame e known n ids res w r w' :
  queue_orphans e known n ids res w = (r, w') ->
  w_nodes w' = w_nodes w /\ chunk_replicas (sv_db (w_svc w')) = chunk_replicas (sv_db (w_svc w)) /\
  chunks (sv_db (w_svc w')) = chunks (sv_db (w_svc w)) /\
  (schema_ok (sv_db (w_svc w)) -> schema_ok (sv_db (w_svc w'))).
Proof.
  revert res w. induction ids as [|c ids IH]; intros res w; simpl; [by intros [= <- <-]|].
  destruct (known !! c); [apply IH|]. unfold wd_bind. destruct (svc _ w) as [r1 w1] eqn:E. apply after_store in E as (d1&E&->).
  apply QueueOrphanDeletion_frame in E as (H1&H2&H3). destruct r1 as [b|err]; [|by intros [= <- <-]].
  intros (E1&E2&E3&E4)%IH. simpl in *. split_and!; [congruence|congruence|congruence|auto].
Qed.

(** What reconcileNode leaves: nothing when the inventory cannot be had, else
    the settled rows, starting from the world [w1] the other processes left. *)
Record reconciled (cfg : ReconcileConfig) (net : reconcile_net) (job : ReconcileJob) (w w' : World)
    (r : option (result reconcile_error ReconcileResult)) (onDisk : gset N) : Prop := {
  rd_settled : settled (xc_VerifyChecksums cfg) (rc_Address job) (rc_NodeID job) onDisk (w_nodes w')
    (sv_db (w_svc (cn_meanwhile net (list_call net (rc_Address job) (xc_PageSize cfg) w).2))) (sv_db (w_svc w'));
  rd_inventory : forall node c p f, w_nodes w !! rc_Address job = Some node -> (c < 2 ^ 128)%N ->
    RelativePath (uuid_String c) = Some p -> d_data (n_disk node) !! p = Some f -> cn_gone net p = false -> c ∈ onDisk;
  rd_complete : forall res, r = Some (Ok res) -> (0 < xc_PageSize cfg)%Z -> forall c, (0 < c)%N -> ~ stale (rc_NodeID job) (sv_db (w_svc w')) c
}.

Lemma reconcileNode_ok e cfg net job w r w' :
  schema_ok (sv_db (w_svc w)) -> (forall w, schema_ok (sv_db (w_svc w)) -> schema_ok (sv_db (w_svc (cn_meanwhile net w)))) ->
  reconcileNode e cfg net job w = (r, w') ->
  r <> None /\
  ((exists err, r = Some (Err err)) /\ sv_db (w_svc w') = sv_db (w_svc w) \/ exists onDisk, reconciled cfg net job w w' r onDisk).
Proof.
  intros Hs Hmean. unfold reconcileNode. destruct (String.eqb _ _); [intros [= <- <-]; split; [done|left; eauto]|].
  unfold wd_bind at 1, svc at 1, load. simpl. unfold wd_bind at 1.
  replace (mkWorld (w_svc w) (w_nodes w)) with w by (by destruct w).
  destruct (list_call net (rc_Address job) (xc_PageSize cfg) w) as [r0 w0] eqn:El.
  assert (sv_db (w_svc w0) = sv_db (w_svc w) /\ forall batches, r0 = Ok batches -> exists node node',
    w_nodes w !! rc_Address job = Some node /\
    ListChunks node (cn_gone net) (Prelude.int32 (xc_PageSize cfg)) (cn_stop net) = (Ok batches, node')) as [Hdb0 Hnode].
  { revert El. unfold list_call, call_node. destruct (w_nodes w !! rc_Address job) as [node|]; [|by intros [= <- <-]].
    destruct (negb _); [by intros [= <- <-]|]. destruct (ListChunks node _ _ _) as [rl node'] eqn:Ell.
    destruct (ft_lost _); intros [= <- <-]; (split; [done|]); [done|]. intros batches ->. by exists node, node'. }
  destruct r0 as [batches|code]; [|intros [= <- <-]; split; [done|left; eauto]].
  destruct (Hnode batches eq_refl) as (node&node'&Hn&Hlist). unfold wd_bind at 1 2.
  set (onDisk := list_to_set (inventory_ids batches) : gset N). set (w1 := cn_meanwhile net w0).
  assert (schema_ok (sv_db (w_svc w1))) as Hs1 by (apply Hmean; by rewrite Hdb0).
  destruct (queue_orphans _ _ _ _ _ w1) as [r2 w2] eqn:E2. apply queue_orphans_frame in E2 as (Q1&Q2&Q3&Q4).
  assert (forall w', world_settled cfg job onDisk w2 w' ->
    settled (xc_VerifyChecksums cfg) (rc_Address job) (rc_NodeID job) onDisk (w_nodes w') (sv_db (w_svc w1)) (sv_db (w_svc w'))) as Hback.
  { intros w3 [E [S1 S2 S3]]. rewrite E. split; [by rewrite <-Q3|by rewrite <-Q2|].
    intros c. specialize (S3 c). unfold row_settled, stale in *. by rewrite Q2, Q3 in S3. }
  assert (forall node0 c p f, w_nodes w !! rc_Address job = Some node0 -> (c < 2 ^ 128)%N ->
    RelativePath (uuid_String c) = Some p -> d_data (n_disk node0) !! p = Some f -> cn_gone net p = false -> c ∈ onDisk) as Hinv.
  { intros node0 c p f Hn0 Hc Hp Hf Hg. rewrite Hn in Hn0. injection Hn0 as <-. apply elem_of_list_to_set.
    by eapply inventory_complete. }
  destruct r2 as [res2|err].
  2: { intros [= <- <-]. split; [done|right]. exists onDisk. split; [|done|done]. rewrite El. apply Hback, world_settled_refl. }
  unfold wd_bind, svc, load. cbv beta iota zeta. replace (mkWorld (w_svc w2) (w_nodes w2)) with w2 by (by destruct w2).
  intros Hgo. apply settle_pages_settled in Hgo as (Hr&Hset&Hdone).
  2: { unfold ahead. pose proof (subseteq_size (filter (fun c => 0 < c)%N (dom (chunks (sv_db (w_svc w2))))) (dom (chunks (sv_db (w_svc w2))))) as Hsz.
    rewrite size_dom in Hsz. specialize (Hsz ltac:(set_solver)). lia. }
  split; [done|right]. exists onDisk. split; [rewrite El; by apply Hback|done|].
  intros res Hres Hpage c Hc Hst. apply (Hdone res Hres Hpage c Hc); [|exact Hst]. rewrite Q3.
  assert (stale (rc_NodeID job) (sv_db (w_svc w1)) c) as Hst1.
  { apply dec_stable. intros Hn1. by apply (settled_fresh _ _ _ _ _ _ _ c (Hback w' Hset) Hn1). }
  apply fmap_Some in Hst1 as (row&Hrow&_). exact (so_replica_chunk _ Hs1 _ _ Hrow c eq_refl).
Qed.
End job.

(** C10: a reconciliation ends and settles every replica of the node. Whatever
    the node and the network do, and whatever the other processes do as long as
    they keep the database integral, the job comes to its end, with any
    configuration. If the inventory could not be had, the database is as it was.
    Otherwise no row of another node changes, and a row of this node changes in
    three ways only: it is dropped if the inventory lacks the chunk, which is not
    the case for a file that stayed on the node; it becomes CORRUPT; or it is
    promoted from STALE to AVAILABLE. With VerifyChecksums a row is promoted only
    if the node holds bytes with the recorded digest; with
    FLEXSTORE_RECONCILE_VERIFY_CHECKSUMS=false the inventory is enough. When the
    job succeeds and the page size is positive, no STALE replica of the node is
    left, but for the nil UUID, where the cursor starts; a page size of zero
    succeeds without settling anything. *)
Theorem reconcileNode_settles `{PG : !Postgres, UU : !Uuid, FW : !FileWalk} e cfg net job w :
  schema_ok (sv_db (w_svc w)) -> (forall w, schema_ok (sv_db (w_svc w)) -> schema_ok (sv_db (w_svc (cn_meanwhile net w)))) ->
  let '(r, w') := reconcileNode e cfg net job w in
  r <> None /\
  ((exists err, r = Some (Err err)) /\ sv_db (w_svc w') = sv_db (w_svc w) \/ exists onDisk, reconciled cfg net job w w' r onDisk).
Proof. intros H1 H2. destruct (reconcileNode e cfg net job w) as [r w'] eqn:E. by eapply reconcileNode_ok. Qed.

(** The node n2 was away; its copy of the chunk is intact. *)
Definition rejoined_acts : list action := degraded_acts ["n1"; "n2"] [].
Definition stored_on_n2 : World :=
  serve_all (fun s => s) rejoined_acts (start (three_nodes empty_node (node_with 20 two_bytes) empty_node)).
Definition run_op {A} (op : Op db A) (w : World) : World := (svc (store op) w).2.
Definition rejoined : World :=
  run_op (MarkReplicasStaleOnNode 8 "n2") (run_op (SetNodeHealth 8 "n2" HEALTHY) (run_op (SetNodeHealth 7 "n2" DEAD) stored_on_n2)).
Definition sample_job : ReconcileJob := mkReconcileJob 1 "n2" "n2:7000" 7.

Lemma run_op_schema {A} (op : Op db A) w :
  op_keeps schema_ok op -> schema_ok (sv_db (w_svc w)) -> schema_ok (sv_db (w_svc (run_op op w))).
Proof.
  intros Hk Hs. unfold run_op. destruct (svc (store op) w) as [r w'] eqn:E. apply after_store in E as (d'&E&->). by eapply Hk.
Qed.
Lemma rejoined_schema : schema_ok (sv_db (w_svc rejoined)).
Proof.
  assert (schema_ok (sv_db (w_svc stored_on_n2))) as H.
  { unfold stored_on_n2. set (w := start _). assert (schema_ok (sv_db (w_svc w))) as Hw by exact empty_db_schema. clearbody w.
    exact (db_refines_schema (fun s => s) _ _ (serve_all_refines (fun s => s) rejoined_acts w ltac:(repeat constructor) Hw) Hw). }
  unfold rejoined. generalize dependent stored_on_n2. intros w Hw.
  apply run_op_schema; [apply keeps_MarkReplicasStaleOnNode|]. apply run_op_schema; [apply keeps_SetNodeHealth|].
  apply run_op_schema; [apply keeps_SetNodeHealth|done].
Qed.

Lemma reconcileNode_settles_witness :
  let w := reconcileNode (at_time 9 0) sample_reconcile quiet_net sample_job rejoined in
  cr_state <$> chunk_replicas (sv_db (w_svc rejoined)) !! (20%N, "n2") = Some ReplicaStale /\
  cr_state <$> chunk_replicas (sv_db (w_svc w.2)) !! (20%N, "n2") = Some ReplicaAvailable /\
  has_digest_at (w_nodes w.2) "n2:7000" (uuid_String 20) (Sum two_bytes).
Proof.
  cbv zeta. pose proof (reconcileNode_settles (at_time 9 0) sample_reconcile quiet_net sample_job rejoined rejoined_schema
    (fun w H => H)) as H.
  set (d1 := sv_db (w_svc (cn_meanwhile quiet_net (list_call quiet_net (rc_Address sample_job) (xc_PageSize sample_reconcile) rejoined).2))).
  assert (cr_state <$> chunk_replicas (sv_db (w_svc rejoined)) !! (20%N, "n2") = Some ReplicaStale) as Hb by (vm_compute; reflexivity).
  assert (cr_state <$> chunk_replicas d1 !! (20%N, "n2") = Some ReplicaStale) as H1 by (vm_compute; reflexivity).
  assert ((chunks d1 !! 20%N ≫= ck_checksum_sha256) = Some (Sum two_bytes)) as Hc by (vm_compute; reflexivity).
  assert (cr_state <$> chunk_replicas (sv_db (w_svc (reconcileNode (at_time 9 0) sample_reconcile quiet_net sample_job rejoined).2)) !! (20%N, "n2")
    = Some ReplicaAvailable) as Ha by (vm_compute; reflexivity).
  destruct (reconcileNode (at_time 9 0) sample_reconcile quiet_net sample_job rejoined) as [r w']. cbn [snd] in Ha |- *.
  destruct H as [_ [[_ E]|(onDisk&[[_ _ Hrow] _ _])]]; [rewrite E, Hb in Ha; discriminate Ha|].
  split; [exact Hb|]. split; [exact Ha|]. specialize (Hrow 20%N). fold d1 in Hrow. unfold row_settled in Hrow.
  change (rc_NodeID sample_job) with "n2" in Hrow.
  destruct Hrow as [E|[[_ E]|[[_ E]|(_&_&_&Hv)]]];
    [rewrite E, H1 in Ha; discriminate Ha|rewrite E in Ha; discriminate Ha|rewrite E in Ha; discriminate Ha|].
  destruct (Hv eq_refl) as (ch&sum&Hch&Hsum&Hd). rewrite Hch in Hc. cbn [mbind option_bind] in Hc. rewrite Hsum in Hc. injection Hc as <-. exact Hd.
Defined.
