(* ===== verification/PutGet.v ===== *)
(** * What a client stores it reads back

    The composition of the system's parts on the path of an object: the
    gateway's upload loop, the coordinator's handlers, the metadata store, the
    fan-out to the storage nodes, and the way back through the layout, the
    nodes' streams and the download. *)

From Stdlib Require Import Strings.Byte.
From stdpp Require Import base numbers gmap strings list sorting.
From S2P Require Import Prelude Chunking Checksum GoStrings RangeReq Download ChunkStore StorageService ChunkWriter UploadFiles.
From S2P Require Import GoFloat Placement Health Validate Uuid Cache.
From S2P Require Import Sql Schema Statements Chunks Frames Objects Nodes Repair Gc Reconcile Multipart Store Reads Commit Uploads UploadDb.
From S2P Require Import ChunkInv CompleteInv QueueInv Coordinator Workers Reconciler Refinement Roster Samples Gateway.

Lemma chunk_id_inj `{UU : !Uuid} a b p :
  (a < 2 ^ 128)%N -> (b < 2 ^ 128)%N ->
  RelativePath (uuid_String a) = Some p -> RelativePath (uuid_String b) = Some p -> a = b.
Proof. intros Ha Hb H1 H2. apply uuid_inj; [done|done|]. by eapply RelativePath_inj. Qed.

Lemma uuid_String_nonempty `{UU : !Uuid} id : String.eqb (uuid_String id) EmptyString = false.
Proof. apply String.eqb_neq. intros E. pose proof (uuid_canonical id) as H. by rewrite E in H. Qed.

(** ** The state of an upload *)

(** Whether the node roster in the cache agrees with the database, where that
    matters: where a chunk is found rests on it, what is read does not. *)
Class Coherence := coherent : Prop.

Section state.
Context `{UU : !Uuid, CO : !Coherence}.

(** The node at an address holds the bytes as the chunk. *)
Definition has_data (nodes : cluster) (addr id : string) (data : bytes) : Prop :=
  exists n p f, nodes !! addr = Some n /\ RelativePath id = Some p /\ d_data (n_disk n) !! p = Some f /\ f_data f = data.

(** A committed chunk of the object: its row describes the bytes, and every
    AVAILABLE replica is a node with the bytes. *)
Record piece_stored (d : db) (nodes : cluster) (c : N) (ch : chunk_row) (data : bytes) : Prop := {
  ps_state : ck_state ch = ChunkCommitted;
  ps_sum : ck_checksum_sha256 ch = Some (Sum data);
  ps_size : ck_size_bytes ch = Z.of_nat (length data);
  ps_nodes : coherent -> forall n r, chunk_replicas d !! (c, n) = Some r -> cr_state r = ReplicaAvailable ->
    exists row, storage_nodes d !! n = Some row /\ has_data nodes (sn_grpc_address row) (uuid_String c) data
}.

(** The chunk being uploaded, if there is one, is the next one and has no
    replica yet. *)
Definition piece_pending (d : db) (pieces : list bytes) (c : N) (ch : chunk_row) : Prop :=
  ck_chunk_index ch = Z.of_nat (length pieces) /\
  forall n r, chunk_replicas d !! (c, n) = Some r -> cr_state r = ReplicaWriting.

Definition piece_at (d : db) (nodes : cluster) (pieces : list bytes) (c : N) (ch : chunk_row) : Prop :=
  exists i data, pieces !! i = Some data /\ ck_chunk_index ch = Z.of_nat i /\ piece_stored d nodes c ch data.
(** The same, and it can be read. *)
Definition piece_served (d : db) (nodes : cluster) (pieces : list bytes) (c : N) (ch : chunk_row) : Prop :=
  piece_at d nodes pieces c ch /\ (coherent -> readable d c).

Record upload_state (d : db) (nodes : cluster) (o : N) (b k : string) (pieces : list bytes) (pending : bool) : Prop := {
  us_object : exists r, objects d !! o = Some r /\ ob_state r = ObjectUploading /\ ob_bucket r = b /\ ob_key r = k;
  us_chunks : forall c ch, chunks d !! c = Some ch -> ck_object_id ch = Some o ->
    (c < 2 ^ 128)%N /\ (piece_served d nodes pieces c ch \/ pending = true /\ piece_pending d pieces c ch)
}.

Lemma readable_mono d d' c :
  (forall n, chunk_replicas d' !! (c, n) = chunk_replicas d !! (c, n)) -> storage_nodes d' = storage_nodes d ->
  readable d c -> readable d' c.
Proof. intros Hr Hn (n&H1&H2). exists n. unfold readable_replica. by rewrite Hr, Hn. Qed.

Lemma piece_at_mono d nodes d' nodes' pieces c ch ch' :
  (forall n r, chunk_replicas d' !! (c, n) = Some r -> cr_state r = ReplicaAvailable ->
    exists r0, chunk_replicas d !! (c, n) = Some r0 /\ cr_state r0 = ReplicaAvailable) -> storage_nodes d' = storage_nodes d ->
  strip_counter ch' = strip_counter ch ->
  (forall addr data, has_data nodes addr (uuid_String c) data -> has_data nodes' addr (uuid_String c) data) ->
  piece_at d nodes pieces c ch -> piece_at d' nodes' pieces c ch'.
Proof.
  intros Hr Hn Hch Hdata (i&data&Hi&Hidx&[H1 H2 H3 H5]).
  apply strip_counter_eq in Hch as (_&_&E3&E4&E5&E6&_). exists i, data. split_and!; [done|congruence|].
  split; [congruence|congruence|congruence|].
  intros Hco n r Hnr Hst. rewrite Hn. destruct (Hr n r Hnr Hst) as (r0&Hr0&Hst0). destruct (H5 Hco n r0 Hr0 Hst0) as (row&Hrow&Hh). eauto.
Qed.
Lemma piece_served_mono d nodes d' nodes' pieces c ch ch' :
  (forall n, chunk_replicas d' !! (c, n) = chunk_replicas d !! (c, n)) -> storage_nodes d' = storage_nodes d ->
  strip_counter ch' = strip_counter ch ->
  (forall addr data, has_data nodes addr (uuid_String c) data -> has_data nodes' addr (uuid_String c) data) ->
  piece_served d nodes pieces c ch -> piece_served d' nodes' pieces c ch'.
Proof.
  intros Hr Hn Hch Hdata [Hp Hread]. split.
  - eapply piece_at_mono; [|done|done|done|exact Hp]. intros n r. rewrite Hr. eauto.
  - intros Hco. eapply readable_mono; eauto.
Qed.

(** Writing another chunk leaves the bytes where they are. *)
Lemma has_data_writes nodes nodes' c c' data data' addr :
  (c < 2 ^ 128)%N -> (c' < 2 ^ 128)%N -> c' <> c -> cluster_writes (uuid_String c) data nodes nodes' ->
  has_data nodes addr (uuid_String c') data' -> has_data nodes' addr (uuid_String c') data'.
Proof.
  intros Hc Hc' Hne Hw (n&p&f&Hn&Hp&Hf&Hd). specialize (Hw addr). rewrite Hn in Hw.
  inversion Hw as [? n' Hnn Heq1 Heq2|]; subst. exists n', p, f. split_and!; [done|done| |done].
  destruct (Hnn p) as [->|[Hp' _]]; [done|]. destruct Hne. by eapply chunk_id_inj.
Qed.

Lemma upload_state_writes d nodes nodes' o b k pieces c ch data :
  upload_state d nodes o b k pieces true -> (c < 2 ^ 128)%N ->
  chunks d !! c = Some ch -> ck_chunk_index ch = Z.of_nat (length pieces) ->
  cluster_writes (uuid_String c) data nodes nodes' -> upload_state d nodes' o b k pieces true.
Proof.
  intros [Ho Hch] Hlt Hc Hidx Hw. split; [done|]. intros c' ch' Hc' Hobj.
  destruct (Hch c' ch' Hc' Hobj) as [Hlt' [Hp|Hp]]; (split; [done|]); [left|by right].
  eapply piece_served_mono; [done|done|done| |exact Hp]. intros addr data'. apply (has_data_writes nodes nodes' c c' data); try done.
  intros ->. destruct Hp as [(i&data0&Hi&Hidx'&_) _]. apply lookup_lt_Some in Hi. rewrite Hc in Hc'. injection Hc' as <-. lia.
Qed.
End state.

(** ** The calls of the gateway *)

Section calls.
Context `{PG : !Postgres, UU : !Uuid, GM : !GoMath, GS : !GoSort, CO : !Coherence}.

(** What holds between the steps of an upload that started at [s0]: the database
    is integral and has the same nodes, a roster that was coherent still is, and
    the cache has no new entry but the roster. *)
Record live (s0 s : Service) : Prop := {
  lv_schema : schema_ok (sv_db s);
  lv_roster : coherent -> cached_roster_ok s;
  lv_nodes : same_nodes (sv_db s0) (sv_db s);
  lv_cache : forall now key v, key <> NodesKey -> visible now (sv_cache s) key = Some v -> visible now (sv_cache s0) key = Some v
}.

Lemma live_same_nodes s0 s s' : live s0 s -> live s0 s' -> same_nodes (sv_db s) (sv_db s').
Proof. intros [_ _ H _] [_ _ H' _]. unfold same_nodes in *. congruence. Qed.
Lemma roster_ok_nodes d d' ns : storage_nodes d' = storage_nodes d -> roster_ok d ns -> roster_ok d' ns.
Proof. unfold roster_ok, known_node. by intros ->. Qed.
Lemma cached_roster_db s d : storage_nodes d = storage_nodes (sv_db s) -> cached_roster_ok s -> cached_roster_ok (s <| sv_db := d |>).
Proof. intros Hn Hc now ns Hv. eapply roster_ok_nodes; [exact Hn|]. by eapply Hc. Qed.

Lemma live_op {A} (op : Op db A) s0 s r d' :
  op_keeps schema_ok op -> op_keeps (same_nodes (sv_db s0)) op -> live s0 s -> op (sv_db s) = (r, d') -> live s0 (s <| sv_db := d' |>).
Proof.
  intros Hk Hn [H1 H2 H3 H5] E. pose proof (Hn _ _ _ H3 E) as H4.
  split; simpl; [by eapply Hk|intros Hco; apply cached_roster_db; [by rewrite H4, <-H3|by apply H2]|done|done].
Qed.

Lemma client_call_inv {A} (I : Service -> Prop) (Q : A -> Service -> Prop) attempts (fn : env -> Rpc A) retryable s r s' :
  (forall i s r s', I s -> fn (at_env (attempts i)) s = (r, s') -> I s' /\ forall a, r = Ok a -> Q a s') ->
  I s -> client_call attempts fn retryable s = (r, s') -> I s' /\ forall a, r = Ok a -> Q a s'.
Proof.
  intros Hfn. unfold client_call. generalize (if retryable then maxAttempts else 1%nat). intros n.
  generalize 1%nat. generalize (@None Z). revert s r s'.
  induction n as [|n IH]; intros s r s' last i HI; simpl; [by intros [= <- <-]|].
  destruct (at_cancelled (attempts i)); [by intros [= <- <-]|]. unfold sv_bind, stub_call.
  destruct (at_up (attempts i)); simpl.
  - destruct (fn (at_env (attempts i)) s) as [r1 s1] eqn:E. destruct (Hfn i s r1 s1 HI E) as [HI1 HQ].
    destruct (at_lost (attempts i)) as [code|].
    + destruct (isTransient code); simpl; [|by intros [= <- <-]]. case_decide; [by intros [= <- <-]|].
      destruct (at_interrupted (attempts i)); [by intros [= <- <-]|]. by apply IH.
    + destruct r1 as [a|code]; [intros [= <- <-]; split; [done|]; by intros a' [= <-]; apply HQ|].
      destruct (isTransient code); simpl; [|by intros [= <- <-]]. case_decide; [by intros [= <- <-]|].
      destruct (at_interrupted (attempts i)); [by intros [= <- <-]|]. by apply IH.
  - case_decide; [by intros [= <- <-]|]. destruct (at_interrupted (attempts i)); [by intros [= <- <-]|]. by apply IH.
Qed.

(** A call that is not retried answered because the handler did. *)
Lemma client_call_once {A} attempts (fn : env -> Rpc A) s a s' :
  client_call attempts fn false s = (Ok a, s') -> fn (at_env (attempts 1%nat)) s = (Ok a, s').
Proof.
  unfold client_call. simpl. destruct (at_cancelled (attempts 1%nat)); [done|]. unfold sv_bind, stub_call.
  destruct (at_up (attempts 1%nat)); simpl; [|done].
  destruct (fn (at_env (attempts 1%nat)) s) as [r1 s1]. destruct (at_lost (attempts 1%nat)) as [code|].
  - by destruct (isTransient code).
  - destruct r1 as [x|code]; [done|]. by destruct (isTransient code).
Qed.

(** Reserving the next position keeps the state, and the row is there. *)
Lemma reserve_state nodes o b k pieces fresh now size d c d' :
  schema_ok d -> upload_state d nodes o b k pieces true -> same_nodes d d' -> (fresh < 2 ^ 128)%N ->
  ReserveChunk fresh now (mkOwner (Some o) None) (Z.of_nat (length pieces)) size d = (Ok c, d') ->
  upload_state d' nodes o b k pieces true /\ (c < 2 ^ 128)%N /\
  exists ch, chunks d' !! c = Some ch /\ ck_object_id ch = Some o /\ ck_chunk_index ch = Z.of_nat (length pieces).
Proof.
  intros Hs [Ho Hch] Hnodes Hfresh (Hobjs&Hreps&(ch'&Hc'&Hoo&Hidx)&Hother&Hold)%ReserveChunk_ok.
  assert ((c < 2 ^ 128)%N /\ forall n r, chunk_replicas d !! (c, n) = Some r -> cr_state r = ReplicaWriting) as [Hlt Hwr].
  { destruct Hold as [[Hnone ->]|(ch&Hc&Hco&Hci)].
    - split; [done|]. intros n r Hr. destruct (so_replica_chunk _ Hs (fresh, n) r Hr fresh eq_refl) as [x Hx].
      simpl in Hx. congruence.
    - destruct (Hch c ch Hc Hco) as [Hlt [[(i&data&Hi&Hii&_) _]|[_ [_ Hp]]]]; [|done].
      apply lookup_lt_Some in Hi. lia. }
  split_and!; [|done|by exists ch']. split; [by rewrite Hobjs|]. intros c1 ch1 Hc1 Hco1.
  destruct (decide (c1 = c)) as [->|Hne].
  - rewrite Hc' in Hc1. injection Hc1 as <-. split; [done|]. right. split; [done|]. split; [done|]. by rewrite Hreps.
  - rewrite Hother in Hc1 by done. destruct (Hch c1 ch1 Hc1 Hco1) as [Hlt1 [Hp|[_ Hp]]]; (split; [done|]).
    + left. eapply piece_served_mono; [| | |done|exact Hp]; [by rewrite Hreps|exact Hnodes|done].
    + right. split; [done|]. unfold piece_pending. by rewrite Hreps.
Qed.

Lemma targets_state nodes o b k pieces c ch d d' :
  upload_state d nodes o b k pieces true -> same_nodes d d' -> targets_recorded c d d' ->
  chunks d !! c = Some ch -> ck_chunk_index ch = Z.of_nat (length pieces) ->
  upload_state d' nodes o b k pieces true.
Proof.
  intros [Ho Hch] Hnodes [T1 T2 T3 T4] Hc Hidx. split; [by rewrite T3|]. intros c1 ch1 Hc1 Hco1.
  destruct (strip_Some d d' T4 c1 ch1 Hc1) as (ch0&Hc0&Hst). pose proof (strip_counter_eq _ _ Hst) as (E1&_&E3&_).
  destruct (Hch c1 ch0 Hc0) as [Hlt [Hp|[_ [Hp1 Hp2]]]]; [congruence| |]; (split; [done|]).
  - left. eapply piece_served_mono; [| |exact Hst|done|exact Hp]; [|exact Hnodes].
    intros n. apply T2. intros ->. destruct Hp as [(i&data&Hi&Hii&_) _]. apply lookup_lt_Some in Hi. rewrite Hc in Hc0. injection Hc0 as <-. lia.
  - right. split; [done|]. split; [congruence|]. intros n r Hr. destruct (decide (c1 = c)) as [->|Hne].
    + apply T1 in Hr as [Hr|Hr]; [by eapply Hp2|done].
    + rewrite T2 in Hr by done. by eapply Hp2.
Qed.

(** The reply names the chunk row of the next position, and nodes that are
    registered where the roster says. *)
Definition allocated (nodes : cluster) (o : N) (b k : string) (pieces : list bytes) (rep : AllocateChunkReply) (s : Service) : Prop :=
  exists c ch, ac_ChunkId rep = uuid_String c /\ (c < 2 ^ 128)%N /\ chunks (sv_db s) !! c = Some ch /\
    ck_object_id ch = Some o /\ ck_chunk_index ch = Z.of_nat (length pieces) /\
    (coherent -> Forall (known_node (sv_db s)) (ac_Targets rep)).

Lemma AllocateChunk_state s0 e nodes o b k pieces size s r s' :
  (e_fresh e < 2 ^ 128)%N -> (o < 2 ^ 128)%N -> (0 <= size)%Z ->
  live s0 s -> upload_state (sv_db s) nodes o b k pieces true ->
  AllocateChunk_rpc e (uuid_String o) EmptyString (Z.of_nat (length pieces)) size s = (r, s') ->
  (live s0 s' /\ upload_state (sv_db s') nodes o b k pieces true) /\
  forall rep, r = Ok rep -> allocated nodes o b k pieces rep s'.
Proof.
  intros Hfresh Ho Hsize Hl Hst. unfold AllocateChunk_rpc, parseOwner.
  rewrite uuid_String_nonempty, uuid_roundtrip by done. cbn [String.eqb]. rewrite decide_False by lia. unfold sv_bind at 1.
  pose proof (healthyNodes_ok e s) as Hh. destruct (healthyNodes e s) as [ns s1].
  destruct Hh as (Hc1&cache&->&Hcache). unfold sv_bind at 1, store at 1.
  assert (coherent -> roster_ok (sv_db s) ns) as Hros by (intros Hco; by apply Hc1, (lv_roster _ _ Hl)).
  set (s1 := s <| sv_cache := cache |>) in *.
  assert (live s0 s1) as Hl1.
  { destruct Hl as [L1 L2 L3 L4]. split; [done|intros Hco; by apply Hc1, L2|done|].
    intros now key v Hk Hv. apply Hcache in Hv as [Hv|Hv]; [by apply L4|done]. }
  change (sv_db s) with (sv_db s1) in *. clearbody s1. clear Hl Hc1 Hcache.
  destruct (ReserveChunk _ _ _ _ _ (sv_db s1)) as [r2 d2] eqn:E2.
  pose proof (live_op _ _ _ _ _ (keeps_ReserveChunk _ _ _ _ _) (same_nodes_ReserveChunk (sv_db s0) _ _ _ _ _) Hl1 E2) as Hl2.
  destruct r2 as [c|err]; [|apply ReserveChunk_ok in E2 as (_&_&->); intros [= <- <-]; by split].
  pose proof (live_same_nodes _ _ _ Hl1 Hl2) as Hn2. simpl in Hn2.
  destruct (reserve_state nodes o b k pieces _ _ _ _ _ _ (lv_schema _ _ Hl1) Hst Hn2 Hfresh E2) as (Hst2&Hlt&ch&Hch&Hco&Hci).
  assert (coherent -> roster_ok d2 ns) as Hros2 by (intros HC; by apply (roster_ok_nodes (sv_db s1)); [|apply Hros]).
  unfold sv_bind at 1, sv_gets. unfold sv_bind at 1. clear E2 Hros Hst Hn2.
  remember (s1 <| sv_db := d2 |>) as s2 eqn:Hs2. assert (d2 = sv_db s2) as Hd2 by (by rewrite Hs2). clear Hl1 Hs2 s1. subst d2.
  destruct (select_nodes ns _ s2) as [r3 s3] eqn:E3.
  assert (live s0 s3 /\ sv_db s3 = sv_db s2 /\ forall sel, coherent -> r3 = Ok sel -> Forall (known_node (sv_db s2)) sel) as (Hl3&Hdb3&Hsel).
  { destruct (select_nodes_frame _ _ _ _ _ E3) as [p ->]. split_and!; [destruct Hl2; by split|done|]. intros sel HC Hr.
    destruct (Hros2 HC) as [Hnd Hknown]. apply select_nodes_members in E3 as [_ Hsel]; [|done|done|].
    - eapply Forall_impl; [exact (Hsel sel Hr)|]. intros n Hn. rewrite Forall_forall in Hknown. by apply Hknown.
    - apply String.eqb_neq, uuid_String_nonempty. }
  rewrite <-Hdb3 in Hst2, Hch, Hsel. clear Hl2 Hdb3 E3 Hros2.
  destruct r3 as [targets|err]; [|destruct err; intros [= <- <-]; by split].
  unfold sv_bind at 1, store. destruct (RecordChunkTargets _ _ _ (sv_db s3)) as [r4 d4] eqn:E4.
  pose proof (live_op _ _ _ _ _ (keeps_RecordChunkTargets _ _ _) (same_nodes_RecordChunkTargets (sv_db s0) _ _ _) Hl3 E4) as Hl4.
  apply RecordChunkTargets_ok in E4.
  pose proof (live_same_nodes _ _ _ Hl3 Hl4) as Hn4. simpl in Hn4.
  pose proof (targets_state nodes o b k pieces c ch (sv_db s3) d4 Hst2 Hn4 E4 Hch Hci) as Hst4.
  destruct r4 as [u|err]; intros [= <- <-]; (split; [by split|]); [|done]. intros rep [= <-].
  pose proof (tr_chunks _ _ _ E4 c) as Hstrip. rewrite Hch in Hstrip. simpl.
  destruct (chunks d4 !! c) as [ch4|] eqn:Hc4; [|done]. apply (inj Some) in Hstrip.
  pose proof (strip_counter_eq _ _ Hstrip) as (F1&_&F3&_). exists c, ch4. simpl. split_and!; [done|done|done|congruence|congruence|].
  intros HC. eapply Forall_impl; [exact (Hsel targets HC eq_refl)|]. unfold known_node. by rewrite Hn4.
Qed.

Lemma position_unique d o c1 ch1 c2 ch2 :
  schema_ok d -> chunks d !! c1 = Some ch1 -> chunks d !! c2 = Some ch2 ->
  ck_object_id ch1 = Some o -> ck_object_id ch2 = Some o -> ck_chunk_index ch1 = ck_chunk_index ch2 -> c1 = c2.
Proof.
  intros Hs H1 H2 Ho1 Ho2 Hi. apply (proj1 (unique_on_spec _ _ _) (so_chunk_object_idx _ Hs) c1 ch1 c2 ch2 H1 H2);
    [by rewrite Ho1|by rewrite Ho2|congruence].
Qed.

(** A committed chunk joins the stored pieces. *)
Lemma commit_state nodes o b k pieces c ch data now ok ko m d a d' :
  schema_ok d -> same_nodes d d' -> upload_state d nodes o b k pieces true ->
  (c < 2 ^ 128)%N -> chunks d !! c = Some ch -> ck_object_id ch = Some o -> ck_chunk_index ch = Z.of_nat (length pieces) ->
  ok <> [] ->
  (coherent -> forall n, n ∈ ok -> exists row, storage_nodes d !! n = Some row /\ sn_health row <> DEAD /\
     has_data nodes (sn_grpc_address row) (uuid_String c) data) ->
  CommitChunk now c (Sum data) (Z.of_nat (length data)) ok ko m d = (Ok a, d') ->
  upload_state d' nodes o b k (pieces ++ [data]) false.
Proof.
  intros Hs Hn [(ro&Ho&Host&Hob&Hok') Hch] Hlt Hc Hco Hci Hne Hok E.
  apply CommitChunk_ok in E as ((ch0&ch'&Hc0&Hc'&Hst)&Hother&Hhere&Hreps&Hobj); [|done].
  rewrite Hc in Hc0. injection Hc0 as <-. split.
  { destruct (Hobj o ro Ho) as (r'&?&?&?&?). exists r'. split_and!; congruence. }
  intros c1 ch1 Hc1 Hco1. destruct (decide (c1 = c)) as [->|Hne1].
  - rewrite Hc' in Hc1. injection Hc1 as <-. split; [done|]. left.
    pose proof (strip_counter_eq _ _ Hst) as (E1&_&E3&E4&E5&E6&_).
    assert (forall n, chunk_replicas d' !! (c, n) = after_commit now ok ko n (chunk_replicas d !! (c, n))) as Hafter by done.
    split; [exists (length pieces), data; split_and!; [by rewrite lookup_app_r, Nat.sub_diag by done|by rewrite E3|];
            split; [by rewrite E6|by rewrite E5|by rewrite E4|]|]; intros HC; specialize (Hok HC); cycle 1.
    + destruct ok as [|n ok]; [done|]. destruct (Hok n) as (row&Hrow&Hdead&_); [by left|]. exists n. split.
      * rewrite Hafter. unfold after_commit. rewrite (decide_True (P := n ∈ n :: ok)) by (by left). simpl.
        by destruct (if decide (n ∈ ko) then _ else _).
      * exists row. by rewrite Hn.
    + intros n r Hr Hav. rewrite Hafter in Hr. unfold after_commit in Hr.
      destruct (decide (n ∈ ok)) as [Hin|Hin]; [destruct (Hok n Hin) as (row&?&_&?); exists row; by rewrite Hn|]. exfalso.
      destruct (Hch c ch Hc Hco) as [_ [[(i&x&Hi&Hii&_) _]|[_ [_ Hwr]]]]; [apply lookup_lt_Some in Hi; lia|].
      destruct (chunk_replicas d !! (c, n)) as [r0|] eqn:Hr0; [|by destruct (decide (n ∈ ko))].
      specialize (Hwr n r0 Hr0). destruct (decide (n ∈ ko)); simpl in Hr; injection Hr as <-; [done|congruence].
  - pose proof (Hother c1 Hne1) as Hs1. rewrite Hc1 in Hs1. destruct (chunks d !! c1) as [ch0|] eqn:Hc10; [|done].
    apply (inj Some) in Hs1. pose proof (strip_counter_eq _ _ Hs1) as (E1&_&E3&_).
    destruct (Hch c1 ch0 Hc10) as [Hlt1 Hp]; [congruence|]. split; [done|]. left.
    destruct Hp as [Hp|[_ [Hpi _]]]; [|destruct Hne1; eapply (position_unique d o); [done|done|exact Hc|congruence|done|congruence]].
    destruct (piece_served_mono d nodes d' nodes pieces c1 ch0 ch1) as [(i&x&Hi&Hrest) Hread]; [by intros n; apply Hreps|done|done|done|done|].
    split; [|done]. exists i, x. split; [|done]. rewrite lookup_app_l; [done|by eapply lookup_lt_Some].
Qed.

Lemma CommitChunk_state s0 e nodes o b k pieces c ch data ok ko s r s' :
  live s0 s -> upload_state (sv_db s) nodes o b k pieces true ->
  (c < 2 ^ 128)%N -> chunks (sv_db s) !! c = Some ch -> ck_object_id ch = Some o -> ck_chunk_index ch = Z.of_nat (length pieces) ->
  ok <> [] ->
  (coherent -> forall n, n ∈ ok -> exists row, storage_nodes (sv_db s) !! n = Some row /\ sn_health row <> DEAD /\
     has_data nodes (sn_grpc_address row) (uuid_String c) data) ->
  CommitChunk_rpc e (uuid_String c) (Sum data) (Z.of_nat (length data)) ok ko s = (r, s') ->
  forall a, r = Ok a -> live s0 s' /\ upload_state (sv_db s') nodes o b k (pieces ++ [data]) false.
Proof.
  intros Hl Hst Hlt Hc Hco Hci Hne Hok. unfold CommitChunk_rpc. rewrite uuid_roundtrip by done. rewrite Sum_valid.
  unfold sv_bind, sv_gets, store. simpl. destruct (CommitChunk _ _ _ _ _ _ _ (sv_db s)) as [r1 d1] eqn:E.
  destruct r1 as [a1|err]; intros [= <- <-] a Ha; [|done].
  pose proof (live_op _ _ _ _ _ (keeps_CommitChunk _ _ _ _ _ _ _) (same_nodes_CommitChunk (sv_db s0) _ _ _ _ _ _ _) Hl E) as Hl1.
  split; [done|]. simpl. eapply commit_state; [apply Hl| |done|done|done|done|done|done|done|exact E].
  exact (live_same_nodes _ _ _ Hl Hl1).
Qed.
End calls.

(** ** The upload loop *)

(** The bytes of some file of some node. *)
Definition file_data (nodes : cluster) (x : bytes) : Prop :=
  exists addr n p f, nodes !! addr = Some n /\ d_data (n_disk n) !! p = Some f /\ f_data f = x.
Definition block_of (body x : bytes) : Prop := exists a b, body = a ++ x ++ b.

(** No file of the nodes and no block of the body has the digest of another
    block of the body. *)
Definition collision_free (nodes : cluster) (body : bytes) : Prop :=
  forall x y, file_data nodes x \/ block_of body x -> block_of body y -> Sum x = Sum y -> x = y.

(** The files are the former ones or pieces of the upload. *)
Definition files_from (nodes0 : cluster) (pieces : list bytes) (nodes : cluster) : Prop :=
  forall x, file_data nodes x -> file_data nodes0 x \/ x ∈ pieces.

Lemma file_data_writes id data nodes nodes' x :
  cluster_writes id data nodes nodes' -> file_data nodes' x -> file_data nodes x \/ x = data.
Proof.
  intros Hw (addr&n'&p&f&Hn&Hf&Hd). specialize (Hw addr). rewrite Hn in Hw. inversion Hw as [n ? Hnn Heq1|]; subst.
  destruct (Hnn p) as [E|[_ E]].
  - left. exists addr, n, p, f. by rewrite <-E.
  - right. rewrite Hf in E. by injection E.
Qed.

Section loop.
Context `{PG : !Postgres, UU : !Uuid, GM : !GoMath, GS : !GoSort, CO : !Coherence}.
Context (s0 : Service) (nodes0 : cluster) (net : upload_net) (body : bytes).

(** The coordinator's identifiers are 128 bits, goroutines finish in some order. *)
Record net_ok : Prop := {
  no_begin : forall i, (e_fresh (at_env (un_begin net i)) < 2 ^ 128)%N;
  no_alloc : forall i j, (e_fresh (at_env (un_alloc net i j)) < 2 ^ 128)%N;
  no_order : forall i l, un_order net i l ≡ₚ l
}.
Hypothesis Hnet : net_ok.
Hypothesis Hfree : collision_free nodes0 body.
Hypothesis Hlen : (Z.of_nat (length body) < 2 ^ 63)%Z.

(** What the loop maintains. *)
Record loop_state (w : World) (o : N) (b k : string) (pieces : list bytes) : Prop := {
  ls_live : live s0 (w_svc w);
  ls_upload : upload_state (sv_db (w_svc w)) (w_nodes w) o b k pieces false;
  ls_files : files_from nodes0 pieces (w_nodes w)
}.

Lemma upload_state_open d nodes o b k pieces : upload_state d nodes o b k pieces false -> upload_state d nodes o b k pieces true.
Proof. intros [Ho Hc]. split; [done|]. intros c ch H1 H2. destruct (Hc c ch H1 H2) as [? [?|[]]]; [by auto|done]. Qed.

Lemma written_has_data pieces nodes nodes' c data t :
  files_from nodes0 pieces nodes -> Forall (block_of body) pieces -> block_of body data ->
  cluster_writes (uuid_String c) data nodes nodes' ->
  holds_at nodes' (ni_GrpcAddress t) (uuid_String c) (Z.of_nat (length data)) (Sum data) ->
  has_data nodes' (ni_GrpcAddress t) (uuid_String c) data.
Proof.
  intros Hff Hblocks Hdata Hw (n&Hn&p&f&Hp&Hf&Hsum&_). exists n, p, f. split_and!; [done|done|done|].
  apply Hfree; [|done|done]. assert (file_data nodes' (f_data f)) as Hfd by (exists (ni_GrpcAddress t), n, p, f; done).
  apply (file_data_writes _ _ _ _ _ Hw) in Hfd as [Hfd|Hfd]; [|right; by rewrite Hfd].
  apply Hff in Hfd as [?|Hin]; [by left|right]. rewrite Forall_forall in Hblocks. by apply Hblocks.
Qed.

Lemma upload_chunk_state o b k pieces data w r w' :
  (o < 2 ^ 128)%N -> loop_state w o b k pieces -> Forall (block_of body) pieces -> block_of body data ->
  (Z.of_nat (length data) < 2 ^ 63)%Z -> (Z.of_nat (length pieces) < 2 ^ 31)%Z ->
  upload_chunk net (mkChunkOwner (uuid_String o) EmptyString) (Chunking.mkChunk (Z.of_nat (length pieces)) data) w = (r, w') ->
  r = Ok tt -> loop_state w' o b k (pieces ++ [data]).
Proof using Hnet Hfree.
  intros Ho [Hl Hst Hff] Hblocks Hdata Hdlen Hplen. unfold upload_chunk, client_AllocateChunk, client_CommitChunk, wd_bind, svc at 1. cbn [ch_Index ch_Data ow_objectID ow_partID].
  rewrite int32_small by lia.
  destruct (client_call (un_alloc net _) _ true (w_svc w)) as [r1 s1] eqn:E1.
  apply (client_call_inv
    (fun s => live s0 s /\ upload_state (sv_db s) (w_nodes w) o b k pieces true)
    (allocated (w_nodes w) o b k pieces)) in E1 as [[Hl1 Hst1] Halloc].
  2: { intros i s rr s' [HI1 HI2] E. eapply AllocateChunk_state; [apply (no_alloc Hnet)|done| |done|done|exact E]. lia. }
  2: { split; [done|by apply upload_state_open]. }
  destruct r1 as [rep|code]; [|intros [= <- <-] [=]].
  destruct (Halloc rep eq_refl) as (c&ch&Hid&Hlt&Hc&Hco&Hci&Hknown). rewrite Hid. clear Halloc.
  unfold on_nodes. cbn [w_nodes w_svc].
  set (minR := if decide (ac_MinWriteReplicas rep < 1)%Z then 1%Z else ac_MinWriteReplicas rep).
  assert (1 <= minR)%Z as Hmin by (unfold minR; case_decide; lia). clearbody minR.
  pose proof (ChunkWriter_Write_ok (w_nodes w) (un_links net (Z.of_nat (length pieces))) (un_order net (Z.of_nat (length pieces)))
    (uuid_String c) data (target_info <$> ac_Targets rep) minR Hdlen (no_order Hnet _)) as Hw.
  pose proof (ChunkWriter_Write_writes (w_nodes w) (un_links net (Z.of_nat (length pieces))) (un_order net (Z.of_nat (length pieces)))
    (uuid_String c) data (Sum data) (target_info <$> ac_Targets rep) minR Hdlen) as Hcw.
  destruct (ChunkWriter_Write _ _ _ _ _ _ _ _) as [[res err] nodes']. destruct Hw as [Hfan Herr]. simpl in Hcw.
  destruct err as [e|]; cbn [w_svc w_nodes].
  { destruct (recordFailedCommit _ _ _ _ _ _) as [u w2]. intros [= <- <-] [=]. }
  destruct (proj1 Herr eq_refl) as [_ Hsucc]. unfold svc. cbn [w_svc w_nodes].
  destruct (client_call (un_commit net _) _ false s1) as [r2 s2] eqn:E2.
  destruct r2 as [a|code]; intros [= <- <-] Hr; [|done]. apply client_call_once in E2.
  assert (upload_state (sv_db s1) nodes' o b k pieces true) as Hst2 by (by eapply upload_state_writes).
  eapply (CommitChunk_state s0) in E2 as [Hl2 Hst3]; [|exact Hl1|exact Hst2|done|exact Hc|done|done| | |done]; cycle 1.
  { intros E. rewrite E in Hsucc. simpl in Hsucc. lia. }
  { intros HC n Hin. specialize (Hknown HC). pose proof (proj1 (Forall_forall _ _) (fo_held _ _ _ _ _ _ _ _ _ Hfan) n Hin) as (t&Ht&Htn&Hh).
    apply list_elem_of_fmap in Ht as (pn&->&Hpn). pose proof (proj1 (Forall_forall _ _) Hknown pn Hpn) as (row&Hrow&Haddr&Hdead).
    simpl in Htn. subst n. exists row. split_and!; [done|done|]. rewrite Haddr.
    exact (written_has_data pieces (w_nodes w) nodes' c data (target_info pn) Hff Hblocks Hdata Hcw Hh). }
  split; cbn [w_svc w_nodes]; [done|done|].
  intros x Hx. apply (file_data_writes _ _ _ _ _ Hcw) in Hx as [Hx| ->]; [|right; apply elem_of_app; right; by left].
  apply Hff in Hx as [Hx|Hx]; [by left|right; apply elem_of_app; by left].
Qed.

(** The splitter after the pieces, with the rest ahead. *)
Record splitter_at (size : nat) (fl : option read_fault) (pieces : list bytes) (rest : bytes) (sp : Splitter) : Prop := {
  sa_reader : sp_r sp = mkReader rest fl;
  sa_size : sp_chunkSize sp = size;
  sa_index : sp_index sp = Z.of_nat (length pieces);
  sa_total : sp_totalRead sp = Z.of_nat (length (concat pieces));
  sa_done : sp_done sp = true -> rest = [] /\ ends_quietly fl;
  sa_full : sp_done sp = false -> length (concat pieces) = (length pieces * size)%nat
}.

Lemma Next_at size fl pieces rest sp :
  (0 < size)%nat -> body = concat pieces ++ rest -> splitter_at size fl pieces rest sp ->
  match Next sp with
  | (Ok chunk, sp') => exists data rest', chunk = Chunking.mkChunk (Z.of_nat (length pieces)) data /\ data <> [] /\
      rest = data ++ rest' /\ (length pieces * size < length body)%nat /\ splitter_at size fl (pieces ++ [data]) rest' sp'
  | (Err SplitEOF, _) => rest = [] /\ ends_quietly fl
  | _ => True
  end.
Proof using Hlen.
  intros Hsize Hbody [Hr Hk Hi Ht Hd Hf]. unfold Next. destruct (sp_done sp) eqn:Edone; [by apply Hd|]. specialize (Hf eq_refl).
  rewrite Hr, Hk. unfold ReadFull. cbn [rd_data rd_fail].
  assert (length body = length (concat pieces) + length rest)%nat as Hbl by (by rewrite Hbody, length_app).
  assert (forall data rest' done, rest = data ++ rest' -> data <> [] -> (done = true -> rest' = [] /\ ends_quietly fl) ->
    (done = false -> length data = size) ->
    match emit sp data (mkReader rest' fl) done with
    | (Ok chunk, sp') => exists data rest', chunk = Chunking.mkChunk (Z.of_nat (length pieces)) data /\ data <> [] /\
        rest = data ++ rest' /\ (length pieces * size < length body)%nat /\ splitter_at size fl (pieces ++ [data]) rest' sp'
    | (Err SplitEOF, _) => rest = [] /\ ends_quietly fl
    | _ => True
    end) as Hemit.
  { intros data rest' done -> Hne Hdone Hfull. rewrite length_app in Hbl.
    assert (0 < length data)%nat by (destruct data; [done|simpl; lia]).
    unfold emit. rewrite Ht, Hi. rewrite !int64_small by lia. case_decide; [done|]. rewrite decide_False by done.
    exists data, rest'. split_and!; [done|done|done|lia|]. split; cbn [sp_r sp_chunkSize sp_index sp_totalRead sp_done].
    - done.
    - done.
    - rewrite length_app. simpl. lia.
    - rewrite concat_app, length_app. simpl. rewrite app_nil_r. lia.
    - done.
    - intros E. rewrite concat_app, !length_app. simpl. rewrite app_nil_r, (Hfull E). lia. }
  case_decide as Hge.
  - apply Hemit; [by rewrite take_drop| |done|rewrite length_take; lia].
    destruct rest; [simpl in Hge; lia|]. by destruct size; [lia|].
  - destruct rest as [|x rest].
    + destruct fl as [[|e]|]; [|done|done]. unfold emit. by case_decide.
    + destruct fl as [[|e]|]; [|done|]; (apply Hemit; [by rewrite app_nil_r|done|done|done]).
Qed.

Lemma upload_loop_state size fl o b k fuel pieces rest sp h total count w r w' :
  (o < 2 ^ 128)%N -> (0 < size)%nat -> (Z.of_nat (length body) <= (2 ^ 31 - 1) * Z.of_nat size)%Z ->
  body = concat pieces ++ rest -> splitter_at size fl pieces rest sp ->
  h = concat pieces -> total = Z.of_nat (length (concat pieces)) -> count = Z.of_nat (length pieces) ->
  loop_state w o b k pieces ->
  upload_loop fuel net (mkChunkOwner (uuid_String o) EmptyString) sp h total count w = (Some (Ok r), w') ->
  exists pieces', body = concat pieces' /\ ends_quietly fl /\
    r = mkUploadResult (Z.of_nat (length body)) (Z.of_nat (length pieces')) (Sum body) /\ loop_state w' o b k pieces'.
Proof using Hnet Hfree Hlen.
  intros Ho Hsize Hcount. revert pieces rest sp h total count w.
  induction fuel as [|fuel IH]; intros pieces rest sp h total count w Hbody Hsp -> -> -> Hst; cbn [upload_loop]; [done|].
  pose proof (Next_at size fl pieces rest sp Hsize Hbody Hsp) as Hnext.
  destruct (Next sp) as [[chunk|[| |]] sp']; try done.
  - destruct Hnext as (data&rest'&->&Hne&->&Hidx&Hsp'). cbn [ch_Data]. unfold wd_bind.
    assert (Forall (block_of body) pieces) as Hblocks.
    { apply Forall_forall. intros x Hx. apply list_elem_of_split in Hx as (l1&l2&->). exists (concat l1), (concat l2 ++ data ++ rest').
      rewrite Hbody, concat_app. simpl. by rewrite <-!app_assoc. }
    assert (length body = length (concat pieces) + (length data + length rest'))%nat as Hbl by (by rewrite Hbody, !length_app).
    assert (Z.of_nat (length pieces) < 2 ^ 31 - 1)%Z as Hsmall by nia.
    destruct (upload_chunk net _ _ w) as [r1 w1] eqn:E1.
    destruct r1 as [[]|err]; [|intros [=]].
    apply (upload_chunk_state o b k pieces data) in E1; [|done|done|done|by exists (concat pieces), rest'|lia|lia|done].
    rewrite int64_small by lia. rewrite int32_small by lia.
    apply (IH (pieces ++ [data]) rest'); [|done| | | |done].
    + rewrite concat_app. simpl. by rewrite app_nil_r, <-app_assoc.
    + unfold hash_Write. rewrite concat_app. simpl. by rewrite app_nil_r.
    + rewrite concat_app, length_app. simpl. rewrite app_nil_r. lia.
    + rewrite length_app. simpl. lia.
  - destruct Hnext as [-> Hfl]. rewrite app_nil_r in Hbody. intros [= <- <-]. exists pieces. rewrite Hbody. by split_and!.
Qed.

End loop.

(** ** Beginning and completing *)

(** Increasing indexes that fit their number are consecutive. *)
Lemma sorted_from a l :
  StronglySorted Z.lt l -> Forall (fun z => a <= z < a + Z.of_nat (length l))%Z l -> l = seqZ a (Z.of_nat (length l)).
Proof.
  revert a. induction l as [|x l IH]; intros a Hs Hr; [done|].
  apply StronglySorted_inv in Hs as [Hs Hlt]. apply Forall_cons in Hr as [Hx Hr]. simpl length in *.
  assert (l = seqZ (a + 1) (Z.of_nat (length l))) as Hl.
  { apply IH; [done|]. rewrite Forall_forall in Hr, Hlt |- *. intros z Hz. specialize (Hr z Hz). specialize (Hlt z Hz). lia. }
  rewrite (seqZ_cons a) by lia. replace (Z.succ a) with (a + 1)%Z by lia.
  replace (Z.pred (Z.of_nat (S (length l)))) with (Z.of_nat (length l)) by lia. rewrite <-Hl. f_equal.
  destruct l as [|y l]; [simpl in Hx; lia|]. simpl length in Hl. rewrite seqZ_cons in Hl by lia. injection Hl as Hy _.
  apply Forall_cons in Hlt as [Hxy _]. lia.
Qed.
Lemma sorted_range l :
  StronglySorted Z.lt l -> Forall (fun z => 0 <= z < Z.of_nat (length l))%Z l -> l = seqZ 0 (Z.of_nat (length l)).
Proof. apply (sorted_from 0). Qed.

Section ends.
Context `{PG : !Postgres, UU : !Uuid, GM : !GoMath, GS : !GoSort, CO : !Coherence}.

(** The chunk size an upload gets. *)
Definition effective_chunk_size (cfg : GatewayConfig) (s : Service) : Z :=
  if decide (gw_ChunkSize cfg <= 0)%Z then cfg_ChunkSize (sv_cfg s) else gw_ChunkSize cfg.

(** A new object that has no chunks, and the chunk size the reply gives. *)
Definition begun (nodes : cluster) (b k : string) (size : Z) (rep : BeginUploadReply) (s : Service) : Prop :=
  bu_ChunkSize rep = size /\ (0 < size)%Z /\
  exists o, bu_ObjectId rep = uuid_String o /\ (o < 2 ^ 128)%N /\ upload_state (sv_db s) nodes o b k [] false.

Lemma BeginUpload_state s0 cfg e nodes b k ct s r s' :
  (e_fresh e < 2 ^ 128)%N -> live s0 s ->
  BeginUpload_rpc e b k ct (gw_ChunkSize cfg) s = (r, s') ->
  (live s0 s' /\ sv_cfg s' = sv_cfg s /\ sv_cache s' = sv_cache s) /\
  forall rep, r = Ok rep -> validateBucketKey b k = None /\ begun nodes b k (effective_chunk_size cfg s) rep s'.
Proof.
  intros Hfresh Hl. unfold BeginUpload_rpc. destruct (validateBucketKey b k); [by intros [= <- <-]|].
  unfold sv_bind, sv_gets, store. fold (effective_chunk_size cfg s). set (size := effective_chunk_size cfg s).
  destruct (BeginUpload _ _ _ _ _ _ (sv_db s)) as [r1 d1] eqn:E.
  pose proof (live_op _ _ _ _ _ (keeps_BeginUpload _ _ _ _ _ _) (same_nodes_BeginUpload (sv_db s0) _ _ _ _ _ _) Hl E) as Hl1.
  destruct r1 as [obj|err]; intros [= <- <-]; (split; [done|]); [|done]. intros rep [= <-]. split; [done|].
  unfold BeginUpload, inTx in E. destruct (tx_bind _ _ (sv_db s)) as [[x d2]|] eqn:Et; [|done]. injection E as -> ->.
  apply tx_bind_ok in Et as (ver&d3&[-> ->]%gets_ok&Et).
  apply tx_bind_ok in Et as (u&d3&[Hnew ->]%insert_object_ok&[-> ->]%tx_ret_ok). simpl in Hl1 |- *.
  pose proof (lv_schema _ _ Hl1) as Hs1. simpl in Hs1.
  pose proof (so_objects _ Hs1 (e_fresh e) _ (lookup_insert_eq _ _ _)) as (_&Hpos&_). simpl in Hpos.
  split; [done|]. split; [done|]. exists (e_fresh e). split_and!; [done|done|]. split.
  - simpl. rewrite lookup_insert_eq. eexists. by split_and!.
  - simpl. intros c ch Hc Hco. destruct (so_chunk_object _ (lv_schema _ _ Hl) c ch Hc (e_fresh e) Hco) as [x Hx]. congruence.
Qed.

(** A layout through which the pieces are found, in their order. *)
Record placed (nodes : cluster) (i : nat) (data : bytes) (cp : ChunkPlacement) : Prop := {
  pl_index : cp_ChunkIndex cp = Z.of_nat i;
  pl_verified : verified cp data;
  pl_some : cp_Nodes cp <> [];
  pl_held : coherent -> forall n, n ∈ cp_Nodes cp -> has_data nodes (ni_GrpcAddress n) (cp_ChunkId cp) data
}.
Record layout_ok (nodes : cluster) (pieces : list bytes) (l : GetObjectResponse) : Prop := {
  lo_size : oi_SizeBytes (go_Object l) = Z.of_nat (length (concat pieces));
  lo_length : length (go_Chunks l) = length pieces;
  lo_placed : forall i cp, go_Chunks l !! i = Some cp -> exists data, pieces !! i = Some data /\ placed nodes i data cp
}.

(** The current version of the key consists of the pieces, in the tables. *)
Record recorded (d : db) (nodes : cluster) (b k : string) (pieces : list bytes) (o : N) : Prop := {
  re_head : exists obj, HeadObject b k d = (Ok obj, d) /\ o_ID obj = o /\
    o_SizeBytes obj = Z.of_nat (length (concat pieces)) /\ o_ChunkCount obj = Z.of_nat (length pieces);
  re_count : object_chunk_count d o = Z.of_nat (length pieces);
  re_rows : forall c ch, chunks d !! c = Some ch -> ck_object_id ch = Some o -> piece_at d nodes pieces c ch
}.

(** A layout of such a version finds the pieces. *)
Lemma recorded_layout d nodes b k pieces o obj cs d' :
  schema_ok d -> recorded d nodes b k pieces o -> GetObject b k d = (Ok (obj, cs), d') ->
  layout_ok nodes pieces (layout_response (mkLayoutMsg (toProtoObject obj) (toPlacementMsg <$> cs))).
Proof.
  intros Hs [(obj'&Hhead&Hid&Hsize&Hcnt) Hcount Hch]. unfold GetObject, op_bind. rewrite Hhead, Hid. unfold inTx, gets.
  case_bool_decide as Hlen; [|done]. intros [= <- <- <-]. rewrite Hcnt in Hlen.
  assert (forall c ch, chunks d !! c = Some ch -> ck_object_id ch = Some o -> readable d c) as Hread.
  { apply (chunks_listed_iff d o Hs); [|by rewrite Hcount].
    intros c ch Hc Hco. by destruct (Hch c ch Hc Hco) as (i&data&_&_&[]). }
  apply Nat2Z.inj in Hlen. destruct (chunksWhere_spec _ d (owner_positions d o Hs)) as (Hsort&_&Hx).
  fold (ChunksForObject o true d) in Hsort, Hx.
  assert (forall x, x ∈ ChunksForObject o true d -> exists i data ch, pieces !! i = Some data /\ cw_index x = Z.of_nat i /\
    chunks d !! cw_id x = Some ch /\ readable d (cw_id x) /\ piece_stored d nodes (cw_id x) ch data) as Hpieces.
  { intros x (ch&Hc&[Hco _]&Hi&_)%Hx. destruct (Hch _ _ Hc Hco) as (i&data&H1&H2&H3).
    exists i, data, ch. split_and!; [done|congruence|done|by eapply Hread|done]. }
  assert (cw_index <$> ChunksForObject o true d = seqZ 0 (Z.of_nat (length pieces))) as Hseq.
  { rewrite <-Hlen, <-(length_fmap cw_index). apply sorted_range; [done|]. apply Forall_forall.
    intros z (x&->&(i&data&ch&Hi&->&_)%Hpieces)%list_elem_of_fmap. apply lookup_lt_Some in Hi. rewrite length_fmap, Hlen. lia. }
  split; simpl; [done|by rewrite !length_fmap|]. intros i cp. rewrite !list_lookup_fmap.
  destruct (ChunksForObject o true d !! i) as [x|] eqn:Ei; [|done]. intros [= <-].
  assert (x ∈ ChunksForObject o true d) as Hin by (by eapply list_elem_of_lookup_2).
  destruct (Hpieces x Hin) as (i'&data&ch&Hi'&Hidx&Hc&P4&[P1 P2 P3 P5]).
  assert (i' = i) as ->.
  { assert ((cw_index <$> ChunksForObject o true d) !! i = Some (Z.of_nat i')) as E by (by rewrite list_lookup_fmap, Ei; simpl; rewrite Hidx).
    rewrite Hseq in E. apply lookup_seqZ in E. lia. }
  exists data. split; [done|]. destruct (Hx x Hin) as (ch'&Hc'&_&_&Hsz&Hsum&_&Hreps).
  rewrite Hc in Hc'. injection Hc' as <-. split; simpl.
  - done.
  - split; simpl; [congruence|]. by rewrite Hsum, P2.
  - destruct P4 as (n&Hn). apply Hreps in Hn. intros E. by destruct (cw_replicas x); [apply elem_of_nil in Hn|].
  - intros HC n Hn. rewrite <-list_fmap_compose in Hn. apply list_elem_of_fmap in Hn as (v&->&Hv). simpl.
    destruct (chunksWhere_addresses _ d (owner_positions d o Hs) x v Hin Hv) as (r&nd&Hr&Hav&Hnd&->).
    destruct (P5 HC _ r Hr Hav) as (row&Hrow&Hh). by simplify_eq.
Qed.

(** Every chunk of the current version can be read. *)
Definition intact (d : db) (b k : string) : Prop :=
  forall obj, HeadObject b k d = (Ok obj, d) -> forall c ch, chunks d !! c = Some ch -> ck_object_id ch = Some (o_ID obj) -> readable d c.

Lemma recorded_found d nodes b k pieces o :
  schema_ok d -> recorded d nodes b k pieces o -> intact d b k -> exists r, GetObject b k d = (Ok r, d).
Proof.
  intros Hs [(obj&Hhead&Hid&_&Hcnt) Hcount Hch] Hread. specialize (Hread obj Hhead). rewrite Hid in Hread.
  unfold GetObject, op_bind. rewrite Hhead, Hid. unfold inTx, gets. rewrite bool_decide_true; [by eexists|].
  rewrite Hcnt, <-Hcount. apply chunks_listed_iff; [done| |done].
  intros c ch Hc Hco. by destruct (Hch c ch Hc Hco) as (i&data&_&_&[]).
Qed.

(** No file of the nodes has the digest of a piece and other bytes. *)
Definition digests_tell (nodes : cluster) (pieces : list bytes) : Prop :=
  forall x data, file_data nodes x -> data ∈ pieces -> Sum x = Sum data -> x = data.

Lemma files_tell nodes0 nodes pieces :
  collision_free nodes0 (concat pieces) -> files_from nodes0 pieces nodes -> digests_tell nodes pieces.
Proof.
  intros Hfree Hff x data Hx Hd.
  assert (forall y, y ∈ pieces -> block_of (concat pieces) y) as Hblock.
  { intros y (l1&l2&->)%list_elem_of_split. exists (concat l1), (concat l2). by rewrite concat_app. }
  apply Hfree; [|by apply Hblock]. apply Hff in Hx as [Hx|Hx]; [by left|right; by apply Hblock].
Qed.

(** An object a GET finds, in the database and in the cache. *)
Record published (w : World) (b k : string) (pieces : list bytes) : Prop := {
  pb_schema : schema_ok (sv_db (w_svc w));
  pb_valid : validateBucketKey b k = None;
  pb_stored : exists o, recorded (sv_db (w_svc w)) (w_nodes w) b k pieces o;
  pb_digests : digests_tell (w_nodes w) pieces;
  pb_cache : forall now c, visible now (sv_cache (w_svc w)) (ObjectKey b k) = Some (CachedObject c) ->
    layout_ok (w_nodes w) pieces (layout_response (toProto c))
}.

(** The cache has nothing of the object, or it takes the invalidation. *)
Definition invalidated (s : Service) (b k : string) (e : env) : Prop :=
  e_redis e = true \/ forall now, visible now (sv_cache s) (ObjectKey b k) = None.

Lemma CompleteUpload_published s0 e o b k pieces w etag oid etag' at_ s' :
  validateBucketKey b k = None -> invalidated s0 b k e -> (o < 2 ^ 128)%N -> live s0 (w_svc w) ->
  digests_tell (w_nodes w) pieces -> upload_state (sv_db (w_svc w)) (w_nodes w) o b k pieces false ->
  CompleteUpload_rpc e (uuid_String o) (Z.of_nat (length (concat pieces))) (Z.of_nat (length pieces)) etag (w_svc w)
    = (Ok (oid, etag', at_), s') ->
  etag' = etag /\ published (mkWorld s' (w_nodes w)) b k pieces /\ (coherent -> intact (sv_db s') b k /\ cached_roster_ok s').
Proof.
  intros Hv Hup Ho Hl Hdig [(row&Hrow&_&Hb&Hk) Hch]. unfold CompleteUpload_rpc. rewrite uuid_roundtrip by done.
  unfold sv_bind at 1, store. destruct (CompleteUpload _ _ _ _ _ (sv_db (w_svc w))) as [r d1] eqn:E.
  destruct r as [obj|[]]; [|done..].
  pose proof (live_op _ _ _ _ _ (keeps_CompleteUpload _ _ _ _ _) (same_nodes_CompleteUpload (sv_db s0) _ _ _ _ _) Hl E) as Hl1.
  pose proof (live_same_nodes _ _ _ Hl Hl1) as Hn1. simpl in Hn1.
  apply CompleteUpload_ok in E as (r&Hr&_&Hcount&_&->&Hhead&Hstrip&Hreps); [|apply Hl|lia].
  rewrite Hrow in Hr. injection Hr as <-. rewrite Hb, Hk in Hhead.
  unfold invalidateObject, sv_bind, cache_delete. cbn [sv_cache]. simpl.
  destruct (Cache_Delete (e_redis e) (sv_cache (w_svc w)) (ObjectKey (ob_bucket row) (ob_key row))) as [ce c'] eqn:Ec.
  intros [= _ <- _ <-]. rewrite Hb, Hk in Ec.
  assert (c' = (Cache_Delete (e_redis e) (sv_cache (w_svc w)) (ObjectKey b k)).2) as -> by (by rewrite Ec).
  assert (forall c ch, chunks d1 !! c = Some ch -> ck_object_id ch = Some o -> piece_served d1 (w_nodes w) pieces c ch) as Hserved.
  { intros c ch Hc Hco. destruct (strip_Some _ _ Hstrip c ch Hc) as (ch0&Hc0&Hst).
    pose proof (strip_counter_eq _ _ Hst) as (E1&_). assert (ck_object_id ch0 = Some o) as Hco0 by congruence.
    destruct (Hch c ch0 Hc0 Hco0) as [Hlt [Hp|[]]]; [|done].
    eapply piece_served_mono; [| |exact Hst|done|exact Hp]; [|exact Hn1]. intros n. apply Hreps.
    unfold chunk_of_object. by rewrite Hc0. }
  split_and!; [done| |].
  - split; simpl; [apply Hl1|done| |done|].
    + exists o. split; [by eexists| |].
      * rewrite <-Hcount. apply counts_shape. intros c. specialize (Hstrip c).
        destruct (chunks d1 !! c) as [x|], (chunks (sv_db (w_svc w)) !! c) as [y|]; try done. apply (inj Some) in Hstrip.
        apply strip_counter_eq in Hstrip as (E1&E2&_&_&_&E6&_). simpl. unfold chunk_shape. congruence.
      * intros c ch Hc Hco. by apply Hserved.
    + intros now c Hvis. destruct Hup as [Hup|Hup].
      * rewrite Hup, visible_delete, decide_True in Hvis by done. done.
      * apply visible_delete_any in Hvis. apply (lv_cache _ _ Hl) in Hvis; [|done]. by rewrite Hup in Hvis.
  - intros HC. split; simpl.
    + intros obj Hobj c ch Hc Hco. rewrite Hhead in Hobj. injection Hobj as <-. by apply (Hserved c ch).
    + intros now ns Hvis. apply visible_delete_any in Hvis. by apply (lv_roster _ _ Hl1 HC now ns).
Qed.
End ends.

(** ** PUT *)

Section put.
Context `{PG : !Postgres, UU : !Uuid, GM : !GoMath, GS : !GoSort}.

(** Every PUT is answered, and with 201 only once the object is published
    under its digest. *)
Lemma PutObject_published cfg net b k ct body fl w reply w1 :
  let CO : Coherence := cached_roster_ok (w_svc w) in
  schema_ok (sv_db (w_svc w)) -> net_ok net -> collision_free (w_nodes w) body ->
  (Z.of_nat (length body) < 2 ^ 63)%Z ->
  (Z.of_nat (length body) <= (2 ^ 31 - 1) * effective_chunk_size cfg (w_svc w))%Z ->
  invalidated (w_svc w) b k (at_env (un_complete net 1)) ->
  PutObject cfg net b k ct (mkReader body fl) w = (reply, w1) ->
  (exists err, reply = Some (fail err)) \/
  (exists id cnt pieces, reply = Some (mkReply 201 (quoteETag (Sum body)) id cnt) /\ ends_quietly fl /\
     body = concat pieces /\ published w1 b k pieces /\
     (cached_roster_ok (w_svc w) -> intact (sv_db (w_svc w1)) b k /\ cached_roster_ok (w_svc w1))).
Proof.
  intros CO Hs Hnet Hfree Hlen Hmany Hredis. unfold PutObject, client_BeginUpload, wd_bind at 1, svc at 1.
  set (s0 := w_svc w) in *. assert (live s0 s0) as Hl by (by split).
  destruct (client_call (un_begin net) _ true s0) as [r0 s1] eqn:E0.
  apply (client_call_inv
    (fun s => live s0 s /\ sv_cfg s = sv_cfg s0)
    (fun rep s => validateBucketKey b k = None /\ begun (w_nodes w) b k (effective_chunk_size cfg s0) rep s))
    in E0 as [[Hl0 _] Hbegun].
  2: { intros i s rr s' [HI1 HI2] E. eapply (BeginUpload_state s0 cfg _ (w_nodes w)) in E as [(L1&L2&_) Hrep]; [|apply (no_begin _ Hnet)|done].
    split; [split; [done|congruence]|]. intros rep Hr. destruct (Hrep rep Hr) as [Hv Hb]. split; [done|].
    unfold effective_chunk_size in *. by rewrite <-HI2. }
  2: done.
  destruct r0 as [rep|code]; [|intros [= <- <-]; left; by eexists].
  destruct (Hbegun rep eq_refl) as (Hvalid&Hsize&Hpos&o&Hid&Ho&Hst). clear Hbegun.
  set (size := effective_chunk_size cfg s0) in *. unfold put_body. rewrite Hid, Hsize. unfold wd_bind at 1 2.
  pose proof (streamUpload_total cfg net (mkReader body fl) (mkChunkOwner (uuid_String o) EmptyString) size (mkWorld s1 (w_nodes w))) as Htotal.
  unfold streamUpload, NewSplitterBuffer in Htotal |- *. rewrite decide_False in Htotal |- * by lia. cbn [rd_data] in Htotal |- *.
  set (sp := mkSplitter _ _ _ _ _ _) in *. destruct (upload_loop _ _ _ _ _ _ _ _) as [r1 w2] eqn:E1. simpl in Htotal.
  assert (forall err w', (act! svc (client_AbortUpload (un_abort net) (uuid_String o) "gateway aborted upload") in
    wd_ret (Some (fail err))) w' = (reply, w1) -> exists err, reply = Some (fail err)) as Habort.
  { intros err w'. unfold wd_bind. destruct (svc _ w') as [u w'']. intros [= <- _]. by eexists. }
  destruct r1 as [[res|err]|]; [|intros H; left; exact (Habort err w2 H)|by destruct Htotal].
  apply (upload_loop_state s0 (w_nodes w) net body Hnet Hfree Hlen (Z.to_nat size) fl o b k _ [] body) in E1
    as (pieces&Hbody&Hfl&->&[Hl2 Hst2 Hff]); [|done|lia|lia|done| |done|done|done|]; cycle 1.
  { by split; simpl. }
  { split; simpl; [done|done|]. intros x Hx. by left. }
  cbn [ur_SizeBytes ur_ChunkCount ur_ETag]. unfold client_CompleteUpload, wd_bind at 1, svc at 1.
  destruct (client_call (un_complete net) _ false (w_svc w2)) as [r3 s3] eqn:E3.
  destruct r3 as [[[oid etag] at_]|code]; [|intros H; left; exact (Habort (RpcErr code) (mkWorld s3 (w_nodes w2)) H)].
  apply client_call_once in E3. rewrite Hbody in E3 at 1.
  eapply (CompleteUpload_published s0) in E3 as (->&Hpub&Hint); [|done|done|done|done| |done].
  - intros [= <- <-]. right. exists oid, (Z.of_nat (length pieces)), pieces. by split_and!.
  - apply (files_tell (w_nodes w)); [by rewrite <-Hbody|done].
Qed.
End put.

(** ** GET *)

Section get.
Context `{PG : !Postgres, UU : !Uuid, GM : !GoMath, GS : !GoSort, CO : !Coherence}.

Lemma layout_of_cached l : layout_response (toProto (newCachedObject l)) = layout_response l.
Proof.
  unfold layout_response, toProto, newCachedObject. simpl. f_equal. rewrite <-!list_fmap_compose. apply list_fmap_ext.
  intros i p _. unfold placement_of. simpl. f_equal. by rewrite <-!list_fmap_compose.
Qed.

Lemma GetObject_rpc_db e b k s : sv_db (GetObject_rpc e b k s).2 = sv_db s.
Proof.
  unfold GetObject_rpc. destruct (validateBucketKey b k); [done|]. unfold sv_bind, cache_get.
  destruct (Cache_Get _ _ _ _ _) as [[c|err] cache]; [done|]. unfold store. cbn [sv_db].
  destruct (GetObject b k _) as [r d] eqn:E. assert (d = sv_db s) as -> by (pose proof (GetObject_reads b k (sv_db s)) as H; simpl in E; by rewrite E in H).
  destruct r as [[obj cs]|err2]; [|done]. unfold sv_gets, cache_set. by destruct (Cache_Set _ _ _ _ _ _).
Qed.

(** A read of the coordinator, of this object or another: what it adds to the
    cache and what it answers. *)
Definition read_layout (d : db) (b k : string) (l : LayoutMsg) : Prop :=
  exists obj cs d', GetObject b k d = (Ok (obj, cs), d') /\ l = mkLayoutMsg (toProtoObject obj) (toPlacementMsg <$> cs).
Lemma GetObject_rpc_entries e b k s r s' :
  GetObject_rpc e b k s = (r, s') ->
  (forall now key v, visible now (sv_cache s') key = Some v -> visible now (sv_cache s) key = Some v \/
     validateBucketKey b k = None /\ key = ObjectKey b k /\ exists l, v = CachedObject (newCachedObject l) /\ read_layout (sv_db s) b k l) /\
  (forall l, r = Ok l -> read_layout (sv_db s) b k l \/ exists now c, visible now (sv_cache s) (ObjectKey b k) = Some (CachedObject c) /\ l = toProto c) /\
  (validateBucketKey b k = None -> (exists x, GetObject b k (sv_db s) = (Ok x, sv_db s)) -> exists l, r = Ok l).
Proof.
  unfold GetObject_rpc. destruct (validateBucketKey b k) as [code|]; [intros [= <- <-]; split_and!; [by left|done|done]|].
  unfold sv_bind at 1, cache_get. destruct (Cache_Get as_object _ _ _ _) as [r0 c0] eqn:E0.
  assert (forall now key v, visible now c0 key = Some v -> visible now (sv_cache s) key = Some v) as Hc0.
  { intros now key v Hvis. eapply (Cache_Get_visible as_object). by rewrite E0. }
  destruct r0 as [c|err].
  - apply Cache_Get_ok in E0 as (->&v&Hvis&Hd). destruct v as [c1|?|?]; simpl in Hd; try done. injection Hd as ->.
    intros [= <- <-]. split_and!; [by left| |by eexists]. intros l [= <-]. right. by eexists _, c.
  - unfold sv_bind at 1, store. simpl. destruct (GetObject b k (sv_db s)) as [[[obj cs]|err2] d'] eqn:Eg; cycle 1.
    { intros [= <- <-]. simpl. split_and!; [left; by apply Hc0|done|]. by intros _ [x [=]]. }
    unfold sv_bind, sv_gets, cache_set. cbn [sv_cache]. set (ttl := cfg_ObjectCacheTTL _). simpl.
    destruct (Cache_Set _ _ c0 _ _ ttl) as [ce c1] eqn:E1. intros [= <- <-]. simpl. split_and!; [| |by eexists].
    + intros now key v Hvis. assert (visible now (Cache_Set (e_redis e) (e_now e) c0 (ObjectKey b k)
        (CachedObject (newCachedObject (mkLayoutMsg (toProtoObject obj) (toPlacementMsg <$> cs)))) ttl).2 key = Some v) as Hvis' by (by rewrite E1).
      apply visible_set in Hvis' as [Hvis'|[-> ->]]; [left; by apply Hc0|right]. split_and!; [done|done|].
      eexists. split; [done|]. by exists obj, cs, d'.
    + intros l [= <-]. left. by exists obj, cs, d'.
Qed.

(** Any read keeps what is published, and a read of the object answers with a
    layout of the pieces; it does answer while every chunk can be read. *)
Lemma GetObject_rpc_published e nodes b k pieces b' k' s r s' :
  published (mkWorld s nodes) b k pieces -> GetObject_rpc e b' k' s = (r, s') ->
  published (mkWorld s' nodes) b k pieces /\
  (b' = b -> k' = k -> (forall l, r = Ok l -> layout_ok nodes pieces (layout_response l)) /\
     (intact (sv_db s) b k -> exists l, r = Ok l)).
Proof.
  intros [Hs Hv [o Hrec] Hdig Hc] E. cbn [w_svc w_nodes] in *. pose proof (GetObject_rpc_db e b' k' s) as Hdb. rewrite E in Hdb. cbn [snd] in Hdb.
  destruct (GetObject_rpc_entries _ _ _ _ _ _ E) as (He&Ha&Hok).
  split.
  - split; cbn [w_svc w_nodes]; rewrite ?Hdb; [done|done|by exists o|done|]. intros now c Hvis.
    apply He in Hvis as [Hvis|(Hv'&Hkey&l&[= ->]&obj&cs&d'&Hg&->)]; [by eapply Hc|].
    assert (b = b' /\ k = k') as [<- <-].
    { unfold validateBucketKey in Hv, Hv'. destruct (ValidateBucket b) eqn:Hb, (ValidateBucket b') eqn:Hb'; try done.
      apply ObjectKey_inj; [by apply ValidateBucket_safe..|done]. }
    rewrite layout_of_cached. by eapply recorded_layout.
  - intros -> ->. split.
    + intros l Hl. destruct (Ha l Hl) as [(obj&cs&d'&Hg&->)|(now&c&Hvis&->)]; [by eapply recorded_layout|by eapply Hc].
    + intros Hint. apply Hok; [done|]. by eapply recorded_found.
Qed.

(** The piece at a placement's index. *)
Definition piece_content (pieces : list bytes) (cp : ChunkPlacement) : bytes := default [] (pieces !! Z.to_nat (cp_ChunkIndex cp)).

Lemma layout_content nodes pieces l : layout_ok nodes pieces l -> piece_content pieces <$> go_Chunks l = pieces.
Proof.
  intros [_ Hlen Hp]. apply list_eq. intros i. rewrite list_lookup_fmap. destruct (go_Chunks l !! i) as [cp|] eqn:Ei; simpl.
  - destruct (Hp i cp Ei) as (data&Hd&[Hi _ _ _]). unfold piece_content. rewrite Hi, Nat2Z.id. by rewrite Hd.
  - apply lookup_ge_None in Ei. symmetry. apply lookup_ge_None. lia.
Qed.

Lemma layout_authentic net nodes pieces l :
  digests_tell nodes pieces -> layout_ok nodes pieces l -> Forall (authentic (reading net nodes) (piece_content pieces)) (go_Chunks l).
Proof.
  intros Htell [_ _ Hp]. apply Forall_lookup. intros i cp Hi. destruct (Hp i cp Hi) as (data&Hd&[Hidx Hver _ _]).
  assert (piece_content pieces cp = data) as Hcont by (unfold piece_content; by rewrite Hidx, Nat2Z.id, Hd).
  split; rewrite Hcont; [done|]. intros t node msgs Hn Ha Hv.
  unfold Download.answer, reading in Ha. cbn [Client Download.ReadChunk] in Ha. destruct (rd_dial net t _); [|done].
  destruct (nodes !! ni_GrpcAddress node) as [n|] eqn:Hnode; [|done].
  destruct (StorageService.ReadChunk _ _ n _ _) as [[out status] n'] eqn:Er. injection Ha as -> ->.
  apply ReadChunk_sends in Er as (p&f&_&Hf&Hout). apply Htell.
  - exists (ni_GrpcAddress node), n, p, f. by rewrite Hout.
  - by eapply list_elem_of_lookup_2.
  - destruct Hv as [_ ->], Hver as [_ ->]. done.
Qed.

(** The storage nodes answer. *)
Record read_ok (net : read_net) : Prop := {
  ro_dial : forall t addr, rd_dial net t addr = true;
  ro_io : forall t addr, rd_io net t addr = no_faults;
  ro_transport : forall t addr, rd_transport net t addr = reliable
}.

Lemma layout_fetches net nodes pieces l reporter t cp :
  coherent -> read_ok net -> (forall data, data ∈ pieces -> Z.of_nat (length data) < 2 ^ 63)%Z -> layout_ok nodes pieces l -> cp ∈ go_Chunks l ->
  exists data, (Fetch (reading net nodes) reporter t cp).1.1 = Ok data.
Proof.
  intros HC [Hdial Hio Htr] Hlen [_ _ Hp] (i&Hi)%list_elem_of_lookup. destruct (Hp i cp Hi) as (data&Hd&[_ [Hsz Hsum] Hne Hheld]). specialize (Hheld HC).
  exists data. rewrite Fetch_loop. destruct (cp_Nodes cp) as [|node nodes']; [done|]. simpl.
  destruct (Hheld node) as (n&p&f&Hnode&Hpath&Hf&Hfd); [by left|].
  assert (Z.of_nat (length (f_data f)) < 2 ^ 63)%Z as Hfl by (rewrite Hfd; by apply Hlen, (list_elem_of_lookup_2 _ i)).
  assert (fetchFrom (reading net nodes) t node cp = Ok data) as ->; [|done].
  apply fetchFrom_ok. unfold Download.answer, reading. cbn [Client Download.ReadChunk]. rewrite Hdial, Hnode, Hio, Htr.
  pose proof (ReadChunk_succeeds n (cp_ChunkId cp) (cp_ChecksumSha256 cp) p f Hpath Hf Hfl ltac:(right; congruence)) as Hok.
  destruct (StorageService.ReadChunk _ _ n _ _) as [[out status] n'] eqn:Er. simpl in Hok. subst status.
  destruct (ReadChunk_spec _ _ _ _ _ _ _ _ _ _ Hpath Hf Hfl Er) as (_&_&H). destruct (H eq_refl) as [Ho _].
  exists out, None. split_and!; [done| |congruence]. split; [done|]. rewrite Ho, Hfd. by split.
Qed.

(** The bytes of a body a Range header asks for. *)
Definition window (body : bytes) (raw : string) : bytes :=
  match parseRange raw (Z.of_nat (length body)) with
  | Ok br => take (Z.to_nat (br_length br)) (drop (Z.to_nat (br_start br)) body)
  | Err errUnsatisfiableRange => []
  | Err errIgnorableRange => body
  end.

Record served (body : bytes) (raw : string) (resp : Response) : Prop := {
  sd_panic : rs_Outcome resp <> Panicked;
  sd_prefix : rs_Body resp `prefix_of` window body raw;
  sd_exact : rs_Outcome resp = Complete -> rs_Body resp = window body raw;
  sd_status : rs_Status resp = match parseRange raw (Z.of_nat (length body)) with Ok _ => 206%Z | Err errUnsatisfiableRange => 416%Z
                               | Err errIgnorableRange => 200%Z end;
  sd_length : rs_Status resp <> 416%Z -> rs_ContentLength resp = Some (Z.of_nat (length (window body raw)))
}.

Lemma piece_small (body : bytes) (pieces : list bytes) : body = concat pieces -> (Z.of_nat (length body) < 2 ^ 63)%Z ->
  forall data, data ∈ pieces -> (Z.of_nat (length data) < 2 ^ 63)%Z.
Proof. intros -> Hlen data (l1&l2&->)%list_elem_of_split. rewrite concat_app, !length_app in Hlen. simpl in Hlen. rewrite length_app in Hlen. lia. Qed.

Lemma layout_serves net nodes reporter client (pieces : list bytes) l raw :
  (Z.of_nat (length (concat pieces)) < 2 ^ 63)%Z -> digests_tell nodes pieces -> layout_ok nodes pieces l ->
  served (concat pieces) raw (GetObject_serve (reading net nodes) reporter client l raw) /\
  (coherent -> read_ok net -> (forall j, client j = None) ->
   rs_Outcome (GetObject_serve (reading net nodes) reporter client l raw) = Complete).
Proof.
  intros Hlen Htell Hl. pose proof (piece_small _ pieces eq_refl Hlen) as Hsmall.
  pose proof (layout_authentic net nodes pieces l Htell Hl) as Ha.
  assert (object_bytes (piece_content pieces) (go_Chunks l) = concat pieces) as Hob
    by (unfold object_bytes; by rewrite (layout_content nodes)).
  assert (requested (piece_content pieces) l raw = window (concat pieces) raw) as Hreq
    by (unfold requested, window; rewrite (lo_size _ _ _ Hl), Hob; done).
  destruct (GetObject_serve_exact (piece_content pieces) (reading net nodes) reporter client l raw Ha) as (H1&H2&_); [by rewrite Hob|].
  rewrite Hob, (lo_size _ _ _ Hl), Hreq in H2. destruct (H2 eq_refl) as (H3&H4&H5&H6). split; [by split|].
  intros HC Hr Hc. apply (GetObject_serve_completes (piece_content pieces)); [done|by rewrite Hob|done|].
  intros t c Hcin. by eapply layout_fetches.
Qed.

(** A call that reaches the coordinator at once. *)
Definition reaches (a : attempt) : Prop := at_up a = true /\ at_lost a = None /\ at_cancelled a = false.

Lemma client_call_reaches {A} attempts (fn : env -> Rpc A) retryable s a s' :
  reaches (attempts 1%nat) -> fn (at_env (attempts 1%nat)) s = (Ok a, s') -> client_call attempts fn retryable s = (Ok a, s').
Proof.
  intros (H1&H2&H3) E. unfold client_call. destruct retryable; simpl; rewrite H3; unfold sv_bind, stub_call; rewrite H1; simpl;
    by rewrite E, H2.
Qed.

(** One download: the attempts, the network, the client and the Range header. *)
Record download := mkDownload {
  dl_get : nat -> attempt;
  dl_net : read_net;
  dl_reporter : bool;
  dl_client : Download.client;
  dl_range : string
}.
Definition download_run (b k : string) (g : download) : Wd (result HttpReply Response) :=
  GetObject_http (dl_get g) (dl_net g) (dl_reporter g) (dl_client g) b k (dl_range g).
Definition downloads_run (b k : string) (gs : list download) (w : World) : World :=
  foldl (fun w g => (download_run b k g w).2) w gs.
Definition download_good (g : download) : Prop :=
  reaches (dl_get g 1%nat) /\ read_ok (dl_net g) /\ forall j, dl_client g j = None.

Lemma download_published b k (pieces : list bytes) g w r w' :
  (Z.of_nat (length (concat pieces)) < 2 ^ 63)%Z -> published w b k pieces -> download_run b k g w = (r, w') ->
  published w' b k pieces /\ sv_db (w_svc w') = sv_db (w_svc w) /\
  (forall resp, r = Ok resp -> served (concat pieces) (dl_range g) resp) /\
  (coherent -> intact (sv_db (w_svc w)) b k -> download_good g -> exists resp, r = Ok resp /\ rs_Outcome resp = Complete).
Proof.
  intros Hlen Hpub. unfold download_run, GetObject_http, client_GetObject, wd_bind, svc.
  destruct (client_call (dl_get g) _ true (w_svc w)) as [r1 s1] eqn:E.
  pose proof E as E'. apply (client_call_inv (fun s => published (mkWorld s (w_nodes w)) b k pieces /\ sv_db s = sv_db (w_svc w))
    (fun l _ => layout_ok (w_nodes w) pieces (layout_response l))) in E as [[Hp1 Hdb] Hlay].
  2: { intros i s rr s' [HI Hd] Er. destruct (GetObject_rpc_published _ _ _ _ _ _ _ _ _ _ HI Er) as [? Hl].
    split; [split; [done|]|by apply Hl]. pose proof (GetObject_rpc_db (at_env (dl_get g i)) b k s) as Hx. rewrite Er in Hx. by rewrite <-Hd. }
  2: by destruct w.
  destruct r1 as [l|code]; intros [= <- <-]; (split; [done|]); (split; [done|]).
  - simpl. destruct (layout_serves (dl_net g) (w_nodes w) (dl_reporter g) (dl_client g) pieces (layout_response l) (dl_range g) Hlen) as [H1 H2];
      [apply Hpub|by apply Hlay|]. split; [by intros resp [= <-]|]. intros HC _ (_&Hr&Hc). eexists. split; [done|]. by apply H2.
  - split; [done|]. intros HC Hint (Hreach&_&_). exfalso.
    destruct (GetObject_rpc (at_env (dl_get g 1%nat)) b k (w_svc w)) as [r2 s2] eqn:E2.
    destruct (GetObject_rpc_published (at_env (dl_get g 1%nat)) (w_nodes w) b k pieces b k (w_svc w) r2 s2 ltac:(by destruct w) E2) as [_ H].
    destruct (H eq_refl eq_refl) as [_ Hok]. destruct (Hok Hint) as [l ->].
    by rewrite (client_call_reaches _ (fun e => GetObject_rpc e b k) true _ l s2 Hreach E2) in E'.
Qed.

Lemma downloads_published b k (pieces : list bytes) gs w :
  (Z.of_nat (length (concat pieces)) < 2 ^ 63)%Z -> published w b k pieces ->
  published (downloads_run b k gs w) b k pieces /\ sv_db (w_svc (downloads_run b k gs w)) = sv_db (w_svc w).
Proof.
  intros Hlen. revert w. induction gs as [|g gs IH]; intros w Hp; [done|]. simpl.
  destruct (download_run b k g w) as [r w'] eqn:E. destruct (download_published _ _ _ _ _ _ _ Hlen Hp E) as (Hp'&Hdb&_).
  rewrite <-Hdb. by apply IH.
Qed.
End get.

(** ** The round trip *)

(** C1: what a client stores is what clients read back. Take any world with an
    integral database, any body, and any behaviour of the network, the nodes and
    the coordinator's connection during the upload; only SHA-256 collisions are
    excluded, and the chunks must be countable in 32 bits and the bytes in 63.
    One thing is asked of the cache: that the invalidation at the commit reaches
    it, or that it has nothing of the object (otherwise the previous version is
    served until it expires, which Staleness bounds). Every PUT is answered. If
    the answer is 201, all the bytes the body delivered were stored and the
    ETag is their digest; the body ended, or failed with io.ErrUnexpectedEOF,
    which the splitter takes for the end and which Http deals with.
    From then on, after any number of downloads under any faults, a download
    with any Range header that the coordinator answers has the status and the
    length for the body stored, never sends a byte that is not the requested
    one in its place, and completes only with all of them. It does complete when
    nothing fails, provided the node roster cached when the upload began agreed
    with the database: a chunk sent to a node's former address is lost. *)
Theorem put_get_roundtrip `{PG : !Postgres, UU : !Uuid, GM : !GoMath, GS : !GoSort} cfg net b k ct body fl w :
  schema_ok (sv_db (w_svc w)) -> net_ok net -> collision_free (w_nodes w) body ->
  (Z.of_nat (length body) < 2 ^ 63)%Z ->
  (Z.of_nat (length body) <= (2 ^ 31 - 1) * effective_chunk_size cfg (w_svc w))%Z ->
  invalidated (w_svc w) b k (at_env (un_complete net 1)) ->
  let '(reply, w1) := PutObject cfg net b k ct (mkReader body fl) w in
  (exists err, reply = Some (fail err)) \/
  (exists id cnt, reply = Some (mkReply 201 (quoteETag (Sum body)) id cnt)) /\ ends_quietly fl /\
  forall earlier g, let '(r, _) := download_run b k g (downloads_run b k earlier w1) in
    (forall resp, r = Ok resp -> served body (dl_range g) resp) /\
    (cached_roster_ok (w_svc w) -> download_good g -> exists resp, r = Ok resp /\ rs_Outcome resp = Complete).
Proof.
  intros Hs Hn Hf Hl Hm He. destruct (PutObject cfg net b k ct (mkReader body fl) w) as [reply w1] eqn:E.
  destruct (PutObject_published cfg net b k ct body fl w reply w1 Hs Hn Hf Hl Hm He E) as [Herr|(id&cnt&pieces&->&Hfl&->&Hp&Hint)];
    [by left|right]. split_and!; [by eauto|done|]. intros earlier g.
  pose proof (@downloads_published _ _ (cached_roster_ok (w_svc w)) b k pieces earlier w1 Hl Hp) as [Hp' Hdb].
  destruct (download_run b k g _) as [r w2] eqn:Eg.
  destruct (@download_published _ _ (cached_roster_ok (w_svc w)) _ _ _ _ _ _ _ Hl Hp' Eg) as (_&_&?&Hgood). split; [done|]. intros HC.
  apply Hgood; [done|]. rewrite Hdb. by apply Hint.
Qed.

(** ** A run *)

(** Three empty nodes, five bytes in chunks of two; the node that is the first
    target of the first chunk never answers. *)
Definition registered : World := serve_all (fun s => s) register_three (start (three_nodes empty_node empty_node empty_node)).
Definition five_bytes : bytes := [x41; x42; x43; x44; x45].
Definition sample_gateway : GatewayConfig := mkGatewayConfig 2 1000.
Definition sample_download (raw : string) : download :=
  mkDownload (fun _ => sample_attempt true 7 0)
    (mkReadNet (fun _ _ => true) (fun _ _ => no_faults) (fun _ _ => reliable) (fun _ => false)) true (fun _ => None) raw.

#[local] Instance byte_eq_decision : EqDecision byte := Byte.byte_eq_dec.

(** The blocks of a body. *)
Definition blocks (body : bytes) : list bytes :=
  i ← seq 0 (S (length body)); j ← seq 0 (S (length body)); [take j (drop i body)].

Lemma blocks_spec body x : block_of body x -> x ∈ blocks body.
Proof.
  intros (a&c&->). unfold blocks. apply list_elem_of_bind. exists (length a). split.
  - apply list_elem_of_bind. exists (length x). split.
    + apply list_elem_of_singleton. by rewrite drop_app_length, take_app_length.
    + apply elem_of_seq. rewrite !length_app. lia.
  - apply elem_of_seq. rewrite !length_app. lia.
Qed.

Lemma blocks_collision_free nodes body :
  (forall addr n, nodes !! addr = Some n -> d_data (n_disk n) = ∅) ->
  NoDup (Sum <$> remove_dups (blocks body)) -> collision_free nodes body.
Proof.
  intros He Hb x y [(addr&n&p&f&Hn&Hf&_)|Hx] Hy Hsum; [by rewrite (He addr n Hn) in Hf|].
  apply blocks_spec, elem_of_remove_dups, list_elem_of_lookup in Hx as [i Hi].
  apply blocks_spec, elem_of_remove_dups, list_elem_of_lookup in Hy as [j Hj].
  assert (i = j) as ->; [|congruence]. apply (NoDup_lookup _ i j (Sum x) Hb); rewrite list_lookup_fmap.
  - by rewrite Hi.
  - by rewrite Hj, Hsum.
Qed.

Lemma registered_schema : schema_ok (sv_db (w_svc registered)).
Proof. unfold registered. refine (serve_all_schema (fun s => s) _ (start _) _ (start_schema _)). repeat constructor. Qed.
Lemma registered_roster : cached_roster_ok (w_svc registered).
Proof.
  assert (sv_cache (w_svc registered) = Noop) as Hcache by (vm_compute; reflexivity).
  unfold cached_roster_ok. rewrite Hcache. discriminate.
Qed.
Lemma sample_net_ok : net_ok sample_upload_net.
Proof. split; [intros i; vm_compute; reflexivity|intros i j; by apply N.mod_lt|intros i l; apply reverse_Permutation]. Qed.
Lemma five_bytes_free : collision_free (w_nodes registered) five_bytes.
Proof.
  apply blocks_collision_free; [|apply (bool_decide_unpack _); vm_compute; exact I].
  assert (map_Forall (fun _ n => size (d_data (n_disk n)) = 0%nat) (w_nodes registered)) as Hall
    by (apply (bool_decide_unpack _); vm_compute; exact I).
  intros addr n Hn. apply map_size_empty_inv. exact (Hall addr n Hn).
Qed.

Lemma put_get_roundtrip_witness :
  let put := PutObject sample_gateway sample_upload_net "photos" "cat.jpg" EmptyString (mkReader five_bytes None) registered in
  hr_ETag <$> put.1 = Some (quoteETag (Sum five_bytes)) /\
  exists resp, (download_run "photos" "cat.jpg" (sample_download "bytes=1-3") put.2).1 = Ok resp /\
    rs_Body resp = [x42; x43; x44].
Proof.
  pose proof (put_get_roundtrip sample_gateway sample_upload_net "photos" "cat.jpg" EmptyString five_bytes None registered) as H.
  assert (hr_ETag <$> (PutObject sample_gateway sample_upload_net "photos" "cat.jpg" EmptyString (mkReader five_bytes None)
    registered).1 = Some (quoteETag (Sum five_bytes))) as Hst by (vm_compute; reflexivity).
  destruct (PutObject sample_gateway sample_upload_net "photos" "cat.jpg" EmptyString (mkReader five_bytes None) registered) as [reply w1].
  destruct H as [[err ->]|((id&cnt&->)&_&H)].
  - exact registered_schema.
  - exact sample_net_ok.
  - exact five_bytes_free.
  - vm_compute. reflexivity.
  - vm_compute. discriminate.
  - left. reflexivity.
  - vm_compute in Hst. discriminate Hst.
  - split; [reflexivity|]. specialize (H [] (sample_download "bytes=1-3")).
    change (downloads_run "photos" "cat.jpg" [] w1) with w1 in H. cbn [fst snd].
    destruct (download_run _ _ _ w1) as [r w2]. destruct H as [Hserved Hok].
    assert (download_good (sample_download "bytes=1-3")) as Hg
      by (split; [split; [reflexivity|split; reflexivity]|split; [split; reflexivity|reflexivity]]).
    destruct (Hok registered_roster Hg) as (resp&->&Hc).
    exists resp. split; [reflexivity|]. destruct (Hserved resp eq_refl) as [_ _ Hb _ _]. specialize (Hb Hc).
    transitivity (window five_bytes "bytes=1-3"); [exact Hb|vm_compute; reflexivity].
Defined.
