(* ===== verification/Http.v ===== *)
(** * Requests over HTTP

    The composition of the gateway's server (Router) with the upload and the
    download (PutGet): what a PUT stores under a path is what a GET of the path
    returns, what happens to a body that is cut off or too long, and what a
    download does with the corrupt replicas it meets. *)

From Stdlib Require Import Strings.Byte.
From stdpp Require Import base numbers gmap strings list sorting.
From S2P Require Import Prelude Chunking Checksum GoStrings Mux RangeReq Download ChunkStore StorageService ChunkWriter UploadFiles.
From S2P Require Import GoFloat Placement Health Validate Metrics Uuid Cache.
From S2P Require Import Sql Schema Statements Chunks Frames Objects Nodes Repair Gc Reconcile Multipart Store Reads Commit Uploads UploadDb RepairOps.
From S2P Require Import ChunkInv CompleteInv QueueInv Coordinator Workers Reconciler Refinement Roster Samples Gateway Admin Router PutGet.

(** ** What a corruption report leaves alone *)

(** From [d] to [d'] the objects, the chunks (but for their counters) and the
    nodes are the same, and no replica has become AVAILABLE. *)
Record tables_kept (d d' : db) : Prop := {
  tk_schema : schema_ok d';
  tk_objects : objects d' = objects d;
  tk_chunks : forall c, strip_counter <$> chunks d' !! c = strip_counter <$> chunks d !! c;
  tk_nodes : same_nodes d d';
  tk_available : forall c n r, chunk_replicas d' !! (c, n) = Some r -> cr_state r = ReplicaAvailable ->
    exists r0, chunk_replicas d !! (c, n) = Some r0 /\ cr_state r0 = ReplicaAvailable
}.
Lemma tables_kept_refl d : schema_ok d -> tables_kept d d.
Proof. intros Hs. split; [done|done|done|done|]. eauto. Qed.
Lemma tables_kept_trans d1 d2 d3 : tables_kept d1 d2 -> tables_kept d2 d3 -> tables_kept d1 d3.
Proof.
  intros [A1 A2 A3 A4 A5] [B1 B2 B3 B4 B5]. unfold same_nodes in *. split; [done|congruence|intros c; by rewrite B3|unfold same_nodes; congruence|].
  intros c n r Hr Hst. destruct (B5 c n r Hr Hst) as (r0&Hr0&Hst0). by apply (A5 c n r0).
Qed.
(** The cache of [s'] has no entry that the cache of [s] does not have. *)
Definition cache_shrinks (s s' : Service) : Prop :=
  forall now key v, visible now (sv_cache s') key = Some v -> visible now (sv_cache s) key = Some v.

Section reports.
Context `{PG : !Postgres, UU : !Uuid, GM : !GoMath, GS : !GoSort}.

Lemma same_nodes_MarkReplicaCorrupt d0 now c n detail : op_keeps (same_nodes d0) (MarkReplicaCorrupt now c n detail).
Proof.
  pose proof (same_nodes_put_replicas d0). pose proof (same_nodes_put_deletions d0). pose proof (same_nodes_sequences d0).
  unfold MarkReplicaCorrupt, MarkReplicaCorrupt_tx. preserve; auto with frames.
Qed.

Lemma MarkReplicaCorrupt_keeps now c n detail d r d' : schema_ok d -> MarkReplicaCorrupt now c n detail d = (r, d') -> tables_kept d d'.
Proof.
  intros Hs E. pose proof (MarkReplicaCorrupt_run now c n detail d Hs) as H.
  assert (schema_ok d') as Hs' by (eapply keeps_MarkReplicaCorrupt; [|exact E]; done).
  assert (same_nodes d d') as Hn by (by eapply same_nodes_MarkReplicaCorrupt; [|exact E]). rewrite E in H.
  destruct r as [k|[]]; try done; [|destruct H as [-> _]; by apply tables_kept_refl].
  destruct H as (_&_&Hrow&Hother&_&_&Hobj&Hck). split; [done|done|done|done|]. intros c' n' r Hr Hst.
  destruct (decide ((c', n') = (c, n))) as [[= -> ->]|Hne]; [|rewrite Hother in Hr by done; eauto].
  rewrite Hrow in Hr. destruct (chunk_replicas d !! (c, n)) as [r0|]; [|done]. simpl in Hr. injection Hr as <-.
  case_decide; [eauto|done].
Qed.

Lemma EnqueueRepairs_same now rf limit d0 :
  op_keeps (fun d => chunk_replicas d = chunk_replicas d0 /\ chunks d = chunks d0 /\ objects d = objects d0 /\ storage_nodes d = storage_nodes d0)
    (EnqueueRepairs now rf limit).
Proof.
  unfold EnqueueRepairs. apply op_keeps_inTx. keeps. apply keeps_tx_sum. intros c. apply frame_enqueue_repair.
  - by intros d ? ? ? (?&?&?&?).
  - by intros m d u d' (?&?&?&?) (_&_&->)%put_repairs_ok.
Qed.

Lemma owner_cache_keeps_db e c s : sv_db (invalidateChunkOwnerCache e c s).2 = sv_db s.
Proof.
  unfold invalidateChunkOwnerCache, sv_bind, store. destruct (ObjectKeyForChunk c (sv_db s)) as [r d] eqn:E.
  assert (d = sv_db s) as -> by (pose proof (ObjectKeyForChunk_reads c (sv_db s)) as H; by rewrite E in H).
  destruct r as [[b k]|]; [|by destruct s]. unfold invalidateObject, sv_bind, cache_delete. by destruct (Cache_Delete _ _ _).
Qed.
Lemma owner_cache_shrinks e c s : cache_shrinks s (invalidateChunkOwnerCache e c s).2.
Proof.
  intros now key v. unfold invalidateChunkOwnerCache, sv_bind, store. destruct (ObjectKeyForChunk c (sv_db s)) as [[[b k]|] d]; [|done].
  unfold invalidateObject, sv_bind, cache_delete. pose proof (visible_delete_any (e_redis e) now (sv_cache s) (ObjectKey b k) key v) as H.
  simpl. by destruct (Cache_Delete _ _ _).
Qed.

Lemma ReportCorruptReplica_keeps e chunkID n detail s r s' : schema_ok (sv_db s) ->
  ReportCorruptReplica e chunkID n detail s = (r, s') -> tables_kept (sv_db s) (sv_db s') /\ cache_shrinks s s'.
Proof.
  intros Hs. assert (tables_kept (sv_db s) (sv_db s) /\ cache_shrinks s s) as Hrefl by (split; [by apply tables_kept_refl|by intros ? ? ?]).
  unfold ReportCorruptReplica. destruct (uuid_Parse chunkID) as [c|]; [|by intros [= <- <-]].
  destruct (String.eqb n EmptyString); [by intros [= <- <-]|]. unfold sv_bind at 1, store at 1.
  destruct (MarkReplicaCorrupt _ c n detail (sv_db s)) as [r1 d1] eqn:E1. apply MarkReplicaCorrupt_keeps in E1; [|done].
  destruct r1 as [k|err]; [|intros [= <- <-]; split; [exact E1|by intros ? ? ?]].
  assert (forall s2 scheduled, tables_kept d1 (sv_db s2) -> sv_cache s2 = sv_cache s ->
    (run! invalidateChunkOwnerCache e c in Coordinator.answer (Prelude.int32 k, scheduled)) s2 = (r, s') ->
    tables_kept (sv_db s) (sv_db s') /\ cache_shrinks s s') as Hlast.
  { intros s2 scheduled Hd2 Hc2. unfold sv_bind. pose proof (owner_cache_keeps_db e c s2) as Hinv. pose proof (owner_cache_shrinks e c s2) as Hcs.
    destruct (invalidateChunkOwnerCache e c s2) as [u s3]. simpl in Hinv, Hcs. intros [= <- <-]. rewrite Hinv.
    split; [by eapply tables_kept_trans|]. intros now key v Hv. apply Hcs in Hv. by rewrite <-Hc2. }
  unfold sv_bind at 1 2 3, sv_gets. destruct (_ && _).
  - unfold sv_bind at 1, store. destruct (EnqueueRepairs _ _ _ _) as [x d2] eqn:Ee. apply Hlast; simpl; [|done].
    destruct (EnqueueRepairs_same _ _ _ d1 _ _ _ ltac:(done) Ee) as (H1&H2&H3&H4).
    split; [eapply keeps_EnqueueRepairs; [|exact Ee]; apply E1|done|by rewrite H2|done|]. rewrite H1. eauto.
  - apply Hlast; [apply tables_kept_refl, E1|done].
Qed.

Lemma deliver_reports_keeps net i reports w : schema_ok (sv_db (w_svc w)) ->
  let w' := (deliver_reports net i reports w).2 in
  w_nodes w' = w_nodes w /\ tables_kept (sv_db (w_svc w)) (sv_db (w_svc w')) /\ cache_shrinks (w_svc w) (w_svc w').
Proof.
  revert i w. induction reports as [|[chunkID n] reports IH]; intros i w Hs; cbn [deliver_reports].
  { split_and!; [done|by apply tables_kept_refl|by intros ? ? ?]. }
  unfold wd_bind, svc. destruct (client_ReportCorruptReplica _ _ _ _ (w_svc w)) as [r s1] eqn:E. unfold client_ReportCorruptReplica in E.
  apply (client_call_inv (fun t => tables_kept (sv_db (w_svc w)) (sv_db t) /\ cache_shrinks (w_svc w) t) (fun _ _ => True)) in E as [[Hd Hc] _].
  - destruct (IH (S i) (mkWorld s1 (w_nodes w)) (tk_schema _ _ Hd)) as (H1&H2&H3). simpl in *. split_and!; [done|by eapply tables_kept_trans|].
    intros now key v Hv. by apply Hc, H3.
  - intros j t r1 t' [HI1 HI2] Et. split; [|done]. apply ReportCorruptReplica_keeps in Et as [H1 H2]; [|apply HI1].
    split; [by eapply tables_kept_trans|]. intros now key v Hv. by apply HI2, H2.
  - split; [by apply tables_kept_refl|by intros ? ? ?].
Qed.

Lemma HeadObject_kept b k d d' r : objects d' = objects d -> HeadObject b k d = (r, d) -> HeadObject b k d' = (r, d').
Proof.
  intros Ho. unfold HeadObject, inTx, tx_bind, gets. rewrite Ho. destruct (find_row _ (objects d)) as [[o row]|]; simpl; by intros [= <-].
Qed.

Context {CO : Coherence}.

Lemma published_kept w s' b k pieces :
  published w b k pieces -> tables_kept (sv_db (w_svc w)) (sv_db s') -> cache_shrinks (w_svc w) s' ->
  published (mkWorld s' (w_nodes w)) b k pieces.
Proof.
  intros [Hs Hv [o [(obj&Hh&Hobj) Hcount Hrows]] Hd Hc] [K1 K2 K3 K4 K5] Hcs. split; cbn [w_svc w_nodes]; [done|done| |done|].
  - exists o. split.
    + exists obj. split; [by eapply HeadObject_kept|done].
    + rewrite <-Hcount. apply counts_shape. intros c. specialize (K3 c).
      destruct (chunks (sv_db s') !! c) as [x|], (chunks (sv_db (w_svc w)) !! c) as [y|]; try done. apply (inj Some) in K3.
      apply strip_counter_eq in K3 as (E1&E2&_&_&_&E6&_). simpl. unfold chunk_shape. congruence.
    + intros c ch Hch Hco. destruct (strip_Some _ _ K3 c ch Hch) as (ch0&Hc0&Hst). pose proof (strip_counter_eq _ _ Hst) as (E1&_).
      eapply piece_at_mono; [apply K5|exact K4|exact Hst|done|]. apply Hrows; [done|congruence].
  - intros now c Hvis. by eapply Hc, Hcs.
Qed.

Lemma intact_kept d d' b k : schema_ok d -> tables_kept d d' -> chunk_replicas d' = chunk_replicas d -> intact d b k -> intact d' b k.
Proof.
  intros Hs [K1 K2 K3 K4 K5] Hr Hi obj Hobj c ch Hc Hco. destruct (strip_Some _ _ K3 c ch Hc) as (ch0&Hc0&Hst).
  pose proof (strip_counter_eq _ _ Hst) as (E1&_). apply (readable_mono d); [by rewrite Hr|exact K4|].
  eapply (Hi obj); [by eapply HeadObject_kept|exact Hc0|congruence].
Qed.
End reports.

Section http.
Context `{PG : !Postgres, UU : !Uuid, GM : !GoMath, GS : !GoSort, PM : !Prometheus} (sha256 : string -> string).

(** A request for the object, as the server hands it to the chain: no pattern is
    set yet. *)
Definition for_object (m b k : string) (r : request) : Prop :=
  rq_Method r = m /\ rq_Path r = object_path b k /\ rq_Pattern r = EmptyString.

(** The names are accepted and have a path of their own. *)
Definition named (b k : string) : Prop := ValidateBucket b = None /\ ValidateKey k = None /\ clean_key k = true.

Lemma route_object m ep b k r : (m, ep) ∈ object_methods -> named b k -> for_object m b k r ->
  findHandler newMux (rq_Method r) (rq_Path r) = Matched (mkPattern m [Lit "objects"; Wild; Multi true] ep) [b; k].
Proof.
  intros Hm (Hb&Hk&Hc) (->&->&_). pose proof (object_route m ep b k Hm Hb Hk) as H. by rewrite Hc in H.
Qed.

(** The body the handler reads. *)
Definition limited (cfg : GatewayConfig) (r : request) : Reader :=
  if decide (gw_MaxObjectSize cfg <= 0)%Z then rq_Body r else MaxBytesReader (rq_Body r) (gw_MaxObjectSize cfg).
Definition refused (cfg : GatewayConfig) (r : request) : Prop := (0 < gw_MaxObjectSize cfg < rq_ContentLength r)%Z.

(** The response of the server, and the world it leaves. *)
Definition serve (cfg : GatewayConfig) (net : http_net) (r : request) (w : World) : option response * World :=
  LimitRequestBody (NewRouter sha256 cfg net) (gw_MaxObjectSize cfg) r w.
Lemma for_object_labels m ep b k r code : (m, ep) ∈ object_methods -> for_object m b k r -> labels_fit r code = true.
Proof.
  intros Hm (H1&H2&H3). apply labels_fit_text; [|rewrite H2, H3, object_path_label; reflexivity].
  rewrite H1. unfold object_methods in Hm. rewrite !elem_of_cons, elem_of_nil in Hm.
  destruct Hm as [[= -> _]|[[= -> _]|[[= -> _]|[[= -> _]|[]]]]]; reflexivity.
Qed.
Lemma serve_http_serve m0 ep b k cfg net fresh m r w o w' : (m0, ep) ∈ object_methods -> for_object m0 b k r ->
  serve_http sha256 cfg net fresh m r w = (o, w') -> serve cfg net r w = ((fun t => t.1.2) <$> o, w').
Proof.
  intros Hm Hr. unfold serve_http, Middleware, wd_bind, serve. destruct (LimitRequestBody _ _ _ w) as [[x|] w1]; cbn [wd_ret].
  - rewrite (for_object_labels _ _ _ _ _ _ Hm Hr). destruct (panics x); by intros [= <- <-].
  - by intros [= <- <-].
Qed.

Lemma unless_gone_streamed net x s : unless_gone net x = Streamed s -> x = Streamed s.
Proof. unfold unless_gone. destruct (hn_gone net); [|done]. by destruct (rs_code x). Qed.
Lemma unless_gone_here net x : hn_gone net = false -> unless_gone net x = x.
Proof. unfold unless_gone. by intros ->. Qed.

Lemma serve_put cfg net b k r w : named b k -> for_object "PUT" b k r -> ~ refused cfg r ->
  serve cfg net r w =
  let '(reply, w1) := PutObject cfg (hn_upload net) b k (rq_ContentType r) (limited cfg r) w in
  (unless_gone net ∘ Replied <$> reply, w1).
Proof.
  intros Hn Hr Hlim. pose proof (route_object "PUT" EpPutObject b k r ltac:(by left) Hn Hr) as Hroute.
  assert (forall r', rq_Method r' = rq_Method r -> rq_Path r' = rq_Path r -> NewRouter sha256 cfg net r' w =
    let '(reply, w1) := PutObject cfg (hn_upload net) b k (rq_ContentType r') (rq_Body r') w in
    (unless_gone net ∘ Replied <$> reply, w1)) as Hrt.
  { intros r' H1 H2. unfold NewRouter, route. rewrite H1, H2, Hroute. cbn [pt_handler handle].
    change (default EmptyString ([b; k] !! 0%nat)) with b. change (default EmptyString ([b; k] !! 1%nat)) with k.
    unfold wd_bind. by destruct (PutObject _ _ _ _ _ _ w) as [[x|] w1]. }
  destruct Hr as [Hm Hp]. unfold serve, LimitRequestBody, limited, refused in *.
  destruct (decide (gw_MaxObjectSize cfg <= 0)%Z) as [Hz|Hz]; [by rewrite Hrt|].
  rewrite Hm. cbn [String.eqb Ascii.eqb Bool.eqb orb]. rewrite decide_False by lia. by rewrite Hrt.
Qed.

Lemma serve_get cfg net b k r w : named b k -> for_object "GET" b k r ->
  serve cfg net r w = let '(x, w1) := GetObject_route net r b k w in (Some (unless_gone net x), w1).
Proof.
  intros Hn Hr. pose proof (route_object "GET" EpGetObject b k r ltac:(right; by left) Hn Hr) as Hroute.
  assert (String.eqb k EmptyString = false) as Hk.
  { destruct Hn as (_&Hk&_). unfold ValidateKey in Hk. by destruct (String.eqb k EmptyString). }
  assert (NewRouter sha256 cfg net r w =
    (let '(x, w1) := GetObject_route net r b k w in (Some (unless_gone net x), w1))) as Hrt.
  { unfold NewRouter, route. rewrite Hroute. cbn [pt_handler handle]. change (default EmptyString ([b; k] !! 0%nat)) with b.
    change (default EmptyString ([b; k] !! 1%nat)) with k. rewrite Hk. unfold wd_bind. by destruct (GetObject_route net r b k w). }
  destruct Hr as [Hm _]. unfold serve, LimitRequestBody. rewrite Hm. cbn [String.eqb Ascii.eqb Bool.eqb orb].
  by destruct (decide _); rewrite Hrt.
Qed.

(** ** The round trip *)

Lemma collision_free_prefix nodes (body data rest : bytes) : body = data ++ rest -> collision_free nodes body -> collision_free nodes data.
Proof.
  intros -> H x y Hx (a&c&Hy). apply H; [|exists a, (c ++ rest); by rewrite Hy, <-!app_assoc].
  destruct Hx as [Hx|(a'&c'&Hx)]; [by left|right]. exists a', (c' ++ rest). by rewrite Hx, <-!app_assoc.
Qed.

(** The limit passes a body on whole, or cut and failing. *)
Lemma limited_cases cfg r :
  limited cfg r = rq_Body r \/
  (0 < gw_MaxObjectSize cfg < Z.of_nat (length (rd_data (rq_Body r))))%Z /\
  exists e rest, rd_fail (limited cfg r) = Some (Fault e) /\ rd_data (rq_Body r) = rd_data (limited cfg r) ++ rest /\
    Z.of_nat (length (rd_data (limited cfg r))) = gw_MaxObjectSize cfg.
Proof.
  unfold limited, MaxBytesReader. case_decide; [by left|]. case_decide; [by left|right]. split; [lia|].
  eexists _, _. split; [done|]. simpl. split; [by rewrite take_drop|]. rewrite length_take. lia.
Qed.

Lemma PutObject_limited cfg net b k ct r w reply w1 :
  let CO : Coherence := cached_roster_ok (w_svc w) in
  let body := rd_data (rq_Body r) in
  schema_ok (sv_db (w_svc w)) -> net_ok net -> collision_free (w_nodes w) body ->
  (Z.of_nat (length body) < 2 ^ 63)%Z ->
  (Z.of_nat (length body) <= (2 ^ 31 - 1) * effective_chunk_size cfg (w_svc w))%Z ->
  invalidated (w_svc w) b k (at_env (un_complete net 1)) ->
  PutObject cfg net b k ct (limited cfg r) w = (reply, w1) ->
  (exists err, reply = Some (fail err)) \/
  (exists id cnt pieces, reply = Some (mkReply 201 (quoteETag (Sum body)) id cnt) /\ ends_quietly (rd_fail (rq_Body r)) /\
     body = concat pieces /\ published w1 b k pieces /\
     (cached_roster_ok (w_svc w) -> intact (sv_db (w_svc w1)) b k /\ cached_roster_ok (w_svc w1))).
Proof.
  intros CO body Hs Hn Hf Hl Hm He E. destruct (limited_cases cfg r) as [El|(_&e&rest&Efl&Ed&_)].
  - rewrite El in E. unfold body in *. destruct (rq_Body r) as [data fl].
    exact (PutObject_published cfg net b k ct data fl w reply w1 Hs Hn Hf Hl Hm He E).
  - left. destruct (limited cfg r) as [data fl]. simpl in Efl, Ed. subst fl. fold body in Ed.
    assert (length data <= length body)%nat as Hlen by (rewrite Ed, length_app; lia).
    destruct (PutObject_published cfg net b k ct data (Some (Fault e)) w reply w1) as [H|(?&?&?&_&[]&_)]; try done; try lia.
    by apply (collision_free_prefix _ body data rest).
Qed.

(** An upload whose context is done when it completes is not published. *)
Lemma PutObject_cancelled cfg net b k ct body w reply w1 : at_cancelled (un_complete net 1%nat) = true ->
  PutObject cfg net b k ct body w = (reply, w1) -> forall x, reply = Some x -> hr_Error x <> None.
Proof.
  intros Hc. unfold PutObject, wd_bind. destruct (svc _ w) as [[begun|code] w2]; [|by intros [= <- _] x [= <-]].
  destruct (put_body cfg net begun body w2) as [r w3] eqn:E.
  assert (forall x, r <> Some (Ok x)) as Hr.
  { intros x ->. revert E. unfold put_body, wd_bind. destruct (streamUpload _ _ _ _ _ w2) as [[[res|err]|] w4]; [|done..].
    unfold svc, client_CompleteUpload, client_call. cbn [retry_loop]. rewrite Hc. by intros [=]. }
  destruct r as [[x|err]|]; [by destruct (Hr x)|..]; destruct (svc _ w3) as [u w4]; intros [= <- _] x [=]. by subst x.
Qed.

(** ** GET requests in between *)

(** A request, with what the network does to it. *)
Record http_call := mkHttpCall {
  hc_net : http_net;
  hc_fresh : string;
  hc_metrics : http_metrics;
  hc_request : request
}.
Definition call_run (cfg : GatewayConfig) (c : http_call) : Wd (option (string * response * http_metrics)) :=
  serve_http sha256 cfg (hc_net c) (hc_fresh c) (hc_metrics c) (hc_request c).
Definition calls_run (cfg : GatewayConfig) (cs : list http_call) (w : World) : World := foldl (fun w c => (call_run cfg c w).2) w cs.
(** A GET of some object. *)
Definition reads_object (c : http_call) : Prop := exists b k, named b k /\ for_object "GET" b k (hc_request c).
Definition download_of (net : http_net) (r : request) : download :=
  mkDownload (hn_calls net) (hn_read net) true (hn_client net) (rq_Range r).

(** A GET is its download, then the reports. *)
Lemma serve_http_get cfg net fresh m b k get w : named b k -> for_object "GET" b k get ->
  let '(r, w1) := download_run b k (download_of net get) w in
  exists id m', serve_http sha256 cfg net fresh m get w =
    match r with
    | Err e => (Some (id, unless_gone net (Replied e), m'), w1)
    | Ok x => (Some (id, unless_gone net (Streamed x), m'), (deliver_reports net 0 (rs_Reports x) w1).2)
    end.
Proof.
  intros Hn Hg. destruct (serve_http sha256 cfg net fresh m get w) as [o w'] eqn:E.
  pose proof (serve_http_serve "GET" EpGetObject b k _ _ _ _ _ _ _ _ ltac:(right; by left) Hg E) as Es.
  rewrite (serve_get cfg net b k get w Hn Hg) in Es. unfold GetObject_route, wd_bind in Es.
  change (GetObject_http _ _ true _ b k _ w) with (download_run b k (download_of net get) w) in Es.
  destruct (download_run b k (download_of net get) w) as [[x|e] w1].
  - destruct (deliver_reports net 0 (rs_Reports x) w1) as [u w2]. injection Es as Eo <-.
    destruct o as [[[id resp] m']|]; [|done]. injection Eo as <-. by exists id, m'.
  - injection Es as Eo <-. destruct o as [[[id resp] m']|]; [|done]. injection Eo as <-. by exists id, m'.
Qed.

Lemma download_other {CO : Coherence} b k pieces b' k' g w :
  published w b k pieces -> let w' := (download_run b' k' g w).2 in
  published w' b k pieces /\ sv_db (w_svc w') = sv_db (w_svc w).
Proof.
  intros Hp. unfold download_run, GetObject_http, client_GetObject, wd_bind, svc.
  destruct (client_call (dl_get g) _ true (w_svc w)) as [r1 s1] eqn:E.
  apply (client_call_inv (fun s => published (mkWorld s (w_nodes w)) b k pieces /\ sv_db s = sv_db (w_svc w)) (fun _ _ => True)) in E as [HI _].
  - by destruct r1.
  - intros i s r s' [HI Hd] Er. split; [|done]. split; [by apply (GetObject_rpc_published _ _ _ _ _ _ _ _ _ _ HI Er)|].
    pose proof (GetObject_rpc_db (at_env (dl_get g i)) b' k' s) as Hx. rewrite Er in Hx. by rewrite <-Hd.
  - by destruct w.
Qed.

Lemma call_published {CO : Coherence} cfg c b k pieces w : reads_object c -> published w b k pieces ->
  let w' := (call_run cfg c w).2 in published w' b k pieces /\ tables_kept (sv_db (w_svc w)) (sv_db (w_svc w')).
Proof.
  intros (b'&k'&Hn&Hg) Hp. pose proof (download_other b k pieces b' k' (download_of (hc_net c) (hc_request c)) w Hp) as Hd.
  pose proof (serve_http_get cfg (hc_net c) (hc_fresh c) (hc_metrics c) b' k' (hc_request c) w Hn Hg) as H. unfold call_run.
  destruct (download_run b' k' (download_of (hc_net c) (hc_request c)) w) as [r w1]. simpl in Hd. destruct Hd as [Hp1 Hdb], H as (id&m'&->).
  rewrite <-Hdb. pose proof (pb_schema _ _ _ _ Hp1) as Hs. destruct r as [x|e]; simpl; [|split; [done|by apply tables_kept_refl]].
  destruct (deliver_reports_keeps (hc_net c) 0 (rs_Reports x) w1 Hs) as (K1&K2&K3). split; [|done].
  destruct (deliver_reports _ _ _ w1) as [u [s2 nodes2]]. simpl in *. rewrite K1. by apply published_kept.
Qed.

Lemma calls_published {CO : Coherence} cfg cs b k pieces w : Forall reads_object cs -> published w b k pieces ->
  let w' := calls_run cfg cs w in published w' b k pieces /\ tables_kept (sv_db (w_svc w)) (sv_db (w_svc w')).
Proof.
  intros Hall. revert w. induction Hall as [|c cs Hc _ IH]; intros w Hp; [split; [done|apply tables_kept_refl, Hp]|]. simpl.
  destruct (call_published cfg c b k pieces w Hc Hp) as [Hp1 Hk1]. destruct (IH _ Hp1) as [Hp2 Hk2].
  split; [done|by eapply tables_kept_trans].
Qed.

End http.


(** ** A body that is too long *)

(** A splitter on a body cut at the limit. *)
Record capped (sp : Splitter) : Prop := {
  cp_open : sp_done sp = false;
  cp_fault : exists e, rd_fail (sp_r sp) = Some (Fault e);
  cp_limit : (0 <= sp_totalRead sp /\ sp_totalRead sp + Z.of_nat (length (rd_data (sp_r sp))) <= sp_maxTotal sp < 2 ^ 63)%Z;
  cp_size : (0 < sp_chunkSize sp)%nat
}.

Lemma Next_capped sp : capped sp ->
  match Next sp with (Ok _, sp') => capped sp' | (Err (SplitRead _ _), _) => True | (Err _, _) => False end.
Proof.
  intros [Ho [e Hf] [H0 Hl] Hk]. unfold Next, ReadFull. rewrite Ho. case_decide as Hge; [|by rewrite Hf].
  assert (length (take (sp_chunkSize sp) (rd_data (sp_r sp))) = sp_chunkSize sp) as Hlen by (rewrite length_take; lia).
  unfold emit. rewrite Hlen, int64_small by lia. rewrite decide_False by lia.
  rewrite decide_False by (intros E; rewrite E in Hlen; simpl in Hlen; lia).
  split; simpl; [done|by eexists|rewrite length_drop; lia|done].
Qed.

Definition not_too_large (e : gw_error) : Prop := (apierr_From e).2 <> CodeEntityTooLarge.

Section oversized.
Context `{PG : !Postgres, UU : !Uuid, GM : !GoMath, GS : !GoSort, PM : !Prometheus} (sha256 : string -> string).

Lemma rpc_not_too_large code : not_too_large (RpcErr code).
Proof. unfold not_too_large, apierr_From. by repeat case_match. Qed.

Lemma upload_chunk_code net owner chunk :
  yields (fun r => match r with Err e => not_too_large e | Ok _ => True end) (upload_chunk net owner chunk).
Proof. unfold upload_chunk. soundness; try exact I; by repeat case_match. Qed.

Lemma upload_loop_capped fuel net owner sp h total count : capped sp ->
  yields (fun r => match r with Some (Err e) => not_too_large e | Some (Ok _) => False | None => True end)
    (upload_loop fuel net owner sp h total count).
Proof.
  revert sp h total count. induction fuel as [|fuel IH]; intros sp h total count Hc; [by apply yields_ret|]. cbn [upload_loop].
  pose proof (Next_capped sp Hc) as Hn. destruct (Next sp) as [[chunk|[| |]] sp']; try done.
  eapply yields_then; [apply upload_chunk_code|]. intros [u|err] Herr; [by apply IH|by apply yields_ret].
Qed.

Lemma streamUpload_capped cfg net data e owner size :
  (0 < gw_MaxObjectSize cfg < 2 ^ 63)%Z -> Z.of_nat (length data) = gw_MaxObjectSize cfg ->
  yields (fun r => exists err, r = Some (Err err) /\ not_too_large err)
    (streamUpload cfg net (mkReader data (Some (Fault e))) owner size).
Proof.
  intros Hmax Hlen w. unfold streamUpload, NewSplitterBuffer. case_decide as Hz; [by eexists|]. cbn [rd_data].
  set (sp := mkSplitter _ _ _ _ _ _).
  assert (capped sp) as Hc by (split; simpl; [done|by eexists|lia|lia]).
  pose proof (upload_loop_capped (S (length data)) net owner sp hash_New 0 0 Hc w) as H.
  pose proof (upload_loop_total net owner (S (length data)) sp hash_New 0 0 w ltac:(simpl; lia) ltac:(simpl; lia)) as Ht.
  destruct (upload_loop _ _ _ _ _ _ _ w) as [[[res|err]|] w1]; simpl in *; [done|by eexists|done].
Qed.

Lemma PutObject_capped cfg net b k ct data e :
  (0 < gw_MaxObjectSize cfg < 2 ^ 63)%Z -> Z.of_nat (length data) = gw_MaxObjectSize cfg ->
  yields (fun r => exists err, r = Some (fail err) /\ not_too_large err) (PutObject cfg net b k ct (mkReader data (Some (Fault e)))).
Proof.
  intros Hmax Hlen. unfold PutObject. apply yields_bind. intros [begun|code].
  2: { apply yields_ret. exists (RpcErr code). split; [done|apply rpc_not_too_large]. }
  eapply (yields_then (fun r => exists err, r = Some (Err err) /\ not_too_large err)).
  - unfold put_body. eapply yields_then; [by apply streamUpload_capped|]. intros r (err&->&Herr). apply yields_ret. by exists err.
  - intros r (err&->&Herr). apply yields_bind. intros u. apply yields_ret. by exists err.
Qed.

(** A body that is longer than the limit is refused, and the client learns why
    exactly when it declared the length: the splitter stops at the same limit as
    the reader it reads from, so its own check is never the one that fails. *)
Theorem oversized_upload_code cfg net fresh m b k put w :
  named b k -> for_object "PUT" b k put -> hn_gone net = false -> (0 < gw_MaxObjectSize cfg < 2 ^ 63)%Z ->
  (gw_MaxObjectSize cfg < Z.of_nat (length (rd_data (rq_Body put))))%Z ->
  exists id resp m1 w1 code, serve_http sha256 cfg net fresh m put w = (Some (id, resp, m1), w1) /\
    rs_code resp = Some code /\ (code = CodeEntityTooLarge <-> (gw_MaxObjectSize cfg < rq_ContentLength put)%Z).
Proof.
  intros Hn Hp Hg Hmax Hlen. destruct (serve_http sha256 cfg net fresh m put w) as [o w1] eqn:E.
  apply (serve_http_serve sha256 "PUT" EpPutObject b k) in E; [|by left|done]. destruct (decide (gw_MaxObjectSize cfg < rq_ContentLength put)%Z) as [Href|Href].
  { unfold serve, LimitRequestBody in E. destruct Hp as [Hpm _]. rewrite Hpm, decide_False, decide_True in E by lia. simpl in E.
    destruct o as [[[id resp] m1]|]; [|done]. injection E as <- _. eexists _, _, _, _, _. split; [done|]. by split. }
  rewrite (serve_put sha256 cfg net b k put w Hn Hp) in E by (unfold refused; lia).
  destruct (limited_cases cfg put) as [El|(_&e&rest&Ef&_&Hl)].
  { exfalso. revert El. unfold limited, MaxBytesReader. rewrite !decide_False by lia. intros El.
    apply (f_equal (fun r => length (rd_data r))) in El. simpl in El. rewrite length_take in El. lia. }
  destruct (limited cfg put) as [data fl]. simpl in Ef, Hl. subst fl.
  destruct (PutObject_capped cfg (hn_upload net) b k (rq_ContentType put) data e Hmax Hl w) as (err&Herr&Hcode).
  destruct (PutObject _ _ _ _ _ _ w) as [reply w2]. simpl in Herr. subst reply.
  destruct o as [[[id resp] m1]|]; [|done]. cbn in E. rewrite unless_gone_here in E by done. injection E as <- _. eexists _, _, _, _, _. split; [done|]. split; [done|]. done.
Qed.
End oversized.

(** The round trip of five bytes through the server. *)
Definition put_five : request := sample_request "PUT" (object_path "photos" "my cat.jpg") EmptyString five_bytes.
Definition get_range : request := sample_request "GET" (object_path "photos" "my cat.jpg") "bytes=1-3" [].
Definition sample_serve (r : request) (w : World) : option (string * response * http_metrics) * World :=
  serve_http (PM := strict_registry) (fun s => s) sample_gateway sample_http "id" no_metrics r w.

(** The same body cut off after five bytes: the connection is gone when the
    upload completes. *)
Definition cut_upload : upload_net :=
  mkUploadNet (un_begin sample_upload_net) (un_alloc sample_upload_net) (un_links sample_upload_net) (un_order sample_upload_net)
    (un_commit sample_upload_net) (un_record sample_upload_net)
    (fun _ => mkAttempt (mkEnv 5000 5 0 true) true None true true) (un_abort sample_upload_net).
Definition cut_http : http_net :=
  mkHttpNet cut_upload (hn_calls sample_http) (hn_first sample_http) (hn_second sample_http) (hn_third sample_http) (hn_read sample_http)
    (hn_client sample_http) (hn_reports sample_http) (hn_detail sample_http) (hn_now sample_http) (hn_manifest sample_http)
    (hn_lock sample_http) (hn_families sample_http) false.
Lemma cut_net_ok : net_ok (hn_upload cut_http).
Proof. destruct sample_net_ok. by split. Qed.
Definition put_cut : request := with_body put_five (mkReader five_bytes (Some UnexpectedEOF)).

