(* ===== verification/Quarantine.v ===== *)
(** * A corrupt replica that is read is withdrawn

    The path of a corruption report: ChunkReader.reportCorruption
    (src/internal/gateway/chunkreader.go), the client's retries, the RPC
    ReportCorruptReplica (src/internal/coordinator/durability_rpc.go) and
    MarkReplicaCorrupt of the store, at the end of a GET. *)

From Stdlib Require Import Strings.Byte.
From stdpp Require Import base numbers gmap strings list sorting.
From S2P Require Import Prelude Chunking Checksum GoStrings Mux RangeReq Download ChunkStore StorageService ChunkWriter UploadFiles.
From S2P Require Import GoFloat Placement Health Validate Metrics Uuid Cache.
From S2P Require Import Sql Schema Statements Chunks Frames Objects Nodes Repair Gc Reconcile Multipart RepairOps.
From S2P Require Import Coordinator Workers Reconciler Refinement Samples Gateway Admin Router PutGet Http.

(** The replica is not one that is served or counted. *)
Definition withdrawn (d : db) (c : N) (n : string) : Prop :=
  forall r, chunk_replicas d !! (c, n) = Some r -> cr_state r = ReplicaCorrupt \/ cr_state r = ReplicaDeleting.

(** From [d] to [d'] only replicas in [P] changed, and those are withdrawn. *)
Record only_withdraws (P : N -> string -> Prop) (d d' : db) : Prop := {
  ow_schema : schema_ok d';
  ow_rows : forall c n, chunk_replicas d' !! (c, n) = chunk_replicas d !! (c, n) \/ P c n /\ withdrawn d' c n;
  ow_chunks : forall c, is_Some (chunks d !! c) -> is_Some (chunks d' !! c)
}.

Lemma only_withdraws_refl P d : schema_ok d -> only_withdraws P d d.
Proof. by split; [|left|]. Qed.
Lemma only_withdraws_keeps P d d' c n : only_withdraws P d d' -> withdrawn d c n -> withdrawn d' c n.
Proof. intros H Hw r Hr. destruct (ow_rows _ _ _ H c n) as [E|[_ Hd]]; [rewrite E in Hr; by apply Hw|by apply Hd]. Qed.
Lemma only_withdraws_trans P d1 d2 d3 : only_withdraws P d1 d2 -> only_withdraws P d2 d3 -> only_withdraws P d1 d3.
Proof.
  intros H1 H2. split; [apply H2| |intros c Hc; by apply H2, H1]. intros c n.
  destruct (ow_rows _ _ _ H2 c n) as [E2|H]; [|by right]. rewrite E2.
  destruct (ow_rows _ _ _ H1 c n) as [E1|[HP Hw]]; [by left|right]. split; [done|]. by apply (only_withdraws_keeps P d2).
Qed.
Lemma only_withdraws_mono (P Q : N -> string -> Prop) d d' : (forall c n, P c n -> Q c n) -> only_withdraws P d d' -> only_withdraws Q d d'.
Proof. intros HPQ [H1 H2 H3]. split; [done| |done]. intros c n. destruct (H2 c n) as [?|[? ?]]; [by left|right; auto]. Qed.
Lemma only_withdraws_same P d d' : schema_ok d' -> chunk_replicas d' = chunk_replicas d -> chunks d' = chunks d -> only_withdraws P d d'.
Proof. intros Hs Hr Hc. split; [done|intros c n; left; by rewrite Hr|intros c; by rewrite Hc]. Qed.

Section report.
Context `{PG : !Postgres, UU : !Uuid, GM : !GoMath, GS : !GoSort, PM : !Prometheus}.

Lemma MarkReplicaCorrupt_withdraws now c n detail d r d' : schema_ok d -> MarkReplicaCorrupt now c n detail d = (r, d') ->
  only_withdraws (fun c' n' => (c', n') = (c, n)) d d' /\
  (is_Some (chunks d !! c) -> (exists k, r = Ok k) /\ withdrawn d' c n).
Proof.
  intros Hs E. pose proof (MarkReplicaCorrupt_run now c n detail d Hs) as H.
  assert (schema_ok d') as Hs' by (eapply keeps_MarkReplicaCorrupt; [|exact E]; done). rewrite E in H.
  destruct r as [k|[]]; try done.
  - destruct H as (_&_&Hrow&Hother&_&_&_&Hck).
    assert (withdrawn d' c n) as Hw.
    { intros r Hr. rewrite Hrow in Hr. destruct (chunk_replicas d !! (c, n)); [|done]. simpl in Hr. injection Hr as <-.
      case_decide; [by right|by left]. }
    split; [|by eauto]. split; [done| |].
    + intros c' n'. destruct (decide ((c', n') = (c, n))) as [E'|Hne]; [|left; by apply Hother]. right. split; [done|]. by injection E' as -> ->.
    + intros i [ch Hch]. specialize (Hck i). rewrite Hch in Hck. by destruct (chunks d' !! i); [eexists|].
  - destruct H as [-> Hno]. split; [by apply only_withdraws_refl|]. rewrite Hno. by intros [? ?].
Qed.

Lemma ReportCorruptReplica_withdraws e chunkID n detail s r s' : schema_ok (sv_db s) ->
  ReportCorruptReplica e chunkID n detail s = (r, s') ->
  only_withdraws (fun c' n' => uuid_Parse chunkID = Some c' /\ n' = n) (sv_db s) (sv_db s') /\
  (forall c, uuid_Parse chunkID = Some c -> is_Some (chunks (sv_db s) !! c) -> n <> EmptyString ->
    (exists a, r = Ok a) /\ withdrawn (sv_db s') c n).
Proof.
  intros Hs. unfold ReportCorruptReplica. destruct (uuid_Parse chunkID) as [c|] eqn:Ec.
  2: { intros [= <- <-]. split; [by apply only_withdraws_refl|done]. }
  destruct (String.eqb_spec n EmptyString) as [->|Hn].
  { intros [= <- <-]. split; [by apply only_withdraws_refl|done]. }
  unfold sv_bind at 1, store at 1. destruct (MarkReplicaCorrupt (e_dbnow e) c n detail (sv_db s)) as [r1 d1] eqn:E1.
  destruct (MarkReplicaCorrupt_withdraws _ _ _ _ _ _ _ Hs E1) as [Hw Hok].
  apply (only_withdraws_mono _ (fun c' n' => Some c = Some c' /\ n' = n)) in Hw; [|by intros ? ? [= -> ->]].
  destruct r1 as [k|err].
  2: { intros [= <- <-]. split; [done|]. intros c' [= <-] Hc. by destruct (Hok Hc) as [[? ?] _]. }
  assert (forall s2, schema_ok (sv_db s2) -> chunk_replicas (sv_db s2) = chunk_replicas d1 -> chunks (sv_db s2) = chunks d1 ->
    forall scheduled, (run! invalidateChunkOwnerCache e c in Coordinator.answer (Prelude.int32 k, scheduled)) s2 = (r, s') ->
    only_withdraws (fun c' n' => Some c = Some c' /\ n' = n) (sv_db s) (sv_db s') /\
    (forall c', Some c = Some c' -> is_Some (chunks (sv_db s) !! c') -> n <> EmptyString -> (exists a, r = Ok a) /\ withdrawn (sv_db s') c' n)) as Hlast.
  { intros s2 Hs2 Hr2 Hc2 scheduled. unfold sv_bind. pose proof (owner_cache_keeps_db e c s2) as Hinv.
    destruct (invalidateChunkOwnerCache e c s2) as [u s3]. simpl in Hinv. intros [= <- <-]. rewrite Hinv.
    pose proof (only_withdraws_same (fun c' n' => Some c = Some c' /\ n' = n) d1 (sv_db s2) Hs2 Hr2 Hc2) as H2.
    split; [by eapply only_withdraws_trans|]. intros c' [= <-] Hc Hne. split; [by eexists|].
    apply (only_withdraws_keeps _ _ _ _ _ H2). by apply Hok. }
  unfold sv_bind at 1 2 3, sv_gets. destruct (_ && _).
  - unfold sv_bind at 1, store. destruct (EnqueueRepairs _ _ _ _) as [x d2] eqn:Ee. apply Hlast; simpl.
    + eapply keeps_EnqueueRepairs; [|exact Ee]. apply Hw.
    + by apply (EnqueueRepairs_same _ _ _ d1 _ _ _ ltac:(done) Ee).
    + by apply (EnqueueRepairs_same _ _ _ d1 _ _ _ ltac:(done) Ee).
  - apply Hlast; [apply Hw|done|done].
Qed.

(** ** The reports of a download *)

(** A reported replica, by the text of its chunk. *)
Definition reported (reports : list report) (c : N) (n : string) : Prop :=
  exists chunkID, (chunkID, n) ∈ reports /\ uuid_Parse chunkID = Some c.

Lemma client_report_withdraws attempts chunkID n detail s r s' : schema_ok (sv_db s) ->
  client_ReportCorruptReplica attempts chunkID n detail s = (r, s') ->
  only_withdraws (fun c' n' => uuid_Parse chunkID = Some c' /\ n' = n) (sv_db s) (sv_db s') /\
  (forall c, reaches (attempts 1%nat) -> uuid_Parse chunkID = Some c -> is_Some (chunks (sv_db s) !! c) -> n <> EmptyString ->
    withdrawn (sv_db s') c n).
Proof.
  intros Hs E. split.
  - unfold client_ReportCorruptReplica in E.
    apply (client_call_inv (fun t => only_withdraws (fun c' n' => uuid_Parse chunkID = Some c' /\ n' = n) (sv_db s) (sv_db t)) (fun _ _ => True))
      in E as [H _]; [done| |by apply only_withdraws_refl].
    intros i t r1 t' HI Et. split; [|done]. eapply only_withdraws_trans; [exact HI|].
    by apply (ReportCorruptReplica_withdraws _ _ _ _ _ _ _ (ow_schema _ _ _ HI) Et).
  - intros c Hreach Hc Hch Hn.
    destruct (ReportCorruptReplica (at_env (attempts 1%nat)) chunkID n detail s) as [r1 s1] eqn:E1.
    destruct (ReportCorruptReplica_withdraws _ _ _ _ _ _ _ Hs E1) as [_ H]. destruct (H c Hc Hch Hn) as [[a ->] Hw].
    unfold client_ReportCorruptReplica in E.
    rewrite (client_call_reaches attempts (fun e => ReportCorruptReplica e chunkID n detail) true s a s1 Hreach E1) in E.
    by injection E as _ <-.
Qed.

Lemma deliver_reports_withdraws net i reports w : schema_ok (sv_db (w_svc w)) ->
  let w' := (deliver_reports net i reports w).2 in
  w_nodes w' = w_nodes w /\
  only_withdraws (reported reports) (sv_db (w_svc w)) (sv_db (w_svc w')) /\
  (forall j chunkID n c, reports !! j = Some (chunkID, n) -> reaches (hn_reports net (i + j)%nat 1%nat) ->
    uuid_Parse chunkID = Some c -> is_Some (chunks (sv_db (w_svc w)) !! c) -> n <> EmptyString ->
    withdrawn (sv_db (w_svc w')) c n).
Proof.
  revert i w. induction reports as [|[chunkID n] reports IH]; intros i w Hs; cbn [deliver_reports].
  { split_and!; [done|by apply only_withdraws_refl|done]. }
  unfold wd_bind, svc. destruct (client_ReportCorruptReplica _ _ _ _ (w_svc w)) as [r s1] eqn:E.
  destruct (client_report_withdraws _ _ _ _ _ _ _ Hs E) as [Hw1 Hok1].
  specialize (IH (S i) (mkWorld s1 (w_nodes w)) (ow_schema _ _ _ Hw1)). simpl in IH. destruct IH as (Hn2&Hw2&Hok2).
  assert (only_withdraws (reported ((chunkID, n) :: reports)) (sv_db s1)
    (sv_db (w_svc (deliver_reports net (S i) reports (mkWorld s1 (w_nodes w))).2))) as Hw2'.
  { eapply only_withdraws_mono; [|exact Hw2]. intros c' n' (id&Hin&Hp). exists id. split; [by right|done]. }
  split_and!; [done| |].
  - eapply only_withdraws_trans; [|exact Hw2']. eapply only_withdraws_mono; [|exact Hw1].
    intros c' n' [Hp ->]. exists chunkID. split; [by left|done].
  - intros [|j] id n' c Hj Hreach Hp Hc Hne; simpl in Hj.
    + injection Hj as <- <-. rewrite Nat.add_0_r in Hreach. apply (only_withdraws_keeps _ _ _ _ _ Hw2'). by apply Hok1.
    + apply (Hok2 j id n' c Hj); [by rewrite <-plus_n_Sm in Hreach|done|by apply Hw1|done].
Qed.

(** C18: a corrupt copy that a download meets is withdrawn, and nothing else is.
    After a GET through the whole server, every replica the reader reported and
    whose report reached the coordinator is neither served nor counted any
    more (CORRUPT or DELETING, or its row is gone); every replica row that
    changed at all was reported and is withdrawn; the schema holds and no node
    lost a file. *)
Theorem corrupt_copies_are_withdrawn sha256 cfg net fresh m b k get w id s m' w' :
  named b k -> for_object "GET" b k get -> schema_ok (sv_db (w_svc w)) ->
  serve_http sha256 cfg net fresh m get w = (Some (id, Streamed s, m'), w') ->
  let d := sv_db (w_svc w) in let d' := sv_db (w_svc w') in
  (forall i chunkID n c, rs_Reports s !! i = Some (chunkID, n) -> reaches (hn_reports net i 1%nat) ->
     uuid_Parse chunkID = Some c -> is_Some (chunks d !! c) -> n <> EmptyString -> withdrawn d' c n) /\
  (forall c n, chunk_replicas d' !! (c, n) = chunk_replicas d !! (c, n) \/ reported (rs_Reports s) c n /\ withdrawn d' c n) /\
  schema_ok d' /\ w_nodes w' = w_nodes w.
Proof.
  intros Hn Hg Hs E d d'. apply (serve_http_serve sha256 "GET" EpGetObject b k) in E; [|right; by left|done].
  rewrite (serve_get sha256 cfg net b k get w Hn Hg) in E.
  unfold GetObject_route, wd_bind, GetObject_http, svc, wd_bind in E.
  destruct (client_GetObject (hn_calls net) b k (w_svc w)) as [r s1] eqn:Ec.
  assert (sv_db s1 = d) as Hd.
  { unfold client_GetObject in Ec. apply (client_call_inv (fun t => sv_db t = d) (fun _ _ => True)) in Ec as [H _]; [done| |done].
    intros i t r1 t' HI Et. split; [|done]. by rewrite <-HI, <-(GetObject_rpc_db (at_env (hn_calls net i)) b k t), Et. }
  destruct r as [obj|code]; [|cbn in E; injection E as E _; by apply unless_gone_streamed in E]. cbn [w_nodes w_svc] in E.
  set (resp := GetObject_serve _ _ _ _ _) in E.
  pose proof (deliver_reports_withdraws net 0 (rs_Reports resp) (mkWorld s1 (w_nodes w))) as H.
  destruct (deliver_reports net 0 (rs_Reports resp) (mkWorld s1 (w_nodes w))) as [u w2]. injection E as E1 E2.
  apply unless_gone_streamed in E1. injection E1 as E1. subst w2. subst s. cbn [w_svc w_nodes snd] in H. rewrite Hd in H. destruct (H Hs) as (H1&H2&H3).
  split_and!; [|exact (ow_rows _ _ _ H2)|exact (ow_schema _ _ _ H2)|done]. intros i chunkID n c Hi. by apply (H3 i).
Qed.
End report.

(** The first node holds other bytes than the chunk's. *)
Definition one_rotten : World :=
  serve_all (fun s => s) (degraded_acts ["n1"; "n2"] [])
    (start (three_nodes (node_with 20 [x41; x43]) (node_with 20 two_bytes) empty_node)).
Definition get_cat : request := sample_request "GET" (object_path "photos" "cat.jpg") EmptyString [].

Lemma corrupt_copies_are_withdrawn_witness :
  exists id s m w, sample_serve get_cat one_rotten = (Some (id, Streamed s, m), w) /\
    rs_Body s = two_bytes /\ rs_Reports s = [(uuid_String 20, "n1")] /\ withdrawn (sv_db (w_svc w)) 20 "n1".
Proof.
  assert (match (sample_serve get_cat one_rotten).1 with
          | Some (_, Streamed s, _) => rs_Body s = two_bytes /\ rs_Reports s = [(uuid_String 20, "n1")]
          | _ => False
          end) as Hres by (vm_compute; split; reflexivity).
  assert (schema_ok (sv_db (w_svc one_rotten))) as Hs.
  { unfold one_rotten. refine (serve_all_schema (fun s => s) _ (start _) _ (start_schema _)). repeat constructor. }
  assert (is_Some (chunks (sv_db (w_svc one_rotten)) !! 20%N)) as Hc by (apply (bool_decide_unpack _); vm_compute; exact I).
  pose proof (corrupt_copies_are_withdrawn (PM := strict_registry) (fun s => s) sample_gateway sample_http "id" no_metrics "photos" "cat.jpg"
    get_cat one_rotten) as H.
  unfold sample_serve in Hres |- *. set (w0 := one_rotten) in *. clearbody w0.
  destruct (serve_http (PM := strict_registry) (fun s => s) sample_gateway sample_http "id" no_metrics get_cat w0) as [[[[id [| s | | | | ]] m]|] w];
    try (destruct Hres; fail).
  destruct Hres as [Hb Hr]. exists id, s, m, w. split_and!; [reflexivity|exact Hb|exact Hr|].
  destruct (H id s m w) as (H1&_); [split_and!; vm_compute; reflexivity|split_and!; reflexivity|exact Hs|reflexivity|].
  apply (H1 0%nat (uuid_String 20) "n1" 20%N); [rewrite Hr; reflexivity|split_and!; reflexivity|vm_compute; reflexivity|exact Hc|discriminate].
Defined.
