(* ===== verification/Registrar.v ===== *)
(** * How a storage node joins the cluster (src/internal/storage/registrar.go)

    Registrar.Register with the bounded retries of src/internal/retry/retry.go,
    heartbeatOnce and the heartbeat loop, over the coordinator's RegisterNode
    and Heartbeat. The reading of the node's statistics is an argument, as is
    what the network does to each call. *)

From stdpp Require Import base numbers gmap strings list sorting.
From S2P Require Import Prelude Chunking Checksum GoStrings RangeReq Download ChunkStore StorageService ChunkWriter.
From S2P Require Import GoFloat Placement Health Validate Uuid Cache.
From S2P Require Import Sql Schema Statements Chunks Frames Objects Nodes Repair Gc Reconcile Multipart RepairOps Commit UploadDb.
From S2P Require Import Coordinator Workers Samples Gateway Admin PutGet.

Record Registrar := mkRegistrar {
  rg_nodeID : string;
  rg_advertiseAddr : string;
  rg_interval : Z
}.

(** storage.Service.Stats *)
Definition node_stats (cs : ChunkStore) (diskUsage : result chunk_error (Z * Z)) : result chunk_error NodeStats :=
  match Stats cs diskUsage with
  | Err e => Err e
  | Ok (total, used, available, chunks, active) => Ok (mkNodeStats total used available chunks active)
  end.

Inductive registrar_error := StatsFailed (e : chunk_error) | CallFailed (code : Z) | ContextDone.

(** StartupPolicy's MaxAttempts *)
Definition startupAttempts : nat := 30.


Section registrar.
Context `{PG : !Postgres, UU : !Uuid, GM : !GoMath, GS : !GoSort}.

(** The loop of retry.Do around a registration: a failure to read the
    statistics is permanent, any failed call is tried again. *)
Fixpoint register_loop (attempts : nat -> attempt) (stats : nat -> result chunk_error NodeStats) (reg : Registrar)
    (left i : nat) (last : registrar_error) : Sv (result registrar_error Registrar) :=
  match left with
  | O => sv_ret (Err last)
  | S left' =>
      if at_cancelled (attempts i) then sv_ret (Err ContextDone)
      else
        match stats i with
        | Err e => sv_ret (Err (StatsFailed e))
        | Ok st =>
            sv! r := stub_call (fun e => RegisterNode e (rg_nodeID reg) (rg_advertiseAddr reg) (Some st)) (attempts i) in
            match r with
            | Ok ms =>
                sv_ret (Ok (if decide (0 < ms)%Z
                            then mkRegistrar (rg_nodeID reg) (rg_advertiseAddr reg) (int64 (ms * millisecond)) else reg))
            | Err code =>
                if decide (left' = 0)%nat then sv_ret (Err (CallFailed code))
                else if at_interrupted (attempts i) then sv_ret (Err ContextDone)
                else register_loop attempts stats reg left' (S i) (CallFailed code)
            end
        end
  end.
Definition Register (attempts : nat -> attempt) (stats : nat -> result chunk_error NodeStats) (reg : Registrar) :
    Sv (result registrar_error Registrar) :=
  register_loop attempts stats reg startupAttempts 1 ContextDone.

(** The two calls share one deadline; the second is made if the coordinator
    does not know the node. *)
Definition heartbeatOnce (reg : Registrar) (stats : result chunk_error NodeStats) (a b : attempt) :
    Sv (result registrar_error Z) :=
  match stats with
  | Err e => sv_ret (Err (StatsFailed e))
  | Ok st =>
      sv! r := stub_call (fun e => Heartbeat e (rg_nodeID reg) (rg_advertiseAddr reg) (Some st)) a in
      match r with
      | Err code => sv_ret (Err (CallFailed code))
      | Ok (ms, mustReregister) =>
          if (mustReregister : bool) then
            sv! r := stub_call (fun e => RegisterNode e (rg_nodeID reg) (rg_advertiseAddr reg) (Some st)) b in
            match r with
            | Err code => sv_ret (Err (CallFailed code))
            | Ok _ => sv_ret (Ok (int64 (ms * millisecond)))
            end
          else sv_ret (Ok (int64 (ms * millisecond)))
      end
  end.

(** What one tick of Run meets. *)
Record tick := mkTick {
  tk_stats : result chunk_error NodeStats;
  tk_heartbeat : attempt;
  tk_register : attempt
}.

(** Run, tick by tick: a failed heartbeat is only counted, a cancelled one ends
    the loop, a new interval resets the ticker. *)
Fixpoint Run_loop (ticks : list tick) (reg : Registrar) (consecutiveFailures : Z) : Sv (Registrar * Z) :=
  match ticks with
  | [] => sv_ret (reg, consecutiveFailures)
  | t :: ticks' =>
      sv! r := heartbeatOnce reg (tk_stats t) (tk_heartbeat t) (tk_register t) in
      match r with
      | Err ContextDone => sv_ret (reg, consecutiveFailures)
      | Err _ => Run_loop ticks' reg (consecutiveFailures + 1)
      | Ok newInterval =>
          let reg := if decide (0 < newInterval /\ newInterval <> rg_interval reg)%Z
                     then mkRegistrar (rg_nodeID reg) (rg_advertiseAddr reg) newInterval else reg in
          Run_loop ticks' reg 0
      end
  end.

(** Run with its ticker, which panics unless the interval is positive. *)
Definition Run (ticks : list tick) (reg : Registrar) : option (Sv (Registrar * Z)) :=
  if decide (rg_interval reg <= 0)%Z then None else Some (Run_loop ticks reg 0).

(** The node's registrar task: a registration that fails is not the end. *)
Inductive task_end := Stopped | Panics | Beat (reg : Registrar) (consecutiveFailures : Z).
Definition beats (ticks : list tick) (reg : Registrar) : Sv task_end :=
  match Run ticks reg with
  | None => sv_ret Panics
  | Some run => sv! r := run in sv_ret (Beat r.1 r.2)
  end.
Definition registrar_task (attempts : nat -> attempt) (stats : nat -> result chunk_error NodeStats) (shutdown : bool)
    (ticks : list tick) (reg : Registrar) : Sv task_end :=
  sv! r := Register attempts stats reg in
  match r with
  | Ok reg' => beats ticks reg'
  | Err _ => if shutdown then sv_ret Stopped else beats ticks reg
  end.

(** ** The interval stays positive *)

(** Steps that leave the configuration alone. *)
Definition steady {A} (m : Sv A) : Prop := forall s, sv_cfg (m s).2 = sv_cfg s.
Lemma steady_ret {A} (a : A) : steady (sv_ret a).
Proof. done. Qed.
Lemma steady_bind {A B} (m : Sv A) (k : A -> Sv B) : steady m -> (forall a, steady (k a)) -> steady (sv_bind m k).
Proof. intros Hm Hk s. unfold sv_bind. specialize (Hm s). destruct (m s) as [a s1]. by rewrite (Hk a s1). Qed.
Lemma steady_store {A} (op : Op db A) : steady (store op).
Proof. intros s. unfold store. by destruct (op (sv_db s)). Qed.
Lemma steady_gets {A} (f : Service -> A) : steady (sv_gets f).
Proof. done. Qed.
Lemma steady_observe e id a : steady (observe e id a).
Proof. intros s. unfold observe. by destruct (Observe _ _ _ _ _ _ _ _). Qed.
Lemma steady_cache_delete e k : steady (cache_delete e k).
Proof. intros s. unfold cache_delete. by destruct (Cache_Delete _ _ _). Qed.
Create HintDb steady.
#[local] Hint Resolve steady_ret steady_store steady_gets steady_observe steady_cache_delete : steady.
Ltac steady_steps :=
  repeat first
    [ progress intros | solve [eauto 1 with steady nocore] | apply steady_bind
    | match goal with |- steady (if ?c then _ else _) => destruct c | |- steady match ?c with _ => _ end => destruct c end ].
Lemma steady_invalidateNodeCache e : steady (invalidateNodeCache e).
Proof. unfold invalidateNodeCache. steady_steps. Qed.
Lemma steady_onNodeRejoined e n : steady (onNodeRejoined e n).
Proof. unfold onNodeRejoined, OnNodeRecovered. steady_steps. Qed.
#[local] Hint Resolve steady_invalidateNodeCache steady_onNodeRejoined : steady.

Definition announced (s : Service) : Z := Z.quot (cfg_HeartbeatInterval (sv_cfg s)) 1000000.

Lemma RegisterNode_interval e id a st s r s' : RegisterNode e id a st s = (r, s') ->
  sv_cfg s' = sv_cfg s /\ (forall ms, r = Ok ms -> ms = announced s).
Proof.
  unfold RegisterNode. destruct (_ || _); [by intros [= <- <-]|]. unfold sv_bind at 1.
  pose proof (steady_store (UpsertNode (e_dbnow e) id a HEALTHY (toStoreStats st) (micros (e_now e))) s) as H1.
  destruct (store _ s) as [[c|err] s1]; cbn [snd] in H1; [|by intros [= <- <-]].
  unfold sv_bind at 1, sv_gets at 1. unfold sv_bind at 1.
  pose proof (steady_observe e id a s1) as H2. destruct (observe e id a s1) as [t s2]. cbn [snd] in H2. unfold sv_bind at 1.
  pose proof (steady_invalidateNodeCache e s2) as H3. destruct (invalidateNodeCache e s2) as [u s3]. cbn [snd] in H3. unfold sv_bind at 1.
  set (m := if decide _ then onNodeRejoined e id else sv_ret tt). assert (steady m) as Hm by (unfold m; steady_steps).
  specialize (Hm s3). destruct (m s3) as [u' s4]. cbn [snd] in Hm. intros [= <- <-]. unfold announced.
  assert (sv_cfg s4 = sv_cfg s) as Hc by congruence. rewrite Hc. split; [done|]. by intros ms [= <-].
Qed.

Lemma register_loop_interval attempts stats reg left i last s :
  (0 < rg_interval reg)%Z -> (cfg_HeartbeatInterval (sv_cfg s) < 2 ^ 63)%Z ->
  forall reg', (register_loop attempts stats reg left i last s).1 = Ok reg' -> (0 < rg_interval reg')%Z.
Proof.
  intros Hreg. revert i last s. induction left as [|left IH]; intros i last s Hcfg reg'; [done|]. cbn [register_loop].
  destruct (at_cancelled (attempts i)); [done|]. destruct (stats i) as [st|]; [|done]. unfold sv_bind at 1.
  set (fn := fun e => RegisterNode e (rg_nodeID reg) (rg_advertiseAddr reg) (Some st)).
  assert (sv_cfg (stub_call fn (attempts i) s).2 = sv_cfg s /\ forall ms, (stub_call fn (attempts i) s).1 = Ok ms -> ms = announced s) as [H1 H2].
  { unfold stub_call. destruct (at_up (attempts i)); [|done]. cbn [negb].
    destruct (fn (at_env (attempts i)) s) as [r s1] eqn:E. destruct (RegisterNode_interval _ _ _ _ _ _ _ E) as [H1 H2].
    by destruct (at_lost (attempts i)). }
  destruct (stub_call fn (attempts i) s) as [[ms|code] s1]; cbn [fst snd] in H1, H2.
  - intros [= <-]. case_decide as Hms; [|done]. cbn [rg_interval]. rewrite (H2 ms eq_refl) in Hms |- *. unfold announced in *.
    pose proof (Z.mul_quot_le (cfg_HeartbeatInterval (sv_cfg s)) 1000000) as Hq.
    assert (0 <= cfg_HeartbeatInterval (sv_cfg s))%Z as Hnn by (apply Z.nlt_ge; intros Hn; pose proof (Z.quot_opp_l (cfg_HeartbeatInterval (sv_cfg s)) 1000000);
      pose proof (Z.quot_pos (- cfg_HeartbeatInterval (sv_cfg s)) 1000000); lia).
    unfold int64, millisecond. rewrite wrap_signed_id; lia.
  - case_decide; [done|]. destruct (at_interrupted (attempts i)); [done|]. apply IH. by rewrite H1.
Qed.

Lemma Run_loop_interval ticks reg n s : (0 < rg_interval reg)%Z -> (0 < rg_interval (Run_loop ticks reg n s).1.1)%Z.
Proof.
  revert reg n s. induction ticks as [|t ticks IH]; intros reg n s Hreg; [done|]. cbn [Run_loop]. unfold sv_bind.
  destruct (heartbeatOnce _ _ _ _ s) as [[i|[err|code|]] s1]; [|by apply IH|by apply IH|done]. apply IH. case_decide; [|done]. cbn. lia.
Qed.

(** A node whose configured interval is positive never panics, whatever the
    coordinator announces, and keeps a positive interval. *)
Lemma registrar_task_beats attempts stats shutdown ticks reg s :
  (0 < rg_interval reg)%Z -> (cfg_HeartbeatInterval (sv_cfg s) < 2 ^ 63)%Z ->
  match (registrar_task attempts stats shutdown ticks reg s).1 with
  | Panics => False
  | Beat reg' _ => (0 < rg_interval reg')%Z
  | Stopped => shutdown = true
  end.
Proof.
  intros Hreg Hcfg. unfold registrar_task, sv_bind at 1.
  assert (forall r s1, (0 < rg_interval r)%Z ->
    match (beats ticks r s1).1 with Panics => False | Beat reg' _ => (0 < rg_interval reg')%Z | Stopped => shutdown = true end) as Hb.
  { intros r s1 Hr. unfold beats, Run. rewrite decide_False by lia. unfold sv_bind.
    pose proof (Run_loop_interval ticks r 0 s1 Hr) as H. by destruct (Run_loop ticks r 0 s1) as [[reg' n] s2]. }
  pose proof (register_loop_interval attempts stats reg startupAttempts 1 ContextDone s Hreg Hcfg) as Hi.
  fold (Register attempts stats reg) in Hi. destruct (Register attempts stats reg s) as [[reg'|err] s1]; [by apply Hb, Hi|].
  destruct shutdown; [done|by apply Hb].
Qed.

(** ** A node that reports is in the roster *)

Definition stats_check (st : NodeStats) : Prop :=
  (0 <= ns_TotalBytes st /\ 0 <= ns_UsedBytes st /\ 0 <= ns_AvailableBytes st /\ 0 <= ns_ChunkCount st /\ 0 <= ns_ActiveRequests st)%Z.

(** The row of a node that has just reported. *)
Definition reported_row (address : string) (st : NodeStats) (r : node_row) : Prop :=
  sn_grpc_address r = address /\ sn_health r = HEALTHY /\
  mkNodeStats (sn_total_bytes r) (sn_used_bytes r) (sn_available_bytes r) (sn_chunk_count r) (sn_active_requests r) = st.
Definition in_roster (id address : string) (st : NodeStats) (d : db) : Prop :=
  exists r, storage_nodes d !! id = Some r /\ reported_row address st r.

Lemma in_roster_same id address st d d' : storage_nodes d' = storage_nodes d -> in_roster id address st d -> in_roster id address st d'.
Proof. unfold in_roster. by intros ->. Qed.

Lemma same_nodes_put_repairs d0 : frames_repairs (same_nodes d0).
Proof. by intros m d u d' Hd (_&_&->)%put_repairs_ok. Qed.
Lemma same_nodes_put_reconciles d0 : frames_reconciles (same_nodes d0).
Proof. by intros m d u d' Hd (_&_&->)%put_reconciles_ok. Qed.
#[local] Hint Resolve same_nodes_put_replicas same_nodes_put_repairs same_nodes_put_reconciles same_nodes_sequences : frames.

Lemma same_nodes_MarkReplicasStaleOnNode d0 now n : op_keeps (same_nodes d0) (MarkReplicasStaleOnNode now n).
Proof. unfold MarkReplicasStaleOnNode. preserve. Qed.
Lemma same_nodes_EnqueueReconcile d0 now n : op_keeps (same_nodes d0) (EnqueueReconcile now n).
Proof. unfold EnqueueReconcile. preserve. Qed.
Lemma same_nodes_RequeueFailedRepairs d0 now l : op_keeps (same_nodes d0) (RequeueFailedRepairs now l).
Proof. unfold RequeueFailedRepairs. preserve. Qed.

Lemma store_same_nodes {A} (op : Op db A) s r s' : (forall d0, op_keeps (same_nodes d0) op) -> store op s = (r, s') ->
  storage_nodes (sv_db s') = storage_nodes (sv_db s).
Proof.
  intros Hk. unfold store. destruct (op (sv_db s)) as [x d] eqn:E. intros [= _ <-]. exact (Hk (sv_db s) _ _ _ eq_refl E).
Qed.

Lemma onNodeRejoined_same_nodes e n s : storage_nodes (sv_db (onNodeRejoined e n s).2) = storage_nodes (sv_db s).
Proof.
  unfold onNodeRejoined, sv_bind. destruct (store (MarkReplicasStaleOnNode _ _) s) as [r1 s1] eqn:E1.
  pose proof (store_same_nodes _ _ _ _ (fun d0 => same_nodes_MarkReplicasStaleOnNode d0 _ _) E1) as H1. destruct r1; [|done].
  destruct (store (EnqueueReconcile _ _) s1) as [r2 s2] eqn:E2.
  pose proof (store_same_nodes _ _ _ _ (fun d0 => same_nodes_EnqueueReconcile d0 _ _) E2) as H2. destruct r2; [|by rewrite <-H1, <-H2].
  unfold OnNodeRecovered, sv_bind, sv_gets. destruct (sv_repair s2) as [cfg|]; [|by rewrite <-H1, <-H2].
  destruct (rcf_Enabled cfg); [|by rewrite <-H1, <-H2].
  destruct (store (RequeueFailedRepairs _ _) s2) as [r3 s3] eqn:E3.
  pose proof (store_same_nodes _ _ _ _ (fun d0 => same_nodes_RequeueFailedRepairs d0 _ _) E3) as H3. simpl. congruence.
Qed.

Lemma invalidateNodeCache_db e s : sv_db (invalidateNodeCache e s).2 = sv_db s.
Proof. unfold invalidateNodeCache, sv_bind, cache_delete. by destruct (Cache_Delete _ _ _). Qed.

(** The report of a node whose clock reads [now]. *)
Section report.
Context (e : env) (id address : string) (st : NodeStats) (Hid : id <> EmptyString) (Hst : stats_check st) (Hnow : e_now e <> 0%Z).

Definition alive (s : Service) : Prop := (0 < SuspectAfter (sv_thresholds s) /\ 0 < DeadAfter (sv_thresholds s))%Z.

Lemma Classify_now s : alive s -> Classify (e_now e) (e_now e) (sv_thresholds s) = StateHealthy.
Proof using Hnow.
  intros [H1 H2]. unfold Classify, is_zero, time_sub, max_duration, min_duration. rewrite Z.sub_diag.
  rewrite (proj2 (Z.eqb_neq _ _)) by done. change (Z.max _ _) with 0%Z.
  by rewrite (proj2 (Z.leb_gt _ _) H2), (proj2 (Z.leb_gt _ _) H1).
Qed.

Lemma observe_healthy s t s' : alive s -> observe e id address s = (t, s') ->
  sv_db s' = sv_db s /\ forall x, t = Some x -> tn_To x = StateHealthy /\ tn_NodeID x = id.
Proof using Hnow.
  intros Ha. unfold observe, Observe. destruct (_ <? _)%Z; [by intros [= <- <-]|]. rewrite Classify_now by done.
  case_decide; intros [= <- <-]; [by split|]. split; [done|]. by intros x [= <-].
Qed.

Lemma SetNodeHealth_roster now d r d' : schema_ok d -> in_roster id address st d ->
  SetNodeHealth now id HEALTHY d = (r, d') -> schema_ok d' /\ in_roster id address st d'.
Proof.
  intros Hs (row&Hrow&Hr) E. split; [by eapply keeps_SetNodeHealth|]. revert E. unfold SetNodeHealth, inTx, tx_bind.
  destruct (update_nodes_run (fun k (_ : node_row) => k = id) (fun r => r <| sn_health := HEALTHY |> <| sn_updated_at := now |>) d Hs)
    as (d1&->&->&_); [done|]. rewrite bool_decide_true by done. intros [= _ <-]. simpl.
  eexists. split; [etransitivity; [exact (lookup_update_where _ _ (storage_nodes d) id)|]; rewrite Hrow; simpl; by rewrite decide_True|].
  destruct Hr as (H1&H2&H3). by split_and!.
Qed.

Lemma onTransition_roster t s : schema_ok (sv_db s) -> tn_To t = StateHealthy -> tn_NodeID t = id ->
  in_roster id address st (sv_db s) -> in_roster id address st (sv_db (onTransition e t s).2).
Proof.
  intros Hs Hto Ht Hin. unfold onTransition. rewrite Hto, Ht. unfold sv_bind at 1, store at 1. simpl stored_health.
  destruct (SetNodeHealth (e_dbnow e) id HEALTHY (sv_db s)) as [r d1] eqn:E.
  destruct (SetNodeHealth_roster _ _ _ _ Hs Hin E) as [Hs1 Hin1].
  unfold sv_bind. destruct (invalidateNodeCache e _) as [u s2] eqn:E2.
  assert (sv_db s2 = d1) as Hd by (pose proof (invalidateNodeCache_db e (s <| sv_db := d1 |>)) as H; by rewrite E2 in H).
  rewrite <-Hd in Hin1. case_decide; [|done]. eapply in_roster_same; [|exact Hin1]. apply onNodeRejoined_same_nodes.
Qed.

Lemma refresh_check now at_ r : node_check (refresh_node now address HEALTHY st at_ r).
Proof using Hst. destruct Hst as (?&?&?&?&?). by split_and!. Qed.

Lemma UpsertNode_roster now at_ d : schema_ok d ->
  exists d', UpsertNode now id address HEALTHY st at_ d = (Ok tt, d') /\ in_roster id address st d'.
Proof using Hst.
  intros Hs. unfold UpsertNode, inTx, tx_bind, gets. set (row := match storage_nodes d !! id with Some r => _ | None => _ end).
  assert (reported_row address st row) as Hrow by (unfold row; destruct st, (storage_nodes d !! id); by split_and!).
  assert (put_nodes (<[id := row]> (storage_nodes d)) d = Ok (tt, d <| storage_nodes := <[id := row]> (storage_nodes d) |>)) as ->.
  { apply put_nodes_ok. split; [|done]. apply map_Forall_insert_2; [|apply (so_nodes _ Hs)].
    unfold row. destruct Hst as (?&?&?&?&?). destruct (storage_nodes d !! id); by split_and!. }
  eexists. split; [done|]. exists row. split; [apply lookup_insert_eq|done].
Qed.

Lemma RecordHeartbeat_roster now at_ d : schema_ok d ->
  match RecordHeartbeat now id address st HEALTHY at_ d with
  | (Ok _, d') => schema_ok d' /\ in_roster id address st d'
  | (Err err, d') => err = ErrNotFound /\ d' = d
  end.
Proof using Hst.
  intros Hs. unfold RecordHeartbeat, inTx, tx_bind.
  destruct (update_nodes_run (fun k (_ : node_row) => k = id) (refresh_node now address HEALTHY st at_) d Hs) as (d1&->&->&Hs1);
    [intros; apply refresh_check|].
  unfold require. case_bool_decide as Hc; [|done]. simpl. split; [done|].
  pose proof (count_where_nonneg (fun k (_ : node_row) => k = id) (storage_nodes d)) as Hnn.
  assert (0 < count_where (fun k (_ : node_row) => k = id) (storage_nodes d))%Z as (k&row&Hk&->)%count_where_pos by lia.
  eexists. split; [etransitivity; [exact (lookup_update_where _ _ (storage_nodes d) id)|]; rewrite Hk; simpl; by rewrite decide_True|].
  by destruct st.
Qed.

Lemma RegisterNode_roster s : address <> EmptyString -> schema_ok (sv_db s) -> alive s ->
  exists ms s', RegisterNode e id address (Some st) s = (Ok ms, s') /\ in_roster id address st (sv_db s').
Proof using Hid Hst Hnow.
  intros Haddr Hs Ha. unfold RegisterNode. apply String.eqb_neq in Haddr. rewrite (proj2 (String.eqb_neq _ _) Hid), Haddr. cbn [orb].
  unfold sv_bind at 1, store at 1. destruct (UpsertNode_roster (e_dbnow e) (micros (e_now e)) (sv_db s) Hs) as (d1&E1&Hin).
  change (toStoreStats (Some st)) with st. rewrite E1. set (s1 := s <| sv_db := d1 |>).
  unfold sv_bind, sv_gets. destruct (observe e id address s1) as [t s2] eqn:E2. destruct (observe_healthy s1 t s2 Ha E2) as [Hd2 _].
  pose proof (invalidateNodeCache_db e s2) as Hd3. destruct (invalidateNodeCache e s2) as [u s3]. cbn [snd] in Hd3.
  assert (in_roster id address st (sv_db s3)) as Hin3 by (rewrite Hd3, Hd2; exact Hin).
  case_decide; [|by eexists _, _].
  pose proof (onNodeRejoined_same_nodes e id s3) as Hn. destruct (onNodeRejoined e id s3) as [u' s4].
  eexists _, _. split; [done|]. by eapply in_roster_same.
Qed.

Lemma Heartbeat_roster s : schema_ok (sv_db s) -> alive s ->
  exists ms must s', Heartbeat e id address (Some st) s = (Ok (ms, must), s') /\
    (if (must : bool) then sv_db s' = sv_db s /\ sv_thresholds s' = sv_thresholds s else in_roster id address st (sv_db s')).
Proof using Hid Hst Hnow.
  intros Hs Ha. unfold Heartbeat. rewrite (proj2 (String.eqb_neq _ _) Hid). unfold sv_bind at 1, sv_gets at 1. unfold sv_bind at 1, store at 1.
  change (toStoreStats (Some st)) with st. pose proof (RecordHeartbeat_roster (e_dbnow e) (micros (e_now e)) (sv_db s) Hs) as H.
  destruct (RecordHeartbeat _ _ _ _ _ _ _) as [[u|err] d1].
  - destruct H as [Hs1 Hin]. set (s1 := s <| sv_db := d1 |>). unfold sv_bind, heartbeat_ms, sv_gets.
    destruct (observe e id address s1) as [t s2] eqn:E2. destruct (observe_healthy s1 t s2 Ha E2) as [Hd2 Ht].
    assert (in_roster id address st (sv_db s2)) as Hin2 by (rewrite Hd2; exact Hin).
    assert (forall s3, in_roster id address st (sv_db s3) -> in_roster id address st (sv_db (if decide (Monitor_State id (sv_monitor s) <> StateHealthy)
      then invalidateNodeCache e s3 else sv_ret tt s3).2)) as Hlast by (intros s3 H3; case_decide; [by rewrite invalidateNodeCache_db|done]).
    destruct t as [t|].
    + destruct (Ht t eq_refl) as [Hto Hni]. assert (schema_ok (sv_db s2)) as Hs2 by (rewrite Hd2; exact Hs1).
      pose proof (Hlast _ (onTransition_roster t s2 Hs2 Hto Hni Hin2)) as H3. destruct (onTransition e t s2) as [u' s3]. cbn [snd] in H3.
      case_decide; [destruct (invalidateNodeCache e s3) as [u3 s4]|]; by eexists _, _, _.
    + pose proof (Hlast _ Hin2) as H3. unfold sv_ret at 1. case_decide; [destruct (invalidateNodeCache e s2) as [u3 s4]|]; by eexists _, _, _.
  - destruct H as [-> ->]. unfold sv_bind, heartbeat_ms, sv_gets. eexists _, _, _. split; [done|]. by destruct s.
Qed.
End report.

(** C31: a heartbeat that arrives puts the node into the roster. Whatever the
    coordinator remembers of the node (nothing, another address, DEAD), when the
    two calls a heartbeat may make are delivered and the timeouts are positive,
    heartbeatOnce succeeds and the database then has the node's row with the
    advertised address, the reported statistics and the health HEALTHY; a node
    the coordinator does not know registers again within the same heartbeat. *)
Theorem heartbeat_joins reg st a b s :
  delivered a -> delivered b -> rg_nodeID reg <> EmptyString -> rg_advertiseAddr reg <> EmptyString -> stats_check st ->
  e_now (at_env a) <> 0%Z -> e_now (at_env b) <> 0%Z -> schema_ok (sv_db s) -> alive s ->
  exists interval s', heartbeatOnce reg (Ok st) a b s = (Ok interval, s') /\
    in_roster (rg_nodeID reg) (rg_advertiseAddr reg) st (sv_db s').
Proof.
  intros Ha Hb Hid Haddr Hst Hna Hnb Hs Hal. unfold heartbeatOnce, sv_bind at 1. rewrite stub_call_delivered by done.
  destruct (Heartbeat_roster (at_env a) (rg_nodeID reg) (rg_advertiseAddr reg) st Hid Hst Hna s Hs Hal) as (ms&must&s1&->&H).
  destruct must; [|by eexists _, _]. destruct H as [Hd Hth]. unfold sv_bind. rewrite stub_call_delivered by done.
  destruct (RegisterNode_roster (at_env b) (rg_nodeID reg) (rg_advertiseAddr reg) st Hid Hst Hnb s1 Haddr) as (ms2&s2&->&Hin);
    [by rewrite Hd|unfold alive; by rewrite Hth|]. by eexists _, _.
Qed.
End registrar.

(** A node that a fresh coordinator has never heard of. *)
Definition newcomer : Registrar := mkRegistrar "n9" "n9:7000" 5000000000.
Definition newcomer_stats : NodeStats := mkNodeStats 1000 10 990 1 0.

Lemma heartbeat_joins_witness :
  exists interval s', heartbeatOnce newcomer (Ok newcomer_stats) (sample_attempt true 9 0) (sample_attempt true 9 0)
      (w_svc (start ∅)) = (Ok interval, s') /\
    in_roster "n9" "n9:7000" newcomer_stats (sv_db s').
Proof.
  apply (heartbeat_joins newcomer newcomer_stats (sample_attempt true 9 0) (sample_attempt true 9 0) (w_svc (start ∅)));
    [split; reflexivity|split; reflexivity|discriminate|discriminate|split_and!; discriminate|discriminate|discriminate|
     apply start_schema|split; reflexivity].
Defined.
