(* ===== verification/Wire.v ===== *)
(** * The edges of the services

    What lies between the handlers and the wire: the response recorder of the
    access log and the probe of the router (src/internal/gateway/middleware.go,
    router.go), the gRPC interceptors with the level a call is logged at
    (src/internal/observability/grpc.go), the enumerations of the messages
    (src/internal/coordinator/service.go, durability_rpc.go), the headers of an
    object (src/internal/gateway/objects.go), the cause behind a failed send
    (src/internal/gateway/chunkwriter.go) and the space a storage node reports
    (src/internal/storage/diskusage_unix.go, service.go). *)

From stdpp Require Import base numbers gmap strings list.
From S2P Require Import Prelude Chunking Checksum GoStrings RangeReq Download ChunkStore StorageService ChunkWriter Metrics.
From S2P Require Import GoFloat Placement Health Validate Uuid Cache.
From S2P Require Import Sql Schema Statements Chunks Frames Objects Nodes Repair Gc Reconcile Multipart Coordinator Workers Gateway Lifecycle Admin Registrar.

(** ** Response writers *)

Module Recorder.

(** What the client has been sent: net/http's ResponseWriter takes the first
    status, and sends 200 with the first byte or flush if there was none. *)
Record sent := mkSent {
  sn_status : option Z;
  sn_bytes : Z
}.
Definition commit (code : Z) (w : sent) : sent := mkSent (Some (default code (sn_status w))) (sn_bytes w).

(** responseRecorder around it. *)
Record responseRecorder := mkRecorder {
  rec_writer : sent;
  rec_status : Z;
  rec_bytes : Z;
  rec_wroteHeader : bool
}.
Definition new_recorder : responseRecorder := mkRecorder (mkSent None 0) 200 0 false.

Definition WriteHeader (code : Z) (r : responseRecorder) : responseRecorder :=
  if rec_wroteHeader r then r else mkRecorder (commit code (rec_writer r)) code (rec_bytes r) true.
(** [n] is what the connection takes of the bytes. *)
Definition Write (n : Z) (r : responseRecorder) : responseRecorder :=
  let r := if negb (rec_wroteHeader r) then WriteHeader 200 r else r in
  let w := commit 200 (rec_writer r) in
  mkRecorder (mkSent (sn_status w) (sn_bytes w + n)) (rec_status r) (int64 (rec_bytes r + n)) (rec_wroteHeader r).
Definition Flush (r : responseRecorder) : responseRecorder :=
  mkRecorder (commit 200 (rec_writer r)) (rec_status r) (rec_bytes r) (rec_wroteHeader r).

Inductive call := CallWriteHeader (code : Z) | CallWrite (n : Z) | CallFlush.
Definition apply (r : responseRecorder) (c : call) : responseRecorder :=
  match c with CallWriteHeader code => WriteHeader code r | CallWrite n => Write n r | CallFlush => Flush r end.

Definition total (cs : list call) : Z := foldr (fun c acc => match c with CallWrite n => n + acc | _ => acc end)%Z 0%Z cs.
Definition starts_with_flush (cs : list call) : bool := match cs with CallFlush :: _ => true | _ => false end.
Definition counts_ok (cs : list call) : Prop := Forall (fun c => match c with CallWrite n => 0 <= n | _ => True end)%Z cs.

(** Once a header or a byte has been written, the recorder has the client's status. *)
Lemma committed_run cs r : rec_wroteHeader r = true -> sn_status (rec_writer r) = Some (rec_status r) ->
  let r' := foldl apply r cs in
  rec_status r' = rec_status r /\ rec_wroteHeader r' = true /\ sn_status (rec_writer r') = Some (rec_status r).
Proof.
  revert r. induction cs as [|c cs IH]; intros r Hw Hs; [done|]. cbn [foldl].
  assert (rec_status (apply r c) = rec_status r /\ rec_wroteHeader (apply r c) = true /\
    sn_status (rec_writer (apply r c)) = Some (rec_status r)) as (E1&E2&E3).
  { destruct c as [code|n|]; cbn [apply]; unfold Write, WriteHeader, Flush, commit; rewrite Hw; cbn; rewrite ?Hs; done. }
  destruct (IH _ E2) as (F1&F2&F3); [congruence|]. rewrite E1 in *. done.
Qed.
Lemma bytes_run cs r : counts_ok cs -> (0 <= sn_bytes (rec_writer r))%Z -> rec_bytes r = sn_bytes (rec_writer r) ->
  (sn_bytes (rec_writer r) + total cs < 2 ^ 63)%Z ->
  let r' := foldl apply r cs in rec_bytes r' = sn_bytes (rec_writer r') /\ sn_bytes (rec_writer r') = (sn_bytes (rec_writer r) + total cs)%Z.
Proof.
  revert r. induction cs as [|c cs IH]; intros r Hc H0 Hb Hlt; [simpl; split; [done|lia]|]. apply Forall_cons in Hc as [Hn Hc].
  assert (0 <= total cs)%Z by (clear -Hc; induction Hc as [|[] l Hx _ IH]; simpl; lia).
  assert (total (c :: cs) = total [c] + total cs)%Z as Ec by (destruct c; simpl; lia). rewrite Ec in *.
  assert (0 <= total [c])%Z by (destruct c; simpl; lia).
  assert (sn_bytes (rec_writer (apply r c)) = sn_bytes (rec_writer r) + total [c] /\ rec_bytes (apply r c) = sn_bytes (rec_writer (apply r c)))%Z as [E1 E2].
  { destruct c as [code|n|]; [|change (total [CallWrite n]) with (n + 0)%Z in *|]; cbn [apply]; unfold Write, WriteHeader, Flush, commit;
      destruct (rec_wroteHeader r); cbn [negb rec_bytes rec_writer sn_bytes]; rewrite ?int64_small by lia; simpl; lia. }
  cbn [foldl]. destruct (IH (apply r c) Hc) as [F1 F2]; [lia|done|lia|]. split; [done|]. lia.
Qed.

(** The access log tells the truth: for a handler that does not flush before
    anything else, the recorded status and size are those of the response. *)
Theorem recorder_truth cs : starts_with_flush cs = false -> counts_ok cs -> (total cs < 2 ^ 63)%Z ->
  let r := foldl apply new_recorder cs in
  rec_status r = default 200%Z (sn_status (rec_writer r)) /\ rec_bytes r = total cs /\ sn_bytes (rec_writer r) = total cs.
Proof.
  intros Hf Hc Ht r. destruct (bytes_run cs new_recorder Hc) as [B1 B2]; [done|done|simpl; lia|]. fold r in B1, B2.
  split; [|simpl in B2; lia]. subst r. destruct cs as [|c cs]; [done|]. cbn [foldl]. destruct c as [code|n|]; [..|done].
  - destruct (committed_run cs (apply new_recorder (CallWriteHeader code))) as (E1&_&E3); [done|done|]. by rewrite E3.
  - destruct (committed_run cs (apply new_recorder (CallWrite n))) as (E1&_&E3); [done|done|]. by rewrite E3.
Qed.
(** A handler that flushes first would be logged with a status the client never
    saw. *)
Lemma flush_first_misreports : let r := foldl apply new_recorder [CallFlush; CallWriteHeader 500] in
  rec_status r = 500%Z /\ sn_status (rec_writer r) = Some 200%Z.
Proof. done. Qed.

(** statusProbe: the first status, nothing is sent. *)
Definition probe (status : Z) (c : call) : Z :=
  match c with
  | CallWriteHeader code => if (status =? 0)%Z then code else status
  | CallWrite _ => if (status =? 0)%Z then 200 else status
  | CallFlush => status
  end.
Lemma probe_first code cs : code <> 0%Z -> foldl probe 0%Z (CallWriteHeader code :: cs) = code.
Proof.
  intros Hc. cbn [foldl probe]. rewrite Z.eqb_refl. revert code Hc.
  induction cs as [|c cs IH]; intros code Hc; [done|]. cbn [foldl].
  assert (probe code c = code) as -> by (destruct c; cbn; rewrite ?(proj2 (Z.eqb_neq code 0)) by done; done). by apply IH.
Qed.
End Recorder.

(** ** Interceptors *)

Module Interceptors.
Import Tracing.

Inductive Level := LevelDebug | LevelInfo | LevelError.

(** observeGRPC: [None] is a nil error. *)
Definition log_level (code : option Z) : Level :=
  match code with
  | None => LevelDebug
  | Some c =>
      if (c =? NotFound)%Z || (c =? InvalidArgument)%Z || (c =? AlreadyExists)%Z || (c =? Canceled)%Z then LevelInfo else LevelError
  end.

(** UnaryServerInterceptor, and StreamServerInterceptor, whose handler takes the
    wrapped stream's context: the handler runs under the adopted identifier, its
    result is passed on, and the call is measured and logged once. *)
Definition UnaryServerInterceptor {A} (code_name : option Z -> string) (method : string) (handler : context -> result Z A) (ctx : context) :
    result Z A * list Families.sample * Level :=
  let r := handler (adoptRequestID ctx) in
  let code := match r with Ok _ => None | Err c => Some c end in
  (r, Families.observeGRPC_samples method (code_name code), log_level code).
(** UnaryClientInterceptor and StreamClientInterceptor. *)
Definition UnaryClientInterceptor {A} (invoker : context -> A) (ctx : context) : A := invoker (injectRequestID ctx).

(** An error is logged as one exactly when the client is not the one to blame. *)
Lemma logged_as_error {A} code_name method (handler : context -> result Z A) ctx :
  (UnaryServerInterceptor code_name method handler ctx).2 = LevelError <->
  exists c, handler (adoptRequestID ctx) = Err c /\ c ∉ [NotFound; InvalidArgument; AlreadyExists; Canceled].
Proof.
  unfold UnaryServerInterceptor. cbn [snd]. destruct (handler _) as [a|c]; cbn [log_level].
  - split; [done|]. intros (c&?&_). done.
  - destruct (_ || _) eqn:E.
    + split; [done|]. intros (c'&[= <-]&Hn). exfalso. apply Hn. rewrite !orb_true_iff, !Z.eqb_eq in E. set_solver.
    + split; [|done]. intros _. exists c. split; [done|]. rewrite !orb_false_iff, !Z.eqb_neq in E. set_solver.
Qed.
End Interceptors.

(** ** Messages *)

Inductive NodeHealthMsg := NODE_HEALTH_UNSPECIFIED | NODE_HEALTH_HEALTHY | NODE_HEALTH_SUSPECT | NODE_HEALTH_DEAD.
Definition toProtoHealth (s : State) : NodeHealthMsg :=
  match s with
  | StateHealthy => NODE_HEALTH_HEALTHY
  | StateSuspect => NODE_HEALTH_SUSPECT
  | StateDead => NODE_HEALTH_DEAD
  | StateUnknown => NODE_HEALTH_UNSPECIFIED
  end.
Inductive ObjectStateMsg :=
  | OBJECT_STATE_UNSPECIFIED | OBJECT_STATE_UPLOADING | OBJECT_STATE_COMPLETE | OBJECT_STATE_DELETING | OBJECT_STATE_FAILED.
Definition toProtoObjectState (s : ObjectState) : ObjectStateMsg :=
  match s with
  | ObjectUploading => OBJECT_STATE_UPLOADING
  | ObjectComplete => OBJECT_STATE_COMPLETE
  | ObjectDeleting => OBJECT_STATE_DELETING
  | ObjectFailed => OBJECT_STATE_FAILED
  end.
Inductive RepairJobStateMsg :=
  | REPAIR_JOB_STATE_UNSPECIFIED | REPAIR_JOB_STATE_PENDING | REPAIR_JOB_STATE_RUNNING | REPAIR_JOB_STATE_SUCCEEDED | REPAIR_JOB_STATE_FAILED.
Definition toProtoRepairState (s : RepairJobState) : RepairJobStateMsg :=
  match s with
  | RepairPending => REPAIR_JOB_STATE_PENDING
  | RepairRunning => REPAIR_JOB_STATE_RUNNING
  | RepairSucceeded => REPAIR_JOB_STATE_SUCCEEDED
  | RepairFailed => REPAIR_JOB_STATE_FAILED
  end.

Record NodeInfoMsg := mkNodeInfoMsg {
  ni_NodeId : string;
  ni_GrpcAddress : string;
  ni_Health : NodeHealthMsg;
  ni_Stats : NodeStats;
  ni_RegisteredAt : Z;
  ni_LastHeartbeatAt : option Z
}.
Definition toProtoNode (n : Node) : NodeInfoMsg :=
  mkNodeInfoMsg (n_ID n) (n_Address n) (toProtoHealth (parsed_health (n_Health n)))
    (mkNodeStats (n_TotalBytes n) (n_UsedBytes n) (n_AvailableBytes n) (n_ChunkCount n) (n_ActiveRequests n))
    (n_RegisteredAt n) (n_LastHeartbeatAt n).

(** shortHealth of the gateway, on the message. *)
Definition shortHealthMsg (h : NodeHealthMsg) : string :=
  match h with
  | NODE_HEALTH_HEALTHY => "HEALTHY"
  | NODE_HEALTH_SUSPECT => "SUSPECT"
  | NODE_HEALTH_DEAD => "DEAD"
  | NODE_HEALTH_UNSPECIFIED => "UNKNOWN"
  end.

(** The other files use the states where the messages have their enumerations.
    Nothing is lost on the way: the dashboard names the state that was stored,
    and no two states share a message. *)
Lemma messages_are_faithful :
  (forall n, shortHealthMsg (ni_Health (toProtoNode n)) = shortHealth (parsed_health (n_Health n))) /\
  (forall n, ParseState (shortHealthMsg (ni_Health (toProtoNode n))) = Ok (parsed_health (n_Health n))) /\
  Inj (=) (=) toProtoHealth /\ Inj (=) (=) toProtoObjectState /\ Inj (=) (=) toProtoRepairState.
Proof.
  split; [intros n; cbn; by destruct (n_Health n)|]. split; [intros n; cbn; by destruct (n_Health n)|].
  split_and!; intros [] [] [=]; done.
Qed.

(** writeObjectHeaders; the time of the last change is left as the instant. *)
Definition writeObjectHeaders (o : ObjectMsg) : list (string * string) * option Z :=
  ([("Content-Type", om_ContentType o); ("ETag", quoteETag (om_Etag o)); ("Accept-Ranges", "none");
    ("X-Flexstore-Object-Id", om_ObjectId o); ("X-Flexstore-Version", FormatInt (om_Version o));
    ("X-Flexstore-Chunk-Count", FormatInt (om_ChunkCount o)); ("X-Flexstore-Chunk-Size", FormatInt (om_ChunkSize o))],
   om_CompletedAt o).

(** sendErr: the status of a failed Send, and what closing the stream says. *)
Definition sendErr (err : Z) (closed : option Z) : Z :=
  if negb (err =? Unknown)%Z && negb (err =? 0)%Z then err else default err closed.
(** A Send that only says end of file, which has no status, is told by the
    server's own answer. *)
Lemma sendErr_cause err closed : err = Unknown -> sendErr err (Some closed) = closed.
Proof. by intros ->. Qed.

(** ** The space of a storage node *)

Module Disk.

(** What statfs reports: blocks of the file system and those free for the node,
    both unsigned 64-bit, and the size of a block. *)
Record Statfs := mkStatfs {
  st_Blocks : Z;
  st_Bavail : Z;
  st_Bsize : Z
}.
Definition diskUsage (st : option Statfs) : result chunk_error (Z * Z) :=
  match st with
  | None => Err (ErrIO SysStat)
  | Some st => Ok (int64 (int64 (st_Blocks st) * st_Bsize st), int64 (int64 (st_Bavail st) * st_Bsize st))
  end.
Definition diskAvailable (st : option Statfs) : result chunk_error Z :=
  match diskUsage st with Err e => Err e | Ok (_, avail) => Ok avail end.

(** storage.Service.GetNodeStats *)
Definition GetNodeStats (nodeID : string) (cs : ChunkStore) (st : option Statfs) : result Z (string * NodeStats) :=
  match node_stats cs (diskUsage st) with Err _ => Err Internal | Ok stats => Ok (nodeID, stats) end.

(** A file system of less than 8 EiB, with no more free than there is. *)
Definition statfs_ok (st : Statfs) : Prop :=
  (0 < st_Bsize st /\ 0 <= st_Bavail st <= st_Blocks st /\ st_Blocks st * st_Bsize st < 2 ^ 63)%Z.
Lemma diskUsage_exact st : statfs_ok st -> diskUsage (Some st) = Ok (st_Blocks st * st_Bsize st, st_Bavail st * st_Bsize st)%Z.
Proof.
  intros (H1&H2&H3). assert (st_Blocks st < 2 ^ 63)%Z by nia. assert (st_Bavail st * st_Bsize st <= st_Blocks st * st_Bsize st)%Z by nia.
  unfold diskUsage. by rewrite !int64_small by (rewrite ?int64_small by lia; nia).
Qed.

(** What a node offers: never more than the file system has free, never more
    than is left of its quota, and never a negative amount. *)
Lemma stats_never_overcommit nodeID cs st id stats : statfs_ok st -> (0 <= cs_usedBytes cs < 2 ^ 63)%Z -> (cs_capacity cs < 2 ^ 63)%Z ->
  GetNodeStats nodeID cs (Some st) = Ok (id, stats) ->
  (id = nodeID /\ 0 <= ns_AvailableBytes stats <= st_Bavail st * st_Bsize st /\
   (0 < cs_capacity cs -> ns_AvailableBytes stats <= Z.max 0 (cs_capacity cs - cs_usedBytes cs)))%Z.
Proof.
  intros Hst Hu Hc. unfold GetNodeStats, node_stats. rewrite (diskUsage_exact st Hst). unfold Stats. destruct Hst as (H1&H2&_).
  assert (0 <= st_Bavail st * st_Bsize st)%Z by nia.
  case_decide as Hcap; [|by intros [= <- <-]; cbn; split_and!; (done || lia)].
  rewrite int64_small by lia. intros [= <- <-]. cbn. split; [done|]. repeat case_decide; lia.
Qed.
End Disk.
