(* ===== verification/Retries.v ===== *)
(** * The retry loops are runs of retry.Do

    The three places that retry: the calls of the gateway's CoordinatorClient
    (src/internal/gateway/client.go), the registration of a storage node
    (src/internal/storage/registrar.go) and the opening of the metadata store
    (src/internal/metadata/store.go). Each is written here with Do and the
    closure of the source; the loops the other files use are equal to them, so
    what [Retry] shows of Do holds of them. *)

From stdpp Require Import base numbers gmap strings list sorting.
From S2P Require Import Prelude Chunking Checksum GoStrings RangeReq Download ChunkStore StorageService ChunkWriter.
From S2P Require Import GoFloat Placement Retry Health Validate Uuid Cache.
From S2P Require Import Sql Schema Statements Chunks Frames Objects Nodes Repair Gc Reconcile Multipart Coordinator Workers Gateway Registrar.

(** ** The coordinator client *)

Module Client.
Section calls.
Context `{GM : !GoMath} {A : Type} (attempts : nat -> attempt) (draw : Z -> float64) (fn : env -> Rpc A).

(** The leaves are gRPC statuses, or the context's error, which has none. *)
Definition grpc_error : Type := error (option Z).
Definition ctx_of : context (option Z) :=
  mkContext (fun i => at_cancelled (attempts (Z.to_nat i))) (fun i => at_interrupted (attempts (Z.to_nat i))) (Leaf None) draw.

(** [status.FromError]: the first status in the tree. *)
Fixpoint FromError (err : grpc_error) : option Z :=
  match err with
  | Leaf c => c
  | permanent e | Errorf e | GivingUp _ e => FromError e
  | RetryAborted _ a b => match FromError a with Some c => Some c | None => FromError b end
  end.

(** The closure: the response is a variable of the method. *)
Definition call_once (i : Z) (st : option A * Service) : option grpc_error * (option A * Service) :=
  let '(_, s) := st in
  let '(r, s') := stub_call fn (attempts (Z.to_nat i)) s in
  match r with
  | Ok a => (None, (Some a, s'))
  | Err code => (if negb (isTransient code) then Permanent (Some (Leaf (Some code))) else Some (Leaf (Some code)), (None, s'))
  end.

(** CoordinatorClient.call and the method around it. *)
Definition policy (retryable : bool) : Policy :=
  let p := DefaultPolicy in
  if retryable then p else mkPolicy 1 (BaseDelay p) (MaxDelay p) (Multiplier p) (Jitter p).
Definition call (retryable : bool) : Rpc A := fun s =>
  let r := Do ctx_of (policy retryable) call_once (None, s) in
  (match rn_err r with
   | Some e => Err (default Unknown (FromError e))
   | None => match (rn_state r).1 with Some a => Ok a | None => Err Unknown end
   end, (rn_state r).2).

Lemma retry_loop_S left i last s :
  retry_loop attempts fn (S left) i last s =
    if at_cancelled (attempts i) then (Err (default Unknown last), s)
    else
      let '(r, s') := stub_call fn (attempts i) s in
      match r with
      | Ok a => (Ok a, s')
      | Err code =>
          if negb (isTransient code) then (Err code, s')
          else if decide (left = 0)%nat then (Err code, s')
          else if at_interrupted (attempts i) then (Err code, s')
          else retry_loop attempts fn left (S i) (Some code) s'
      end.
Proof.
  cbn [retry_loop]. destruct (at_cancelled (attempts i)); [done|]. unfold sv_bind. destruct (stub_call _ _ _) as [[a|code] s']; [done|].
  repeat case_decide || case_match; done.
Qed.
Lemma loop_is_Do p left (i : nat) last resp s : (1 <= i)%nat ->
  retry_loop attempts fn (S left) i (last ≫= FromError) s =
    let r := do_loop ctx_of p call_once left (Z.of_nat i) last (resp, s) in
    (match rn_err r with
     | Some e => Err (default Unknown (FromError e))
     | None => match (rn_state r).1 with Some a => Ok a | None => Err Unknown end
     end, (rn_state r).2).
Proof.
  revert i last resp s. induction left as [|left IH]; intros i last resp s Hi; rewrite retry_loop_S; cbn [do_loop ctx_of cx_done];
    rewrite Nat2Z.id; (destruct (at_cancelled (attempts i)); [by destruct last as [l|]|]);
    cbn [call_once]; rewrite Nat2Z.id; unfold sv_bind; destruct (stub_call fn (attempts i) s) as [r s']; (destruct r as [a|code]; [done|]);
    (destruct (isTransient code) eqn:Ht; cbn [negb Permanent fmap option_fmap option_map IsPermanent]; [|done]).
  - done.
  - rewrite decide_False by done.
    assert (cx_interrupted ctx_of (Z.of_nat i) = at_interrupted (attempts i)) as -> by (cbn; by rewrite Nat2Z.id).
    destruct (at_interrupted (attempts i)); [done|].
    specialize (IH (S i) (Some (Leaf (Some code))) None s' ltac:(lia)). rewrite Nat2Z.inj_succ, <-Z.add_1_r in IH. exact IH.
Qed.

(** A call of the client is a run of Do with its policy. *)
Lemma client_call_is_Do retryable s : client_call attempts fn retryable s = call retryable s.
Proof. destruct retryable; [apply (loop_is_Do DefaultPolicy 2 1 None None s)|apply (loop_is_Do (policy false) 0 1 None None s)]; lia. Qed.
End calls.
End Client.

(** ** The registration of a storage node *)

Module Registration.
Section registration.
Context `{PG : !Postgres, UU : !Uuid, GM : !GoMath, GS : !GoSort}.
Context (attempts : nat -> attempt) (draw : Z -> float64) (stats : nat -> result chunk_error NodeStats).

Definition ctx_of : context registrar_error :=
  mkContext (fun i => at_cancelled (attempts (Z.to_nat i))) (fun i => at_interrupted (attempts (Z.to_nat i))) (Leaf ContextDone) draw.

(** The closure; the interval of the registrar is updated by the answer. *)
Definition register_once (i : Z) (st : Registrar * Service) : option (error registrar_error) * (Registrar * Service) :=
  let '(reg, s) := st in
  match stats (Z.to_nat i) with
  | Err e => (Permanent (Some (Leaf (StatsFailed e))), (reg, s))
  | Ok st =>
      let '(r, s') := stub_call (fun e => RegisterNode e (rg_nodeID reg) (rg_advertiseAddr reg) (Some st)) (attempts (Z.to_nat i)) s in
      match r with
      | Err code => (Some (Leaf (CallFailed code)), (reg, s'))
      | Ok ms =>
          (None, (if decide (0 < ms)%Z then mkRegistrar (rg_nodeID reg) (rg_advertiseAddr reg) (int64 (ms * millisecond)) else reg, s'))
      end
  end.

(** The error without the messages around it; an aborted retry is told by its
    first cause. *)
Fixpoint cause (err : error registrar_error) : registrar_error :=
  match err with
  | Leaf e => e
  | permanent e | Errorf e | GivingUp _ e => cause e
  | RetryAborted _ a _ => cause a
  end.

Definition Register_Do (reg : Registrar) : Sv (result registrar_error Registrar) := fun s =>
  let r := Do ctx_of StartupPolicy register_once (reg, s) in
  (match rn_err r with Some e => Err (cause e) | None => Ok (rn_state r).1 end, (rn_state r).2).

Lemma register_loop_is_Do p reg left (i : nat) last prev s : (1 <= i)%nat ->
  register_loop attempts stats reg (S left) i prev s =
    let r := do_loop ctx_of p register_once left (Z.of_nat i) last (reg, s) in
    (match rn_err r with Some e => Err (cause e) | None => Ok (rn_state r).1 end, (rn_state r).2).
Proof.
  revert i last prev s. induction left as [|left IH]; intros i last prev s Hi;
    cbn [do_loop ctx_of cx_done register_once]; cbn [register_loop]; rewrite Nat2Z.id;
    (destruct (at_cancelled (attempts i)); [by destruct last as [l|]|]);
    (destruct (stats i) as [st|e]; [|done]); unfold sv_bind;
    destruct (stub_call _ (attempts i) s) as [r s']; (destruct r as [ms|code]; [done|]); cbn [IsPermanent].
  - done.
  - rewrite decide_False by done.
    assert (cx_interrupted ctx_of (Z.of_nat i) = at_interrupted (attempts i)) as -> by (cbn; by rewrite Nat2Z.id).
    destruct (at_interrupted (attempts i)); [done|].
    specialize (IH (S i) (Some (Leaf (CallFailed code))) (CallFailed code) s' ltac:(lia)).
    rewrite Nat2Z.inj_succ, <-Z.add_1_r in IH. exact IH.
Qed.

(** Register is a run of Do with the startup policy. *)
Lemma Register_is_Do reg s : Register attempts stats reg s = Register_Do reg s.
Proof. apply (register_loop_is_Do StartupPolicy reg 29 1 None ContextDone s). lia. Qed.
End registration.
End Registration.
