(* ===== verification/Startup.v ===== *)
(** * The coordinator process (src/cmd/coordinator/main.go)

    How the settings become the service and its background workers, and the
    loops the workers run (src/internal/coordinator/workers.go, repair.go and
    reconcile.go). Every loop runs beside the requests and the other workers:
    what they do between two rounds is an argument, as is the moment at which
    the context is done. *)

From stdpp Require Import base numbers gmap strings list sorting.
From S2P Require Import Prelude Chunking Checksum ChunkStore StorageService ChunkWriter GoFloat GoStrings GoParse Config Placement Health Validate Uuid Cache.
From S2P Require Import Sql Schema Statements Chunks Frames Runs Objects Nodes Repair Gc Reconcile Multipart Store Trim Commit ChunkInv RepairOps.
From S2P Require Import Coordinator Workers Reconciler Refinement Samples Roster.

(** ** Wiring *)

Definition service_config (c : CoordinatorSettings) : CoordinatorConfig :=
  mkCoordinatorConfig (cc_ChunkSize c) (cc_ReplicationFactor c) (cc_MinWriteReplicas c) (cc_HeartbeatInterval c)
    (cc_ObjectCacheTTL c) (cc_NodeCacheTTL c) (cc_UploadStaleAfter c).
Definition repair_config (c : CoordinatorSettings) : RepairConfig :=
  mkRepairConfig (cc_RepairEnabled c) (cc_RepairWorkers c) (cc_RepairScanInterval c) (cc_RepairScanBatch c)
    (cc_RepairMaxPerNode c) (cc_RepairJobTimeout c) (cc_RepairLease c) (cc_RepairMaxAttempts c)
    (cc_RepairBaseBackoff c) (cc_RepairMaxBackoff c) (cc_ReplicationFactor c) (cc_RepairHistoryTTL c).
Definition reconcile_config (c : CoordinatorSettings) : ReconcileConfig :=
  mkReconcileConfig (cc_ReconcileEnabled c) (cc_ReconcileInterval c) (cc_ReconcilePageSize c) (cc_ReconcileTimeout c)
    (cc_ReconcileLease c) (cc_ReconcileVerify c).
Definition NewService (c : CoordinatorSettings) (d : db) (cache : Cache) (placer : Strategy) : Service :=
  mkService (service_config c) d cache (mkThresholds (cc_SuspectTimeout c) (cc_DeadTimeout c)) ∅ placer None ∅.

(** ** The goroutines *)

Inductive task :=
  | HealthMonitor | GCWorker | StatsWorker
  | RepairScanner | RepairWorker (id : nat)
  | ReconcileWorker | DurabilityAuditor.

(** The ones that run: a manager that is disabled waits for the end. *)
Definition tasks (c : CoordinatorSettings) : list task :=
  [HealthMonitor; GCWorker; StatsWorker] ++
  (if cc_RepairEnabled c then RepairScanner :: (RepairWorker <$> seq 0 (Z.to_nat (cc_RepairWorkers c))) else []) ++
  (if cc_ReconcileEnabled c then [ReconcileWorker] else []) ++
  [DurabilityAuditor].

(** The interval of the ticker a task makes; a repair worker polls instead. *)
Definition ticker (c : CoordinatorSettings) (t : task) : option Z :=
  match t with
  | HealthMonitor => Some (cc_HealthScanInterval c)
  | GCWorker => Some (cc_GCInterval c)
  | StatsWorker => Some (int64 (cc_HealthScanInterval c * 3))
  | RepairScanner => Some (cc_RepairScanInterval c)
  | RepairWorker _ => None
  | ReconcileWorker => Some (cc_ReconcileInterval c)
  | DurabilityAuditor => Some (cc_DurabilityAuditInterval c)
  end.
(** time.NewTicker panics unless the interval is positive. *)
Definition NewTicker_panics (d : Z) : bool := (d <=? 0)%Z.
Definition task_panics (c : CoordinatorSettings) (t : task) : bool :=
  match ticker c t with Some d => NewTicker_panics d | None => false end.

Inductive startup_error :=
  | BadConfiguration (errs : list config_error)
  | BadStrategy (err : placement_error)
  | RehydrateFailed (err : store_error).

Inductive outcome :=
  | Refused (err : startup_error)
  | Panicked
  | Running (c : CoordinatorSettings) (s : Service).

Section startup.
Context `{PG : !Postgres, UU : !Uuid, GM : !GoMath, GS : !GoSort, GR : !GoRange, GU : !GoUnicode}.

(** From the environment to the running service, on a migrated database. *)
Definition run_coordinator (e : env) (penv : Env) (rng : Rand) (d : db) (cache : Cache) : outcome :=
  let '(c, errs) := LoadCoordinator penv in
  match errs with
  | _ :: _ => Refused (BadConfiguration errs)
  | [] =>
      match New (cc_PlacementStrategy c) DefaultConfig rng with
      | Err err => Refused (BadStrategy err)
      | Ok placer =>
          let '(r, s) := Rehydrate e (NewService c d cache placer) in
          match r with
          | Err err => Refused (RehydrateFailed err)
          | Ok _ =>
              if existsb (task_panics c) (tasks c) then Panicked
              else Running c (s <| sv_repair := Some (repair_config c) |>)
          end
      end
  end.
End startup.

(** ** The loops *)

(** One round of a loop: whether the context is done while it waits for the
    ticker, what the rest of the system does meanwhile, and the round's clock. *)
Record tick := mkTick {
  tk_done : bool;
  tk_meanwhile : World -> World;
  tk_env : env
}.
Definition elsewhere (t : tick) : Wd unit := fun w => (tt, tk_meanwhile t w).

(** What the stats worker publishes. *)
Record gauges := mkGauges {
  ga_UnderReplicated : Z;
  ga_Unavailable : Z;
  ga_RepairJobs : RepairJobState -> Z;
  ga_ChunksTotal : Z;
  ga_Objects : ObjectState -> Z;
  ga_Nodes : list (string * State * Z * Z * Z)
}.

Record gc_tick := mkGcTick {
  gt_tick : tick;
  gt_stop : Z -> bool;
  gt_fates : Z -> fate;
  gt_cancelled : bool
}.
Record repair_round := mkRepairRound {
  rr_done : bool;
  rr_meanwhile : World -> World;
  rr_env : env;
  rr_net : repair_net;
  rr_cancelled : bool;
  rr_done_asleep : bool
}.
(** A round of the reconciler: the jobs it drains, each with its network and
    whether the context is done afterwards; then the wait. *)
Record reconcile_round := mkReconcileRound {
  xr_jobs : list ((World -> World) * env * reconcile_net * bool);
  xr_tick : tick
}.

Definition initial_idle : Z := 250 * millisecond.
Definition max_idle (cfg : RepairConfig) : Z := Z.max second (rcf_ScanInterval cfg).

Section loops.
Context `{PG : !Postgres, UU : !Uuid, GM : !GoMath, GS : !GoSort, GR : !GoRange, FW : !FileWalk}.

Fixpoint HealthWorker_Run (ticks : list tick) : Wd unit :=
  match ticks with
  | [] => wd_ret tt
  | t :: ticks' =>
      if tk_done t then wd_ret tt
      else act! elsewhere t in act! svc (health_sweep (tk_env t)) in HealthWorker_Run ticks'
  end.

Fixpoint GCWorker_Run (interval batch : Z) (ticks : list gc_tick) : Wd unit :=
  match ticks with
  | [] => wd_ret tt
  | t :: ticks' =>
      if tk_done (gt_tick t) then wd_ret tt
      else
        act! elsewhere (gt_tick t) in
        wd! r := GC_cycle (tk_env (gt_tick t)) interval batch (gt_stop t) (gt_fates t) in
        match r with
        | Ok _ => GCWorker_Run interval batch ticks'
        | Err _ => if gt_cancelled t then wd_ret tt else GCWorker_Run interval batch ticks'
        end
  end.

Definition refresh : Sv gauges :=
  sv! rf := sv_gets (fun s => cfg_ReplicationFactor (sv_cfg s)) in
  sv! counts := load (DurabilityCounts rf) in
  sv! jobs := load RepairCounts in
  sv! stats := load (ClusterStats_read rf) in
  sv! nodes := load (ListNodes false) in
  sv_ret (mkGauges counts.1 counts.2 jobs (cs_TotalChunks stats) (cs_ObjectsByState stats)
    ((fun n => (n_ID n, parsed_health (n_Health n), n_UsedBytes n, n_TotalBytes n, n_ActiveRequests n)) <$> nodes)).

Fixpoint stats_loop (ticks : list tick) : Wd (list gauges) :=
  match ticks with
  | [] => wd_ret []
  | t :: ticks' =>
      if tk_done t then wd_ret []
      else
        act! elsewhere t in
        wd! g := svc refresh in
        wd! gs := stats_loop ticks' in
        wd_ret (g :: gs)
  end.
Definition StatsWorker_Run (ticks : list tick) : Wd (list gauges) :=
  wd! g := svc refresh in
  wd! gs := stats_loop ticks in
  wd_ret (g :: gs).

Fixpoint DurabilityAuditor_Run (ticks : list tick) : Wd Z :=
  match ticks with
  | [] => wd_ret 0%Z
  | t :: ticks' =>
      if tk_done t then wd_ret 0%Z
      else
        act! elsewhere t in
        wd! drift := svc audit_once in
        wd! more := DurabilityAuditor_Run ticks' in
        wd_ret (drift + more)%Z
  end.

Fixpoint scanner_loop (cfg : RepairConfig) (ticks : list tick) : Wd unit :=
  match ticks with
  | [] => wd_ret tt
  | t :: ticks' =>
      if tk_done t then wd_ret tt
      else act! elsewhere t in act! svc (scanOnce (tk_env t) cfg) in scanner_loop cfg ticks'
  end.
Definition runScanner (e : env) (cfg : RepairConfig) (ticks : list tick) : Wd unit :=
  act! svc (scanOnce e cfg) in scanner_loop cfg ticks.

(** runWorker from a given idle delay: the delays it slept. *)
Fixpoint worker_loop (cfg : RepairConfig) (owner : string) (rounds : list repair_round) (idle : Z) : Wd (list Z) :=
  match rounds with
  | [] => wd_ret []
  | r :: rounds' =>
      act! (fun w => (tt, rr_meanwhile r w)) in
      if rr_done r then wd_ret []
      else
        wd! res := claimAndRepair (rr_env r) cfg owner (rr_net r) in
        let '(worked, err) := res in
        if worked && negb (match err with Some _ => negb (rr_cancelled r) | None => false end) then
          worker_loop cfg owner rounds' initial_idle
        else if rr_cancelled r || rr_done_asleep r then wd_ret []
        else
          wd! more := worker_loop cfg owner rounds'
                        (if decide (idle < max_idle cfg)%Z then int64 (idle * 2) else idle) in
          wd_ret (idle :: more)
  end.
Definition runWorker (cfg : RepairConfig) (owner : string) (rounds : list repair_round) : Wd (list Z) :=
  worker_loop cfg owner rounds initial_idle.

(** Run, up to the goroutines it starts. *)
Definition RepairManager_Run (e : env) (cfg : RepairConfig) : Sv unit :=
  if rcf_Enabled cfg then run! store (ReclaimExpiredRepairLeases (e_dbnow e)) in sv_ret tt else sv_ret tt.

Fixpoint drain (cfg : ReconcileConfig) (owner : string) (jobs : list ((World -> World) * env * reconcile_net * bool)) : Wd unit :=
  match jobs with
  | [] => wd_ret tt
  | (meanwhile, e, net, cancelled) :: jobs' =>
      act! (fun w => (tt, meanwhile w)) in
      wd! r := runOne e cfg owner net in
      if negb r.1 || cancelled then wd_ret tt else drain cfg owner jobs'
  end.
Fixpoint reconcile_loop (cfg : ReconcileConfig) (owner : string) (rounds : list reconcile_round) : Wd unit :=
  match rounds with
  | [] => wd_ret tt
  | r :: rounds' =>
      act! drain cfg owner (xr_jobs r) in
      if tk_done (xr_tick r) then wd_ret tt
      else
        act! elsewhere (xr_tick r) in
        act! svc (store (ReclaimExpiredReconcileLeases (e_dbnow (tk_env (xr_tick r))))) in
        act! svc (sweepStaleNodes (tk_env (xr_tick r))) in
        reconcile_loop cfg owner rounds'
  end.
Definition Reconciler_Run (e : env) (cfg : ReconcileConfig) (owner : string) (rounds : list reconcile_round) : Wd unit :=
  if xc_Enabled cfg then
    act! svc (store (ReclaimExpiredReconcileLeases (e_dbnow e))) in
    reconcile_loop cfg owner rounds
  else wd_ret tt.
End loops.

(** ** Rehydration *)

(** The health column and the monitor after seeding. *)
Definition seeded (thr : Thresholds) (now : Z) (n : Node) : nodeState :=
  let last := match n_LastHeartbeatAt n with Some t => nanos t | None => 0%Z end in
  mkNodeState (n_Address n) (Classify last now thr) last.

Section rehydrate.
Context `{PG : !Postgres}.

Lemma SetNodeHealth_run now n h d : schema_ok d ->
  exists r d', SetNodeHealth now n h d = (Ok r, d') /\ schema_ok d' /\
    forall x, sn_health <$> storage_nodes d' !! x = (if decide (x = n) then fun _ => h else id) <$> (sn_health <$> storage_nodes d !! x).
Proof.
  intros Hs.
  destruct (update_nodes_run (fun k _ => k = n) (fun r => r <| sn_health := h |> <| sn_updated_at := now |>) d Hs)
    as (d1&H1&Hd1&Hs1); [done|].
  pose proof (update_replicas_run (fun k r => k.2 = n /\ demotable r) (unavailable_row now) d1 Hs1) as H2.
  assert (exists r d', SetNodeHealth now n h d = (Ok r, d') /\ storage_nodes d' = storage_nodes d1) as (r&d'&E&Hn).
  { unfold SetNodeHealth, inTx, tx_bind. rewrite H1. case_bool_decide; [by eexists _, _|].
    unfold demote_replicas. unfold unavailable_row in H2 at 1. rewrite H2. eexists _, _. split; [done|]. by rewrite trigger_nodes. }
  exists r, d'. split_and!; [done|exact (keeps_SetNodeHealth _ _ _ _ _ _ Hs E)|]. intros x. rewrite Hn, Hd1. simpl.
  rewrite lookup_update_where. destruct (storage_nodes d !! x); [|done]. simpl. by case_decide.
Qed.

(** What seeding the nodes leaves: their entries in the monitor and their health
    columns, and nothing else of either changes. *)
Lemma rehydrate_nodes_run e nodes s :
  schema_ok (sv_db s) -> NoDup (n_ID <$> nodes) ->
  (forall n, n ∈ nodes -> sn_health <$> storage_nodes (sv_db s) !! n_ID n = Some (n_Health n)) ->
  exists s', rehydrate_nodes e nodes s = (Ok tt, s') /\
    sv_cfg s' = sv_cfg s /\ sv_thresholds s' = sv_thresholds s /\ sv_placer s' = sv_placer s /\
    (forall x, x ∉ n_ID <$> nodes -> sv_monitor s' !! x = sv_monitor s !! x /\
       sn_health <$> storage_nodes (sv_db s') !! x = sn_health <$> storage_nodes (sv_db s) !! x) /\
    (forall n, n ∈ nodes -> sv_monitor s' !! n_ID n = Some (seeded (sv_thresholds s) (e_now e) n) /\
       sn_health <$> storage_nodes (sv_db s') !! n_ID n =
         Some (stored_health (ns_state (seeded (sv_thresholds s) (e_now e) n)))).
Proof.
  revert s. induction nodes as [|n nodes IH]; intros s Hs Hnd Hrows.
  { exists s. split_and!; try done. intros n Hn. by apply elem_of_nil in Hn. }
  apply NoDup_cons in Hnd as [Hn Hnd].
  pose proof (Hrows n (list_elem_of_here _ _)) as Hrow.
  set (ns := seeded (sv_thresholds s) (e_now e) n).
  set (s1 := s <| sv_monitor := <[n_ID n := ns]> (sv_monitor s) |>).
  assert (exists s2, rehydrate_nodes e (n :: nodes) s = rehydrate_nodes e nodes s2 /\ schema_ok (sv_db s2) /\
    sv_cfg s2 = sv_cfg s /\ sv_thresholds s2 = sv_thresholds s /\ sv_placer s2 = sv_placer s /\
    sv_monitor s2 = <[n_ID n := ns]> (sv_monitor s) /\
    forall x, sn_health <$> storage_nodes (sv_db s2) !! x =
      if decide (x = n_ID n) then Some (stored_health (ns_state ns)) else sn_health <$> storage_nodes (sv_db s) !! x)
    as (s2&->&Hs2&Hc2&Ht2&Hp2&Hm2&Hr2).
  { assert (Monitor_State (n_ID n) (sv_monitor s1) = ns_state ns) as Hst.
    { unfold Monitor_State, s1. cbn. by rewrite lookup_insert_eq. }
    assert (rehydrate_nodes e (n :: nodes) s =
      (if decide (stored_health (Monitor_State (n_ID n) (sv_monitor s1)) <> n_Health n) then
         sv! r := store (SetNodeHealth (e_dbnow e) (n_ID n) (stored_health (Monitor_State (n_ID n) (sv_monitor s1)))) in
         match r with Err err => sv_ret (Err err) | Ok _ => rehydrate_nodes e nodes end
       else rehydrate_nodes e nodes) s1) as -> by reflexivity.
    rewrite Hst. destruct (SetNodeHealth_run (e_dbnow e) (n_ID n) (stored_health (ns_state ns)) (sv_db s) Hs) as (r&d'&E&Hs'&Hh).
    destruct (decide (stored_health (ns_state ns) <> n_Health n)) as [Hne|Heq].
    - exists (s1 <| sv_db := d' |>). split_and!; try done.
      + unfold sv_bind, store. change (sv_db s1) with (sv_db s). by rewrite E.
      + intros x. etransitivity; [apply Hh|]. case_decide; [subst|by destruct (storage_nodes (sv_db s) !! x)].
        destruct (storage_nodes (sv_db s) !! n_ID n); done.
    - exists s1. split_and!; try done.
      intros x. change (sv_db s1) with (sv_db s). case_decide; [subst|done].
        apply dec_stable in Heq. by rewrite Heq. }
  destruct (IH s2 Hs2 Hnd) as (s'&E&Hc&Ht&Hp&Hout&Hin).
  { intros m Hm. rewrite Hr2, decide_False; [apply Hrows; by right|].
    intros Heq. apply Hn. rewrite <- Heq. by apply list_elem_of_fmap_2. }
  exists s'. split_and!; [done|congruence..| |].
  - intros x Hx. apply not_elem_of_cons in Hx as [Hx1 Hx2]. destruct (Hout x Hx2) as [H1 H2].
    rewrite H1, H2, Hm2, Hr2, decide_False, lookup_insert_ne by done. done.
  - intros m [->|Hm]%elem_of_cons.
    + destruct (Hout _ Hn) as [H1 H2]. rewrite H1, H2, Hm2, Hr2, decide_True, lookup_insert_eq by done. done.
    + destruct (Hin m Hm) as [H1 H2]. by rewrite H1, H2, Ht2.
Qed.

Lemma ListNodes_all d n : n ∈ ListNodes false d <-> exists r, storage_nodes d !! n_ID n = Some r /\ n = scanNode (n_ID n) r.
Proof.
  unfold ListNodes. rewrite list_elem_of_fmap. split.
  - intros ([k r]&->&Hin). rewrite elem_of_order_by in Hin. apply elem_of_rows_where in Hin as [Hin _]. by exists r.
  - intros (r&Hr&->). exists (n_ID n, r). split; [done|]. rewrite elem_of_order_by. by apply elem_of_rows_where.
Qed.
Lemma ListNodes_ids d : NoDup (n_ID <$> ListNodes false d).
Proof.
  unfold ListNodes. rewrite <- list_fmap_compose. change (n_ID ∘ _) with (fst (A:=string) (B:=node_row)).
  rewrite order_by_perm. apply NoDup_rows_where.
Qed.

(** Rehydrate succeeds on every database the schema allows, and afterwards the
    monitor knows exactly the stored nodes and the column agrees with it. *)
Lemma Rehydrate_run e s : schema_ok (sv_db s) -> sv_monitor s = ∅ ->
  exists s', Rehydrate e s = (Ok tt, s') /\
    sv_cfg s' = sv_cfg s /\ sv_thresholds s' = sv_thresholds s /\ sv_placer s' = sv_placer s /\
    dom (sv_monitor s') = dom (storage_nodes (sv_db s)) /\
    dom (storage_nodes (sv_db s')) = dom (storage_nodes (sv_db s)) /\
    forall x r, storage_nodes (sv_db s) !! x = Some r ->
      sv_monitor s' !! x = Some (seeded (sv_thresholds s) (e_now e) (scanNode x r)) /\
      sn_health <$> storage_nodes (sv_db s') !! x =
        Some (stored_health (ns_state (seeded (sv_thresholds s) (e_now e) (scanNode x r)))).
Proof.
  intros Hs Hm.
  destruct (rehydrate_nodes_run e (ListNodes false (sv_db s)) s Hs (ListNodes_ids _)) as (s'&E&Hc&Ht&Hp&Hout&Hin).
  { intros n (r&Hr&->)%ListNodes_all. cbn in *. by rewrite Hr. }
  assert (forall x r, storage_nodes (sv_db s) !! x = Some r ->
      sv_monitor s' !! x = Some (seeded (sv_thresholds s) (e_now e) (scanNode x r)) /\
      sn_health <$> storage_nodes (sv_db s') !! x =
        Some (stored_health (ns_state (seeded (sv_thresholds s) (e_now e) (scanNode x r))))) as Hall.
  { intros x r Hr. apply (Hin (scanNode x r)), ListNodes_all. by exists r. }
  assert (forall x, (is_Some (sv_monitor s' !! x) <-> is_Some (storage_nodes (sv_db s) !! x)) /\
    (is_Some (storage_nodes (sv_db s') !! x) <-> is_Some (storage_nodes (sv_db s) !! x))) as Hdom.
  { intros x. rewrite <- (fmap_is_Some sn_health (storage_nodes (sv_db s') !! x)).
    destruct (storage_nodes (sv_db s) !! x) as [r|] eqn:Hr.
    - destruct (Hall x r Hr) as [-> ->]. split; by eauto.
    - destruct (Hout x) as [-> ->]; [intros (n&->&(r&Hr'&_)%ListNodes_all)%list_elem_of_fmap; congruence|].
      rewrite Hr, Hm, lookup_empty. split; split; by intros [? [=]]. }
  exists s'. split_and!; try done; apply set_eq; intros x; rewrite !elem_of_dom; apply Hdom.
Qed.
End rehydrate.

(** ** The loops refine the store *)

Section refinement.
Context `{PG : !Postgres, UU : !Uuid, GM : !GoMath, GS : !GoSort, GR : !GoRange, FW : !FileWalk} (sha256 : string -> string).

(** What happens elsewhere uses the store too. *)
Definition interferes (f : World -> World) : Prop := forall w, db_refines sha256 (sv_db (w_svc w)) (sv_db (w_svc (f w))).

(** One loop of a worker, with the rounds it runs. *)
Inductive worker_run :=
  | R_Health (ticks : list tick)
  | R_GC (interval batch : Z) (ticks : list gc_tick)
  | R_Stats (ticks : list tick)
  | R_Audit (ticks : list tick)
  | R_Scanner (e : env) (cfg : RepairConfig) (ticks : list tick)
  | R_RepairWorker (cfg : RepairConfig) (owner : string) (rounds : list repair_round)
  | R_Reconciler (e : env) (cfg : ReconcileConfig) (owner : string) (rounds : list reconcile_round).
Definition execute (r : worker_run) : Wd unit :=
  match r with
  | R_Health ticks => HealthWorker_Run ticks
  | R_GC interval batch ticks => GCWorker_Run interval batch ticks
  | R_Stats ticks => act! StatsWorker_Run ticks in wd_ret tt
  | R_Audit ticks => act! DurabilityAuditor_Run ticks in wd_ret tt
  | R_Scanner e cfg ticks => runScanner e cfg ticks
  | R_RepairWorker cfg owner rounds => act! runWorker cfg owner rounds in wd_ret tt
  | R_Reconciler e cfg owner rounds => Reconciler_Run e cfg owner rounds
  end.
Definition tick_ok (t : tick) : Prop := interferes (tk_meanwhile t).
Definition round_ok (r : reconcile_round) : Prop :=
  tick_ok (xr_tick r) /\ Forall (fun j => interferes j.1.1.1 /\ benign sha256 j.1.2) (xr_jobs r).
Definition interference_ok (r : worker_run) : Prop :=
  match r with
  | R_Health ticks | R_Stats ticks | R_Audit ticks | R_Scanner _ _ ticks => Forall tick_ok ticks
  | R_GC _ _ ticks => Forall (fun t => tick_ok (gt_tick t)) ticks
  | R_RepairWorker _ _ rounds => Forall (fun r => interferes (rr_meanwhile r)) rounds
  | R_Reconciler _ _ _ rounds => Forall round_ok rounds
  end.

Lemma refines_elsewhere t : tick_ok t -> wd_refines sha256 (elsewhere t).
Proof. intros Ht w. apply Ht. Qed.
Lemma refines_refresh : sv_refines sha256 refresh.
Proof. unfold refresh. refine_steps. Qed.
#[local] Hint Resolve refines_elsewhere refines_refresh refines_health_sweep refines_audit_once refines_scanOnce
  refines_claimAndRepair refines_runOne refines_sweepStaleNodes : refines.

Lemma refines_HealthWorker_Run ticks : Forall tick_ok ticks -> wd_refines sha256 (HealthWorker_Run ticks).
Proof. induction 1; simpl; refine_steps. Qed.
Lemma refines_stats_loop ticks : Forall tick_ok ticks -> wd_refines sha256 (stats_loop ticks).
Proof. induction 1; simpl; refine_steps. Qed.
Lemma refines_DurabilityAuditor_Run ticks : Forall tick_ok ticks -> wd_refines sha256 (DurabilityAuditor_Run ticks).
Proof. induction 1; simpl; refine_steps. Qed.
Lemma refines_scanner_loop cfg ticks : Forall tick_ok ticks -> wd_refines sha256 (scanner_loop cfg ticks).
Proof. induction 1; simpl; refine_steps. Qed.
Lemma refines_meanwhile f : interferes f -> wd_refines sha256 (fun w => (tt, f w)).
Proof. intros Hf w. apply Hf. Qed.
#[local] Hint Resolve refines_meanwhile : refines.
Lemma refines_worker_loop cfg owner rounds idle : Forall (fun r => interferes (rr_meanwhile r)) rounds ->
  wd_refines sha256 (worker_loop cfg owner rounds idle).
Proof. intros H. revert idle. induction H; intros idle; simpl; refine_steps. Qed.
Lemma refines_drain cfg owner jobs : Forall (fun j => interferes j.1.1.1 /\ benign sha256 j.1.2) jobs ->
  wd_refines sha256 (drain cfg owner jobs).
Proof. induction 1 as [|[[[f e] net] stop] jobs [H1 H2]]; simpl in *; refine_steps. Qed.
#[local] Hint Resolve refines_drain : refines.
Lemma refines_reconcile_loop cfg owner rounds : Forall round_ok rounds -> wd_refines sha256 (reconcile_loop cfg owner rounds).
Proof. induction 1 as [|r rounds [H1 H2]]; simpl; refine_steps. Qed.
Lemma refines_GCWorker_Run interval batch ticks : Forall (fun t => tick_ok (gt_tick t)) ticks ->
  wd_refines_ok sha256 (GCWorker_Run interval batch ticks).
Proof.
  induction 1; simpl; [apply wd_refines_weaken, wd_refines_ret|].
  destruct (tk_done _); [apply wd_refines_weaken, wd_refines_ret|].
  apply wd_refines_ok_bind; [by apply wd_refines_weaken, refines_elsewhere|]. intros _.
  apply wd_refines_ok_bind; [apply refines_GC_cycle|]. intros [u|err]; [done|].
  destruct (gt_cancelled _); [apply wd_refines_weaken, wd_refines_ret|done].
Qed.
#[local] Hint Resolve refines_HealthWorker_Run refines_stats_loop refines_DurabilityAuditor_Run refines_scanner_loop
  refines_worker_loop refines_reconcile_loop : refines.

(** Every loop only uses the store's methods, so the store's invariants survive
    any number of rounds of any worker. *)
Lemma execute_refines r : interference_ok r -> wd_refines_ok sha256 (execute r).
Proof.
  destruct r; simpl; intros H; [..|by apply wd_refines_weaken; unfold Reconciler_Run; refine_steps];
    first [by apply refines_GCWorker_Run|apply wd_refines_weaken; unfold StatsWorker_Run, runScanner, runWorker; refine_steps].
Qed.
End refinement.

(** ** When the coordinator starts *)

Definition tickers_positive (c : CoordinatorSettings) : Prop :=
  (0 < cc_HealthScanInterval c /\ 0 < int64 (cc_HealthScanInterval c * 3) /\ 0 < cc_GCInterval c /\
   (cc_RepairEnabled c = true -> 0 < cc_RepairScanInterval c) /\
   (cc_ReconcileEnabled c = true -> 0 < cc_ReconcileInterval c) /\ 0 < cc_DurabilityAuditInterval c)%Z.

Lemma tasks_panic c : existsb (task_panics c) (tasks c) = false <-> tickers_positive c.
Proof.
  assert (forall l, existsb (task_panics c) (RepairWorker <$> l) = false) as Hw by (by induction l).
  assert (forall t d, ticker c t = Some d -> task_panics c t = false <-> (0 < d)%Z) as Ht.
  { intros t d E. unfold task_panics, NewTicker_panics. rewrite E. apply Z.leb_gt. }
  unfold tasks, tickers_positive. rewrite !existsb_app, !orb_false_iff. cbn [existsb]. rewrite !orb_false_iff.
  rewrite (Ht HealthMonitor _ eq_refl), (Ht GCWorker _ eq_refl), (Ht StatsWorker _ eq_refl), (Ht DurabilityAuditor _ eq_refl).
  destruct (cc_RepairEnabled c), (cc_ReconcileEnabled c); cbn [existsb];
    rewrite ?Hw, ?orb_false_r, ?(Ht RepairScanner _ eq_refl), ?(Ht ReconcileWorker _ eq_refl); intuition congruence.
Qed.

Lemma New_valid c rng : coordinator_valid c -> exists placer, New (cc_PlacementStrategy c) DefaultConfig rng = Ok placer.
Proof. intros (_&_&_&_&_&_&_&_&[-> | ->]); eexists; reflexivity. Qed.

(** ** How long an idle repair worker sleeps *)

Section idle.
Context `{PG : !Postgres, UU : !Uuid, GM : !GoMath, GS : !GoSort}.

(** Every delay is at least the first and less than twice the longest; it can
    exceed the scan interval. *)
Lemma worker_loop_delays cfg owner rounds idle w :
  (rcf_ScanInterval cfg <= 2 ^ 61)%Z -> (initial_idle <= idle < 2 * max_idle cfg)%Z ->
  Forall (fun d => initial_idle <= d < 2 * max_idle cfg)%Z (worker_loop cfg owner rounds idle w).1.
Proof.
  intros Hmax. assert (max_idle cfg <= 2 ^ 61)%Z as Hm by (unfold max_idle, second; lia).
  assert (initial_idle < 2 * max_idle cfg)%Z as Hi by (unfold max_idle, initial_idle, second, millisecond; lia).
  revert idle w. induction rounds as [|r rounds IH]; intros idle w Hidle; [constructor|].
  cbn [worker_loop]. unfold wd_bind at 1. destruct (rr_done r); [constructor|].
  unfold wd_bind. destruct (claimAndRepair _ _ _ _ _) as [[worked err] w1].
  destruct (worked && _); [apply IH; lia|]. destruct (_ || _); [constructor|].
  set (next := if decide _ then _ else _).
  specialize (IH next w1). destruct (worker_loop cfg owner rounds next w1) as [more w2]. constructor; [done|].
  apply IH. unfold next. case_decide; [|done]. unfold int64. rewrite wrap_signed_id; unfold initial_idle, millisecond in *; lia.
Qed.
End idle.

(** ** The whole start *)

(** C19: when the coordinator starts, and in what state. On any database the
    schema allows, run either refuses the configuration with the loader's
    errors, or panics in a worker, exactly when the configuration is accepted
    and one of the tickers' intervals is not positive, or runs. When it runs,
    the settings have the values of the environment, the replication factor and
    the minimum of replicas, the timeouts and leases are in their order, the
    database was only changed through the store's methods, and the monitor
    knows exactly the stored nodes, each classified by its last heartbeat and
    stored with that health. Neither the placement strategy nor the
    rehydration can make a start fail. *)
Theorem coordinator_starts `{PG : !Postgres, UU : !Uuid, GM : !GoMath, GS : !GoSort, GR : !GoRange, GU : !GoUnicode}
    (sha256 : string -> string) (e : env) (penv : Env) (rng : Rand) (d : db) (cache : Cache) :
  schema_ok d ->
  match run_coordinator e penv rng d cache with
  | Refused err => exists errs, err = BadConfiguration errs /\ errs <> [] /\ (LoadCoordinator penv).2 = errs
  | Panicked =>
      Forall (well_formed penv) coordinator_settings /\ coordinator_valid (LoadCoordinator penv).1 /\
      ~ tickers_positive (LoadCoordinator penv).1
  | Running c s =>
      Forall (well_formed penv) coordinator_settings /\ coordinator_valid c /\ coordinator_values penv c /\
      tickers_positive c /\
      sv_cfg s = service_config c /\ sv_repair s = Some (repair_config c) /\
      sv_thresholds s = mkThresholds (cc_SuspectTimeout c) (cc_DeadTimeout c) /\
      db_refines sha256 d (sv_db s) /\ schema_ok (sv_db s) /\
      dom (sv_monitor s) = dom (storage_nodes (sv_db s)) /\
      (forall n ns r, sv_monitor s !! n = Some ns -> storage_nodes (sv_db s) !! n = Some r ->
         sn_health r = stored_health (ns_state ns) /\
         ns_state ns = Classify (ns_lastHeartbeat ns) (e_now e) (sv_thresholds s))
  end.
Proof.
  intros Hs. pose proof (LoadCoordinator_exact penv) as Hload. unfold run_coordinator.
  destruct (LoadCoordinator penv) as [c errs]. destruct Hload as [Hiff Hvals].
  destruct errs as [|err errs]; [|eexists; split_and!; done].
  destruct (proj1 Hiff eq_refl) as [Hwf Hval]. destruct (New_valid c rng Hval) as [placer ->].
  pose proof (refines_Rehydrate sha256 e (NewService c d cache placer)) as Href.
  destruct (Rehydrate_run e (NewService c d cache placer) Hs eq_refl) as (s&E&Hc&Ht&Hp&Hdom&Hdom'&Hnodes).
  rewrite E in Href |- *. simpl in Href.
  destruct (existsb (task_panics c) (tasks c)) eqn:Ex.
  { split_and!; [done..|]. intros H%tasks_panic. cbn [fst] in H; congruence. }
  apply tasks_panic in Ex. split_and!; try done.
  - by eapply (db_refines_schema sha256).
  - exact (eq_trans Hdom (eq_sym Hdom')).
  - intros n ns r Hn Hr. cbn in Hn, Hr.
    destruct (storage_nodes d !! n) as [r0|] eqn:Hr0.
    + destruct (Hnodes n r0 Hr0) as [H1 H2]. rewrite Hr in H2. rewrite H1 in Hn. injection Hn as <-. injection H2 as ->.
      split; [done|]. cbn. by rewrite Ht.
    + exfalso. apply not_elem_of_dom in Hr0. apply Hr0. change d with (sv_db (NewService c d cache placer)). rewrite <- Hdom'. apply elem_of_dom. eauto.
Qed.

(** The defaults with a database, and the same with a garbage collection
    interval of zero. *)
Definition sample_settings : Env := {[ "FLEXSTORE_POSTGRES_DSN" := "postgres://flexstore" ]}.
Definition zero_interval : Env := <["FLEXSTORE_GC_INTERVAL" := "0s"]> sample_settings.
Definition ascii_upper : GoUnicode := {| unicode_ToUpper := fun r => r |}.
Definition sample_rand : Rand := mkRand (fun _ => of_int 0) 0.
Definition is_running (o : outcome) : bool := match o with Running _ _ => true | _ => false end.

Lemma coordinator_starts_witness :
  let start env := run_coordinator (GU := ascii_upper) (at_time 100 0) env sample_rand empty_db Noop in
  is_running (start sample_settings) = true /\
  (start zero_interval = Panicked /\
   coordinator_valid (LoadCoordinator (GU := ascii_upper) zero_interval).1).
Proof.
  intros start. split; [vm_compute; reflexivity|].
  assert (start zero_interval = Panicked) as H by (vm_compute; reflexivity). split; [exact H|].
  pose proof (coordinator_starts (GU := ascii_upper) (fun s => s) (at_time 100 0) zero_interval sample_rand empty_db Noop
    empty_db_schema) as Hst.
  fold (start zero_interval) in Hst. rewrite H in Hst. apply Hst.
Defined.
