(* ===== verification/Processes.v ===== *)
(** * The three processes (src/cmd)

    run of the coordinator, of the gateway and of the storage node, from the
    environment to the exit: what is opened, deferred, started, drained and
    closed, in the order of the code, with every early return. A run takes what
    the outside does as an argument and leaves a log; [audit] replays a log and
    refuses one that releases what is not held, acquires what is, or takes
    something away from tasks that still run. A task whose ticker is made with an
    interval that is not positive panics and takes the process with it. *)

From stdpp Require Import base numbers gmap strings list sorting.
From S2P Require Import Prelude Chunking Checksum ChunkStore StorageService ChunkWriter GoFloat Rounding GoStrings GoParse Config Placement Retry.
From S2P Require Import Migrate Health Validate Uuid Cache.
From S2P Require Import Sql Schema Statements Chunks Frames Runs Objects Nodes Repair Gc Reconcile Multipart Store.
From S2P Require Import Coordinator Workers Reconciler Refinement Samples Roster Gateway Lifecycle Registrar Startup.

(** ** Runs that defer *)

Inductive resource :=
  | StartupTimer | ShutdownTimer | SignalHandler
  | MetadataPool | RedisClient | NodePool | CoordinatorConn | Listener.
#[export] Instance resource_eq_dec : EqDecision resource.
Proof. solve_decision. Defined.

Inductive event :=
  | Acquired (r : resource)
  | Released (r : resource)
  | Started (task : string)
  | Ready
  | Drained (graceful : bool) (spent : Z)
  | AllReturned
  | Crashed.
#[export] Instance event_eq_dec : EqDecision event.
Proof. solve_decision. Defined.

Inductive run_error :=
  | Configuration (errs : list config_error)
  | BadPlacement (err : placement_error)
  | StoreUnreachable
  | MigrateSchema (err : migration_error)
  | RedisUnreachable
  | RehydrateMonitor (err : store_error)
  | ListenFailed
  | DialFailed
  | OpenChunkStore (err : chunk_error)
  | ComponentFailed (err : string)
  | TaskPanicked.

(** The log and the deferred releases, the last one first. *)
Record process := mkProcess {
  ps_log : list event;
  ps_deferred : list resource
}.
Definition Main (A : Type) : Type := process -> result run_error A * process.
Definition main_ret {A} (a : A) : Main A := fun p => (Ok a, p).
Definition main_fail {A} (e : run_error) : Main A := fun p => (Err e, p).
Definition main_bind {A B} (m : Main A) (k : A -> Main B) : Main B := fun p =>
  let '(r, p) := m p in match r with Ok a => k a p | Err e => (Err e, p) end.
Notation "'main!' x := m 'in' k" := (main_bind m (fun x => k))
  (at level 10, x name, m at level 100, k at level 200) : flex_scope.
Notation "'go!' m 'in' k" := (main_bind m (fun _ => k)) (at level 10, m at level 100, k at level 200) : flex_scope.
Definition emit (e : event) : Main unit := fun p => (Ok tt, mkProcess (ps_log p ++ [e]) (ps_deferred p)).
Definition emit_all (es : list event) : Main unit := fun p => (Ok tt, mkProcess (ps_log p ++ es) (ps_deferred p)).
Definition defer (r : resource) : Main unit := fun p => (Ok tt, mkProcess (ps_log p) (r :: ps_deferred p)).
Definition fail_if (b : bool) (e : run_error) : Main unit := if b then main_fail e else main_ret tt.

(** A run returns: the deferred calls are made, the last one first. The panic of
    a goroutine ends the process at once, without them. *)
Definition returns {A} (m : Main A) : result run_error A * list event :=
  let '(r, p) := m (mkProcess [] []) in
  match r with
  | Err TaskPanicked => (r, ps_log p ++ [Crashed])
  | _ => (r, ps_log p ++ (Released <$> ps_deferred p))
  end.

(** What the process exits with. *)
Definition exit_status {A} (r : result run_error A) : Z :=
  match r with Ok _ => 0 | Err TaskPanicked => 2 | Err _ => 1 end.

(** ** What the processes share *)

(** ShutdownContext *)
Definition grace (wait : Z) : Z := if (wait <=? 0)%Z then 15 * second else wait.

(** The end of the grpc servers: GracefulStop takes [stop] or never ends, the
    timer is the backstop; the listener is closed either way. *)
Definition grpc_stops (wait : Z) (stop : option Z) : list event :=
  let graceful := match stop with Some t => (t <=? grace wait)%Z | None => false end in
  let spent := match stop with Some t => Z.min t (grace wait) | None => grace wait end in
  [Drained graceful spent; Released Listener].
Definition stop_grpc (wait : Z) (stop : option Z) : Main unit := emit_all (grpc_stops wait stop).
(** A task panics while the main goroutine makes some of these steps. *)
Definition crash {A} (steps : list event) (made : nat) : Main A := go! emit_all (take made steps) in main_fail TaskPanicked.
(** http.Server.Shutdown, then Close if it did not end in time. *)
Definition stop_http (wait : Z) (stop : option Z) : Main unit :=
  let graceful := match stop with Some t => (t <=? grace wait)%Z | None => false end in
  let spent := match stop with Some t => Z.min t (grace wait) | None => grace wait end in
  emit (Drained graceful spent).

Definition ErrServerStopped : string := "grpc: the server has been stopped".
(** What becomes of Wait's error. *)
Definition component_result (tolerated : option string) (left : option string) : Main unit :=
  match left with
  | None => main_ret tt
  | Some e => if bool_decide (tolerated = Some e) then main_ret tt else main_fail (ComponentFailed e)
  end.

Section mains.
Context `{PG : !Postgres, UU : !Uuid, GM : !GoMath, GS : !GoSort, GR : !GoRange, GU : !GoUnicode}.

(** ** metadata.Open and cache.New *)

Record store_world := mkStoreWorld {
  ow_dsn_ok : bool;
  ow_pool_ok : bool;
  ow_ctx : Retry.context string;
  ow_ping : Z -> option string
}.
Definition ping_once (w : store_world) (attempt : Z) (n : nat) : option (error string) * nat := (Leaf <$> ow_ping w attempt, S n).
Definition Open (w : store_world) : Main unit :=
  go! fail_if (negb (ow_dsn_ok w)) StoreUnreachable in
  go! fail_if (negb (ow_pool_ok w)) StoreUnreachable in
  go! emit (Acquired MetadataPool) in
  match rn_err (Do (ow_ctx w) StartupPolicy (ping_once w) O) with
  | Some _ => go! emit (Released MetadataPool) in main_fail StoreUnreachable
  | None => main_ret tt
  end.

(** The connection; [answers] says whether the server answers the ping, and the
    cache holds what earlier processes left there. *)
Definition cache_New (addr prefix : string) (answers : bool) (entries : gmap string (cached * option Z)) : Main Cache :=
  if String.eqb addr EmptyString then main_ret Noop
  else
    go! emit (Acquired RedisClient) in
    if answers then main_ret (Redis (if String.eqb prefix EmptyString then "fs" else prefix) entries)
    else go! emit (Released RedisClient) in main_fail RedisUnreachable.
Definition Cache_Close (c : Cache) : Main unit := match c with Noop => main_ret tt | Redis _ _ => defer RedisClient end.

(** coordinatorInstanceID *)
Definition coordinatorInstanceID (hostname : option string) (pid : Z) : string :=
  let host := match hostname with Some h => if String.eqb h EmptyString then "unknown-host" else h | None => "unknown-host" end in
  host +:+ "/" +:+ FormatInt pid.

(** ** The coordinator *)

Record coordinator_world := mkCoordinatorWorld {
  cw_env : Env;
  cw_clock : env;
  cw_rng : Rand;
  cw_store : store_world;
  cw_exec : bytes -> db -> option db;
  cw_entries : list entry;
  cw_faults : run_faults;
  cw_db : @database db;
  cw_redis_up : bool;
  cw_redis : gmap string (cached * option Z);
  cw_listen : bool;
  (** how far the main goroutine gets while a task panics *)
  cw_crash : nat;
  cw_stop : option Z;
  cw_left : option string
}.

(** metadata.Migrate with the files of the embedded directory. *)
Definition migrate_store (w : coordinator_world) : result migration_error unit * @database db :=
  match loadMigrations (cw_entries w) with
  | Err e => (Err e, cw_db w)
  | Ok migs => Migrate (cw_exec w) (cw_faults w) migs (cw_db w)
  end.
Definition migrated (c : CoordinatorSettings) (w : coordinator_world) : Main db :=
  if cc_MigrateOnStart c then
    match migrate_store w with
    | (Err e, _) => main_fail (MigrateSchema e)
    | (Ok _, d) => main_ret (db_schema d)
    end
  else main_ret (db_schema (cw_db w)).

Definition coordinator_tasks : list string :=
  ["grpc"; "admin"; "health-monitor"; "gc"; "stats"; "repair"; "reconcile"; "durability-audit"].

(** The member of the group a goroutine belongs to, and how many are started
    when the first one panics. *)
Definition task_name (t : task) : string :=
  match t with
  | HealthMonitor => "health-monitor"
  | GCWorker => "gc"
  | StatsWorker => "stats"
  | RepairScanner | RepairWorker _ => "repair"
  | ReconcileWorker => "reconcile"
  | DurabilityAuditor => "durability-audit"
  end.
Definition first_panic (c : CoordinatorSettings) : nat :=
  match list_find (fun name => existsb (fun t => String.eqb (task_name t) name && task_panics c t) (tasks c) = true) coordinator_tasks with
  | Some (i, _) => S i
  | None => O
  end.

(** Everything up to the tasks. *)
Definition coordinator_up (w : coordinator_world) : Main (CoordinatorSettings * Service) :=
  let '(c, errs) := LoadCoordinator (cw_env w) in
  go! fail_if (bool_decide (errs <> [])) (Configuration errs) in
  go! emit (Acquired StartupTimer) in
  go! defer StartupTimer in
  go! Open (cw_store w) in
  go! defer MetadataPool in
  main! d := migrated c w in
  main! redis := cache_New (cc_RedisAddr c) "fs" (cw_redis_up w) (cw_redis w) in
  go! Cache_Close redis in
  match New (cc_PlacementStrategy c) DefaultConfig (cw_rng w) with
  | Err err => main_fail (BadPlacement err)
  | Ok placer =>
      go! emit (Acquired NodePool) in
      go! defer NodePool in
      let '(r, s) := Rehydrate (cw_clock w) (NewService c d redis placer) in
      match r with
      | Err err => main_fail (RehydrateMonitor err)
      | Ok _ =>
          go! fail_if (negb (cw_listen w)) ListenFailed in
          go! emit_all [Acquired Listener; Acquired SignalHandler] in
          go! defer SignalHandler in
          main_ret (c, s <| sv_repair := Some (repair_config c) |>)
      end
  end.
Definition coordinator_run (w : coordinator_world) : Main (CoordinatorSettings * Service) :=
  main! up := coordinator_up w in
  if existsb (task_panics up.1) (tasks up.1) then
    crash ((Started <$> coordinator_tasks) ++ [Ready; Acquired ShutdownTimer] ++ grpc_stops (cm_ShutdownWait (cc_Common up.1)) (cw_stop w))
      (Nat.max (first_panic up.1) (cw_crash w))
  else
  go! emit_all (Started <$> coordinator_tasks) in
  go! emit Ready in
  go! emit (Acquired ShutdownTimer) in
  go! defer ShutdownTimer in
  go! stop_grpc (cm_ShutdownWait (cc_Common up.1)) (cw_stop w) in
  go! emit AllReturned in
  go! component_result (Some ErrServerStopped) (cw_left w) in
  main_ret up.

(** ** The gateway *)

Record gateway_world := mkGatewayWorld {
  gw_env : Env;
  gw_dial : bool;
  gw_stop : option Z;
  gw_left : option string
}.
(** The timeouts of the http.Server. *)
Record http_server := mkHttpServer {
  hs_Addr : string;
  hs_ReadHeaderTimeout : Z;
  hs_ReadTimeout : Z;
  hs_WriteTimeout : Z;
  hs_IdleTimeout : Z
}.
Definition api_server (c : GatewaySettings) : http_server :=
  mkHttpServer (gc_HTTPAddr c) (15 * second) (gc_ReadTimeout c) (gc_WriteTimeout c) (gc_IdleTimeout c).
Definition gateway_tasks : list string := ["http"; "admin"].
Definition gateway_run (w : gateway_world) : Main (GatewaySettings * http_server) :=
  let '(c, errs) := LoadGateway (gw_env w) in
  go! fail_if (bool_decide (errs <> [])) (Configuration errs) in
  go! fail_if (negb (gw_dial w)) DialFailed in
  go! emit (Acquired CoordinatorConn) in
  go! defer CoordinatorConn in
  go! emit (Acquired NodePool) in
  go! defer NodePool in
  go! emit (Acquired SignalHandler) in
  go! defer SignalHandler in
  go! emit_all (Started <$> gateway_tasks) in
  go! emit Ready in
  go! emit (Acquired ShutdownTimer) in
  go! defer ShutdownTimer in
  go! stop_http (cm_ShutdownWait (gc_Common c)) (gw_stop w) in
  go! emit AllReturned in
  go! component_result None (gw_left w) in
  main_ret (c, api_server c).

(** ** The storage node *)

Record node_world := mkNodeWorld {
  nw_env : Env;
  nw_io : faults;
  nw_disk : disk;
  nw_dial : bool;
  nw_listen : bool;
  (** whether the context is done when Register fails *)
  nw_attempts : nat -> attempt;
  nw_stats : nat -> result chunk_error NodeStats;
  nw_done : bool;
  nw_crash : nat;
  nw_stop : option Z;
  nw_left : option string
}.
Definition node_tasks : list string := ["grpc"; "admin"; "registrar"].
(** The registrar's task up to the heartbeats: the node is ready once Register
    has returned, also when it gave up, unless the process is stopping; then Run
    makes its ticker. [rest] is what the main goroutine has left to do. *)
Definition register_task (w : node_world) (rest : list event) (reg : Registrar) (s : Service) : Main (Registrar * Service) :=
  let '(r, s') := Register (nw_attempts w) (nw_stats w) reg s in
  let beat (reg : Registrar) :=
    go! emit Ready in
    if decide (rg_interval reg <= 0)%Z then crash rest (nw_crash w) else main_ret (reg, s') in
  match r with
  | Ok reg' => beat reg'
  | Err _ => if nw_done w then main_ret (reg, s') else beat reg
  end.
Definition node_run (w : node_world) (s : Service) : Main (node * Registrar * Service) :=
  let '(c, errs) := LoadStorageNode (nw_env w) in
  go! fail_if (bool_decide (errs <> [])) (Configuration errs) in
  match NewChunkStore (nw_io w) (sc_FsyncData c) (sc_CapacityBytes c) (nw_disk w) with
  | Err e => main_fail (OpenChunkStore e)
  | Ok store =>
      go! fail_if (negb (nw_dial w)) DialFailed in
      go! emit (Acquired CoordinatorConn) in
      go! defer CoordinatorConn in
      go! fail_if (negb (nw_listen w)) ListenFailed in
      go! emit_all [Acquired Listener; Acquired SignalHandler] in
      go! defer SignalHandler in
      go! emit_all (Started <$> node_tasks) in
      main! joined := register_task w (Acquired ShutdownTimer :: grpc_stops (cm_ShutdownWait (sc_Common c)) (nw_stop w)) (mkRegistrar (sc_NodeID c) (sc_AdvertiseAddr c) (sc_HeartbeatInterval c)) s in
      go! emit (Acquired ShutdownTimer) in
      go! defer ShutdownTimer in
      go! stop_grpc (cm_ShutdownWait (sc_Common c)) (nw_stop w) in
      go! emit AllReturned in
      go! component_result (Some ErrServerStopped) (nw_left w) in
      main_ret (store, joined.1, joined.2)
  end.
End mains.

(** ** The audit of a log *)

Record ledger := mkLedger {
  lg_held : list resource;
  lg_running : list string;
  lg_ready : bool
}.
Definition idle : ledger := mkLedger [] [] false.

(** Nothing is acquired twice; nothing is released that is not held, and while
    tasks run only the listener is; tasks run under the signal handler, a process
    is ready only while its tasks run, and it drains under the timer. *)
Definition audit_step (l : ledger) (e : event) : option ledger :=
  match e with
  | Acquired r => if decide (r ∈ lg_held l) then None else Some (mkLedger (r :: lg_held l) (lg_running l) (lg_ready l))
  | Released r =>
      if decide (r ∈ lg_held l /\ (lg_running l = [] \/ r = Listener))
      then Some (mkLedger (filter (fun r' => r' <> r) (lg_held l)) (lg_running l) (lg_ready l)) else None
  | Started t =>
      if decide ((t ∉ lg_running l) /\ SignalHandler ∈ lg_held l) then Some (mkLedger (lg_held l) (t :: lg_running l) (lg_ready l)) else None
  | Ready => if decide (lg_running l <> [] /\ lg_ready l = false) then Some (mkLedger (lg_held l) (lg_running l) true) else None
  | Drained _ _ => if decide (ShutdownTimer ∈ lg_held l) then Some l else None
  | AllReturned => Some (mkLedger (lg_held l) [] (lg_ready l))
  | Crashed => None
  end.
Fixpoint audit (l : ledger) (log : list event) : option ledger :=
  match log with [] => Some l | e :: log' => audit_step l e ≫= (fun l' => audit l' log') end.
(** The log passes, and at its end nothing is held and no task runs. *)
Definition orderly (log : list event) : Prop := exists ready, audit idle log = Some (mkLedger [] [] ready).
(** The process died with its tasks running, after a log that passes. *)
Definition crashed (log : list event) : Prop :=
  exists before l, log = before ++ [Crashed] /\ audit idle before = Some l /\ lg_running l <> [].
(** How the log of a run ends. *)
Definition accounted {A} (run : result run_error A * list event) : Prop :=
  match run.1 with Err TaskPanicked => crashed run.2 | _ => orderly run.2 end.

Lemma audit_app l log1 log2 : audit l (log1 ++ log2) = audit l log1 ≫= (fun l' => audit l' log2).
Proof. revert l. induction log1 as [|e log1 IH]; intros l; simpl; [done|]. destruct (audit_step l e); simpl; auto. Qed.

(** A crash on the way through a log that passes, in which a task has been
    started and none has returned. *)
Lemma audit_running log l l' : audit l log = Some l' -> AllReturned ∉ log -> lg_running l <> [] -> lg_running l' <> [].
Proof.
  revert l. induction log as [|e log IH]; intros l; simpl; [by intros [= <-]|]. intros Ha [Hne Hin]%not_elem_of_cons Hr.
  destruct (audit_step l e) as [l1|] eqn:E; [|done]. apply (IH l1 Ha Hin). destruct e; simpl in E; try done;
    repeat case_decide; try done; by injection E as <-.
Qed.
Lemma crashed_on_the_way before steps n l l' :
  audit idle before = Some l -> audit l steps = Some l' -> AllReturned ∉ steps ->
  (lg_running l <> [] \/ exists t rest, steps = Started t :: rest /\ n <> O) -> crashed ((before ++ take n steps) ++ [Crashed]).
Proof.
  intros Hb Hs Hin Hrun. rewrite <-(take_drop n steps), audit_app in Hs. destruct (audit l (take n steps)) as [l1|] eqn:E1; [|done].
  exists (before ++ take n steps), l1. split; [done|]. rewrite audit_app, Hb. split; [done|].
  assert (AllReturned ∉ take n steps) as Hin1 by (intros (i&Hi&_)%elem_of_take; by eapply Hin, list_elem_of_lookup_2).
  destruct Hrun as [Hrun|(t&rest&->&Hn)]; [by eapply audit_running|]. destruct n as [|n]; [done|]. cbn [take audit] in E1.
  destruct (audit_step l (Started t)) as [l2|] eqn:E2; [|done]. cbn [take] in Hin1. apply not_elem_of_cons in Hin1 as [_ Hin1].
  apply (audit_running _ _ _ E1 Hin1). simpl in E2. case_decide; [|done]. by injection E2 as <-.
Qed.

(** Runs a process on all that the outside may do, one choice at a time. *)
Ltac run_process :=
  cbv beta iota delta [main_bind main_ret main_fail emit emit_all defer fail_if stop_grpc stop_http component_result Cache_Close
    ps_log ps_deferred];
  repeat (match goal with
    | |- context [match ?x with _ => _ end] =>
        lazymatch x with context [match _ with _ => _ end] => fail | _ => destruct x eqn:? end
    end; cbv beta iota).

Section orderly.
Context `{PG : !Postgres, UU : !Uuid, GM : !GoMath, GS : !GoSort, GR : !GoRange, GU : !GoUnicode}.

Lemma first_panic_started c : existsb (task_panics c) (tasks c) = true -> first_panic c <> O.
Proof.
  intros (t&Hin&Hp)%existsb_exists. unfold first_panic.
  destruct (list_find _ coordinator_tasks) as [[i x]|] eqn:E; [done|]. exfalso. apply list_find_None in E. rewrite Forall_forall in E.
  apply (E (task_name t)); [destruct t; unfold coordinator_tasks; set_solver|].
  apply existsb_exists. exists t. split; [done|]. by rewrite String.eqb_refl.
Qed.
Ltac account :=
  unfold accounted; cbn [fst snd];
  lazymatch goal with
  | |- orderly _ => eexists; vm_compute; reflexivity
  | |- crashed _ => eapply crashed_on_the_way; [vm_compute; reflexivity|vm_compute; reflexivity|apply (bool_decide_unpack _); vm_compute; exact I|]
  end.

Lemma coordinator_accounted w : accounted (returns (coordinator_run w)).
Proof.
  unfold returns, coordinator_run, coordinator_up, Open, migrated, cache_New, crash. destruct (LoadCoordinator (cw_env w)) as [c errs].
  run_process; account.
  all: right; eexists _, _; (split; [reflexivity|]).
  all: match goal with H : existsb _ _ = true |- _ => cbn [fst] in H; apply first_panic_started in H; lia end.
Qed.
Lemma gateway_orderly w : orderly (returns (gateway_run w)).2.
Proof. unfold returns, gateway_run. destruct (LoadGateway (gw_env w)) as [c errs]. run_process; eexists; vm_compute; reflexivity. Qed.
Lemma node_accounted w s : accounted (returns (node_run w s)).
Proof.
  unfold returns, node_run. destruct (LoadStorageNode (nw_env w)) as [c errs].
  destruct (NewChunkStore _ _ _ _) as [store|e]; unfold register_task, crash; run_process; account.
  all: left; discriminate.
Qed.

Lemma migrate_store_ok w a d : migrate_store w = (Ok a, d) -> exists migs, loadMigrations (cw_entries w) = Ok migs /\ up_to_date migs d.
Proof.
  unfold migrate_store. destruct (loadMigrations (cw_entries w)) as [migs|] eqn:E; [|done]. intros Hm. exists migs. split; [done|].
  destruct (Migrate_ok _ _ _ _ _ _ (loadMigrations_ordered _ _ E) Hm) as (l&rest&Hr). destruct a. by apply (ro_success _ _ _ _ _ _ _ Hr).
Qed.
Lemma startup_running w c errs d cache placer a s :
  LoadCoordinator (cw_env w) = (c, errs) -> bool_decide (errs <> []) = false ->
  New (cc_PlacementStrategy c) DefaultConfig (cw_rng w) = Ok placer ->
  Rehydrate (cw_clock w) (NewService c d cache placer) = (Ok a, s) -> existsb (task_panics c) (tasks c) = false ->
  run_coordinator (cw_clock w) (cw_env w) (cw_rng w) d cache = Running c (s <| sv_repair := Some (repair_config c) |>).
Proof.
  intros Hl Hn Hp Hr Ht. unfold run_coordinator. rewrite Hl. apply bool_decide_eq_false, dec_stable in Hn as ->. by rewrite Hp, Hr, Ht.
Qed.

(** The service that answers requests is the one of [Startup], on the migrated
    database; a task panics only with an interval that is not positive. *)
Definition served_by (w : coordinator_world) (c : CoordinatorSettings) (s : Service) : Prop :=
  exists d cache,
    run_coordinator (cw_clock w) (cw_env w) (cw_rng w) d cache = Running c s /\ tickers_positive c /\
    rn_err (Do (ow_ctx (cw_store w)) StartupPolicy (ping_once (cw_store w)) O) = None /\
    (cc_MigrateOnStart c = true -> exists migs d', loadMigrations (cw_entries w) = Ok migs /\ up_to_date migs d' /\ d = db_schema d').
Lemma coordinator_service w c s : (returns (coordinator_run w)).1 = Ok (c, s) -> served_by w c s.
Proof.
  unfold returns, coordinator_run, coordinator_up, Open, migrated, cache_New, crash.
  destruct (LoadCoordinator (cw_env w)) as [c' errs] eqn:Hload. run_process; cbn [fst snd]; try done; intros [= <- <-].
  all: do 2 eexists; split; [by eapply startup_running|split; [by apply tasks_panic|split; [done|]]].
  all: intros Hmig; try congruence.
  all: match goal with H : migrate_store _ = _ |- _ => destruct (migrate_store_ok _ _ _ H) as (migs&?&?) end; eauto 6.
Qed.
Lemma coordinator_panic w : (returns (coordinator_run w)).1 = Err TaskPanicked -> ~ tickers_positive (LoadCoordinator (cw_env w)).1.
Proof.
  unfold returns, coordinator_run, coordinator_up, Open, migrated, cache_New, crash.
  destruct (LoadCoordinator (cw_env w)) as [c' errs]. run_process; cbn [fst snd]; try discriminate.
  all: intros _ Hp%tasks_panic; match goal with H : existsb _ _ = true |- _ => cbn [fst] in H; rewrite Hp in H; discriminate H end.
Qed.
Lemma node_panic w s : (returns (node_run w s)).1 = Err TaskPanicked -> (cfg_HeartbeatInterval (sv_cfg s) < 2 ^ 63)%Z ->
  (sc_HeartbeatInterval (LoadStorageNode (nw_env w)).1 <= 0)%Z.
Proof.
  intros H Hc. apply Z.nlt_ge. intros Hpos. revert H. unfold returns, node_run.
  destruct (LoadStorageNode (nw_env w)) as [c errs]. cbn [fst] in Hpos.
  destruct (NewChunkStore _ _ _ _) as [store|e]; unfold register_task, crash;
    pose proof (register_loop_interval (nw_attempts w) (nw_stats w)
      (mkRegistrar (sc_NodeID c) (sc_AdvertiseAddr c) (sc_HeartbeatInterval c)) startupAttempts 1 ContextDone s Hpos Hc) as Hi;
    fold (Register (nw_attempts w) (nw_stats w) (mkRegistrar (sc_NodeID c) (sc_AdvertiseAddr c) (sc_HeartbeatInterval c))) in Hi;
    destruct (Register _ _ _ s) as [rr s'] eqn:Er; cbn [fst] in Hi; run_process; cbn [fst]; try discriminate.
  all: cbn [rg_interval] in *; try lia. all: subst; specialize (Hi _ eq_refl); lia.
Qed.
End orderly.

(** The exit tells the truth about the tasks: with status 0 no task of the group
    failed before the server was stopped. *)
Lemma clean_exit tolerated g left p : Group.reachable g -> Group.Wait g = Some left -> (component_result tolerated left p).1 = Ok tt ->
  (forall e, Group.Finished (Group.Failed e) ∉ Group.gr_tasks g) \/
  (exists e, tolerated = Some e /\ Group.Finished (Group.Failed e) ∈ Group.gr_tasks g).
Proof.
  intros Hg Hw. destruct (Group.group_contract g Hg) as [_ Hc]. destruct (Hc left Hw) as [_ Hl]. destruct left as [e|]; [|by left].
  unfold component_result. case_bool_decide as Ht; [|done]. intros _. right. by exists e.
Qed.

(** C20: the three processes take everything back, unless a ticker panics.
    Whatever the outside does (a bad setting, a database that never answers, a
    migration that fails, a cache that is down, an address in use, a component
    that dies, a signal), the log of a run that returns shows every timer, pool,
    connection, listener and handler acquired once and released once, none but
    the listener released while a task may still use it, the process ready only
    while its tasks run, and at the end nothing held and no task running. The
    exception is a panic of time.NewTicker in a task, which ends the process with
    everything held: the coordinator only dies so when an interval of its
    configuration is not positive, the storage node only when its heartbeat
    interval is not, the gateway never. A coordinator that got to serve and
    returned had reached its database, brought the schema up to date if asked to,
    and served exactly what [Startup] starts on it. *)
Theorem processes_release_everything `{PG : !Postgres, UU : !Uuid, GM : !GoMath, GS : !GoSort, GR : !GoRange, GU : !GoUnicode}
    (cw : coordinator_world) (gw : gateway_world) (nw : node_world) (s : Service) :
  orderly (returns (gateway_run gw)).2 /\
  accounted (returns (node_run nw s)) /\
  ((returns (node_run nw s)).1 = Err TaskPanicked -> (cfg_HeartbeatInterval (sv_cfg s) < 2 ^ 63)%Z ->
   (sc_HeartbeatInterval (LoadStorageNode (nw_env nw)).1 <= 0)%Z) /\
  accounted (returns (coordinator_run cw)) /\
  match (returns (coordinator_run cw)).1 with
  | Ok (c, s) => served_by cw c s
  | Err TaskPanicked => ~ tickers_positive (LoadCoordinator (cw_env cw)).1
  | Err _ => True
  end.
Proof.
  split_and!; [apply gateway_orderly|apply node_accounted|apply node_panic|apply coordinator_accounted|].
  destruct (returns (coordinator_run cw)).1 as [[c s']|[]] eqn:E; try done; [by apply coordinator_service|by apply coordinator_panic].
Qed.
